(* ===== verification/_CoqProject ===== *)
-Q . S2P
Prelude.v
CString.v
Sixty.v
Murmur.v
Murmur64.v
PathOps.v
BundleUrl.v
Posix.v
Threads.v
FileLock.v
MkDirs.v
Format.v
Bundle.v
Allocate.v
Datapack.v
Net.v
Servers.v
Protocol.v
Exchange.v
Master.v
MasterSpec.v
Chunks.v
Files.v
Storage.v
ChunksSpec.v
FilesSpec.v
Cluster.v
Sockutil.v
MooseC.v
Keeps.v
Preload.v
StringEncode.v
Http.v
Stl.v
Cookie.v
Stream.v
StreamSpec.v
Frame.v
BundleAction.v
BundleActionSpec.v
Monitor.v
RwLock.v
MessageQueue.v
ConsistentHash.v
HashCache.v
Url.v
Escape.v
ThreadPool.v
JdbcUrl.v
Async.v
PCount.v
Pickle.v
PickleSpec.v
Md5.v
Numbers.v
BundleWrite.v
Spawn.v
Start.v
Crc.v
Text.v
Piece.v
Doobs.v
Network.v
Startup.v
Hash.v
