(* ===== verification/Prelude.v ===== *)
(** * Bundle: a verification of the bundle store

    The program packs many small files ("records") into large bundle files and
    names each record by a url.  A web server (FastCGI) stores uploads and
    serves urls; bundles live on a local file system or on MooseFS, for which
    the program has its own client.  This library models that program and
    proves what makes it correct.  Paths below are relative to src/src/.

    ** Parts and how they interact

    The HTTP actions (bundle/bundleaction.cc) run in the web framework (cwf/),
    which parses a request and hands it to the first action whose url matches.
    An upload calls Writer::Allocate (bundle/bundle.cc): it walks the bundle
    numbers under a prefix (base3/pathops.cc, base3/mkdirs.cc make the paths),
    takes a lock file (bundle/filelock.h) and returns a Writer at the end of a
    bundle with room; Writer::Write appends a record and answers its url, sealed
    with a hash (bundle/murmurhash2.cc) in base-60 numbers (bundle/sixty.h).  A
    download extracts the url and calls Reader::Read.  The MooseFS client
    (mooseclient/) offers open, read, write, seek over its protocol
    (moosefs/), through a C interface and through a preloaded library.

    ** Files of this library and the code they model

    Shared: this file (bytes, words, little-endian numbers, lists, the hint
    database and tactics); [CString] (the string library of C and C++ as the
    sources use it); [Stl] (std::string::find of a text, std::map as an ordered
    list).

    The bundle store:
    - [Sixty]: bundle/sixty.h.  [Murmur], [Murmur64]: bundle/murmurhash2.cc.
    - [PathOps]: base3/pathops.cc.  [MkDirs]: base3/mkdirs.cc.
    - [BundleUrl]: Info and the two url formats of bundle/bundle.cc.
    - [Format]: the record layout of bundle/bundle.h, and what a reader has to
      make of the bytes at an offset ([Format.record_at],
      the specification of Reader::Read).
    - [Bundle]: Reader::Read, Writer::Write, BatchWrite.  [Allocate]:
      CreateBundle, Writer::Allocate, Release, and the whole cycle
      [Allocate.store_and_fetch].  [FileLock]: bundle/filelock.h.
    - [BundleWrite]: bundle/bundlewrite.cc, the program that stores its input.
    - [Posix]: the system calls they make.  A program is a tree of calls
      ([prog], monad [P]); [kstep] is what a call may do, given a [choice] of
      everything the caller cannot settle (errors, short transfers, garbage in
      fresh memory, random numbers, the clock).  [wp C] quantifies over all
      worlds whose choices lie in the envelope [C]; the envelope [benign] has no
      faults.  [Threads]: processes that interleave on one file system, one
      system call at a time.

    The MooseFS client:
    - [Datapack]: moosefs/datapack.h.  [Protocol], [Master], [Chunks], [Files]:
      mooseclient/moose.cc from buffers and the session up to File, with the
      constants of moosefs/MFSCommunication.h.  [Sockutil]:
      mooseclient/sockutil.cc.  [MooseC]: mooseclient/moose_c.cc.  [Preload]:
      mooseclient/preload.cc.  [Crc]: moosefs/crc.c.
    - [Net]: the calls on sockets and the monad [N] of programs over any
      [Network].  [Servers]: a network in front of a [Service], with scripts
      for fragmentation and garbage.  [Storage]: the interfaces [Directory] and
      [Storage] a master and chunk servers keep; [Cluster]: servers that keep
      them.
    - [Exchange], [MasterSpec], [ChunksSpec], [FilesSpec], [Keeps]: theorems.

    The web server:
    - [StringEncode]: base3/stringencode.cc.  [Http]: cwf/http.cc.  [Cookie]:
      cwf/cookie.cc.  [Stream], [StreamSpec]: cwf/stream.cc.  [Frame]:
      cwf/frame.cc and cwf/action.cc.  [BundleAction], [BundleActionSpec]:
      bundle/bundleaction.cc.  The two FastCGI streams are the classes
      [FcgxIn] and [FcgxOut].
    - [Start]: main, Daemon and Fork of cwf/cwfmain.cc and bind_socket of
      cwf/connect.cc, programs over the system's calls with a table of
      descriptors.  [Spawn]: MasterCycle of cwf/cwfmain.cc and its signal
      handlers, a machine whose steps are interleaved with signals.

    The base library:
    - [Monitor]: threads that call methods of one object, interleaved one access
      at a time, with a mutex and condition variables that may wake spuriously.
      [RwLock]: base3/rwlock.h.  [MessageQueue]: base3/messagequeue.h.
    - [ConsistentHash]: base3/consistenthash.h and base3/hash.h.  [HashCache]:
      base3/cache.h.  [ThreadPool]: base3/threadpool.h, base3/threadpool.cc.
    - [Url]: base3/url.h, base3/url.cc, base3/charmask.h.  [Escape]:
      base3/escape.h.  [JdbcUrl]: base3/jdbcurl.h, base3/jdbcurl.cc.
    - [Async]: base3/asyncall.h, base3/asyncall.cc.  [PCount]: base3/pcount.h,
      base3/pcount.cc.
    - [Pickle], [PickleSpec]: base3/pickle.h, base3/pickle.cc.  [Md5]:
      base3/md5.cc.  [Numbers]: base3/string_number_conversions.cc.
    - [Text]: base3/string_util.h, base3/string_util.cc, base3/string_split.cc,
      base3/string_tokenizer.h.  [Piece]: base3/string_piece.h,
      base3/string_piece.cc.
    - [Doobs]: base3/doobs_hash.cc.  [Network]: base3/network.h,
      base3/network.cc.  [Hash]: base3/hash.h.
    - [Startup]: base3/startuplist.cc, base3/once.h, base3/signals.cc,
      base3/circular_count.h.

    ** What the theorems show

    - End to end: a picture posted to the server is fetched back under the url
      it is answered with, byte for byte
      ([BundleActionSpec.upload_then_download]); a listed upload releases its
      lock ([upload_listed]); what GETs that bring nothing are answered in any
      environment ([refused_answers]); a content stored through an allocated
      writer is read back ([Allocate.store_and_fetch_correct]), also through the
      command line program ([BundleWrite.main_stores]).
    - The server's processes: whatever calls fail, but for a dup2, FastcgiMain is
      only given a bound, listening socket, if the standard descriptors were open
      ([Start.main_serves]); as long as no handler comes inside push_back the
      master keeps at most the children it started with and one per stop of a
      child, signals each of them ([MasterCycle_children]) and leaves its loop
      when told to, if it is not about to sleep ([MasterCycle_quits]).
    - Allocation and locks: whatever fails, Allocate changes nothing that
      existed, if no [..] is in its paths, and leaks no descriptor
      ([Allocate_safe]); however processes interleave, no two own one bundle
      ([Allocate_exclusive], [TryLock_exclusive]); the searches end ([Allocate_probes], [Lock_total]).
    - Records: reading back what was written, isolation of writes, batches, and
      Reader::Read as a refinement of the specification of [Format], sound in
      any environment and complete without faults.
    - Urls: both formats round-trip, for postfixes with a single, leading dot; an
      accepted encoded url has a matching hash; a url altered within one hashed word is refused, which rests on the
      hash being injective in each word ([Murmur], [Murmur64]).
    - MooseFS client: what File::Write stores File::Read returns, over any
      number of chunks and blocks and any fragmentation of the replies, against
      [Directory] and [Storage], unless it reads the cache entry it erased in a
      build where that is not possible ([Build], [Read_fetches],
      [write_then_pread]); in any network, hostile ones included,
      ReadBlock stays inside its buffer and the client's state keeps its
      invariant ([Keeps.mfs_invariant]).  The checksums of blocks are what their
      polynomial defines, also combined from parts ([mycrc32_bits],
      [mycrc32_combine_app]).
    - Parsers of the web server: encoders and decoders are inverse, forms,
      cookies and attribute lists are read back as sent, and the parsers end on
      every text.
    - Base library: under every interleaving a writer is alone and whoever waits
      is served ([RwLock.ReadWriteLock_safe], [ReadWriteLock_live]); messages are
      run once and in order, and nothing posted is left while a worker sleeps
      ([MessageQueue_order], [MessageQueue_live]); a server added to the ring
      takes keys only for itself ([Continuum_moves]); the cache, if only new
      keys are inserted, refines a list ordered by last use ([HashCache_lru]); a pool gives every message to one
      worker, the one its comments promise ([GetIdle_spec], [pool_runs]);
      functions posted to run later are called as often as they were posted and
      never early ([posted_calls], [posted_done]); a report of counters names
      them with their values in columns ([pcount_list]).
    - Data of the base library: pickles are read back however their blocks move
      ([pickle_roundtrip]) and reading stays inside any data ([pickle_any_data]);
      MD5 is what RFC 1321 defines, for every way to cut the message
      ([MD5_rfc]); integers are printed and read back, and text that is no
      number is told ([StringToInt_spec], [print_parse]).
    - Cutting texts: the tokenizer's tokens are the text ([tokenizer_tokens]);
      splitting and joining are inverse ([SplitString_join]); pairs of keys and
      values come back ([SplitStringIntoKeyValuePairs_render]).
    - Texts of the base library: urls that are accepted are well-formed, and it is
      exactly the canonical ones whose text is read back ([Parse_well_formed],
      [Parse_canonical]); what
      is escaped for pages, scripts and queries is read back ([escapes_undone]).

    ** Bounds and fuel

    Loops of the sources that are not structural have a fuel argument; running
    out is a result of its own ([Fuel] of [Posix.stop] and of the other monads),
    and each functional theorem says it does not happen.
    - ToSixty: 11 turns, since [60 ^ 11 > 2 ^ 63].
    - FileLock::Lock: the attempts the timeout allows; [Lock_total] gives the
      number for every delay but 0, with which the code does not end.
    - XmlEscape: a turn per character and one more.
    - Allocate: [k + 1] turns for [k] busy bundles ([Allocate_probes]).
    - tcptoread: one turn per byte at most; ReadCommand: one turn per NOP.
    - File::Read and File::Write: one turn per chunk and per 64 KiB block; the
      fuel is computed from the size.
    - MD5Update: a turn per 64 bytes and one more.  A pickle's allocator answers
      requests up to 2 ^ 34 bytes, which the payloads that 32 bits hold need.
    - The forks of main: one turn per child and one more ([main_serves]).
    - The form parser: [S (length text)] turns, enough for every text
      ([ParseMultipartForm_read]); attribute lists the same; reading a body: one
      turn per 2048 bytes; requests served: one per accepted request.

    Integers have the width of the source, with wrap-around where the source
    relies on it or where a hypothesis does not exclude it; memory the source
    reads before writing it comes from a choice or from [garbage].

    ** Parameters of the model

    Code outside the repository is a parameter with its documented behaviour:
    the file system ([Posix]), the network ([Net]), the calls of a starting
    server, of which only that new descriptors are free is assumed
    ([Start.fresh]), the build of the MooseFS client ([Build]), of which nothing
    is assumed, the FastCGI streams, Boost's
    crc32, lexical_cast, io_service and threads that may not start, libc's inet_pton, inet_addr, mktime,
    timezone, localtime and inet_aton, the interfaces of the machine, the creator of a cache's values; std::sort is any
    function that sorts
    ([ConsistentHash.Sorter]).
    Every theorem that assumes something of them has a witness on concrete
    functions.

    ** Not modelled

    - cwf/tplaction.cc, dynalib.cc, site.h: ctemplate and dlopen; the Windows
      half of connect.cc; the threads that share the loop of FastcgiMain, and
      logging.
    - The builds with USE_MOOSECLIENT or USE_CACHED_IO of bundle.cc, and the
      Windows builds.
    - bundle_bench.cc, mooseclient/main.cc (an earlier copy of
      moose.cc with a console around it), tests and benchmarks.
    - The big-endian build of moosefs/crc.c.
    - The rest of base3/, nearly all of it from Chromium (time, logging,
      metrics, processes, command lines, reference counts), and 3rdparty/: the
      programs call little of it; base3/logrotate.h, which only its test uses;
      pybundle/: Python. *)
From Stdlib Require Export ZArith Lia Strings.Byte.
From coqutil Require Export Byte Word.LittleEndianList.
From coqutil Require Import Z.prove_Zeq_bitwise.
From stdpp Require Export base gmap strings numbers list.
#[global] Open Scope Z_scope.

(** ** Bytes and byte strings *)

(** A C++ [std::string] (or a [char] buffer with its length) is its list of bytes. *)
Abbreviation bytes := (list Init.Byte.byte).

(** A string literal of the source. *)
Definition bs (s : string) : bytes := String.list_byte_of_string s.
Arguments bs s%_string.

#[export] Instance byte_eq_decision : EqDecision Init.Byte.byte := Byte.byte_eq_dec.

#[export] Program Instance byte_countable : Countable Init.Byte.byte :=
  inj_countable' Byte.to_N (fun n => default x00 (Byte.of_N n)) _.
Next Obligation. intros b. cbn beta. by rewrite Byte.of_to_N. Qed.

(** The value of a byte read as [unsigned char]. *)
Abbreviation bval := byte.unsigned.
(** The byte a value is stored as when it is truncated to 8 bits. *)
Abbreviation byt := byte.of_Z.

(** ** Machine integers: values are [Z], operations wrap by hand *)

Definition wrap (w z : Z) : Z := z mod 2 ^ w.
(** Conversion to a signed [w]-bit integer (two's complement). *)
Definition swrap (w z : Z) : Z := (z + 2 ^ (w - 1)) mod 2 ^ w - 2 ^ (w - 1).

Abbreviation u8 := (wrap 8).
Abbreviation u16 := (wrap 16).
Abbreviation u32 := (wrap 32).
Abbreviation u64 := (wrap 64).
Abbreviation i32 := (swrap 32).
Abbreviation i64 := (swrap 64).

(** The value [npos] of [std::string::size_type]. *)
Definition npos : Z := 2 ^ 64 - 1.

(** ** Tactics and hints *)

(** Rewriting rules that compute lengths of byte lists. *)
Create Rewrite HintDb len.
Create Rewrite HintDb wrap.
#[export] Hint Rewrite @length_app @length_take @length_drop @length_replicate
  @length_map @length_fmap @length_rev @length_insert length_le_split : len.

(** [len]: normalise list lengths and finish with linear arithmetic. *)
Ltac len := autorewrite with len in *; cbn [length] in *; try lia.

(** Case analysis on every boolean comparison of the goal. *)
Ltac bool_cases :=
  repeat match goal with
  | |- context [ ?a =? ?b ] => destruct (Z.eqb_spec a b)
  | |- context [ ?a <? ?b ] => destruct (Z.ltb_spec a b)
  | |- context [ ?a <=? ?b ] => destruct (Z.leb_spec a b)
  end.

(** Turn boolean hypotheses about [Z] comparisons into propositions. *)
Ltac zbool :=
  repeat match goal with
  | H : (_ && _)%bool = true |- _ => apply andb_true_iff in H as [? ?]
  | H : (_ || _)%bool = false |- _ => apply orb_false_iff in H as [? ?]
  | H : (_ =? _) = true |- _ => apply Z.eqb_eq in H
  | H : (_ =? _) = false |- _ => apply Z.eqb_neq in H
  | H : (_ <? _) = true |- _ => apply Z.ltb_lt in H
  | H : (_ <? _) = false |- _ => apply Z.ltb_ge in H
  | H : (_ <=? _) = true |- _ => apply Z.leb_le in H
  | H : (_ <=? _) = false |- _ => apply Z.leb_gt in H
  end.

(** Divisions and remainders by their equations. *)
Ltac euclid := Z.to_euclidean_division_equations; lia.

(** ** Wrapping *)

Lemma wrap_small w z : 0 <= z < 2 ^ w -> wrap w z = z.
Proof. apply Z.mod_small. Qed.

Lemma wrap_range w z : 0 <= w -> 0 <= wrap w z < 2 ^ w.
Proof. intros. apply Z.mod_pos_bound. lia. Qed.

Lemma wrap_wrap w z : wrap w (wrap w z) = wrap w z.
Proof. apply Zmod_mod. Qed.

Lemma wrap_land w z : 0 <= w -> wrap w z = Z.land z (Z.ones w).
Proof. intros. by rewrite Z.land_ones. Qed.

Lemma swrap_small w z : 0 < w -> - 2 ^ (w - 1) <= z < 2 ^ (w - 1) -> swrap w z = z.
Proof.
  intros Hw Hz. unfold swrap.
  assert (2 ^ w = 2 * 2 ^ (w - 1)) as E
    by (rewrite <- Z.pow_succ_r by lia; f_equal; lia).
  rewrite Z.mod_small; lia.
Qed.

Lemma swrap_range w z : 0 < w -> - 2 ^ (w - 1) <= swrap w z < 2 ^ (w - 1).
Proof.
  intros Hw. unfold swrap.
  assert (2 ^ w = 2 * 2 ^ (w - 1)) as E
    by (rewrite <- Z.pow_succ_r by lia; f_equal; lia).
  pose proof (Z.mod_pos_bound (z + 2 ^ (w - 1)) (2 ^ w)). lia.
Qed.

Lemma i64_small z : - 2 ^ 63 <= z < 2 ^ 63 -> i64 z = z.
Proof. intros H. apply swrap_small; [lia|exact H]. Qed.

Lemma i32_small z : - 2 ^ 31 <= z < 2 ^ 31 -> i32 z = z.
Proof. intros H. apply swrap_small; [lia|exact H]. Qed.

(** An unsigned word survives the trip through the signed type of its width. *)
Lemma wrap_swrap w z : 0 < w -> wrap w (swrap w z) = wrap w z.
Proof.
  intros Hw. unfold wrap, swrap.
  rewrite Zminus_mod_idemp_l. f_equal. lia.
Qed.

#[export] Hint Rewrite wrap_wrap : wrap.
#[export] Hint Rewrite wrap_small swrap_small using lia : wrap.

Lemma bval_range b : 0 <= bval b < 256.
Proof. exact (byte.unsigned_range b). Qed.

Lemma bval_byt z : 0 <= z < 256 -> bval (byt z) = z.
Proof. intros. rewrite byte.unsigned_of_Z. by apply Z.mod_small. Qed.

Lemma byt_bval b : byt (bval b) = b.
Proof. apply byte.of_Z_unsigned. Qed.

(** ** Positional notation: the digits an integer is printed with *)

(** The value of a digit list, most significant digit first. *)
Definition radix_value (base : Z) (ds : list Z) : Z :=
  fold_left (fun acc d => acc * base + d) ds 0.

(** The digits of [n], most significant first, as a divide-by-[base] loop
    produces them ([0] prints as one digit). *)
Fixpoint radix_loop (fuel : nat) (base n : Z) (acc : list Z) : list Z :=
  match fuel with
  | O => acc
  | S fuel =>
      let acc := n mod base :: acc in
      if n / base =? 0 then acc else radix_loop fuel base (n / base) acc
  end.

(** One more iteration than [log2 n] reaches zero for every base from 2 on. *)
Definition radix_digits (base n : Z) : list Z :=
  radix_loop (S (Z.to_nat (Z.log2 n))) base n [].

Lemma radix_value_snoc base ds d :
  radix_value base (ds ++ [d]) = radix_value base ds * base + d.
Proof. unfold radix_value. by rewrite fold_left_app. Qed.

Lemma radix_value_cons base d ds :
  radix_value base (d :: ds) = d * base ^ Z.of_nat (length ds) + radix_value base ds.
Proof.
  induction ds as [|e ds IH] using rev_ind.
  - cbn. lia.
  - rewrite app_comm_cons, !radix_value_snoc, IH, length_app. cbn [length].
    replace (Z.of_nat (length ds + 1)) with (Z.succ (Z.of_nat (length ds))) by lia.
    rewrite Z.pow_succ_r by lia. lia.
Qed.

Definition digits_ok (base : Z) (ds : list Z) : Prop := Forall (fun d => 0 <= d < base) ds.

Lemma radix_value_bound base ds :
  0 < base -> digits_ok base ds ->
  0 <= radix_value base ds < base ^ Z.of_nat (length ds).
Proof.
  intros Hb. induction ds as [|d ds IH] using rev_ind; intros Hd.
  - cbn. lia.
  - apply Forall_app in Hd as [Hds Hd]. inversion_clear Hd.
    specialize (IH Hds). rewrite radix_value_snoc. len.
    replace (Z.of_nat (length ds + 1)) with (Z.succ (Z.of_nat (length ds))) by lia.
    rewrite Z.pow_succ_r by lia. nia.
Qed.

Lemma radix_loop_acc fuel base n acc :
  radix_loop fuel base n acc = radix_loop fuel base n [] ++ acc.
Proof.
  revert n acc. induction fuel as [|fuel IH]; intros n acc; [done|]. cbn [radix_loop].
  destruct (_ =? _); [done|]. rewrite IH, (IH _ [_]). by rewrite <- app_assoc.
Qed.

(** What the loop does with enough fuel: the digits in front of the
    accumulator denote [n], are in range, and do not start with a zero. *)
Lemma radix_loop_spec base fuel n acc :
  2 <= base -> 0 <= n < base ^ Z.of_nat fuel -> (0 < fuel)%nat ->
  exists ds, radix_loop fuel base n acc = ds ++ acc /\ radix_value base ds = n /\
    digits_ok base ds /\ (0 < length ds <= fuel)%nat /\
    (0 < n -> base ^ (Z.of_nat (length ds) - 1) <= n).
Proof.
  intros Hb. revert n acc. induction fuel as [|fuel IH]; intros n acc Hn Hf; [lia|].
  pose proof (Z.mod_pos_bound n base ltac:(lia)) as Hm.
  pose proof (Z.div_mod n base ltac:(lia)) as Hdm.
  cbn [radix_loop]. destruct (Z.eqb_spec (n / base) 0) as [E|E].
  - exists [n mod base]. split; [done|]. split; [cbn; lia|].
    split; [by repeat constructor; lia|]. split; [cbn; lia|]. cbn. lia.
  - replace (Z.of_nat (S fuel)) with (Z.succ (Z.of_nat fuel)) in Hn by lia.
    rewrite Z.pow_succ_r in Hn by lia.
    pose proof (Z.div_pos n base ltac:(lia) ltac:(lia)).
    assert (n / base < base ^ Z.of_nat fuel) by (apply Z.div_lt_upper_bound; lia).
    assert (0 < fuel)%nat by (destruct fuel; [cbn in *; lia|lia]).
    destruct (IH (n / base) (n mod base :: acc)) as (ds & -> & Hv & Hok & Hlen & Hlow);
      [lia|done|].
    exists (ds ++ [n mod base]). rewrite <- app_assoc. split; [done|].
    rewrite radix_value_snoc, Hv. split; [lia|].
    split; [by apply Forall_app; split; [|repeat constructor; lia]|].
    split; [len|]. intros _. len.
    replace (Z.of_nat (length ds + 1) - 1) with (Z.succ (Z.of_nat (length ds) - 1)) by lia.
    rewrite Z.pow_succ_r by lia. nia.
Qed.

Lemma log2_fuel base n : 2 <= base -> 0 <= n -> n < base ^ Z.of_nat (S (Z.to_nat (Z.log2 n))).
Proof.
  intros Hb Hn. destruct (Z.eq_dec n 0) as [->|]; [cbn; lia|].
  pose proof (Z.log2_spec n ltac:(lia)) as [_ H]. pose proof (Z.log2_nonneg n).
  replace (Z.of_nat (S (Z.to_nat (Z.log2 n)))) with (Z.succ (Z.log2 n)) by lia.
  eapply Z.lt_le_trans; [exact H|]. apply Z.pow_le_mono_l. lia.
Qed.

Lemma radix_digits_spec base n :
  2 <= base -> 0 <= n ->
  radix_value base (radix_digits base n) = n /\ digits_ok base (radix_digits base n) /\
  (0 < length (radix_digits base n))%nat /\
  (0 < n -> base ^ (Z.of_nat (length (radix_digits base n)) - 1) <= n).
Proof.
  intros Hb Hn. unfold radix_digits.
  destruct (radix_loop_spec base (S (Z.to_nat (Z.log2 n))) n []) as (ds & -> & H);
    [done|split; [done|by apply log2_fuel]|lia|].
  rewrite app_nil_r. destruct H as (? & ? & ? & ?). auto with lia.
Qed.

(** Enough fuel is enough: more fuel gives the same digits. *)
Lemma radix_loop_fuel base f1 f2 n acc :
  2 <= base -> 0 <= n -> n < base ^ Z.of_nat f1 -> n < base ^ Z.of_nat f2 ->
  (0 < f1)%nat -> (0 < f2)%nat ->
  radix_loop f1 base n acc = radix_loop f2 base n acc.
Proof.
  intros Hb. revert f2 n acc. induction f1 as [|f1 IH]; intros f2 n acc Hn H1 H2 P1 P2; [lia|].
  destruct f2 as [|f2]; [lia|]. cbn [radix_loop].
  destruct (Z.eqb_spec (n / base) 0) as [E|E]; [done|].
  rewrite Nat2Z.inj_succ, Z.pow_succ_r in H1, H2 by lia.
  pose proof (Z.div_pos n base ltac:(lia) ltac:(lia)).
  assert (n / base < base ^ Z.of_nat f1) by (apply Z.div_lt_upper_bound; lia).
  assert (n / base < base ^ Z.of_nat f2) by (apply Z.div_lt_upper_bound; lia).
  apply IH; try lia; [destruct f1|destruct f2]; cbn in *; lia.
Qed.

(** A digit list without leading zeros is what printing its value gives. *)
Lemma radix_loop_value base fuel ds :
  2 <= base -> digits_ok base ds -> (0 < length ds <= fuel)%nat ->
  (forall t, ds = 0 :: t -> t = []) ->
  radix_loop fuel base (radix_value base ds) [] = ds.
Proof.
  intros Hb. revert fuel. induction ds as [|d ds IH] using rev_ind; intros fuel Hok Hl Hlead.
  { cbn in Hl. lia. }
  apply Forall_app in Hok as [Hok Hd]. inversion_clear Hd.
  rewrite length_app in Hl. cbn [length] in Hl. destruct fuel as [|fuel]; [lia|].
  pose proof (radix_value_bound base ds ltac:(lia) Hok) as Hv.
  rewrite radix_value_snoc. cbn [radix_loop].
  rewrite Z.add_comm, Z.mod_add, Z.div_add, Z.mod_small, Z.div_small, Z.add_0_l by lia.
  destruct (Z.eqb_spec (radix_value base ds) 0) as [E|E].
  - destruct ds as [|h t]; [done|]. exfalso. inversion_clear Hok.
    destruct (Z.eq_dec h 0) as [->|].
    { specialize (Hlead (t ++ [d]) eq_refl). by destruct t. }
    rewrite radix_value_cons in E.
    pose proof (radix_value_bound base t ltac:(lia) ltac:(done)).
    pose proof (Z.pow_pos_nonneg base (Z.of_nat (length t)) ltac:(lia) ltac:(lia)). nia.
  - destruct ds as [|h t]; [done|]. rewrite radix_loop_acc, IH; [done|done|cbn in *; lia|].
    intros t' [= -> ->]. specialize (Hlead (t' ++ [d]) eq_refl). by destruct t'.
Qed.

(** Induction over a list in blocks of four, for loops that consume words. *)
Lemma list_ind4 {A} (P : list A -> Prop) :
  (forall l, (length l < 4)%nat -> P l) ->
  (forall a b c d l, P l -> P (a :: b :: c :: d :: l)) ->
  forall l, P l.
Proof.
  intros Hshort Hblock l. remember (length l) as n eqn:E. assert (length l <= n)%nat as Hn by lia.
  clear E. revert l Hn. induction n as [|n IH]; intros l Hn.
  { apply Hshort. lia. }
  destruct l as [|a [|b [|c [|d l]]]]; try (apply Hshort; cbn; lia).
  apply Hblock, IH. cbn in Hn. lia.
Qed.

(** ** Bit operations and words *)

Lemma lxor_range w a b : 0 <= w -> 0 <= a < 2 ^ w -> 0 <= b < 2 ^ w -> 0 <= Z.lxor a b < 2 ^ w.
Proof.
  intros Hw Ha Hb.
  assert (Z.lxor a b = Z.lxor a b mod 2 ^ w) as ->.
  { apply Z.bits_inj'. intros i Hi. destruct (Z.lt_ge_cases i w).
    - rewrite Z.mod_pow2_bits_low by lia. done.
    - rewrite Z.mod_pow2_bits_high, Z.lxor_spec by lia.
      rewrite (@testbit_above w a), (@testbit_above w b) by lia. done. }
  apply Z.mod_pos_bound. lia.
Qed.

Lemma shiftr_range w a s : 0 <= w -> 0 <= s -> 0 <= a < 2 ^ w -> 0 <= Z.shiftr a s < 2 ^ w.
Proof.
  intros Hw Hs Ha. rewrite Z.shiftr_div_pow2 by done.
  pose proof (Z.pow_pos_nonneg 2 s ltac:(lia) Hs). split; [by apply Z.div_pos; lia|].
  apply Z.div_lt_upper_bound; nia.
Qed.

Lemma lxor_cancel_l a b c : Z.lxor a b = Z.lxor a c -> b = c.
Proof.
  intros H. apply (f_equal (Z.lxor a)) in H.
  by rewrite <- !Z.lxor_assoc, Z.lxor_nilpotent, !Z.lxor_0_l in H.
Qed.

Lemma lxor_cancel_r a b c : Z.lxor b a = Z.lxor c a -> b = c.
Proof. rewrite !(Z.lxor_comm _ a). apply lxor_cancel_l. Qed.

(** [x ^ (x >> s)] loses nothing. *)
Lemma xorshift_inj s a b :
  0 < s -> 0 <= a -> 0 <= b ->
  Z.lxor a (Z.shiftr a s) = Z.lxor b (Z.shiftr b s) -> a = b.
Proof.
  intros Hs Ha Hb E. set (c := Z.lxor a b).
  assert (Z.lxor c (Z.shiftr c s) = 0) as Hc.
  { unfold c. rewrite Z.shiftr_lxor.
    rewrite <- (Z.lxor_nilpotent (Z.lxor b (Z.shiftr b s))), <- E at 1.
    apply Z.bits_inj'. intros i Hi. rewrite !Z.lxor_spec.
    by repeat match goal with |- context [Z.testbit ?x ?y] => destruct (Z.testbit x y) end. }
  apply Z.lxor_eq in Hc. rewrite Z.shiftr_div_pow2 in Hc by lia.
  assert (0 <= c) by (apply Z.lxor_nonneg; lia).
  pose proof (Z.pow_gt_1 2 s ltac:(lia)) as [Hp _]. specialize (Hp Hs).
  assert (c = 0) as Hz.
  { destruct (Z.eq_dec c 0); [done|]. pose proof (Z.div_lt c (2 ^ s) ltac:(lia) ltac:(lia)). lia. }
  by apply Z.lxor_eq.
Qed.

(** Multiplication by a number with an inverse is injective on words. *)
Lemma mul_wrap_inj w m minv a b :
  0 < w -> wrap w (m * minv) = 1 -> 0 <= a < 2 ^ w -> 0 <= b < 2 ^ w ->
  wrap w (a * m) = wrap w (b * m) -> a = b.
Proof.
  intros Hw Hinv Ha Hb E. unfold wrap in *.
  rewrite <- (Z.mod_small a (2 ^ w)), <- (Z.mod_small b (2 ^ w)) by lia.
  assert (forall x, (x * m) mod 2 ^ w * minv mod 2 ^ w = x mod 2 ^ w) as Hc.
  { intros x. rewrite Zmult_mod_idemp_l, <- Z.mul_assoc, <- Zmult_mod_idemp_r, Hinv.
    f_equal. lia. }
  rewrite <- (Hc a), <- (Hc b). by rewrite E.
Qed.

(** A low part and a shifted high part do not overlap. *)
Lemma lor_shiftl_add a b k :
  0 <= k -> 0 <= a < 2 ^ k -> Z.lor a (Z.shiftl b k) = a + b * 2 ^ k.
Proof.
  intros Hk Ha. rewrite <- Z.shiftl_mul_pow2, <- Z.add_lor_land by done.
  assert (Z.land a (Z.shiftl b k) = 0) as ->; [|lia].
  apply Z.bits_inj'. intros i Hi. rewrite Z.land_spec, Z.bits_0.
  destruct (Z.lt_ge_cases i k).
  - rewrite Z.shiftl_spec_low by done. by rewrite andb_false_r.
  - by rewrite (@testbit_above k a) by lia.
Qed.

Lemma lxor_shiftl_add a b k :
  0 <= k -> 0 <= a < 2 ^ k -> Z.lxor (Z.shiftl b k) a = a + b * 2 ^ k.
Proof.
  intros Hk Ha. rewrite <- lor_shiftl_add by done.
  apply Z.bits_inj'. intros i Hi. rewrite Z.lxor_spec, Z.lor_spec.
  destruct (Z.lt_ge_cases i k).
  - rewrite Z.shiftl_spec_low by done. by rewrite orb_false_r.
  - rewrite (@testbit_above k a) by lia. by rewrite xorb_false_r.
Qed.

(** Little-endian words, one byte at a time and one half at a time. *)
Lemma le_combine_cons b l : le_combine (b :: l) = bval b + le_combine l * 256.
Proof.
  change (le_combine (b :: l)) with (Z.lor (bval b) (Z.shiftl (le_combine l) 8)).
  rewrite lor_shiftl_add; [done|lia|apply bval_range].
Qed.

Lemma le_combine_range l : 0 <= le_combine l < 2 ^ (8 * Z.of_nat (length l)).
Proof. apply le_combine_bound. Qed.

Lemma le_combine_app_add a b :
  le_combine (a ++ b) = le_combine a + le_combine b * 2 ^ (8 * Z.of_nat (length a)).
Proof.
  rewrite le_combine_app, Z.mul_comm. rewrite lor_shiftl_add; [done|lia|].
  apply le_combine_bound.
Qed.
