(* ===== verification/CString.v ===== *)
(** * The parts of the C and C++ string library the sources call

    [std::string] members ([find], [rfind], [substr], [c_str]), the [atol]
    family, decimal and hexadecimal formatting, [strncpy], and
    [boost::split] with [boost::is_any_of].  Positions are [Z] and "not
    found" is [npos], as in the sources, whose arithmetic on positions wraps
    at 64 bits. *)

From S2P Require Import Prelude.

Definition size (s : bytes) : Z := Z.of_nat (length s).

(** [const char*] view of a buffer: everything before the first NUL. *)
Fixpoint c_str (s : bytes) : bytes :=
  match s with
  | [] => []
  | c :: s => if Byte.eqb c x00 then [] else c :: c_str s
  end.

(** [s.find(c)] and [s.rfind(c)]. *)
Fixpoint find_at (c : Init.Byte.byte) (s : bytes) (i : Z) : Z :=
  match s with
  | [] => npos
  | x :: s => if Byte.eqb x c then i else find_at c s (i + 1)
  end.

Definition find (c : Init.Byte.byte) (s : bytes) : Z := find_at c s 0.

(** [s.find(c, pos)] *)
Definition find_from (c : Init.Byte.byte) (s : bytes) (pos : Z) : Z :=
  if size s <? pos then npos else find_at c (drop (Z.to_nat pos) s) pos.

Fixpoint rfind_at (c : Init.Byte.byte) (s : bytes) (i : Z) : Z :=
  match s with
  | [] => npos
  | x :: s =>
      let r := rfind_at c s (i + 1) in
      if r =? npos then (if Byte.eqb x c then i else npos) else r
  end.

Definition rfind (c : Init.Byte.byte) (s : bytes) : Z := rfind_at c s 0.

(** [s.substr(pos, n)] for [pos <= s.size()]. *)
Definition substr (s : bytes) (pos n : Z) : bytes :=
  take (Z.to_nat (Z.min n (size s - pos))) (drop (Z.to_nat pos) s).

(** [boost::split(vs, s, boost::is_any_of(seps))]: adjacent separators give
    empty tokens, and the empty string gives one empty token. *)
Fixpoint split_aux (seps : bytes) (s cur : bytes) : list bytes :=
  match s with
  | [] => [cur]
  | c :: s =>
      if bool_decide (c ∈ seps) then cur :: split_aux seps s []
      else split_aux seps s (cur ++ [c])
  end.

Definition split (seps s : bytes) : list bytes := split_aux seps s [].

(** ** Numbers as text *)

Definition digit_char (d : Z) : Init.Byte.byte := byt (48 + d).

(** [ostream << n] of a non-negative integer, and of a signed one. *)
Definition dec_nonneg (n : Z) : bytes := map digit_char (radix_digits 10 n).
Definition dec (n : Z) : bytes :=
  if n <? 0 then "-"%byte :: dec_nonneg (- n) else dec_nonneg n.

Definition hex_char (d : Z) : Init.Byte.byte :=
  if d <? 10 then byt (48 + d) else byt (87 + d).

(** [%08x] of a 32-bit unsigned value. *)
Definition hex08 (n : Z) : bytes :=
  let ds := map hex_char (radix_digits 16 n) in
  replicate (8 - length ds) "0"%byte ++ ds.

(** [%04d] and [%02d] of a non-negative value. *)
Definition dec_pad (width : nat) (n : Z) : bytes :=
  let ds := dec_nonneg n in replicate (width - length ds) "0"%byte ++ ds.

Definition isspace (c : Init.Byte.byte) : bool :=
  let v := bval c in (v =? 32) || ((9 <=? v) && (v <=? 13)).

Definition isdigit (c : Init.Byte.byte) : bool :=
  let v := bval c in (48 <=? v) && (v <=? 57).

Fixpoint skip_space (s : bytes) : bytes :=
  match s with
  | [] => []
  | c :: s' => if isspace c then skip_space s' else s
  end.

Fixpoint scan_digits (s : bytes) (acc : Z) : Z :=
  match s with
  | [] => acc
  | c :: s => if isdigit c then scan_digits s (acc * 10 + (bval c - 48)) else acc
  end.

Definition clamp (lo hi z : Z) : Z := Z.max lo (Z.min hi z).

(** [atol]: optional blanks, optional sign, digits; out-of-range values
    saturate, as [strtol] does. *)
Definition atol (s : bytes) : Z :=
  let s := skip_space s in
  let '(neg, s) :=
    match s with
    | c :: t => if Byte.eqb c "-" then (true, t)
                else if Byte.eqb c "+" then (false, t) else (false, s)
    | [] => (false, s)
    end in
  let v := scan_digits s 0 in
  clamp (- 2 ^ 63) (2 ^ 63 - 1) (if neg : bool then - v else v).
(** [atoi] is [(int) strtol]. *)
Definition atoi (s : bytes) : Z := i32 (atol s).

(** [strncpy(dst, src, n)]: copies at most [n] bytes of the NUL-terminated
    [src] and pads with NUL; the result has length [n] and no terminator when
    [src] fills it. *)
Definition strncpy (src : bytes) (n : nat) : bytes :=
  let s := take n (c_str src) in s ++ replicate (n - length s) x00.

(** ** Facts *)

Lemma size_nonneg s : 0 <= size s.
Proof. unfold size. lia. Qed.

Lemma size_app a b : size (a ++ b) = size a + size b.
Proof. unfold size. rewrite length_app. lia. Qed.

Lemma size_cons c s : size (c :: s) = 1 + size s.
Proof. unfold size. cbn [length]. lia. Qed.

#[export] Hint Rewrite size_app size_cons : len.

Lemma eqb_byte_spec a b : reflect (a = b) (Byte.eqb a b).
Proof.
  destruct (Byte.eqb a b) eqn:E; constructor.
  - by apply Byte.byte_dec_bl.
  - intros ->. by rewrite Byte.byte_dec_lb in E.
Qed.

Lemma c_str_app_nul a b : x00 ∉ a -> c_str (a ++ x00 :: b) = a.
Proof.
  induction a as [|c a IH]; intros H; cbn; [done|].
  apply not_elem_of_cons in H as [? ?].
  destruct (eqb_byte_spec c x00); [congruence|]. f_equal. auto.
Qed.

Lemma c_str_id a : x00 ∉ a -> c_str a = a.
Proof.
  induction a as [|c a IH]; intros H; cbn; [done|].
  apply not_elem_of_cons in H as [? ?].
  destruct (eqb_byte_spec c x00); [congruence|]. f_equal. auto.
Qed.

Lemma c_str_no_nul a : x00 ∉ c_str a.
Proof.
  induction a as [|c a IH]; cbn; [apply not_elem_of_nil|].
  destruct (eqb_byte_spec c x00); [apply not_elem_of_nil|].
  apply not_elem_of_cons. split; [congruence|done].
Qed.

Lemma rfind_at_none c s i : c ∉ s -> rfind_at c s i = npos.
Proof.
  revert i. induction s as [|x s IH]; intros i H; cbn; [done|].
  apply not_elem_of_cons in H as [? ?].
  rewrite IH by done. rewrite Z.eqb_refl.
  destruct (eqb_byte_spec x c); [congruence|done].
Qed.

Lemma rfind_at_last c a b i :
  c ∉ b -> 0 <= i -> i + size a < npos ->
  rfind_at c (a ++ c :: b) i = i + size a.
Proof.
  revert i. induction a as [|x a IH]; intros i Hb Hi Hs; cbn [app rfind_at].
  - rewrite rfind_at_none by done. rewrite Z.eqb_refl.
    destruct (eqb_byte_spec c c); [|done]. unfold size. cbn. lia.
  - rewrite size_cons in Hs. pose proof (size_nonneg a).
    rewrite IH by (done || lia).
    destruct (Z.eqb_spec (i + 1 + size a) npos); [lia|]. rewrite size_cons. lia.
Qed.

Lemma rfind_last c a b :
  c ∉ b -> size a < npos -> rfind c (a ++ c :: b) = size a.
Proof. intros. unfold rfind. rewrite rfind_at_last; lia || done. Qed.

Lemma find_at_first c a b i : c ∉ a -> find_at c (a ++ c :: b) i = i + size a.
Proof.
  revert i. induction a as [|x a IH]; intros i Ha; cbn [app find_at].
  - destruct (eqb_byte_spec c c); [|done]. unfold size. cbn. lia.
  - apply not_elem_of_cons in Ha as [Hx Ha].
    destruct (eqb_byte_spec x c) as [->|_]; [done|]. rewrite IH, size_cons by done. lia.
Qed.

Lemma find_at_none c a i : c ∉ a -> find_at c a i = npos.
Proof.
  revert i. induction a as [|x a IH]; intros i Ha; cbn [find_at]; [done|].
  apply not_elem_of_cons in Ha as [Hx Ha]. destruct (eqb_byte_spec x c) as [->|_]; [done|auto].
Qed.

Lemma find_first c a b : c ∉ a -> find c (a ++ c :: b) = size a.
Proof. intros Ha. unfold find. by rewrite find_at_first. Qed.

Lemma find_none c a : c ∉ a -> find c a = npos.
Proof. apply find_at_none. Qed.

Lemma find_from_first c skip a rest : c ∉ a ->
  find_from c (skip ++ a ++ c :: rest) (size skip) = size skip + size a.
Proof.
  intros Ha. unfold find_from. pose proof (size_nonneg (a ++ c :: rest)).
  rewrite (size_app skip). destruct (Z.ltb_spec (size skip + size (a ++ c :: rest)) (size skip)); [lia|].
  unfold size at 1. rewrite Nat2Z.id, drop_app_length. by apply find_at_first.
Qed.

Lemma find_from_none c skip a : c ∉ a -> find_from c (skip ++ a) (size skip) = npos.
Proof.
  intros Ha. unfold find_from. pose proof (size_nonneg a). rewrite size_app.
  destruct (Z.ltb_spec (size skip + size a) (size skip)); [lia|].
  unfold size at 1. rewrite Nat2Z.id, drop_app_length. by apply find_at_none.
Qed.

Lemma rfind_none c s : c ∉ s -> rfind c s = npos.
Proof. apply rfind_at_none. Qed.

(** A found position is inside the string. *)
Lemma rfind_at_bound c s i :
  rfind_at c s i = npos \/ i <= rfind_at c s i < i + size s.
Proof.
  revert i. induction s as [|x s IH]; intros i; cbn [rfind_at]; [by left|].
  rewrite size_cons. pose proof (size_nonneg s).
  destruct (Z.eqb_spec (rfind_at c s (i + 1)) npos) as [E|E].
  - destruct (Byte.eqb x c); [right; lia|by left].
  - destruct (IH (i + 1)); [done|right; lia].
Qed.

Lemma rfind_bound c s : rfind c s = npos \/ 0 <= rfind c s < size s.
Proof. unfold rfind. pose proof (rfind_at_bound c s 0). lia. Qed.

Lemma substr_prefix a b n : n = size a -> substr (a ++ b) 0 n = a.
Proof.
  intros ->. unfold substr, size. rewrite drop_0.
  rewrite take_app_le by len. apply take_ge. len.
Qed.

Lemma substr_suffix a b pos n :
  pos = size a -> size b <= n -> substr (a ++ b) pos n = b.
Proof.
  intros -> Hn. unfold substr, size in *. rewrite Nat2Z.id.
  rewrite drop_app_length. apply take_ge. len.
Qed.

Lemma substr_middle a b c pos n :
  pos = size a -> n = size b -> substr (a ++ b ++ c) pos n = b.
Proof.
  intros -> ->. unfold substr, size in *. rewrite Nat2Z.id.
  rewrite drop_app_length, take_app_le by len. apply take_ge. len.
Qed.

Lemma split_aux_token seps p cur :
  Forall (.∉ seps) p -> split_aux seps p cur = [cur ++ p].
Proof.
  revert cur. induction p as [|c p IH]; intros cur H; cbn.
  - by rewrite app_nil_r.
  - inversion_clear H. rewrite bool_decide_false by done.
    rewrite IH by done. by rewrite <- app_assoc.
Qed.

Lemma split_aux_cons seps p c rest cur :
  Forall (.∉ seps) p -> c ∈ seps ->
  split_aux seps (p ++ c :: rest) cur = (cur ++ p) :: split_aux seps rest [].
Proof.
  intros H Hc. revert cur. induction p as [|x p IH]; intros cur; cbn.
  - rewrite bool_decide_true by done. by rewrite app_nil_r.
  - inversion_clear H. rewrite bool_decide_false by done.
    rewrite IH by done. by rewrite <- app_assoc.
Qed.

Lemma split_token seps p : Forall (.∉ seps) p -> split seps p = [p].
Proof. intros. by apply split_aux_token. Qed.

Lemma split_cons seps p c rest :
  Forall (.∉ seps) p -> c ∈ seps -> split seps (p ++ c :: rest) = p :: split seps rest.
Proof. intros. by apply split_aux_cons. Qed.

(** *** Decimal text reads back *)

Lemma bval_digit_char d : 0 <= d < 10 -> bval (digit_char d) = 48 + d.
Proof. intros. unfold digit_char. apply bval_byt. lia. Qed.

Lemma isdigit_digit_char d : 0 <= d < 10 -> isdigit (digit_char d) = true.
Proof. intros. unfold isdigit. rewrite bval_digit_char by done. lia. Qed.

Lemma scan_digits_map ds rest acc :
  digits_ok 10 ds ->
  (forall c t, rest = c :: t -> isdigit c = false) ->
  scan_digits (map digit_char ds ++ rest) acc =
    fold_left (fun a d => a * 10 + d) ds acc.
Proof.
  intros H Hr. revert acc. induction H as [|d ds Hd _ IH]; intros acc; cbn.
  - destruct rest as [|c t]; cbn; [done|]. by rewrite (Hr c t).
  - rewrite isdigit_digit_char, bval_digit_char by done. rewrite IH. f_equal. lia.
Qed.

Lemma dec_nonneg_cons n :
  0 <= n -> exists d ds, dec_nonneg n = digit_char d :: map digit_char ds /\
    0 <= d < 10 /\ digits_ok 10 ds /\ radix_value 10 (d :: ds) = n.
Proof.
  intros Hn. unfold dec_nonneg.
  destruct (radix_digits_spec 10 n) as (Hv & Hok & Hlen & _); [lia|done|].
  destruct (radix_digits 10 n) as [|d ds]; [cbn in Hlen; lia|].
  inversion_clear Hok. by exists d, ds.
Qed.

Lemma isspace_false c : 33 <= bval c -> isspace c = false.
Proof. unfold isspace. lia. Qed.

Lemma atol_sign_false c : 48 <= bval c -> Byte.eqb c "-" = false /\ Byte.eqb c "+" = false.
Proof.
  intros H. split;
    [destruct (eqb_byte_spec c "-") as [->|]|destruct (eqb_byte_spec c "+") as [->|]];
    cbn in H; done || lia.
Qed.

(** [atol] reads back what [ostream <<] printed. *)
Lemma atol_dec z : - 2 ^ 63 <= z < 2 ^ 63 -> atol (dec z) = z.
Proof.
  intros Hz.
  assert (forall n, 0 <= n -> scan_digits (dec_nonneg n) 0 = n) as Hscan.
  { intros n Hn. unfold dec_nonneg.
    destruct (radix_digits_spec 10 n) as (Hv & Hok & _); [lia|done|].
    rewrite <- (app_nil_r (map _ _)), scan_digits_map; [exact Hv|done|done]. }
  unfold atol, dec. destruct (Z.ltb_spec z 0) as [Hneg|Hpos].
  - cbn -[scan_digits dec_nonneg Z.pow]. rewrite Hscan by lia. unfold clamp. lia.
  - destruct (dec_nonneg_cons z Hpos) as (d & ds & E & Hd & _ & _).
    pose proof (bval_digit_char d Hd). rewrite E. cbn [skip_space].
    rewrite isspace_false by lia.
    destruct (atol_sign_false (digit_char d)) as [-> ->]; [lia|].
    rewrite <- E, Hscan by lia. unfold clamp. lia.
Qed.

(** Decimal text of a non-negative number is made of digits only. *)
Lemma dec_nonneg_digits n : 0 <= n -> Forall (fun c => isdigit c = true) (dec_nonneg n).
Proof.
  intros Hn. unfold dec_nonneg. apply Forall_map.
  destruct (radix_digits_spec 10 n) as (_ & Hok & _); [lia|done|].
  eapply Forall_impl; [exact Hok|]. intros d Hd. by apply isdigit_digit_char.
Qed.

Lemma dec_digits z : Forall (fun c => isdigit c = true \/ c = "-"%byte) (dec z).
Proof.
  unfold dec. destruct (Z.ltb_spec z 0); [constructor; [by right|]|];
    (eapply Forall_impl; [apply dec_nonneg_digits; lia|by left]).
Qed.

Lemma dec_inj a b :
  - 2 ^ 63 <= a < 2 ^ 63 -> - 2 ^ 63 <= b < 2 ^ 63 -> dec a = dec b -> a = b.
Proof. intros Ha Hb E. apply (f_equal atol) in E. by rewrite !atol_dec in E. Qed.

(** A decimal number contains none of a set of separators. *)
Lemma dec_no_sep seps z :
  Forall (fun c => isdigit c = false /\ c <> "-"%byte) seps -> Forall (.∉ seps) (dec z).
Proof.
  intros H. eapply Forall_impl; [apply dec_digits|].
  intros c Hc Hin. rewrite Forall_forall in H.
  destruct (H c Hin) as [? ?], Hc; congruence.
Qed.

Lemma length_strncpy s n : length (strncpy s n) = n.
Proof. unfold strncpy. len. Qed.

(** [strncpy] then reading the field back as a C string. *)
Lemma c_str_strncpy s n : (length (c_str s) <= n)%nat -> c_str (strncpy s n) = c_str s.
Proof.
  intros H. unfold strncpy. rewrite take_ge by lia.
  destruct (n - length (c_str s))%nat eqn:E; cbn [replicate].
  - rewrite app_nil_r. apply c_str_id, c_str_no_nul.
  - apply c_str_app_nul, c_str_no_nul.
Qed.

#[export] Hint Rewrite length_strncpy : len.

(** Splitting distributes over a separator. *)
Lemma split_aux_app seps a c b cur :
  c ∈ seps -> split_aux seps (a ++ c :: b) cur = split_aux seps a cur ++ split_aux seps b [].
Proof.
  intros Hc. revert cur. induction a as [|x a IH]; intros cur; cbn.
  - by rewrite bool_decide_true by done.
  - destruct (bool_decide _); cbn; by rewrite IH.
Qed.

Lemma split_app_sep seps a c b :
  c ∈ seps -> split seps (a ++ c :: b) = split seps a ++ split seps b.
Proof. apply split_aux_app. Qed.

(** *** Eight hexadecimal digits *)

Definition hex_val (c : Init.Byte.byte) : Z := if bval c <? 58 then bval c - 48 else bval c - 87.

Lemma hex_val_char d : 0 <= d < 16 -> hex_val (hex_char d) = d.
Proof.
  intros Hd. unfold hex_val, hex_char.
  destruct (Z.ltb_spec d 10); rewrite bval_byt by lia.
  - destruct (Z.ltb_spec (48 + d) 58); lia.
  - destruct (Z.ltb_spec (87 + d) 58); lia.
Qed.

Lemma hex08_digits n :
  0 <= n < 2 ^ 32 ->
  exists ds, hex08 n = map hex_char ds /\ digits_ok 16 ds /\ length ds = 8%nat /\
    radix_value 16 ds = n.
Proof.
  intros Hn. destruct (radix_digits_spec 16 n) as (Hv & Hok & Hl & Hlow); [lia|lia|].
  set (ds := radix_digits 16 n) in *.
  assert (length ds <= 8)%nat as H8.
  { destruct (Z.eq_dec n 0) as [->|]; [vm_compute in ds; subst ds; cbn; lia|].
    destruct (Nat.le_gt_cases (length ds) 8); [done|]. specialize (Hlow ltac:(lia)).
    assert (16 ^ 8 <= 16 ^ (Z.of_nat (length ds) - 1)) by (apply Z.pow_le_mono_r; lia). lia. }
  exists (replicate (8 - length ds) 0 ++ ds). split_and!.
  - unfold hex08. fold ds. rewrite map_app, length_map. f_equal. by induction (8 - length ds)%nat; cbn; [|f_equal].
  - apply Forall_app. split; [apply Forall_replicate; lia|done].
  - len.
  - rewrite <- Hv. clear. unfold radix_value. rewrite fold_left_app. f_equal.
    induction (8 - length ds)%nat as [|k IH]; [done|]. exact IH.
Qed.

Lemma length_hex08 n : 0 <= n < 2 ^ 32 -> length (hex08 n) = 8%nat.
Proof. intros Hn. destruct (hex08_digits n Hn) as (ds & -> & _ & Hl & _). by rewrite length_map. Qed.

Lemma hex08_value n : 0 <= n < 2 ^ 32 -> radix_value 16 (map hex_val (hex08 n)) = n.
Proof.
  intros Hn. destruct (hex08_digits n Hn) as (ds & -> & Hok & _ & Hv). rewrite map_map.
  rewrite <- Hv. f_equal. rewrite <- (map_id ds) at 2. apply map_ext_in.
  intros d Hd. apply hex_val_char. by apply (proj1 (List.Forall_forall _ _) Hok).
Qed.

Lemma hex08_inj n m : 0 <= n < 2 ^ 32 -> 0 <= m < 2 ^ 32 -> hex08 n = hex08 m -> n = m.
Proof. intros Hn Hm E. by rewrite <- (hex08_value n), <- (hex08_value m), E. Qed.

(** None of the digits is a control character, a dot or a slash. *)
Lemma hex08_range n : 0 <= n < 2 ^ 32 -> Forall (fun c => 48 <= bval c < 128) (hex08 n).
Proof.
  intros Hn. destruct (hex08_digits n Hn) as (ds & -> & Hok & _). apply Forall_map.
  eapply Forall_impl; [exact Hok|]. cbn beta. intros d Hd. unfold hex_char.
  destruct (Z.ltb_spec d 10); rewrite bval_byt by lia; lia.
Qed.

(** ** Ranges of bytes, and writing at a position *)

(** Bytes [off, off + n) of a file or a block. *)
Definition range (c : bytes) (off n : Z) : bytes := take (Z.to_nat n) (drop (Z.to_nat off) c).

(** The file after writing [data] at [off]; a gap is filled with zeros. *)
Definition splice (c : bytes) (off : Z) (data : bytes) : bytes :=
  let o := Z.to_nat off in
  take o c ++ replicate (o - length c) x00 ++ data ++ drop (o + length data) c.

Lemma length_splice c off d :
  0 <= off -> size (splice c off d) = Z.max (size c) (off + size d).
Proof. intros. unfold splice, size. len. Qed.

Lemma range_app_l a b off n :
  0 <= off -> 0 <= n -> off + n <= size a -> range (a ++ b) off n = range a off n.
Proof.
  intros. unfold range, size in *. rewrite drop_app_le, take_app_le by len. done.
Qed.

Lemma range_app_r a b off n :
  size a <= off -> range (a ++ b) off n = range b (off - size a) n.
Proof.
  intros. unfold range, size in *. rewrite drop_app_ge by lia.
  do 3 f_equal. lia.
Qed.

(** What was written is what is read at the same place, *)
Lemma range_splice_same c off d :
  0 <= off -> range (splice c off d) off (size d) = d.
Proof.
  intros Ho. unfold range, splice, size. rewrite Nat2Z.id.
  rewrite drop_app_ge by len. rewrite drop_app_ge by len.
  replace (_ - _ - _)%nat with 0%nat by len. rewrite drop_0.
  by rewrite take_app_length.
Qed.

(** and the rest of the file is as before. *)
Lemma range_splice_other c off d o n :
  0 <= off -> 0 <= o -> 0 <= n -> o + n <= size c ->
  o + n <= off \/ off + size d <= o ->
  range (splice c off d) o n = range c o n.
Proof.
  intros Hoff Ho Hn Hc Hd. unfold range, splice, size in *.
  apply list_eq. intros i. rewrite !lookup_take. case_decide as Hi; [|done].
  rewrite !lookup_drop. destruct Hd.
  - rewrite lookup_app_l by len. rewrite lookup_take. case_decide; [done|lia].
  - rewrite lookup_app_r by len. rewrite lookup_app_r by len. rewrite lookup_app_r by len.
    rewrite lookup_drop. f_equal. len.
Qed.

Lemma range_all c : range c 0 (size c) = c.
Proof. unfold range, size. rewrite drop_0. apply take_ge. lia. Qed.

Lemma size_range c off n :
  0 <= off -> 0 <= n -> off + n <= size c -> size (range c off n) = n.
Proof. intros. unfold range, size in *. len. Qed.

(** A range of a range. *)
Lemma range_range c off n o m :
  0 <= off -> 0 <= o -> 0 <= m -> o + m <= n ->
  range (range c off n) o m = range c (off + o) m.
Proof.
  intros. unfold range. rewrite skipn_firstn_comm, drop_drop, take_take.
  f_equal; [lia|f_equal; lia].
Qed.
