(* ===== verification/Sixty.v ===== *)
(** * Base-60 numbers (src/bundle/sixty.h)

    [ToSixty] prints a non-negative [int64_t] in a 60-letter alphabet and
    [FromSixty] reads it back; they spell the id, offset, size and hash of
    the encoded urls. *)

From S2P Require Import Prelude CString.

(** ** Operations *)

Definition SixtyChar : bytes :=
  bs "ABCDEFGHJKLMNOPQRSTUVWXYZabcdefghjklmnopqrstuvwxyz0123456789".

(** The do-while loop of [ToSixty]: digits are pushed at the back, least
    significant first. *)
Fixpoint ToSixty_loop (fuel : nat) (number : Z) (result_str : bytes) : bytes :=
  match fuel with
  | O => result_str
  | S fuel =>
      let m := Z.rem number 60 in
      let result_str := result_str ++ [nth (Z.to_nat m) SixtyChar x00] in
      let number := Z.quot number 60 in
      if number =? 0 then result_str else ToSixty_loop fuel number result_str
  end.

(** 60^11 exceeds 2^63, so 11 iterations finish for every [int64_t]. *)
Definition ToSixty (number : Z) : bytes :=
  if number <? 0 then [] else rev (ToSixty_loop 11 number []).

Definition CharTable : list Z :=
  [50; 51; 52; 53; 54; 55; 56; 57; 58; 59; -1; -1; -1; -1; -1; -1; -1; 0; 1; 2;
   3; 4; 5; 6; 7; -1; 8; 9; 10; 11; 12; 13; 14; 15; 16; 17; 18; 19; 20; 21;
   22; 23; 24; -1; -1; -1; -1; -1; -1; 25; 26; 27; 28; 29; 30; 31; 32; -1;
   33; 34; 35; 36; 37; 38; 39; 40; 41; 42; 43; 44; 45; 46; 47; 48; 49].

Definition PowTable : list Z :=
  [1; 60; 3600; 216000; 12960000;
   777600000; 46656000000; 2799360000000;
   167961600000000; 10077696000000000; 604661760000000000].

(** The loop of [FromSixty] over the rest of the string, [ten] accumulated so
    far.  The position of [c] is [size - j - 1], the length of what follows.
    The signed products and sums wrap at 64 bits, which the test [ten < 0]
    relies on. *)
Fixpoint FromSixty_loop (s : bytes) (ten : Z) : Z :=
  match s with
  | [] => ten
  | c :: s =>
      let v := swrap 8 (bval c) in
      if (v <? 48) || (122 <? v) then -1
      else
        let index := nth (Z.to_nat (v - 48)) CharTable 0 in
        let ten := i64 (ten + i64 (index * nth (length s) PowTable 0)) in
        if ten <? 0 then -1 else FromSixty_loop s ten
  end.

Definition FromSixty (num_sixty : bytes) : Z :=
  let n := size num_sixty in
  if (11 <? n) || (n =? 0) then -1 else FromSixty_loop num_sixty 0.

(** ** The alphabet *)

Definition sixty_char (d : Z) : Init.Byte.byte := nth (Z.to_nat d) SixtyChar x00.

(** The digit a byte stands for in the table. *)
Definition sixty_digit (c : Init.Byte.byte) : option Z :=
  let v := swrap 8 (bval c) in
  if (v <? 48) || (122 <? v) then None
  else let i := nth (Z.to_nat (v - 48)) CharTable 0 in
       if i <? 0 then None else Some i.

(** A boolean fact about all base-60 digits, checked one by one. *)
Lemma forall_digit (f : Z -> bool) :
  forallb f (seqZ 0 60) = true -> forall d, 0 <= d < 60 -> f d = true.
Proof.
  intros H d Hd. rewrite forallb_forall in H. apply H, list_elem_of_In, elem_of_seqZ. lia.
Qed.

Lemma sixty_digit_char d : 0 <= d < 60 -> sixty_digit (sixty_char d) = Some d.
Proof.
  intros Hd. apply (bool_decide_eq_true_1 _). revert d Hd. apply forall_digit.
  vm_compute. reflexivity.
Qed.

(** No letter of the alphabet is one of the url separators or a NUL. *)
Lemma sixty_char_not_sep d :
  0 <= d < 60 -> sixty_char d ∉ (x00 :: bs ",/._").
Proof.
  intros Hd. apply (bool_decide_eq_true_1 _). revert d Hd. apply forall_digit.
  vm_compute. reflexivity.
Qed.

Lemma PowTable_pow n : (n <= 10)%nat -> nth n PowTable 0 = 60 ^ Z.of_nat n.
Proof. intros H. do 11 (destruct n as [|n]; [reflexivity|]). lia. Qed.

(** ** Printing *)

Lemma ToSixty_loop_radix fuel n acc :
  0 <= n ->
  rev (ToSixty_loop fuel n acc) = map sixty_char (radix_loop fuel 60 n []) ++ rev acc.
Proof.
  revert n acc. induction fuel as [|fuel IH]; intros n acc Hn; [done|].
  cbn [ToSixty_loop radix_loop].
  rewrite Z.rem_mod_nonneg, Z.quot_div_nonneg by lia.
  pose proof (Z.div_pos n 60 Hn ltac:(lia)).
  destruct (_ =? _).
  - by rewrite rev_app_distr.
  - rewrite IH, (radix_loop_acc _ _ _ [_]) by lia.
    by rewrite map_app, rev_app_distr, <- app_assoc.
Qed.

Lemma ToSixty_radix n :
  0 <= n < 2 ^ 63 -> ToSixty n = map sixty_char (radix_loop 11 60 n []).
Proof.
  intros Hn. unfold ToSixty. destruct (Z.ltb_spec n 0); [lia|].
  rewrite ToSixty_loop_radix by lia. by rewrite app_nil_r.
Qed.

Lemma ToSixty_spec n :
  0 <= n < 2 ^ 63 ->
  exists ds, ToSixty n = map sixty_char ds /\ digits_ok 60 ds /\
    radix_value 60 ds = n /\ (0 < length ds <= 11)%nat.
Proof.
  intros Hn.
  destruct (radix_loop_spec 60 11 n []) as (ds & E & Hv & Hok & Hlen & _);
    [lia|split; [lia|]; eapply Z.lt_trans; [apply Hn|reflexivity]|lia|].
  exists ds. rewrite ToSixty_radix, E, app_nil_r by done. auto.
Qed.

(** ** Reading *)

Lemma sixty_digit_range c d : sixty_digit c = Some d -> 0 <= d < 60.
Proof.
  unfold sixty_digit. intros H.
  destruct ((_ <? 48) || _) eqn:E; [done|].
  set (i := Z.to_nat (swrap 8 (bval c) - 48)) in *.
  destruct (Z.ltb_spec (nth i CharTable 0) 0) as [|Hi]; [done|].
  assert (d = nth i CharTable 0) as -> by congruence. split; [done|].
  assert (Forall (fun x => x < 60) CharTable) as Ht
    by (vm_compute; repeat constructor).
  destruct (nth_in_or_default i CharTable 0) as [Hin|Hd]; [|lia].
  by apply (proj1 (List.Forall_forall _ _) Ht).
Qed.

(** One iteration on a letter of the alphabet. *)
Lemma FromSixty_loop_digit c d s ten :
  sixty_digit c = Some d ->
  FromSixty_loop (c :: s) ten =
    (let ten := i64 (ten + i64 (d * nth (length s) PowTable 0)) in
     if ten <? 0 then -1 else FromSixty_loop s ten).
Proof.
  unfold sixty_digit. intros H. cbn [FromSixty_loop]. destruct (_ || _); [done|].
  destruct (_ <? 0); [done|]. by replace d with (nth (Z.to_nat (swrap 8 (bval c) - 48)) CharTable 0)
    by congruence.
Qed.

(** On letters of the alphabet the loop adds up their positional value as
    long as that fits an [int64_t]. *)
Lemma FromSixty_loop_digits ds ten :
  digits_ok 60 ds -> (length ds <= 11)%nat -> 0 <= ten ->
  ten + radix_value 60 ds < 2 ^ 63 ->
  FromSixty_loop (map sixty_char ds) ten = ten + radix_value 60 ds.
Proof.
  revert ten. induction ds as [|d ds IH]; intros ten Hok Hlen Hten Hfit.
  { cbn. lia. }
  inversion_clear Hok. cbn [length] in Hlen.
  rewrite radix_value_cons in *.
  pose proof (radix_value_bound 60 ds ltac:(lia) ltac:(done)) as Hb.
  pose proof (Z.pow_pos_nonneg 60 (Z.of_nat (length ds)) ltac:(lia) ltac:(lia)).
  cbn [map]. rewrite (FromSixty_loop_digit _ d) by (apply sixty_digit_char; lia).
  rewrite length_map, PowTable_pow by lia. cbv zeta.
  assert (0 <= d * 60 ^ Z.of_nat (length ds)) by nia.
  rewrite (i64_small (d * _)), i64_small by lia.
  destruct (Z.ltb_spec (ten + d * 60 ^ Z.of_nat (length ds)) 0); [lia|].
  rewrite IH by (done || lia). lia.
Qed.

Lemma FromSixty_digits ds :
  digits_ok 60 ds -> (0 < length ds <= 11)%nat -> radix_value 60 ds < 2 ^ 63 ->
  FromSixty (map sixty_char ds) = radix_value 60 ds.
Proof.
  intros Hok Hlen Hfit. unfold FromSixty, size. rewrite length_map.
  destruct (Z.ltb_spec 11 (Z.of_nat (length ds))); [lia|].
  destruct (Z.eqb_spec (Z.of_nat (length ds)) 0); [lia|].
  rewrite orb_false_r. cbn [orb]. rewrite FromSixty_loop_digits; try done; lia.
Qed.

(** ** Correctness *)

Lemma sixty_read_back n : 0 <= n < 2 ^ 63 -> FromSixty (ToSixty n) = n.
Proof.
  intros Hn. destruct (ToSixty_spec n Hn) as (ds & -> & Hok & Hv & Hlen).
  rewrite FromSixty_digits; [done|done|done|]. rewrite Hv. lia.
Qed.

(** Reading a printed number gives the number back for every non-negative
    [int64_t]; a negative one prints as the empty string, which reads as the
    error code. *)
Theorem FromSixty_ToSixty (n : Z) :
  - 2 ^ 63 <= n < 2 ^ 63 -> FromSixty (ToSixty n) = if 0 <=? n then n else -1.
Proof.
  intros Hn. destruct (Z.leb_spec 0 n); [apply sixty_read_back; lia|].
  unfold ToSixty. by destruct (Z.ltb_spec n 0); [|lia].
Qed.

(** The printed form has between one and eleven letters, all from the
    alphabet, so it never contains a url separator. *)
Lemma ToSixty_letters n :
  0 <= n < 2 ^ 63 ->
  (0 < length (ToSixty n) <= 11)%nat /\ Forall (.∉ (x00 :: bs ",/._")) (ToSixty n).
Proof.
  intros Hn. destruct (ToSixty_spec n Hn) as (ds & -> & Hok & _ & Hlen). split; [len|].
  apply Forall_map. eapply Forall_impl; [exact Hok|]. intros d Hd. by apply sixty_char_not_sep.
Qed.

(** Small numbers are short. *)
Lemma ToSixty_short n k : 0 <= n < 60 ^ Z.of_nat k -> (0 < k <= 10)%nat -> (length (ToSixty n) <= k)%nat.
Proof.
  intros Hn Hk. assert (60 ^ Z.of_nat k <= 60 ^ 10) by (apply Z.pow_le_mono_r; lia).
  assert (60 ^ 10 < 60 ^ Z.of_nat 11) by reflexivity. assert (60 ^ 10 < 2 ^ 63) by reflexivity.
  rewrite ToSixty_radix, length_map by lia. rewrite (radix_loop_fuel 60 11 k) by lia.
  destruct (radix_loop_spec 60 k n []) as (ds & -> & _ & _ & L & _); [lia|lia|lia|].
  rewrite app_nil_r. lia.
Qed.

Lemma ToSixty_negative n : n < 0 -> ToSixty n = [].
Proof. intros H. unfold ToSixty. by destruct (Z.ltb_spec n 0); [|lia]. Qed.

(** Two different non-negative [int64_t] never print the same. *)
Lemma ToSixty_inj a b :
  0 <= a < 2 ^ 63 -> 0 <= b < 2 ^ 63 -> ToSixty a = ToSixty b -> a = b.
Proof.
  intros Ha Hb E. rewrite <- (sixty_read_back a Ha), <- (sixty_read_back b Hb).
  by rewrite E.
Qed.

Lemma FromSixty_loop_range s ten :
  0 <= ten < 2 ^ 63 -> -1 <= FromSixty_loop s ten < 2 ^ 63.
Proof.
  revert ten. induction s as [|c s IH]; intros ten H; cbn [FromSixty_loop]; [lia|].
  destruct (_ || _); [lia|]. cbv zeta.
  set (t := i64 _). destruct (Z.ltb_spec t 0); [lia|].
  apply IH. pose proof (swrap_range 64 (ten + i64 (nth (Z.to_nat (swrap 8 (bval c) - 48))
    CharTable 0 * nth (length s) PowTable 0))) as Hr.
  fold t in Hr. cbn in Hr. lia.
Qed.

(** Whatever the text, the result is a non-negative [int64_t] or the error
    code -1. *)
Lemma FromSixty_range (s : bytes) : -1 <= FromSixty s < 2 ^ 63.
Proof.
  unfold FromSixty. destruct (_ || _); [lia|]. apply FromSixty_loop_range. lia.
Qed.

(** Encoding after decoding: a text of at most eleven alphabet letters
    whose value fits and that has no superfluous leading zero digit is exactly
    what printing the value read from it gives. *)
Theorem ToSixty_FromSixty (ds : list Z) :
  digits_ok 60 ds -> (0 < length ds <= 11)%nat -> radix_value 60 ds < 2 ^ 63 ->
  (forall t, ds = 0 :: t -> t = []) ->
  ToSixty (FromSixty (map sixty_char ds)) = map sixty_char ds.
Proof.
  intros Hok Hlen Hfit Hlead. rewrite FromSixty_digits by done.
  pose proof (radix_value_bound 60 ds ltac:(lia) Hok).
  rewrite ToSixty_radix by lia. by rewrite radix_loop_value by (done || lia).
Qed.

(** ** What the reader accepts beyond the alphabet *)

(** A byte between '0' and 'z' that is not a letter of the alphabet (such
    as 'I', 'l' or '_') counts as the digit -1 and is only noticed when the
    running total turns negative: after a letter of value [d >= 1] it is
    accepted, and the text reads as the number [60 * d - 1]. *)
Theorem FromSixty_foreign_letter (d : Z) (c : Init.Byte.byte) :
  1 <= d < 60 -> 48 <= bval c <= 122 -> sixty_digit c = None ->
  FromSixty [sixty_char d; c] = 60 * d - 1.
Proof.
  intros Hd Hc Hforeign. unfold FromSixty, size. cbn [length Z.of_nat Pos.of_succ_nat Pos.succ].
  change (FromSixty_loop [sixty_char d; c] 0 = 60 * d - 1).
  rewrite (FromSixty_loop_digit _ d) by (apply sixty_digit_char; lia). cbv zeta.
  cbn [length nth PowTable].
  rewrite (i64_small (d * 60)), i64_small by lia.
  destruct (Z.ltb_spec (0 + d * 60) 0); [lia|].
  cbn [FromSixty_loop]. unfold sixty_digit in Hforeign.
  rewrite (swrap_small 8) in * by lia.
  destruct (Z.ltb_spec (bval c) 48); [lia|]. destruct (Z.ltb_spec 122 (bval c)); [lia|].
  cbn [orb] in *.
  set (i := nth (Z.to_nat (bval c - 48)) CharTable 0) in *.
  assert (i = -1) as ->.
  { destruct (Z.ltb_spec i 0); [|done].
    assert (Forall (fun x => x < 0 -> x = -1) CharTable) as Ht
      by (repeat constructor; lia).
    destruct (nth_in_or_default (Z.to_nat (bval c - 48)) CharTable 0) as [Hin|Hd0].
    - exact (proj1 (List.Forall_forall _ _) Ht _ Hin ltac:(assumption)).
    - fold i in Hd0. lia. }
  cbn [length nth PowTable].
  rewrite (i64_small (-1 * 1)), i64_small by lia.
  destruct (Z.ltb_spec (0 + d * 60 + -1 * 1) 0); lia.
Qed.

(** The test for overflow is that the wrapped total is negative; a leading
    letter of value 31 wraps to a positive number and is accepted although it
    denotes more than 2^63. *)
Example FromSixty_overflow_accepted :
  2 ^ 63 <= radix_value 60 (31 :: replicate 10 0) /\
  FromSixty (map sixty_char (31 :: replicate 10 0)) = 297770486290448384.
Proof. split; [vm_compute; congruence|vm_compute; reflexivity]. Qed.

(** ** Values from the source's own test *)

Example sixty_max : ToSixty (2 ^ 63 - 1) = bs "QQOkhg5VQfH".
Proof. vm_compute. reflexivity. Qed.

Example sixty_over : FromSixty (bs "QQOkhg5VQfJ") = -1.
Proof. vm_compute. reflexivity. Qed.

Lemma FromSixty_ToSixty_witness :
  0 <= 3948475566 < 2 ^ 63 /\ FromSixty (ToSixty 3948475566) = 3948475566.
Proof. split; [lia|]. apply (FromSixty_ToSixty 3948475566). lia. Defined.

Lemma ToSixty_FromSixty_witness :
  ToSixty (FromSixty (map sixty_char [26; 0; 59])) = map sixty_char [26; 0; 59].
Proof.
  apply (ToSixty_FromSixty [26; 0; 59]).
  - repeat constructor; lia.
  - cbn; lia.
  - vm_compute; reflexivity.
  - intros t [=].
Defined.

Lemma FromSixty_foreign_letter_witness : FromSixty (bs "BI") = 59.
Proof. apply (FromSixty_foreign_letter 1 "I"); [lia|cbn; lia|reflexivity]. Defined.
