(* ===== verification/Murmur.v ===== *)
(** * MurmurHash2 (src/bundle/murmurhash2.cc)

    The 32-bit hash that seals the encoded urls, its variants, and the
    incremental hasher.  A key is the list of its bytes ([len] is the length of
    the list, below 2^31), words are little-endian, and every product wraps at
    the width of its type. *)

From S2P Require Import Prelude CString.

(** ** Operations *)

Definition m : Z := 0x5bd1e995.
Definition r : Z := 24.

Definition mul32 (a b : Z) : Z := u32 (a * b).

(** [k *= m; k ^= k >> r; k *= m;] *)
Definition mix_k (k : Z) : Z :=
  let k := mul32 k m in
  let k := Z.lxor k (Z.shiftr k r) in
  mul32 k m.

(** [mmix(h,k)] and [MIX(h,k,m)]: the word [k] is mixed and added to [h]. *)
Definition mmix (h k : Z) : Z := Z.lxor (mul32 h m) (mix_k k).

(** The word loop: it consumes four bytes per turn and leaves the tail. *)
Fixpoint word_loop (data : bytes) (h : Z) : Z * bytes :=
  match data with
  | b0 :: b1 :: b2 :: b3 :: data => word_loop data (mmix h (le_combine [b0; b1; b2; b3]))
  | tail => (h, tail)
  end.

(** The fall-through [switch(len)] on the tail. *)
Definition tail_switch (h : Z) (data : bytes) : Z :=
  match data with
  | [d0; d1; d2] =>
      let h := Z.lxor h (Z.shiftl (bval d2) 16) in
      let h := Z.lxor h (Z.shiftl (bval d1) 8) in
      let h := Z.lxor h (bval d0) in mul32 h m
  | [d0; d1] =>
      let h := Z.lxor h (Z.shiftl (bval d1) 8) in
      let h := Z.lxor h (bval d0) in mul32 h m
  | [d0] => let h := Z.lxor h (bval d0) in mul32 h m
  | _ => h
  end.

(** [h ^= h >> 13; h *= m; h ^= h >> 15;] *)
Definition final_mix (h : Z) : Z :=
  let h := Z.lxor h (Z.shiftr h 13) in
  let h := mul32 h m in
  Z.lxor h (Z.shiftr h 15).

Definition MurmurHash2 (key : bytes) (seed : Z) : Z :=
  let h := Z.lxor seed (u32 (size key)) in
  let '(h, tail) := word_loop key h in
  final_mix (tail_switch h tail).

(** *** MurmurHash2A and the incremental hasher *)

(** The tail bytes gathered into a word: [t ^= data[2] << 16; ...]. *)
Definition tail_word (data : bytes) : Z :=
  match data with
  | [d0; d1; d2] =>
      Z.lxor (Z.lxor (Z.lxor 0 (Z.shiftl (bval d2) 16)) (Z.shiftl (bval d1) 8)) (bval d0)
  | [d0; d1] => Z.lxor (Z.lxor 0 (Z.shiftl (bval d1) 8)) (bval d0)
  | [d0] => Z.lxor 0 (bval d0)
  | _ => 0
  end.

Definition MurmurHash2A (key : bytes) (seed : Z) : Z :=
  let l := u32 (size key) in
  let '(h, tail) := word_loop key seed in
  let t := tail_word tail in
  let h := mmix h t in
  let h := mmix h l in
  final_mix h.

(** Class [CMurmurHash2A]. *)
Record CMurmurHash2A := mkHasher {
  m_hash : Z;
  m_tail : Z;
  m_count : Z;
  m_size : Z;
}.

Definition Begin (seed : Z) : CMurmurHash2A :=
  {| m_hash := seed; m_tail := 0; m_count := 0; m_size := 0 |}.

(** One turn of the loop in [MixTail]. *)
Definition MixTail_byte (s : CMurmurHash2A) (c : Init.Byte.byte) : CMurmurHash2A :=
  let tail := u32 (Z.lor (m_tail s) (Z.shiftl (bval c) (m_count s * 8))) in
  let count := u32 (m_count s + 1) in
  if count =? 4
  then {| m_hash := mmix (m_hash s) tail; m_tail := 0; m_count := 0; m_size := m_size s |}
  else {| m_hash := m_hash s; m_tail := tail; m_count := count; m_size := m_size s |}.

(** [while( len && ((len<4) || m_count) )]; returns what is left of [data]. *)
Fixpoint MixTail (s : CMurmurHash2A) (data : bytes) : CMurmurHash2A * bytes :=
  match data with
  | [] => (s, [])
  | c :: data' =>
      if (size data <? 4) || negb (m_count s =? 0)
      then MixTail (MixTail_byte s c) data'
      else (s, data)
  end.

Definition Add (s : CMurmurHash2A) (data : bytes) : CMurmurHash2A :=
  let s := {| m_hash := m_hash s; m_tail := m_tail s; m_count := m_count s;
              m_size := u32 (m_size s + size data) |} in
  let '(s, data) := MixTail s data in
  let '(h, data) := word_loop data (m_hash s) in
  let s := {| m_hash := h; m_tail := m_tail s; m_count := m_count s; m_size := m_size s |} in
  fst (MixTail s data).

Definition End_ (s : CMurmurHash2A) : Z :=
  let h := mmix (m_hash s) (m_tail s) in
  let h := mmix h (m_size s) in
  final_mix h.

(** *** The endian-neutral and the aligned variant *)

(** [k = data[0]; k |= data[1] << 8; ...] *)
Fixpoint neutral_loop (data : bytes) (h : Z) : Z * bytes :=
  match data with
  | d0 :: d1 :: d2 :: d3 :: data =>
      let k := bval d0 in
      let k := Z.lor k (Z.shiftl (bval d1) 8) in
      let k := Z.lor k (Z.shiftl (bval d2) 16) in
      let k := Z.lor k (Z.shiftl (bval d3) 24) in
      let k := mul32 k m in
      let k := Z.lxor k (Z.shiftr k r) in
      let k := mul32 k m in
      let h := mul32 h m in
      let h := Z.lxor h k in
      neutral_loop data h
  | tail => (h, tail)
  end.

Definition MurmurHashNeutral2 (key : bytes) (seed : Z) : Z :=
  let h := Z.lxor seed (u32 (size key)) in
  let '(h, tail) := neutral_loop key h in
  final_mix (tail_switch h tail).

(** The bytes before the first aligned word: [switch(align)] with cases 1, 2, 3. *)
Definition align_head (align : Z) (data : bytes) : Z :=
  let d i := bval (nth i data x00) in
  if align =? 1 then Z.lor (Z.lor (Z.lor 0 (Z.shiftl (d 2%nat) 16)) (Z.shiftl (d 1%nat) 8)) (d 0%nat)
  else if align =? 2 then Z.lor (Z.lor 0 (Z.shiftl (d 1%nat) 8)) (d 0%nat)
  else if align =? 3 then Z.lor 0 (d 0%nat)
  else 0.

(** The trailing [switch(n)] that gathers [n] bytes into [d]: cases 3, 2, 1. *)
Definition gather (n : Z) (data : bytes) : Z :=
  let d i := bval (nth i data x00) in
  if n =? 3 then Z.lor (Z.lor (Z.lor 0 (Z.shiftl (d 2%nat) 16)) (Z.shiftl (d 1%nat) 8)) (d 0%nat)
  else if n =? 2 then Z.lor (Z.lor 0 (Z.shiftl (d 1%nat) 8)) (d 0%nat)
  else if n =? 1 then Z.lor 0 (d 0%nat)
  else 0.

(** [(t >> sr) | (d << sl)] *)
Definition splice_words (sr sl t d : Z) : Z := Z.lor (Z.shiftr t sr) (u32 (Z.shiftl d sl)).

(** The loop over aligned words; it returns [h], the word [t] read last, and
    the bytes left. *)
Fixpoint aligned_loop (sr sl : Z) (data : bytes) (h t : Z) : Z * Z * bytes :=
  match data with
  | b0 :: b1 :: b2 :: b3 :: data =>
      let d := le_combine [b0; b1; b2; b3] in
      let k := splice_words sr sl t d in
      aligned_loop sr sl data (mmix h k) d
  | tail => (h, t, tail)
  end.

(** [align] is the key's address modulo 4. *)
Definition MurmurHashAligned2 (align : Z) (key : bytes) (seed : Z) : Z :=
  let h := Z.lxor seed (u32 (size key)) in
  if negb (align =? 0) && (4 <=? size key) then
    let t := align_head align key in
    let t := u32 (Z.shiftl t (8 * align)) in
    let data := drop (Z.to_nat (4 - align)) key in
    let sl := 8 * (4 - align) in
    let sr := 8 * align in
    let '(h, t, data) := aligned_loop sr sl data h t in
    if align <=? size data then
      let d := gather align data in
      let k := splice_words sr sl t d in
      let h := mmix h k in
      let data := drop (Z.to_nat align) data in
      final_mix (tail_switch h data)
    else
      let d := gather (size data) data in
      let h := Z.lxor h (splice_words sr sl t d) in
      final_mix (mul32 h m)
  else
    let '(h, tail) := word_loop key h in
    final_mix (tail_switch h tail).

(** ** Ranges *)

Lemma mul32_range a b : 0 <= mul32 a b < 2 ^ 32.
Proof. apply wrap_range. lia. Qed.

Lemma mix_k_range k : 0 <= mix_k k < 2 ^ 32.
Proof. apply mul32_range. Qed.

Lemma mmix_range h k : 0 <= mmix h k < 2 ^ 32.
Proof. apply lxor_range; [lia|apply mul32_range|apply mix_k_range]. Qed.

Lemma final_mix_range h : 0 <= final_mix h < 2 ^ 32.
Proof.
  unfold final_mix. apply lxor_range; [lia|apply mul32_range|].
  apply shiftr_range; [lia|lia|apply mul32_range].
Qed.

Lemma word_loop_range data h :
  0 <= h < 2 ^ 32 -> 0 <= fst (word_loop data h) < 2 ^ 32.
Proof.
  revert h. induction data as [l Hl|a b c d l IH] using list_ind4; intros h Hh.
  - by destruct l as [|? [|? [|? [|? ?]]]]; cbn in Hl; try lia.
  - apply IH, mmix_range.
Qed.

Lemma word_loop_short l h : (length l < 4)%nat -> word_loop l h = (h, l).
Proof. by destruct l as [|? [|? [|? [|? ?]]]]; cbn; try lia. Qed.

(** The hash is a 32-bit value. *)
Lemma MurmurHash2_range (key : bytes) (seed : Z) : 0 <= MurmurHash2 key seed < 2 ^ 32.
Proof. unfold MurmurHash2. destruct (word_loop _ _). apply final_mix_range. Qed.

(** ** Words and tails as little-endian numbers *)

Lemma tail_word_le l : (length l < 4)%nat -> tail_word l = le_combine l.
Proof.
  destruct l as [|d0 [|d1 [|d2 [|? ?]]]]; intros Hl; cbn in Hl; try lia;
    unfold tail_word; rewrite ?le_combine_cons, ?le_combine_nil, ?Z.lxor_0_l; [done|lia|..].
  - pose proof (bval_range d0). rewrite lxor_shiftl_add by lia. lia.
  - pose proof (bval_range d0). pose proof (bval_range d1).
    rewrite Z.lxor_assoc, (lxor_shiftl_add (bval d0)), lxor_shiftl_add by lia. lia.
Qed.

Lemma tail_switch_le h l :
  (0 < length l < 4)%nat -> tail_switch h l = mul32 (Z.lxor h (le_combine l)) m.
Proof.
  intros Hl. rewrite <- tail_word_le by lia.
  destruct l as [|d0 [|d1 [|d2 [|? ?]]]]; cbn in Hl; try lia;
    unfold tail_switch, tail_word; by rewrite ?Z.lxor_0_l, ?Z.lxor_assoc.
Qed.

Lemma word_loop_app p q h :
  (length p mod 4 = 0)%nat -> word_loop (p ++ q) h = word_loop q (fst (word_loop p h)).
Proof.
  revert h. induction p as [l Hl|a b c d l IH] using list_ind4; intros h Hm.
  - rewrite Nat.mod_small in Hm by done. by destruct l.
  - cbn [app word_loop]. apply IH. cbn [length] in Hm.
    rewrite <- (Nat.Div0.mod_add _ 1). by rewrite Nat.add_comm.
Qed.

Lemma word_loop_word w q h :
  length w = 4%nat -> word_loop (w ++ q) h = word_loop q (mmix h (le_combine w)).
Proof. by destruct w as [|a [|b [|c [|d [|? ?]]]]]; cbn; try lia. Qed.

(** What is left after the loop: the bytes past the last whole word. *)
Lemma word_loop_tail data h : snd (word_loop data h) = drop (length data / 4 * 4) data.
Proof.
  revert h. induction data as [l Hl|a b c d l IH] using list_ind4; intros h.
  - rewrite word_loop_short, Nat.div_small by done. done.
  - cbn [word_loop]. rewrite IH. cbn [length].
    replace (S (S (S (S (length l))))) with (length l + 1 * 4)%nat by lia.
    rewrite Nat.div_add by done.
    by replace ((length l / 4 + 1) * 4)%nat with (S (S (S (S (length l / 4 * 4))))) by lia.
Qed.

(** ** The endian-neutral variant *)

Lemma neutral_word a b c d :
  Z.lor (Z.lor (Z.lor (bval a) (Z.shiftl (bval b) 8)) (Z.shiftl (bval c) 16))
    (Z.shiftl (bval d) 24) = le_combine [a; b; c; d].
Proof.
  pose proof (bval_range a). pose proof (bval_range b). pose proof (bval_range c).
  rewrite !le_combine_cons, le_combine_nil.
  rewrite (lor_shiftl_add (bval a)) by lia.
  rewrite (lor_shiftl_add (_ + _)) by lia.
  rewrite lor_shiftl_add by lia. lia.
Qed.

Lemma neutral_loop_eq data h : neutral_loop data h = word_loop data h.
Proof.
  revert h. induction data as [l Hl|a b c d l IH] using list_ind4; intros h.
  - by destruct l as [|? [|? [|? [|? ?]]]]; cbn in Hl; try lia.
  - cbn [neutral_loop word_loop]. cbv zeta. rewrite IH, neutral_word. done.
Qed.

(** The endian-neutral variant computes the same hash (on the
    little-endian machine the plain variant is written for). *)
Theorem MurmurHashNeutral2_eq (key : bytes) (seed : Z) :
  MurmurHashNeutral2 key seed = MurmurHash2 key seed.
Proof. unfold MurmurHashNeutral2, MurmurHash2. by rewrite neutral_loop_eq. Qed.

(** ** The aligned variant *)

Lemma lor_shiftl_add' a b k :
  0 <= k -> 0 <= a < 2 ^ k -> Z.lor (Z.shiftl b k) a = a + b * 2 ^ k.
Proof. rewrite Z.lor_comm. apply lor_shiftl_add. Qed.

Lemma gather_take n data :
  0 <= n <= 3 -> n <= size data -> gather n data = le_combine (take (Z.to_nat n) data).
Proof.
  unfold size. intros Hn Hs.
  assert (n = 0 \/ n = 1 \/ n = 2 \/ n = 3) as [-> | [-> | [-> | ->]]] by lia;
    destruct data as [|d0 [|d1 [|d2 data]]]; cbn in Hs; try lia; try done.
  all: pose proof (bval_range d0); try pose proof (bval_range d1).
  all: unfold gather; cbn [Z.eqb Pos.eqb nth].
  all: change (Z.to_nat 1) with 1%nat; change (Z.to_nat 2) with 2%nat;
    change (Z.to_nat 3) with 3%nat; cbn [take].
  all: rewrite ?take_0, ?le_combine_cons, le_combine_nil, ?Z.lor_0_l, <- ?Z.lor_assoc.
  all: rewrite ?(lor_shiftl_add' (bval d0)) by lia; rewrite ?lor_shiftl_add' by lia; lia.
Qed.

Lemma align_head_gather align data :
  1 <= align <= 3 -> align_head align data = gather (4 - align) data.
Proof.
  intros H. assert (align = 1 \/ align = 2 \/ align = 3) as [-> | [-> | ->]] by lia; done.
Qed.

(** The state of the aligned loop: the high bytes of [t] are the bytes
    [pend] that are read but not yet mixed. *)
Definition pending (align t : Z) (pend : bytes) : Prop :=
  Z.shiftr t (8 * align) = le_combine pend /\ size pend = 4 - align.

Lemma splice_words_le align t d pend :
  1 <= align <= 3 -> pending align t pend ->
  splice_words (8 * align) (8 * (4 - align)) t d =
    le_combine pend + d mod 2 ^ (8 * align) * 2 ^ (8 * (4 - align)).
Proof.
  intros Ha [Ht Hp]. unfold splice_words, wrap. rewrite Ht.
  assert (Z.shiftl d (8 * (4 - align)) mod 2 ^ 32 =
    Z.shiftl (d mod 2 ^ (8 * align)) (8 * (4 - align))) as ->.
  { rewrite !Z.shiftl_mul_pow2 by lia.
    replace (2 ^ 32) with (2 ^ (8 * align) * 2 ^ (8 * (4 - align)))
      by (rewrite <- Z.pow_add_r by lia; f_equal; lia).
    rewrite Z.mul_mod_distr_r; [done|..]; apply Z.pow_nonzero; lia. }
  apply lor_shiftl_add; [lia|]. rewrite <- Hp. apply le_combine_range.
Qed.

(** The spliced word is the word made of the pending bytes and the next
    [align] bytes. *)
Lemma splice_words_take align t d pend w :
  1 <= align <= 3 -> pending align t pend ->
  d mod 2 ^ (8 * align) = le_combine (take (Z.to_nat align) w) ->
  splice_words (8 * align) (8 * (4 - align)) t d = le_combine (pend ++ take (Z.to_nat align) w).
Proof.
  intros Ha Hp Hd. rewrite (splice_words_le align t d pend), le_combine_app_add, Hd by done.
  destruct Hp as [_ Hp]. unfold size in Hp. by rewrite Hp.
Qed.

Lemma le_combine_take align w :
  0 <= align -> le_combine w mod 2 ^ (8 * align) = le_combine (take (Z.to_nat align) w).
Proof. intros Ha. rewrite le_combine_firstn. by rewrite Z2Nat.id. Qed.

Lemma pending_word align w :
  1 <= align <= 3 -> length w = 4%nat ->
  pending align (le_combine w) (drop (Z.to_nat align) w).
Proof.
  intros Ha Hw. split; [|unfold size; rewrite length_drop; lia].
  rewrite <- (take_drop (Z.to_nat align) w) at 1.
  rewrite le_combine_app_add, length_take, Hw, Z.shiftr_div_pow2 by lia.
  replace (8 * Z.of_nat (Z.to_nat align `min` 4)) with (8 * align) by lia.
  rewrite Z.div_add by (apply Z.pow_nonzero; lia).
  rewrite Z.div_small; [lia|].
  pose proof (le_combine_range (take (Z.to_nat align) w)) as Hr.
  rewrite length_take, Hw in Hr.
  by replace (8 * Z.of_nat (Z.to_nat align `min` 4)) with (8 * align) in Hr by lia.
Qed.

(** The aligned loop simulates the word loop on the pending bytes followed by
    the unread ones. *)
Lemma aligned_loop_sim align data h t pend :
  1 <= align <= 3 -> pending align t pend ->
  let '(h', t', rest) := aligned_loop (8 * align) (8 * (4 - align)) data h t in
  exists pend', pending align t' pend' /\ (length rest < 4)%nat /\
    word_loop (pend ++ data) h = word_loop (pend' ++ rest) h'.
Proof.
  intros Ha. revert h t pend.
  induction data as [l Hl|a b c d l IH] using list_ind4; intros h t pend Hp.
  - assert (aligned_loop (8 * align) (8 * (4 - align)) l h t = (h, t, l)) as ->
      by (by destruct l as [|? [|? [|? [|? ?]]]]; cbn in Hl; try lia).
    by exists pend.
  - cbn [aligned_loop]. cbv zeta. set (w := [a; b; c; d]).
    rewrite (splice_words_take align t _ pend w) by (done || apply le_combine_take; lia).
    specialize (IH (mmix h (le_combine (pend ++ take (Z.to_nat align) w))) (le_combine w)
      (drop (Z.to_nat align) w) (pending_word align w Ha eq_refl)).
    destruct (aligned_loop _ _ l _ _) as [[h' t'] rest].
    destruct IH as (pend' & Hp' & Hr & E). exists pend'. split_and!; [done|done|].
    rewrite <- E. change (a :: b :: c :: d :: l) with (w ++ l).
    rewrite <- (take_drop (Z.to_nat align) w) at 1.
    rewrite <- app_assoc, app_assoc. apply word_loop_word.
    destruct Hp as [_ Hs]. unfold size in Hs. rewrite length_app, length_take. cbn [w length]. lia.
Qed.

(** Reading only aligned words gives the same hash at every address. *)
Theorem MurmurHashAligned2_eq (align : Z) (key : bytes) (seed : Z) :
  0 <= align <= 3 -> MurmurHashAligned2 align key seed = MurmurHash2 key seed.
Proof.
  intros Ha. unfold MurmurHashAligned2, MurmurHash2.
  destruct (Z.eqb_spec align 0) as [|Hne]; [done|].
  destruct (Z.leb_spec 4 (size key)) as [Hs|]; [|done]. cbn [negb andb].
  set (h0 := Z.lxor seed _). set (pend := take (Z.to_nat (4 - align)) key).
  assert (pending align (u32 (Z.shiftl (align_head align key) (8 * align))) pend) as Hp.
  { rewrite align_head_gather, gather_take by lia. fold pend.
    assert (size pend = 4 - align) as Hsz
      by (unfold pend, size in *; rewrite length_take; lia).
    split; [|done]. pose proof (le_combine_range pend) as Hr. fold (size pend) in Hr.
    rewrite Hsz in Hr. rewrite wrap_small.
    - rewrite Z.shiftr_shiftl_l, Z.sub_diag by lia. apply Z.shiftl_0_r.
    - rewrite Z.shiftl_mul_pow2 by lia.
      replace (2 ^ 32) with (2 ^ (8 * (4 - align)) * 2 ^ (8 * align))
        by (rewrite <- Z.pow_add_r by lia; f_equal; lia).
      pose proof (Z.pow_pos_nonneg 2 (8 * align) ltac:(lia) ltac:(lia)). nia. }
  pose proof (aligned_loop_sim align (drop (Z.to_nat (4 - align)) key) h0 _ pend
    ltac:(lia) Hp) as Hsim.
  destruct (aligned_loop _ _ _ _ _) as [[h t] rest].
  destruct Hsim as (pend' & Hp' & Hr & E). unfold pend in E. rewrite take_drop in E. rewrite E.
  pose proof Hp' as [_ Hs']. unfold size in Hs'.
  destruct (Z.leb_spec align (size rest)) as [Hal|Hal]; unfold size in Hal.
  - rewrite (splice_words_take align t _ pend' rest); [|lia|done|].
    2:{ rewrite gather_take by (unfold size; lia).
        rewrite <- le_combine_take, Z.mod_mod by (lia || apply Z.pow_nonzero; lia). done. }
    rewrite <- (take_drop (Z.to_nat align) rest) at 3. rewrite app_assoc.
    rewrite word_loop_word by (rewrite length_app, length_take; lia).
    by rewrite word_loop_short by (rewrite length_drop; lia).
  - rewrite word_loop_short, tail_switch_le by (rewrite length_app; lia).
    do 3 f_equal.
    rewrite (splice_words_le align t _ pend'), le_combine_app_add by (lia || done).
    rewrite gather_take by (unfold size; lia). unfold size. rewrite Nat2Z.id, take_ge by lia.
    rewrite Z.mod_small; [by rewrite Hs'|].
    pose proof (le_combine_range rest). split; [lia|].
    eapply Z.lt_le_trans; [apply H|]. apply Z.pow_le_mono_r; lia.
Qed.

(** ** The incremental hasher *)

Lemma word_loop_app_tail p q h :
  word_loop (p ++ q) h = word_loop (snd (word_loop p h) ++ q) (fst (word_loop p h)).
Proof.
  revert h. induction p as [l Hl|a b c d l IH] using list_ind4; intros h.
  - rewrite (word_loop_short l) by done. done.
  - cbn [app word_loop]. apply IH.
Qed.

Lemma word_loop_tail_short data h : (length (snd (word_loop data h)) < 4)%nat.
Proof.
  revert h. induction data as [l Hl|a b c d l IH] using list_ind4; intros h.
  - rewrite (word_loop_short l) by done. done.
  - apply IH.
Qed.

(** The bytes [data] have been absorbed: whole words are in the hash, the
    rest is in the tail.  ([m_size] is counted separately by [Add].) *)
Definition absorbed (seed : Z) (data : bytes) (s : CMurmurHash2A) : Prop :=
  let '(h, t) := word_loop data seed in
  m_hash s = h /\ m_tail s = le_combine t /\ m_count s = size t.

Lemma absorbed_byte seed data c s :
  absorbed seed data s -> absorbed seed (data ++ [c]) (MixTail_byte s c).
Proof.
  unfold absorbed. rewrite word_loop_app_tail.
  pose proof (word_loop_tail_short data seed) as Ht.
  destruct (word_loop data seed) as [h t]. cbn [fst snd] in *. intros (Hh & Htl & Hc).
  unfold MixTail_byte. rewrite Hh, Htl, Hc. unfold size in *.
  assert (u32 (Z.of_nat (length t) + 1) = Z.of_nat (length t) + 1) as ->
    by (apply wrap_small; lia).
  assert (u32 (Z.lor (le_combine t) (Z.shiftl (bval c) (Z.of_nat (length t) * 8))) =
    le_combine (t ++ [c])) as ->.
  { rewrite <- le_combine_1, <- le_combine_app. apply wrap_small.
    pose proof (le_combine_range (t ++ [c])) as Hr. rewrite length_app in Hr. cbn [length] in Hr.
    split; [lia|]. eapply Z.lt_le_trans; [apply Hr|]. apply Z.pow_le_mono_r; lia. }
  destruct (Z.eqb_spec (Z.of_nat (length t) + 1) 4).
  - assert (word_loop (t ++ [c]) h = (mmix h (le_combine (t ++ [c])), [])) as ->; [|done].
    pose proof (word_loop_word (t ++ [c]) [] h) as Hw. rewrite app_nil_r in Hw.
    rewrite Hw by (rewrite length_app; cbn; lia). done.
  - rewrite word_loop_short by (rewrite length_app; cbn; lia). cbn [m_hash m_tail m_count].
    rewrite length_app. cbn [length]. split_and!; [done|done|lia].
Qed.

(** [MixTail] absorbs a prefix of the data and stops at its end or when the
    tail is empty and a whole word can be read. *)
Lemma MixTail_spec seed pre data s :
  absorbed seed pre s ->
  let '(s', rest) := MixTail s data in
  exists used, data = used ++ rest /\ absorbed seed (pre ++ used) s' /\
    m_size s' = m_size s /\ (rest = [] \/ (m_count s' = 0 /\ 4 <= size rest)).
Proof.
  revert pre s. induction data as [|c data IH]; intros pre s Hs.
  - exists []. rewrite (app_nil_r pre). split_and!; auto.
  - cbn [MixTail]. destruct (Z.ltb_spec (size (c :: data)) 4) as [Hlt|Hge];
      [|destruct (Z.eqb_spec (m_count s) 0) as [Hc|Hc]]; cbn [orb negb].
    2:{ exists []. rewrite (app_nil_r pre). split_and!; auto. }
    all: specialize (IH (pre ++ [c]) (MixTail_byte s c) (absorbed_byte _ _ _ _ Hs));
      destruct (MixTail (MixTail_byte s c) data) as [s' rest];
      destruct IH as (used & -> & Ha & Hsz & Hr); exists (c :: used);
      rewrite <- app_assoc in Ha; (split_and!; [done|done| |done]); rewrite Hsz;
      unfold MixTail_byte; by destruct (_ =? 4).
Qed.

(** The abstraction of a hasher: the seed and the bytes added so far. *)
Definition hasher_of (seed : Z) (data : bytes) (s : CMurmurHash2A) : Prop :=
  absorbed seed data s /\ m_size s = u32 (size data).

Lemma Begin_hasher seed : hasher_of seed [] (Begin seed).
Proof. repeat split. Qed.

(** After a word loop from an empty tail the state has absorbed the words. *)
Lemma absorbed_words seed pre data s :
  absorbed seed pre s -> m_count s = 0 ->
  let '(h, t) := word_loop data (m_hash s) in
  exists used, data = used ++ t /\ (length t < 4)%nat /\
    absorbed seed (pre ++ used)
      {| m_hash := h; m_tail := m_tail s; m_count := m_count s; m_size := m_size s |}.
Proof.
  unfold absorbed. intros Hs Hc. destruct (word_loop pre seed) as [h0 t0] eqn:E.
  destruct Hs as (Hh & Ht & Hn). unfold size in Hn. 
  assert (t0 = []) as -> by (apply length_zero_iff_nil; lia).
  rewrite Hh. pose proof (word_loop_tail data h0) as Htail.
  pose proof (word_loop_tail_short data h0) as Hshort.
  destruct (word_loop data h0) as [h t] eqn:Ed. cbn [snd] in *.
  exists (take (length data / 4 * 4) data). rewrite Htail at 1. rewrite take_drop.
  split_and!; [done|done|].
  rewrite word_loop_app_tail, E. cbn [fst snd app].
  assert (length (take (length data / 4 * 4) data) mod 4 = 0)%nat as Hm.
  { rewrite length_take, Nat.min_l by (pose proof (Nat.div_mod_eq (length data) 4); lia).
    apply Nat.Div0.mod_mul. }
  pose proof (word_loop_app _ (drop (length data / 4 * 4) data) h0 Hm) as Ha.
  rewrite take_drop, Ed in Ha. rewrite (word_loop_short (drop _ _)) in Ha by (by rewrite <- Htail).
  pose proof (word_loop_tail (take (length data / 4 * 4) data) h0) as Ht2.
  destruct (word_loop (take _ data) h0) as [h2 t2]. cbn [fst snd] in *.
  assert (t2 = []) as ->.
  { rewrite Ht2. apply drop_ge.
    pose proof (Nat.div_mod_eq (length (take (length data / 4 * 4) data)) 4). lia. }
  cbn. split_and!; [congruence|done|done].
Qed.

Lemma Add_hasher seed pre data s :
  hasher_of seed pre s -> hasher_of seed (pre ++ data) (Add s data).
Proof.
  intros [Hs Hsz]. unfold Add.
  set (s0 := {| m_hash := _ |}).
  assert (absorbed seed pre s0) as H0 by exact Hs.
  pose proof (MixTail_spec seed pre data s0 H0) as H1.
  destruct (MixTail s0 data) as [s1 rest]. destruct H1 as (u1 & -> & H1 & Hz1 & Hr).
  assert (m_size s0 = u32 (size (pre ++ u1 ++ rest))) as Hz0.
  { cbn. rewrite Hsz, !size_app. unfold wrap. by rewrite Zplus_mod_idemp_l. }
  destruct Hr as [-> | [Hc _]].
  - cbn. rewrite app_nil_r in *. split; [exact H1|]. cbn. congruence.
  - pose proof (absorbed_words seed (pre ++ u1) rest s1 H1 Hc) as H2.
    destruct (word_loop rest (m_hash s1)) as [h t]. destruct H2 as (u2 & -> & Ht & H2).
    pose proof (MixTail_spec seed _ t _ H2) as H3.
    destruct (MixTail _ t) as [s3 rest3]. destruct H3 as (u3 & -> & H3 & Hz3 & Hr3).
    assert (rest3 = []) as ->.
    { destruct Hr3 as [|[_ Hge]]; [done|]. unfold size in Hge. rewrite length_app in Ht. lia. }
    rewrite app_nil_r in *. cbn [fst]. rewrite <- !app_assoc in H3.
    split; [exact H3|]. cbn in Hz3. congruence.
Qed.

Lemma End_hasher seed data s : hasher_of seed data s -> End_ s = MurmurHash2A data seed.
Proof.
  intros [Hs Hsz]. unfold absorbed in Hs. unfold End_, MurmurHash2A.
  pose proof (word_loop_tail_short data seed) as Ht.
  destruct (word_loop data seed) as [h t]. destruct Hs as (-> & -> & _).
  rewrite Hsz. cbn [snd] in Ht. by rewrite tail_word_le.
Qed.

(** C25: Hashing incrementally, with the data cut into any chunks, gives the
    hash of the whole data in one go. *)
Theorem incremental_hash (seed : Z) (chunks : list bytes) :
  End_ (fold_left Add chunks (Begin seed)) = MurmurHash2A (concat chunks) seed.
Proof.
  apply End_hasher.
  assert (forall pre s, hasher_of seed pre s ->
    hasher_of seed (pre ++ concat chunks) (fold_left Add chunks s)) as H.
  { induction chunks as [|c cs IH]; intros pre s Hs; cbn.
    - by rewrite app_nil_r.
    - rewrite app_assoc. by apply IH, Add_hasher. }
  apply (H []), Begin_hasher.
Qed.

(** ** Changes of one word are always detected *)

Lemma m_inverse : wrap 32 (m * 0xe59b19bd) = 1.
Proof. reflexivity. Qed.

Lemma mul_m_inj a b :
  0 <= a < 2 ^ 32 -> 0 <= b < 2 ^ 32 -> mul32 a m = mul32 b m -> a = b.
Proof. intros Ha Hb. apply (mul_wrap_inj 32 m 0xe59b19bd); (done || lia). Qed.

Lemma mix_k_inj a b :
  0 <= a < 2 ^ 32 -> 0 <= b < 2 ^ 32 -> mix_k a = mix_k b -> a = b.
Proof.
  intros Ha Hb E. pose proof (mul32_range a m). pose proof (mul32_range b m).
  assert (forall x, 0 <= Z.lxor (mul32 x m) (Z.shiftr (mul32 x m) r) < 2 ^ 32) as Hr.
  { intros x. apply lxor_range; [lia|apply mul32_range|].
    apply shiftr_range; [lia|done|apply mul32_range]. }
  apply mul_m_inj, xorshift_inj in E; [|try apply Hr; done || lia ..].
  by apply mul_m_inj in E.
Qed.

Lemma mmix_inj_k h a b :
  0 <= a < 2 ^ 32 -> 0 <= b < 2 ^ 32 -> mmix h a = mmix h b -> a = b.
Proof. intros Ha Hb E. apply lxor_cancel_l in E. by apply mix_k_inj in E. Qed.

Lemma mmix_inj_h k a b :
  0 <= a < 2 ^ 32 -> 0 <= b < 2 ^ 32 -> mmix a k = mmix b k -> a = b.
Proof. intros Ha Hb E. apply lxor_cancel_r in E. by apply mul_m_inj in E. Qed.

Lemma word_loop_inj data a b :
  0 <= a < 2 ^ 32 -> 0 <= b < 2 ^ 32 ->
  fst (word_loop data a) = fst (word_loop data b) -> a = b.
Proof.
  revert a b. induction data as [l Hl|w x y z l IH] using list_ind4; intros a b Ha Hb E.
  - by rewrite !word_loop_short in E.
  - cbn [word_loop] in E. apply IH in E; [|apply mmix_range..]. by apply mmix_inj_h in E.
Qed.

Lemma tail_switch_inj t a b :
  (length t < 4)%nat -> 0 <= a < 2 ^ 32 -> 0 <= b < 2 ^ 32 ->
  tail_switch a t = tail_switch b t -> a = b.
Proof.
  intros Ht Ha Hb E. destruct t as [|d t]; [done|].
  rewrite !tail_switch_le in E by (cbn in *; lia).
  pose proof (le_combine_range (d :: t)) as Hr.
  assert (0 <= le_combine (d :: t) < 2 ^ 32) as Hl.
  { split; [lia|]. eapply Z.lt_le_trans; [apply Hr|]. apply Z.pow_le_mono_r; lia. }
  apply mul_m_inj in E; [|by apply lxor_range..]. by apply lxor_cancel_r in E.
Qed.

Lemma final_mix_inj a b :
  0 <= a < 2 ^ 32 -> 0 <= b < 2 ^ 32 -> final_mix a = final_mix b -> a = b.
Proof.
  intros Ha Hb E. unfold final_mix in E.
  apply xorshift_inj in E; [|lia|apply mul32_range..].
  apply mul_m_inj in E; [|apply lxor_range; try lia; apply shiftr_range; lia..].
  by apply xorshift_inj in E; [|lia..].
Qed.

Lemma tail_switch_range h t : 0 <= h < 2 ^ 32 -> (length t < 4)%nat -> 0 <= tail_switch h t < 2 ^ 32.
Proof.
  intros Hh Ht. destruct t as [|d t]; [done|].
  rewrite tail_switch_le by (cbn in *; lia). apply mul32_range.
Qed.

(** Two keys of the same length that differ only inside one aligned four-byte
    word have different hashes. *)
Lemma MurmurHash2_word_change (p a b s : bytes) (seed : Z) :
  (length p mod 4 = 0)%nat -> length a = 4%nat -> length b = 4%nat -> a <> b ->
  0 <= seed < 2 ^ 32 ->
  MurmurHash2 (p ++ a ++ s) seed <> MurmurHash2 (p ++ b ++ s) seed.
Proof.
  intros Hp Ha Hb Hne Hseed E. unfold MurmurHash2, size in E.
  rewrite !length_app, Ha, Hb, (word_loop_app p (a ++ s)), (word_loop_app p (b ++ s)),
    (word_loop_word a), (word_loop_word b) in E by done.
  set (h0 := fst (word_loop p _)) in E.
  pose proof (word_loop_tail_short s (mmix h0 (le_combine a))) as Ht.
  pose proof (word_loop_tail s (mmix h0 (le_combine a))) as Hta.
  pose proof (word_loop_tail s (mmix h0 (le_combine b))) as Htb.
  pose proof (word_loop_range s _ (mmix_range h0 (le_combine a))) as Hra.
  pose proof (word_loop_range s _ (mmix_range h0 (le_combine b))) as Hrb.
  pose proof (word_loop_inj s _ _ (mmix_range h0 (le_combine a)) (mmix_range h0 (le_combine b)))
    as Hinj.
  destruct (word_loop s (mmix h0 (le_combine a))) as [ha ta].
  destruct (word_loop s (mmix h0 (le_combine b))) as [hb tb]. cbn [fst snd] in *. subst ta tb.
  apply final_mix_inj, tail_switch_inj in E; try done; try (by apply tail_switch_range).
  specialize (Hinj E).
  pose proof (le_combine_range a) as Ra. pose proof (le_combine_range b) as Rb.
  rewrite Ha in Ra. rewrite Hb in Rb.
  apply mmix_inj_k in Hinj; [|done|done].
  apply Hne, le_combine_inj; [congruence|done].
Qed.

Lemma MurmurHashAligned2_eq_witness :
  0 <= 3 <= 3 /\ MurmurHashAligned2 3 (bs "p/20120512/1_2_3_.jpg") 0 =
    MurmurHash2 (bs "p/20120512/1_2_3_.jpg") 0.
Proof. split; [lia|]. apply (MurmurHashAligned2_eq 3). lia. Defined.
