(* ===== verification/Murmur64.v ===== *)
(** * The 64-bit variants of MurmurHash2 (src/bundle/murmurhash2.cc)

    [MurmurHash64A] works on 64-bit words, [MurmurHash64B] on two lanes of
    32-bit words.  Keys are as in [Murmur.v], shorter than 2^31 bytes. *)

From S2P Require Import Prelude CString Murmur.

(** ** MurmurHash64A *)

Definition m64 : Z := 0xc6a4a7935bd1e995.
Definition r64 : Z := 47.
Definition mul64 (a b : Z) : Z := u64 (a * b).

(** [k *= m; k ^= k >> r; k *= m;] *)
Definition mix64 (k : Z) : Z :=
  let k := mul64 k m64 in
  let k := Z.lxor k (Z.shiftr k r64) in
  mul64 k m64.

(** [h ^= k; h *= m;] *)
Definition round64 (h k : Z) : Z := mul64 (Z.lxor h (mix64 k)) m64.

(** [n] words. *)
Fixpoint loop64 (n : nat) (data : bytes) (h : Z) : Z :=
  match n with
  | O => h
  | S n => loop64 n (drop 8 data) (round64 h (le_combine (take 8 data)))
  end.

(** The fall-through [switch(len & 7)], the last byte first; [i] is the place of the first. *)
Fixpoint xor_tail (i : Z) (data : bytes) (h : Z) : Z :=
  match data with
  | [] => h
  | d :: data => Z.lxor (xor_tail (i + 1) data h) (Z.shiftl (bval d) (8 * i))
  end.
Definition tail64 (data : bytes) (h : Z) : Z :=
  match data with [] => h | _ => mul64 (xor_tail 0 data h) m64 end.

Definition final64 (h : Z) : Z :=
  let h := Z.lxor h (Z.shiftr h r64) in
  let h := mul64 h m64 in
  Z.lxor h (Z.shiftr h r64).

Definition MurmurHash64A (key : bytes) (seed : Z) : Z :=
  let h := Z.lxor seed (u64 (u64 (size key) * m64)) in
  let n := (length key / 8)%nat in
  final64 (tail64 (drop (8 * n) key) (loop64 n key h)).

(** ** MurmurHash64B *)

(** [n] turns of two words, one for each lane. *)
Fixpoint lanes (n : nat) (data : bytes) (h : Z * Z) : Z * Z :=
  match n with
  | O => h
  | S n => lanes n (drop 8 data)
             (mmix h.1 (le_combine (take 4 data)), mmix h.2 (le_combine (take 4 (drop 4 data))))
  end.

(** A last word goes to the first lane, the bytes after it to the second. *)
Definition lanes_tail (data : bytes) (h : Z * Z) : Z * Z :=
  if 4 <=? size data
  then (mmix h.1 (le_combine (take 4 data)), tail_switch h.2 (drop 4 data))
  else (h.1, tail_switch h.2 data).

(** [h1 ^= h2 >> s; h1 *= m;] *)
Definition cross (s a b : Z) : Z := mul32 (Z.lxor a (Z.shiftr b s)) m.

Definition lanes_final (h : Z * Z) : Z :=
  let h1 := cross 18 h.1 h.2 in
  let h2 := cross 22 h.2 h1 in
  let h1 := cross 17 h1 h2 in
  let h2 := cross 19 h2 h1 in
  Z.lor (u64 (Z.shiftl h1 32)) h2.

Definition MurmurHash64B (key : bytes) (seed : Z) : Z :=
  let h := (Z.lxor (u32 seed) (u32 (size key)), u32 (Z.shiftr seed 32)) in
  let n := (length key / 8)%nat in
  lanes_final (lanes_tail (drop (8 * n) key) (lanes n key h)).

(** ** Nothing is lost on the way *)

Lemma mul64_range a b : 0 <= mul64 a b < 2 ^ 64.
Proof. apply wrap_range. lia. Qed.

Lemma m64_inverse : wrap 64 (m64 * 0x5f7a0ea7e59b19bd) = 1.
Proof. reflexivity. Qed.

Lemma mul_m64_inj a b : 0 <= a < 2 ^ 64 -> 0 <= b < 2 ^ 64 -> mul64 a m64 = mul64 b m64 -> a = b.
Proof. intros Ha Hb. exact (mul_wrap_inj 64 m64 _ a b ltac:(lia) m64_inverse Ha Hb). Qed.

Lemma mix64_range k : 0 <= mix64 k < 2 ^ 64.
Proof. apply mul64_range. Qed.

Lemma xorshift64_range a s : 0 <= s -> 0 <= a < 2 ^ 64 -> 0 <= Z.lxor a (Z.shiftr a s) < 2 ^ 64.
Proof. intros. apply lxor_range; [lia|done|]. by apply shiftr_range; [lia|..]. Qed.

Lemma mix64_inj a b : 0 <= a < 2 ^ 64 -> 0 <= b < 2 ^ 64 -> mix64 a = mix64 b -> a = b.
Proof.
  intros Ha Hb E. unfold mix64, r64 in E.
  apply mul_m64_inj in E; [|apply xorshift64_range; [lia|apply mul64_range]..].
  apply xorshift_inj in E; [|lia|apply mul64_range..]. by apply mul_m64_inj in E.
Qed.

Lemma round64_inj_k h a b : 0 <= h < 2 ^ 64 -> 0 <= a < 2 ^ 64 -> 0 <= b < 2 ^ 64 ->
  round64 h a = round64 h b -> a = b.
Proof.
  intros Hh Ha Hb E. apply mul_m64_inj in E; [|apply lxor_range; [lia|done|apply mix64_range]..].
  apply lxor_cancel_l in E. by apply mix64_inj in E.
Qed.

Lemma round64_inj_h k a b : 0 <= a < 2 ^ 64 -> 0 <= b < 2 ^ 64 -> round64 a k = round64 b k -> a = b.
Proof.
  intros Ha Hb E. apply mul_m64_inj in E; [|apply lxor_range; [lia|done|apply mix64_range]..].
  by apply lxor_cancel_r in E.
Qed.

Lemma loop64_range n data h : 0 <= h < 2 ^ 64 -> 0 <= loop64 n data h < 2 ^ 64.
Proof. revert data h. induction n as [|n IH]; intros data h Hh; [done|]. apply IH, mul64_range. Qed.

Lemma loop64_app p q j n h : length p = (8 * j)%nat -> loop64 (j + n) (p ++ q) h = loop64 n q (loop64 j p h).
Proof.
  revert p h. induction j as [|j IH]; intros p h Hp; [by destruct p|].
  cbn [Nat.add loop64]. rewrite drop_app_le, take_app_le by lia.
  apply IH. rewrite length_drop. lia.
Qed.

Lemma loop64_inj n data a b : 0 <= a < 2 ^ 64 -> 0 <= b < 2 ^ 64 -> loop64 n data a = loop64 n data b -> a = b.
Proof.
  revert data a b. induction n as [|n IH]; intros data a b Ha Hb E; [done|].
  cbn [loop64] in E. apply IH in E; [|apply mul64_range..]. by apply round64_inj_h in E.
Qed.

Lemma xor_tail_split i data h : xor_tail i data h = Z.lxor h (xor_tail i data 0).
Proof.
  revert i. induction data as [|d data IH]; intros i; cbn [xor_tail]; [by rewrite Z.lxor_0_r|].
  by rewrite (IH (i + 1)), Z.lxor_assoc.
Qed.

Lemma xor_tail_range i data h : 0 <= i -> i + size data <= 8 -> 0 <= h < 2 ^ 64 ->
  0 <= xor_tail i data h < 2 ^ 64.
Proof.
  revert i. induction data as [|d data IH]; intros i Hi L Hh; [done|]. cbn [xor_tail].
  rewrite size_cons in L. pose proof (size_nonneg data).
  apply lxor_range; [lia|apply IH; lia|]. pose proof (bval_range d). rewrite Z.shiftl_mul_pow2 by lia.
  split; [apply Z.mul_nonneg_nonneg; [lia|apply Z.pow_nonneg; lia]|].
  assert (2 ^ (8 * i) <= 2 ^ 56) by (apply Z.pow_le_mono_r; lia). nia.
Qed.

Lemma tail64_inj data a b : size data < 8 -> 0 <= a < 2 ^ 64 -> 0 <= b < 2 ^ 64 ->
  tail64 data a = tail64 data b -> a = b.
Proof.
  intros L Ha Hb E. destruct data as [|d data]; [done|]. unfold tail64 in E.
  apply mul_m64_inj in E; [|apply xor_tail_range; lia..].
  rewrite (xor_tail_split _ _ a), (xor_tail_split _ _ b) in E. by apply lxor_cancel_r in E.
Qed.

Lemma tail64_range data h : 0 <= h < 2 ^ 64 -> 0 <= tail64 data h < 2 ^ 64.
Proof. intros Hh. destruct data; [done|]. apply mul64_range. Qed.

Lemma final64_inj a b : 0 <= a < 2 ^ 64 -> 0 <= b < 2 ^ 64 -> final64 a = final64 b -> a = b.
Proof.
  intros Ha Hb E. unfold final64, r64 in E.
  apply xorshift_inj in E; [|lia|apply mul64_range..].
  apply mul_m64_inj in E; [|by apply xorshift64_range; [lia|]..].
  by apply xorshift_inj in E; [|lia..].
Qed.

Lemma cross_range s a b : 0 <= cross s a b < 2 ^ 32.
Proof. apply mul32_range. Qed.

Lemma cross_inj s a a' b : 0 <= s -> 0 <= a < 2 ^ 32 -> 0 <= a' < 2 ^ 32 -> 0 <= b < 2 ^ 32 ->
  cross s a b = cross s a' b -> a = a'.
Proof.
  intros Hs Ha Ha' Hb E. unfold cross in E.
  apply mul_m_inj in E; [|apply lxor_range; [lia|done|by apply shiftr_range; [lia|..]]..].
  by apply lxor_cancel_r in E.
Qed.

(** A pair of lanes in range. *)
Definition in_lanes (h : Z * Z) : Prop := 0 <= h.1 < 2 ^ 32 /\ 0 <= h.2 < 2 ^ 32.

Lemma lanes_final_inj a b : in_lanes a -> in_lanes b -> lanes_final a = lanes_final b -> a = b.
Proof.
  destruct a as [a1 a2], b as [b1 b2]. intros [Ha1 Ha2] [Hb1 Hb2] E. cbn [fst snd] in *.
  unfold lanes_final in E. cbn [fst snd] in E.
  set (x1 := cross 18 a1 a2) in *. set (x2 := cross 22 a2 x1) in *.
  set (x3 := cross 17 x1 x2) in *. set (x4 := cross 19 x2 x3) in *.
  set (y1 := cross 18 b1 b2) in *. set (y2 := cross 22 b2 y1) in *.
  set (y3 := cross 17 y1 y2) in *. set (y4 := cross 19 y2 y3) in *.
  assert (0 <= x1 < 2 ^ 32 /\ 0 <= x2 < 2 ^ 32 /\ 0 <= x3 < 2 ^ 32 /\ 0 <= x4 < 2 ^ 32)
    as (? & ? & ? & ?) by (split_and?; apply cross_range).
  assert (0 <= y1 < 2 ^ 32 /\ 0 <= y2 < 2 ^ 32 /\ 0 <= y3 < 2 ^ 32 /\ 0 <= y4 < 2 ^ 32)
    as (? & ? & ? & ?) by (split_and?; apply cross_range).
  assert (forall h, 0 <= h < 2 ^ 32 -> u64 (Z.shiftl h 32) = Z.shiftl h 32) as Hu.
  { intros h Hh. apply wrap_small. rewrite Z.shiftl_mul_pow2 by lia. lia. }
  rewrite !Hu, !(Z.lor_comm (Z.shiftl _ _)), !lor_shiftl_add in E by lia.
  assert (x3 = y3 /\ x4 = y4) as [E3 E4] by lia.
  unfold x4, y4 in E4. rewrite E3 in E4. apply cross_inj in E4; [|lia..].
  unfold x3, y3 in E3. rewrite E4 in E3. apply cross_inj in E3; [|lia..].
  unfold x2, y2 in E4. rewrite E3 in E4. apply cross_inj in E4; [|lia..].
  unfold x1, y1 in E3. rewrite E4 in E3. apply cross_inj in E3; [|lia..]. congruence.
Qed.

Lemma lanes_app p q j n h : length p = (8 * j)%nat -> lanes (j + n) (p ++ q) h = lanes n q (lanes j p h).
Proof.
  revert p h. induction j as [|j IH]; intros p h Hp; [by destruct p|].
  cbn [Nat.add lanes]. rewrite !drop_app_le, !take_app_le by (rewrite ?length_drop; lia).
  apply IH. rewrite length_drop. lia.
Qed.

Lemma lanes_in n data h : in_lanes h -> in_lanes (lanes n data h).
Proof. revert data h. induction n as [|n IH]; intros data h Hh; [done|]. apply IH. split; apply mmix_range. Qed.

Lemma lanes_inj n data a b : in_lanes a -> in_lanes b -> lanes n data a = lanes n data b -> a = b.
Proof.
  revert data a b. induction n as [|n IH]; intros data a b Ha Hb E; [done|].
  cbn [lanes] in E. apply IH in E; [|split; apply mmix_range..]. injection E as E1 E2.
  destruct a, b, Ha, Hb. apply mmix_inj_h in E1, E2; cbn [fst snd] in *; congruence || done.
Qed.

Lemma lanes_tail_in data h : size data < 8 -> in_lanes h -> in_lanes (lanes_tail data h).
Proof.
  intros L [H1 H2]. unfold lanes_tail, size in *. destruct (Z.leb_spec 4 (Z.of_nat (length data))).
  - split; [apply mmix_range|]. apply tail_switch_range; [done|]. rewrite length_drop. lia.
  - split; [done|]. apply tail_switch_range; [done|lia].
Qed.

Lemma lanes_tail_inj data a b : size data < 8 -> in_lanes a -> in_lanes b ->
  lanes_tail data a = lanes_tail data b -> a = b.
Proof.
  intros L [A1 A2] [B1 B2] E. unfold lanes_tail, size in *. destruct a as [a1 a2], b as [b1 b2]. cbn [fst snd] in *.
  destruct (Z.leb_spec 4 (Z.of_nat (length data))); injection E as E1 E2.
  - apply mmix_inj_h in E1; [|done..]. apply tail_switch_inj in E2; [congruence|rewrite length_drop; lia|done..].
  - apply tail_switch_inj in E2; [congruence|lia|done..].
Qed.

(** A key cut at an aligned eight-byte word [x]. *)
Section Word.
Context (j : nat) (p s : bytes).
Hypothesis Hp : length p = (8 * j)%nat.
Abbreviation n := (length s / 8)%nat.

Lemma key_words x : length x = 8%nat ->
  (length (p ++ x ++ s) / 8 = j + S n)%nat /\ drop (8 * (j + S n)) (p ++ x ++ s) = drop (8 * n) s
  /\ size (p ++ x ++ s) = size p + 8 + size s /\ drop 8 (x ++ s) = s /\ take 8 (x ++ s) = x
  /\ take 4 (x ++ s) = take 4 x /\ take 4 (drop 4 (x ++ s)) = drop 4 x.
Proof.
  intros Hx. pose proof (Nat.div_mod_eq (length s) 8) as Hs.
  pose proof (Nat.mod_upper_bound (length s) 8 ltac:(lia)) as Hm. split_and!.
  - rewrite !length_app, Hp, Hx. symmetry. apply (Nat.div_unique _ _ _ (length s mod 8)); lia.
  - rewrite app_assoc, drop_app_ge by (rewrite length_app; lia). f_equal. rewrite length_app. lia.
  - rewrite !size_app. unfold size at 2. rewrite Hx. lia.
  - by rewrite drop_app_le, drop_ge by lia.
  - by rewrite take_app_le, take_ge by lia.
  - by rewrite take_app_le by lia.
  - rewrite drop_app_le, take_app_le, take_ge; [done|rewrite length_drop; lia..|lia].
Qed.

Lemma rest_short : size (drop (8 * n) s) < 8.
Proof.
  pose proof (Nat.div_mod_eq (length s) 8). pose proof (Nat.mod_upper_bound (length s) 8 ltac:(lia)).
  unfold size. rewrite length_drop. lia.
Qed.

Lemma word_change_A a b seed : length a = 8%nat -> length b = 8%nat -> 0 <= seed < 2 ^ 64 ->
  MurmurHash64A (p ++ a ++ s) seed = MurmurHash64A (p ++ b ++ s) seed -> a = b.
Proof.
  intros Ha Hb Hseed E.
  destruct (key_words a Ha) as (A1 & A2 & A3 & A4 & A5 & _), (key_words b Hb) as (B1 & B2 & B3 & B4 & B5 & _).
  unfold MurmurHash64A in E. rewrite A1, A2, A3, B1, B2, B3, !loop64_app in E by done.
  set (h := loop64 j p _) in E.
  assert (0 <= h < 2 ^ 64) as Hh by (apply loop64_range, lxor_range; [lia|done|apply wrap_range; lia]).
  cbn [loop64] in E. rewrite A4, A5, B4, B5 in E. pose proof rest_short.
  pose proof (le_combine_range a) as Ra. pose proof (le_combine_range b) as Rb. rewrite Ha in Ra. rewrite Hb in Rb.
  apply final64_inj in E; [|apply tail64_range, loop64_range, mul64_range..].
  apply tail64_inj in E; [|done|apply loop64_range, mul64_range..].
  apply loop64_inj in E; [|apply mul64_range..]. apply round64_inj_k in E; [|done..].
  by apply le_combine_inj; [congruence|].
Qed.

Lemma half_inj h x y : length x = 4%nat -> length y = 4%nat -> mmix h (le_combine x) = mmix h (le_combine y) -> x = y.
Proof.
  intros Hx Hy E. pose proof (le_combine_range x) as Rx. pose proof (le_combine_range y) as Ry.
  rewrite Hx in Rx. rewrite Hy in Ry. apply mmix_inj_k in E; [|done..]. by apply le_combine_inj; [congruence|].
Qed.

Lemma word_change_B a b seed : length a = 8%nat -> length b = 8%nat ->
  MurmurHash64B (p ++ a ++ s) seed = MurmurHash64B (p ++ b ++ s) seed -> a = b.
Proof.
  intros Ha Hb E.
  destruct (key_words a Ha) as (A1 & A2 & A3 & A4 & _ & A5 & A6), (key_words b Hb) as (B1 & B2 & B3 & B4 & _ & B5 & B6).
  unfold MurmurHash64B in E. rewrite A1, A2, A3, B1, B2, B3, !lanes_app in E by done.
  set (h := lanes j p _) in E. cbn [lanes] in E. rewrite A4, A5, A6, B4, B5, B6 in E. pose proof rest_short.
  assert (forall k1 k2, in_lanes (mmix h.1 k1, mmix h.2 k2)) as Hin by (split; apply mmix_range).
  apply lanes_final_inj in E; [|apply lanes_tail_in; [done|by apply lanes_in]..].
  apply lanes_tail_inj in E; [|done|by apply lanes_in..]. apply lanes_inj in E; [|done..].
  injection E as E1 E2. apply half_inj in E1, E2; rewrite ?length_take, ?length_drop, ?Ha, ?Hb; try done.
  rewrite <- (take_drop 4 a), <- (take_drop 4 b). congruence.
Qed.
End Word.

(** Two keys of the same length that differ inside one aligned eight-byte
    word have different 64-bit hashes, under both variants and every seed. *)
Theorem MurmurHash64_word_change (j : nat) (p a b s : bytes) (seed : Z) :
  length p = (8 * j)%nat -> length a = 8%nat -> length b = 8%nat -> a <> b -> 0 <= seed < 2 ^ 64 ->
  MurmurHash64A (p ++ a ++ s) seed <> MurmurHash64A (p ++ b ++ s) seed /\
  MurmurHash64B (p ++ a ++ s) seed <> MurmurHash64B (p ++ b ++ s) seed.
Proof.
  intros Hp Ha Hb Hne Hseed. split; intros E; apply Hne.
  - by apply (word_change_A j p s Hp a b seed).
  - by apply (word_change_B j p s Hp a b seed).
Qed.

Lemma MurmurHash64_word_change_witness :
  MurmurHash64A (bs "p/201205" ++ bs "12/1_2_3" ++ bs "_.jpg") 0
    <> MurmurHash64A (bs "p/201205" ++ bs "12/1_2_4" ++ bs "_.jpg") 0.
Proof.
  exact (proj1 (MurmurHash64_word_change 1 (bs "p/201205") (bs "12/1_2_3") (bs "12/1_2_4") (bs "_.jpg") 0
    eq_refl eq_refl eq_refl ltac:(by apply (bool_decide_eq_false_1 _)) ltac:(lia))).
Defined.
