(* ===== verification/PathOps.v ===== *)
(** * Path strings (src/base3/pathops.cc, the Unix build)

    Joining, taking apart and classifying path strings. *)

From S2P Require Import Prelude CString.

(** ** Operations *)

Definition PATH_SEP : Init.Byte.byte := "/".

Definition IsPathSep (c : Init.Byte.byte) : bool := Byte.eqb c PATH_SEP.

Definition IsAbspath (path : bytes) : bool :=
  match path with c :: _ => IsPathSep c | [] => false end.

Definition IsDirectory (path : bytes) : bool :=
  match last path with Some c => IsPathSep c | None => false end.

Definition PathJoin (a b : bytes) : bytes :=
  match b with
  | [] => a
  | _ =>
      match a with
      | [] => b
      | _ =>
          if IsAbspath b then b
          else if IsDirectory a then a ++ b
          else a ++ PATH_SEP :: b
      end
  end.

Definition NormalizeDirectory (dir : bytes) : bytes :=
  match last dir with
  | None => dir
  | Some c => if negb (IsPathSep c) then dir ++ [PATH_SEP] else dir
  end.

(** The loops of [Basename] and [Dirname]: [p] runs down from the last
    character; [n] is the number of characters up to and including [*p]. *)
Fixpoint Basename_loop (n : nat) (path : bytes) : bytes :=
  match n with
  | O => path
  | S p => if IsPathSep (nth p path x00) then drop (S p) path else Basename_loop p path
  end.

Definition Basename (path : bytes) : bytes := Basename_loop (length path) path.

Fixpoint Dirname_loop (n : nat) (path : bytes) : bytes :=
  match n with
  | O => []
  | S p => if IsPathSep (nth p path x00) then take p path else Dirname_loop p path
  end.

Definition Dirname (path : bytes) : bytes := Dirname_loop (length path) path.

(** ** Facts *)

Lemma IsPathSep_true c : IsPathSep c = true <-> c = PATH_SEP.
Proof. unfold IsPathSep. destruct (eqb_byte_spec c PATH_SEP); naive_solver. Qed.

Lemma IsPathSep_false c : IsPathSep c = false <-> c <> PATH_SEP.
Proof. unfold IsPathSep. destruct (eqb_byte_spec c PATH_SEP); naive_solver. Qed.

(** Both loops find the last separator. *)
Lemma scan_last_sep a b n :
  PATH_SEP ∉ b -> (n <= length b)%nat ->
  Basename_loop (length a + S n) (a ++ PATH_SEP :: b) = b /\
  Dirname_loop (length a + S n) (a ++ PATH_SEP :: b) = a.
Proof.
  intros Hb. induction n as [|n IH]; intros Hn;
    rewrite Nat.add_succ_r; cbn [Basename_loop Dirname_loop].
  - rewrite Nat.add_0_r, app_nth2, Nat.sub_diag by lia. cbn [nth].
    rewrite (proj2 (IsPathSep_true _) eq_refl). split.
    + rewrite (cons_middle PATH_SEP), app_assoc. apply drop_app_length'. len.
    + by apply take_app_length.
  - rewrite app_nth2 by lia. replace (length a + S n - length a)%nat with (S n) by lia.
    cbn [nth]. rewrite (proj2 (IsPathSep_false _)).
    2:{ intros E. apply Hb. rewrite <- E. apply list_elem_of_In, nth_In. lia. }
    apply IH. lia.
Qed.

Lemma Basename_split a b : PATH_SEP ∉ b -> Basename (a ++ PATH_SEP :: b) = b.
Proof.
  intros Hb. unfold Basename. rewrite length_app. cbn [length].
  by apply (scan_last_sep a b (length b)).
Qed.

Lemma Dirname_split a b : PATH_SEP ∉ b -> Dirname (a ++ PATH_SEP :: b) = a.
Proof.
  intros Hb. unfold Dirname. rewrite length_app. cbn [length].
  by apply (scan_last_sep a b (length b)).
Qed.

Lemma scan_no_sep p n :
  PATH_SEP ∉ p -> (n <= length p)%nat -> Basename_loop n p = p /\ Dirname_loop n p = [].
Proof.
  intros Hp. induction n as [|n IH]; intros Hn; cbn; [done|].
  rewrite (proj2 (IsPathSep_false _)); [apply IH; lia|].
  intros E. apply Hp. rewrite <- E. apply list_elem_of_In, nth_In. lia.
Qed.

Lemma Basename_plain p : PATH_SEP ∉ p -> Basename p = p.
Proof. intros H. by apply (scan_no_sep p (length p)). Qed.

Lemma Dirname_plain p : PATH_SEP ∉ p -> Dirname p = [].
Proof. intros H. by apply (scan_no_sep p (length p)). Qed.

(** Every path has a last separator, or none at all. *)
Lemma last_sep p : PATH_SEP ∉ p \/ exists a b, p = a ++ PATH_SEP :: b /\ PATH_SEP ∉ b.
Proof.
  induction p as [|c p IH]; [left; apply not_elem_of_nil|].
  destruct IH as [Hp | (a & b & -> & Hb)].
  - destruct (decide (c = PATH_SEP)) as [->|].
    + right. by exists [], p.
    + left. apply not_elem_of_cons. done.
  - right. by exists (c :: a), b.
Qed.

(** [Dirname] and [Basename] take a path apart at its last separator:
    putting them together gives the path back, the base name contains no
    separator, and without a separator the whole path is the base name. *)
Theorem Dirname_Basename (p : bytes) :
  (PATH_SEP ∉ Basename p) /\
  (if bool_decide (PATH_SEP ∈ p) then Dirname p ++ PATH_SEP :: Basename p = p
   else Dirname p = [] /\ Basename p = p).
Proof.
  destruct (last_sep p) as [Hp | (a & b & -> & Hb)].
  - rewrite bool_decide_false, Basename_plain, Dirname_plain by done. done.
  - rewrite Basename_split, Dirname_split, bool_decide_true by first [done|set_solver]. done.
Qed.

Lemma PathJoin_rel a b :
  a <> [] -> b <> [] -> IsAbspath b = false -> IsDirectory a = false ->
  PathJoin a b = a ++ PATH_SEP :: b.
Proof. intros Ha Hb Habs Hdir. by destruct b, a; try done; cbn [PathJoin]; rewrite Habs, Hdir. Qed.

Lemma IsAbspath_app a b : a <> [] -> IsAbspath (a ++ b) = IsAbspath a.
Proof. by destruct a. Qed.

Lemma IsDirectory_app a b : b <> [] -> IsDirectory (a ++ b) = IsDirectory b.
Proof.
  intros Hb. unfold IsDirectory. rewrite last_app.
  destruct (last b) eqn:E; [done|]. by apply last_None in E.
Qed.

Lemma PathJoin_nonempty a b : b <> [] -> PathJoin a b <> [].
Proof. intros H. destruct b; [done|]. destruct a; cbn; [done|]. by repeat case_match. Qed.

(** Joining a relative path to anything puts exactly one separator between
    them: it is appending to the normalised directory. *)
Lemma PathJoin_normalize a b :
  b <> [] -> IsAbspath b = false -> PathJoin a b = NormalizeDirectory a ++ b.
Proof.
  intros Hb Habs. destruct b as [|c b]; [done|]. destruct a as [|d a]; [done|].
  cbn [PathJoin]. rewrite Habs. unfold IsDirectory, NormalizeDirectory.
  destruct (last (d :: a)) as [e|] eqn:E; [|by apply last_None in E].
  destruct (IsPathSep e); cbn [negb]; [done|]. by rewrite <- app_assoc.
Qed.

Lemma NormalizeDirectory_app a b :
  b <> [] -> NormalizeDirectory (a ++ b) = a ++ NormalizeDirectory b.
Proof.
  intros Hb. unfold NormalizeDirectory. rewrite last_app.
  destruct (last b) as [e|] eqn:E; [|by apply last_None in E].
  destruct (negb _); [by rewrite app_assoc|done].
Qed.

(** [NormalizeDirectory] makes a directory of every non-empty path, once. *)
Lemma NormalizeDirectory_idem d :
  d <> [] -> IsDirectory (NormalizeDirectory d) = true /\
  NormalizeDirectory (NormalizeDirectory d) = NormalizeDirectory d.
Proof.
  intros Hd. unfold NormalizeDirectory, IsDirectory.
  destruct (last d) as [e|] eqn:E; [|by apply last_None in E].
  destruct (IsPathSep e) eqn:Ee; cbn [negb].
  - by rewrite E, Ee.
  - rewrite last_snoc. by rewrite (proj2 (IsPathSep_true _) eq_refl).
Qed.

Lemma NormalizeDirectory_relative d : IsAbspath d = false -> IsAbspath (NormalizeDirectory d) = false.
Proof.
  unfold NormalizeDirectory. destruct d as [|c d]; [done|]. intros H.
  destruct (last _); [|done]. by destruct (negb _).
Qed.

(** Joining relative paths is associative, so the order in which the
    storage root, the prefix and the file name are joined does not matter. *)
Theorem PathJoin_assoc (a b c : bytes) :
  IsAbspath b = false -> IsAbspath c = false ->
  PathJoin (PathJoin a b) c = PathJoin a (PathJoin b c).
Proof.
  intros Hb Hc. destruct b as [|x b]; [by destruct a, c|]. destruct c as [|y c]; [by destruct a|].
  rewrite (PathJoin_normalize a (x :: b)), (PathJoin_normalize (x :: b) (y :: c)),
    !PathJoin_normalize, NormalizeDirectory_app, <- app_assoc; try done.
  - by destruct (NormalizeDirectory (x :: b)).
  - rewrite IsAbspath_app; [by apply NormalizeDirectory_relative|].
    intros E. pose proof (NormalizeDirectory_idem (x :: b)) as [H _]; [done|]. by rewrite E in H.
Qed.

Lemma PathJoin_assoc_witness :
  PathJoin (PathJoin (bs "/mnt/mfs") (bs "p/20120512")) (bs "00000000/00000007") =
  PathJoin (bs "/mnt/mfs") (PathJoin (bs "p/20120512") (bs "00000000/00000007")).
Proof. apply PathJoin_assoc; reflexivity. Defined.
