(* ===== verification/BundleUrl.v ===== *)
(** * Bundle urls (src/bundle/bundle.h, src/bundle/bundle.cc, first part)

    An [Info] names one stored record: the bundle file ([id]), the byte range
    in it ([offset], [size]), and the directory and extension around it.  Two
    url formats spell it: the simple one (decimal, commas) and the encoded one
    (base 60, with a Murmur hash that [ExtractWithEncode] verifies). *)

From S2P Require Import Prelude CString Sixty Murmur.

(** ** Data *)

Record Info := mkInfo {
  info_id : Z;          (* int *)
  info_name : bytes;
  info_offset : Z;      (* size_t *)
  info_size : Z;        (* size_t *)
  info_datetime : bytes;
  info_prefix : bytes;
  info_postfix : bytes }.

(** [Info()]. *)
Definition Info_init : Info := mkInfo (-1) [] 0 0 [] [] [].

(** [Info(prefix, id, offset, size, postfix)]. *)
Definition Info_make (prefix : bytes) (id offset size : Z) (postfix : bytes) : Info :=
  mkInfo id [] offset size [] prefix postfix.

Definition set_prefix (p : bytes) (i : Info) : Info :=
  mkInfo (info_id i) (info_name i) (info_offset i) (info_size i) (info_datetime i)
    p (info_postfix i).

Definition set_range (id offset size : Z) (i : Info) : Info :=
  mkInfo id (info_name i) offset size (info_datetime i) (info_prefix i) (info_postfix i).

Definition set_offset (offset : Z) (i : Info) : Info :=
  set_range (info_id i) offset (info_size i) i.

Definition set_size (size : Z) (i : Info) : Info :=
  set_range (info_id i) (info_offset i) size i.

Definition set_postfix (p : bytes) (i : Info) : Info :=
  mkInfo (info_id i) (info_name i) (info_offset i) (info_size i) (info_datetime i)
    (info_prefix i) p.

(** [ExtractUrl]: the [Info*] may be null; it is written through, and keeps
    what was written before a failure. *)
Definition ExtractUrl := bytes -> option Info -> bool * option Info.
Definition BuildUrl := Info -> bytes.

Definition url_seps : bytes := bs ",/._".

(** ** The simple format *)

Definition ExtractSimple (url : bytes) (info : option Info) : bool * option Info :=
  let u := c_str url in
  let dot := rfind "." u in
  let last_slash := rfind "/" u in
  if (npos =? dot) || (npos =? dot) then (false, info)
  else
    let info := set_prefix (substr u 0 last_slash) <$> info in
    let part_three := substr u (u64 (last_slash + 1)) (u64 (dot - last_slash - 1)) in
    let vs := split url_seps part_three in
    if Z.of_nat (length vs) <? 3 then (false, info)
    else
      let nth_tok n := atol (c_str (nth n vs [])) in
      let info := (fun i => set_postfix (substr u dot npos)
        (set_range (i32 (nth_tok 0%nat)) (u64 (nth_tok 1%nat)) (u64 (nth_tok 2%nat)) i)) <$> info in
      (true, info).

Definition BuildSimple (info : Info) : bytes :=
  (if bool_decide (info_prefix info = []) then [] else info_prefix info ++ bs "/") ++
  (if info_id info =? -1 then info_name info else dec (info_id info)) ++
  bs "," ++ dec (info_offset info) ++ bs "," ++ dec (info_size info) ++
  (if bool_decide (info_postfix info = []) then [] else info_postfix info).

(** ** The encoded format *)

(** The text whose hash the url carries. *)
Definition encode_text (prefix : bytes) (id offset size : Z) (postfix : bytes) : bytes :=
  prefix ++ bs "/" ++ dec id ++ bs "_" ++ dec offset ++ bs "_" ++ dec size ++ bs "_" ++ postfix.

Definition ExtractWithEncode (url : bytes) (info : option Info) : bool * option Info :=
  let u := c_str url in
  let dot := rfind "." u in
  let last_slash := rfind "/" u in
  if (npos =? dot) || (npos =? dot) then (false, info)
  else
    let coded_part := substr u (u64 (last_slash + 1)) (u64 (dot - last_slash - 1)) in
    let vs := split url_seps coded_part in
    if negb (Z.of_nat (length vs) =? 4) then (false, info)
    else
      let hash := u32 (FromSixty (nth 3 vs [])) in
      if hash =? u32 (-1) then (false, info)
      else
        let prefix := substr u 0 last_slash in
        let postfix := substr u dot npos in
        let id := i32 (FromSixty (nth 0 vs [])) in
        let offset := u64 (FromSixty (nth 1 vs [])) in
        let size := u64 (FromSixty (nth 2 vs [])) in
        let this_hash := MurmurHash2 (encode_text prefix id offset size postfix) 0 in
        if negb (this_hash =? hash) then (false, info)
        else
          (true, (fun i => set_postfix postfix (set_prefix prefix (set_range id offset size i)))
                 <$> info).

Definition encode_hash (info : Info) : Z :=
  MurmurHash2 (encode_text (info_prefix info) (info_id info) (info_offset info)
                 (info_size info) (info_postfix info)) 0.

Definition BuildWithEncode (info : Info) : bytes :=
  info_prefix info ++ bs "/" ++ ToSixty (info_id info) ++ bs "_" ++
  ToSixty (i64 (info_offset info)) ++ bs "_" ++ ToSixty (i64 (info_size info)) ++ bs "_" ++
  ToSixty (encode_hash info) ++ info_postfix info.

(** ** Taking a url apart *)

Lemma u64_npos_succ : u64 (npos + 1) = 0.
Proof. reflexivity. Qed.

(** A url with directory [p], a middle part without ["/"] and an extension that
    starts at the only later dot is cut into exactly these three. *)
Lemma cut_url p mid ext :
  "/"%byte ∉ mid -> "."%byte ∉ mid -> "/"%byte ∉ ext -> "."%byte ∉ ext ->
  size (p ++ bs "/" ++ mid ++ "."%byte :: ext) < npos ->
  let u := p ++ bs "/" ++ mid ++ "."%byte :: ext in
  let dot := rfind "." u in
  let last_slash := rfind "/" u in
  (npos =? dot) = false /\ substr u 0 last_slash = p /\
  substr u (u64 (last_slash + 1)) (u64 (dot - last_slash - 1)) = mid /\
  substr u dot npos = "."%byte :: ext.
Proof.
  intros Hm1 Hm2 He1 He2 Hsz. cbv zeta. change (bs "/") with (["/"%byte]) in *. cbn [app] in *.
  pose proof (size_nonneg p). pose proof (size_nonneg mid). pose proof (size_nonneg ext).
  rewrite !size_app, !size_cons, !size_app, !size_cons in Hsz.
  assert (rfind "/" (p ++ "/"%byte :: mid ++ "."%byte :: ext) = size p) as Hslash.
  { apply rfind_last; [|lia]. rewrite not_elem_of_app, not_elem_of_cons. auto. }
  assert (p ++ "/"%byte :: mid ++ "."%byte :: ext = (p ++ "/"%byte :: mid) ++ "."%byte :: ext)
    as Eu by (by rewrite <- app_assoc).
  assert (size (p ++ "/"%byte :: mid) = size p + 1 + size mid) as Es
    by (rewrite size_app, size_cons; lia).
  assert (rfind "." (p ++ "/"%byte :: mid ++ "."%byte :: ext) = size p + 1 + size mid) as Hdot.
  { rewrite Eu, rfind_last; [done|done|lia]. }
  rewrite Hslash, Hdot. unfold npos in *.
  assert (u64 (size p + 1) = size p + 1) as -> by (apply wrap_small; lia).
  assert (u64 (size p + 1 + size mid - size p - 1) = size mid) as ->
    by (rewrite wrap_small; lia).
  split_and!.
  - apply Z.eqb_neq. lia.
  - by apply substr_prefix.
  - rewrite cons_middle, app_assoc. apply substr_middle; [rewrite size_app|]; done.
  - rewrite Eu. apply substr_suffix; [done|]. rewrite size_cons. lia.
Qed.

(** What makes a url readable: an extension with one leading dot and no
    separator after it, and no NUL byte. *)
Definition plain_ext (postfix : bytes) : bool :=
  match postfix with
  | c :: ext => Byte.eqb c "." && bool_decide ("."%byte ∉ ext) && bool_decide ("/"%byte ∉ ext)
  | [] => false
  end.

Lemma plain_ext_inv postfix :
  plain_ext postfix = true ->
  exists ext, postfix = "."%byte :: ext /\ ("."%byte ∉ ext) /\ ("/"%byte ∉ ext).
Proof.
  destruct postfix as [|c ext]; [done|]. cbn. intros H.
  destruct (eqb_byte_spec c ".") as [->|]; [|done].
  apply andb_true_iff in H as [H1 H2].
  apply bool_decide_eq_true_1 in H1, H2. by exists ext.
Qed.

(** ** The encoded format: reading what was built *)

(** The url with the given fields and hash. *)
Definition encoded (prefix : bytes) (id offset size hash : Z) (postfix : bytes) : bytes :=
  prefix ++ bs "/" ++ (ToSixty id ++ bs "_" ++ ToSixty offset ++ bs "_" ++
    ToSixty size ++ bs "_" ++ ToSixty hash) ++ postfix.

Lemma sixty_free c n :
  c ∈ (x00 :: bs ",/._") -> 0 <= n < 2 ^ 63 -> c ∉ ToSixty n.
Proof.
  intros Hc Hn Hin. destruct (ToSixty_letters n Hn) as [_ H].
  rewrite Forall_forall in H. exact (H c Hin Hc).
Qed.

Lemma sixty_token n : 0 <= n < 2 ^ 63 -> Forall (.∉ url_seps) (ToSixty n).
Proof.
  intros Hn. apply Forall_forall. intros c Hc Hs.
  apply (sixty_free c n); [|done|done]. apply elem_of_cons. by right.
Qed.

Lemma sixty_tokens a b c d :
  0 <= a < 2 ^ 63 -> 0 <= b < 2 ^ 63 -> 0 <= c < 2 ^ 63 -> 0 <= d < 2 ^ 63 ->
  split url_seps (ToSixty a ++ bs "_" ++ ToSixty b ++ bs "_" ++ ToSixty c ++ bs "_" ++ ToSixty d)
  = [ToSixty a; ToSixty b; ToSixty c; ToSixty d].
Proof.
  intros Ha Hb Hc Hd. change (bs "_") with (["_"%byte]). cbn [app].
  assert ("_"%byte ∈ url_seps) by (apply (bool_decide_eq_true_1 _); reflexivity).
  rewrite !split_cons, split_token by (done || by apply sixty_token). done.
Qed.

(** The middle part has no byte that would confuse the cuts. *)
Lemma sixty_middle_free x a b c d :
  x ∈ [x00; "."%byte; "/"%byte] ->
  0 <= a < 2 ^ 63 -> 0 <= b < 2 ^ 63 -> 0 <= c < 2 ^ 63 -> 0 <= d < 2 ^ 63 ->
  x ∉ ToSixty a ++ bs "_" ++ ToSixty b ++ bs "_" ++ ToSixty c ++ bs "_" ++ ToSixty d.
Proof.
  intros Hx Ha Hb Hc Hd.
  assert (forall n, 0 <= n < 2 ^ 63 -> x ∉ ToSixty n) as Hs.
  { intros n Hn. apply sixty_free; [|done]. revert Hx.
    rewrite !elem_of_cons. intros [-> | [-> | [-> | []%not_elem_of_nil]]]; cbn;
      apply (bool_decide_eq_true_1 _); reflexivity. }
  assert (x ∉ bs "_") as Hu.
  { revert Hx. rewrite !elem_of_cons. intros [-> | [-> | [-> | []%not_elem_of_nil]]];
      apply (bool_decide_eq_false_1 _); reflexivity. }
  rewrite !not_elem_of_app. auto 10.
Qed.

Definition no_nul (s : bytes) : bool := bool_decide (x00 ∉ s).

(** A well-formed encoded url is accepted exactly when its hash is the hash of
    its fields and is not the error value. *)
Lemma ExtractWithEncode_encoded p id off sz h postfix info :
  0 <= id < 2 ^ 31 -> 0 <= off < 2 ^ 63 -> 0 <= sz < 2 ^ 63 -> 0 <= h < 2 ^ 32 ->
  no_nul p = true -> no_nul postfix = true -> plain_ext postfix = true ->
  size (encoded p id off sz h postfix) < npos ->
  ExtractWithEncode (encoded p id off sz h postfix) info =
    if (h =? u32 (-1)) || negb (MurmurHash2 (encode_text p id off sz postfix) 0 =? h)
    then (false, info)
    else (true, (fun i => set_postfix postfix (set_prefix p (set_range id off sz i))) <$> info).
Proof.
  intros Hid Hoff Hsz Hh Hnp Hne Hext Hlen.
  apply bool_decide_eq_true_1 in Hnp, Hne.
  destruct (plain_ext_inv _ Hext) as (ext & -> & He1 & He2).
  assert (forall x, x ∈ [x00; "."%byte; "/"%byte] -> x ∉ ToSixty id ++ bs "_" ++ ToSixty off ++
    bs "_" ++ ToSixty sz ++ bs "_" ++ ToSixty h) as Hfree
    by (intros; apply sixty_middle_free; lia || done).
  unfold ExtractWithEncode. rewrite c_str_id.
  2:{ unfold encoded. rewrite not_elem_of_app. split; [done|].
      rewrite not_elem_of_app. split; [apply (bool_decide_eq_false_1 _); reflexivity|].
      rewrite not_elem_of_app. split; [|done]. apply Hfree, elem_of_cons. by left. }
  destruct (cut_url p (ToSixty id ++ bs "_" ++ ToSixty off ++ bs "_" ++ ToSixty sz ++ bs "_" ++
    ToSixty h) ext) as (Edot & Epre & Emid & Epost); try done.
  { apply Hfree, (bool_decide_eq_true_1 _). reflexivity. }
  { apply Hfree, (bool_decide_eq_true_1 _). reflexivity. }
  unfold encoded. cbv zeta in Edot, Epre, Emid, Epost |- *.
  rewrite Edot, Epre, Emid, Epost, sixty_tokens by lia. cbn [orb length Z.of_nat negb nth].
  change (negb (Z.of_nat 4 =? 4)) with false. cbv iota.
  rewrite !sixty_read_back by lia.
  rewrite (wrap_small 32 h), i32_small, (wrap_small 64 off), (wrap_small 64 sz) by lia.
  destruct (h =? _); [done|]. cbn [orb]. by destruct (negb _).
Qed.

(** The infos whose encoded url can be read back: fields that survive
    [FromSixty], no NUL, an extension with a single leading dot. *)
Definition encodable (i : Info) : bool :=
  (0 <=? info_id i) && (info_id i <? 2 ^ 31) && (0 <=? info_offset i) &&
  (info_offset i <? 2 ^ 63) && (0 <=? info_size i) && (info_size i <? 2 ^ 63) &&
  no_nul (info_prefix i) && no_nul (info_postfix i) && plain_ext (info_postfix i) &&
  (size (BuildWithEncode i) <? npos).

Lemma encodable_inv i :
  encodable i = true ->
  0 <= info_id i < 2 ^ 31 /\ 0 <= info_offset i < 2 ^ 63 /\ 0 <= info_size i < 2 ^ 63 /\
  no_nul (info_prefix i) = true /\ no_nul (info_postfix i) = true /\
  plain_ext (info_postfix i) = true /\ size (BuildWithEncode i) < npos.
Proof. unfold encodable. intros H. zbool. auto 10. Qed.

Lemma encode_hash_range i : 0 <= encode_hash i < 2 ^ 32.
Proof. apply MurmurHash2_range. Qed.

Lemma BuildWithEncode_encoded i :
  0 <= info_offset i < 2 ^ 63 -> 0 <= info_size i < 2 ^ 63 ->
  BuildWithEncode i = encoded (info_prefix i) (info_id i) (info_offset i) (info_size i)
    (encode_hash i) (info_postfix i).
Proof.
  intros Ho Hs. unfold BuildWithEncode, encoded. rewrite !i64_small by lia.
  rewrite <- !app_assoc. congruence.
Qed.

(** Copying the fields a url carries from [i] into [j]. *)
Definition url_fields (i j : Info) : Info :=
  mkInfo (info_id i) (info_name j) (info_offset i) (info_size i) (info_datetime j)
    (info_prefix i) (info_postfix i).

Lemma ExtractWithEncode_read i info :
  encodable i = true ->
  ExtractWithEncode (BuildWithEncode i) info =
    if encode_hash i =? 2 ^ 32 - 1 then (false, info) else (true, url_fields i <$> info).
Proof.
  intros (Hid & Ho & Hs & Hp & Hq & Hx & Hl)%encodable_inv.
  rewrite BuildWithEncode_encoded in * by done.
  rewrite ExtractWithEncode_encoded by (done || apply encode_hash_range).
  change (MurmurHash2 (encode_text _ _ _ _ _) 0) with (encode_hash i).
  rewrite Z.eqb_refl, orb_false_r. reflexivity.
Qed.

(** C17: Reading back an encoded url that was built from an [encodable] info
    (an id below 2^31, offset and size below 2^63, no NUL in prefix and
    postfix, a postfix that is one dot followed by neither dot nor slash, the
    text shorter than [npos]) gives the id, offset, size, prefix and postfix it
    was built from, except that the url is refused when its hash happens to be
    2^32 - 1, which the reader takes for an error code.  The verdict does not
    depend on whether the caller wants the fields.  [BuildWithEncode] also
    makes urls of other postfixes, which the reader refuses:
    [two_dots_refused], [no_dot_refused]. *)
Theorem ExtractWithEncode_BuildWithEncode (i : Info) (info : option Info) :
  encodable i = true ->
  ExtractWithEncode (BuildWithEncode i) info =
    if encode_hash i =? 2 ^ 32 - 1 then (false, info) else (true, url_fields i <$> info).
Proof. apply ExtractWithEncode_read. Qed.

(** A url whose prefix was altered inside one four-byte block of the hashed
    text is refused: the hash no longer fits. *)
Theorem ExtractWithEncode_tampered (i : Info) (p a b s : bytes) (info : option Info) :
  encodable i = true -> info_prefix i = p ++ a ++ s ->
  (length p mod 4 = 0)%nat -> length a = 4%nat -> length b = 4%nat -> a <> b ->
  no_nul b = true ->
  fst (ExtractWithEncode (encoded (p ++ b ++ s) (info_id i) (info_offset i) (info_size i)
    (encode_hash i) (info_postfix i)) info) = false.
Proof.
  intros (Hid & Ho & Hs & Hp & Hq & Hx & Hl)%encodable_inv Epre Hmod Ha Hb Hne Hnb.
  rewrite BuildWithEncode_encoded in Hl by done.
  rewrite ExtractWithEncode_encoded; try done; [|apply encode_hash_range| |].
  - destruct (Z.eqb_spec (MurmurHash2 (encode_text (p ++ b ++ s) (info_id i) (info_offset i)
      (info_size i) (info_postfix i)) 0) (encode_hash i)) as [E|_].
    + exfalso. revert E. unfold encode_hash, encode_text. rewrite Epre, <- !app_assoc.
      apply not_eq_sym, MurmurHash2_word_change; done || lia.
    + by rewrite orb_true_r.
  - apply bool_decide_eq_true_1 in Hp, Hnb. apply bool_decide_eq_true_2.
    rewrite Epre in Hp. rewrite !not_elem_of_app in *. tauto.
  - revert Hl. unfold encoded, size. rewrite Epre, !length_app, Ha, Hb. done.
Qed.

(** Whatever text is given, the encoded reader accepts it only with four
    fields whose hash matches, returns fields in the ranges of their types, and
    leaves the caller's [Info] untouched when it refuses. *)
Theorem ExtractWithEncode_sound (url : bytes) (j : Info) :
  match ExtractWithEncode url (Some j) with
  | (true, Some i) =>
      encode_hash i <> 2 ^ 32 - 1 /\
      (exists a b c h,
        let u := c_str url in
        split url_seps (substr u (u64 (rfind "/" u + 1))
          (u64 (rfind "." u - rfind "/" u - 1))) = [a; b; c; h] /\
        info_id i = i32 (FromSixty a) /\ info_offset i = u64 (FromSixty b) /\
        info_size i = u64 (FromSixty c) /\ encode_hash i = u32 (FromSixty h)) /\
      rfind "." (c_str url) <> npos /\
      info_prefix i = substr (c_str url) 0 (rfind "/" (c_str url)) /\
      info_postfix i = substr (c_str url) (rfind "." (c_str url)) npos /\
      info_name i = info_name j /\ info_datetime i = info_datetime j
  | (true, None) => False
  | (false, r) => r = Some j
  end.
Proof.
  unfold ExtractWithEncode. set (u := c_str url).
  destruct (Z.eqb_spec npos (rfind "." u)) as [|Hdot]; [done|]. cbn [orb].
  set (vs := split _ _). destruct (Z.eqb_spec (Z.of_nat (length vs)) 4) as [Hvs|]; [|done].
  cbn [negb]. destruct (Z.eqb_spec (u32 (FromSixty (nth 3 vs []))) (u32 (-1))) as [|Hh]; [done|].
  match goal with |- context [negb (?h =? ?k)] => destruct (Z.eqb_spec h k) as [E|]; [|done] end.
  cbn -[encode_text MurmurHash2]. unfold encode_hash. cbn -[encode_text MurmurHash2].
  rewrite E. split; [exact Hh|]. split; [|by auto].
  destruct vs as [|a [|b [|c [|h [|]]]]] eqn:Evs; cbn in Hvs; try lia.
  exists a, b, c, h. auto.
Qed.

(** ** The simple format: reading what was built *)

Lemma dec_token z : Forall (.∉ url_seps) (dec z).
Proof.
  apply dec_no_sep. unfold url_seps. cbn. repeat constructor; done.
Qed.

Lemma dec_free c z : isdigit c = false -> c <> "-"%byte -> c ∉ dec z.
Proof.
  intros Hd Hm Hin. pose proof (dec_digits z) as H. rewrite Forall_forall in H.
  destruct (H c Hin); congruence.
Qed.

Lemma dec_middle_free x a b c :
  x ∈ [x00; "."%byte; "/"%byte] -> x ∉ dec a ++ bs "," ++ dec b ++ bs "," ++ dec c.
Proof.
  intros Hx.
  assert (isdigit x = false /\ x <> "-"%byte /\ x ∉ bs ",") as (? & ? & ?).
  { revert Hx. rewrite !elem_of_cons. intros [-> | [-> | [-> | []%not_elem_of_nil]]];
      (split; [reflexivity|split; [done|apply (bool_decide_eq_false_1 _); reflexivity]]). }
  rewrite !not_elem_of_app. split_and!; try done; by apply dec_free.
Qed.

Lemma dec_tokens a b c :
  split url_seps (dec a ++ bs "," ++ dec b ++ bs "," ++ dec c) = [dec a; dec b; dec c].
Proof.
  change (bs ",") with ([","%byte]). cbn [app].
  assert (","%byte ∈ url_seps) by (apply (bool_decide_eq_true_1 _); reflexivity).
  rewrite !split_cons, split_token by (done || apply dec_token). done.
Qed.

Lemma c_str_dec z : c_str (dec z) = dec z.
Proof. apply c_str_id, dec_free; done. Qed.

Definition simple_ok (i : Info) : bool :=
  (- 2 ^ 31 <=? info_id i) && (info_id i <? 2 ^ 31) && negb (info_id i =? -1) &&
  (0 <=? info_offset i) && (info_offset i <? 2 ^ 63) &&
  (0 <=? info_size i) && (info_size i <? 2 ^ 63) &&
  negb (bool_decide (info_prefix i = [])) &&
  no_nul (info_prefix i) && no_nul (info_postfix i) && plain_ext (info_postfix i) &&
  (size (BuildSimple i) <? npos).

(** Reading a simple url back gives the id, offset, size, prefix and
    postfix it was built from. *)
Theorem ExtractSimple_BuildSimple (i : Info) (info : option Info) :
  simple_ok i = true ->
  ExtractSimple (BuildSimple i) info = (true, url_fields i <$> info).
Proof.
  unfold simple_ok. intros H. zbool.
  repeat match goal with H : negb _ = true |- _ => apply negb_true_iff in H end.
  repeat match goal with H : no_nul _ = true |- _ => apply bool_decide_eq_true_1 in H end.
  destruct (plain_ext_inv (info_postfix i)) as (ext & Eext & He1 & He2); [done|].
  assert (forall x, x ∈ [x00; "."%byte; "/"%byte] -> x ∉ dec (info_id i) ++ bs "," ++
    dec (info_offset i) ++ bs "," ++ dec (info_size i)) as Hfree by (intros; by apply dec_middle_free).
  assert (BuildSimple i = info_prefix i ++ bs "/" ++ (dec (info_id i) ++ bs "," ++
    dec (info_offset i) ++ bs "," ++ dec (info_size i)) ++ "."%byte :: ext) as E.
  { unfold BuildSimple. destruct (bool_decide (info_prefix i = [])); [done|].
    rewrite <- !app_assoc, Eext. zbool. destruct (Z.eqb_spec (info_id i) (-1)); [lia|done]. }
  destruct (cut_url (info_prefix i) (dec (info_id i) ++ bs "," ++
    dec (info_offset i) ++ bs "," ++ dec (info_size i)) ext) as (Edot & Epre & Emid & Epost);
    try done.
  { apply Hfree, (bool_decide_eq_true_1 _). reflexivity. }
  { apply Hfree, (bool_decide_eq_true_1 _). reflexivity. }
  { rewrite <- E. lia. }
  cbv zeta in *. unfold ExtractSimple. rewrite E, c_str_id.
  2:{ rewrite not_elem_of_app. split; [done|].
      rewrite not_elem_of_app. split; [apply (bool_decide_eq_false_1 _); reflexivity|].
      rewrite not_elem_of_app. split; [apply Hfree, elem_of_cons; by left|by rewrite <- Eext]. }
  rewrite Edot, Epre, Emid, Epost, dec_tokens. cbn [orb length nth Z.of_nat].
  change (Z.of_nat 3 <? 3) with false. cbv iota.
  rewrite !c_str_dec, !atol_dec, i32_small, !wrap_small by lia.
  destruct info as [j|]; [|done]. cbn. unfold url_fields, set_postfix, set_range, set_prefix. cbn.
  by rewrite Eext.
Qed.

(** The reader tests the position of the last dot twice and that of the
    last slash never: without a slash (what [BuildSimple] prints for an empty
    prefix) the whole url is returned as the prefix, so the record is looked
    up in a directory that does not exist. *)
Theorem ExtractSimple_no_slash (u : bytes) (j : Info) :
  "/"%byte ∉ u -> x00 ∉ u -> size u < npos ->
  match ExtractSimple u (Some j) with
  | (true, r) => info_prefix <$> r = Some u
  | (false, r) => r = Some j \/ info_prefix <$> r = Some u
  end.
Proof.
  intros Hs Hn Hlen. unfold ExtractSimple. rewrite c_str_id, (rfind_none "/") by done.
  assert (substr u 0 npos = u) as E.
  { unfold substr, size in *. rewrite drop_0. apply take_ge. lia. }
  rewrite E. destruct (_ || _); [by left|].
  destruct (_ <? 3); cbn; [by right|done].
Qed.

(** ** Concrete urls *)

Definition sample : Info := Info_make (bs "a") 1 100 100 (bs ".jpg").

(** A record whose url cannot be read: its hash is 2^32 - 1. *)
Definition unlucky : Info := Info_make (bs "p/20120512") 8333 762880 179 (bs ".jpg").

Lemma ExtractWithEncode_BuildWithEncode_witness :
  ExtractWithEncode (BuildWithEncode sample) (Some Info_init) = (true, Some sample) /\
  ExtractWithEncode (BuildWithEncode unlucky) (Some Info_init) = (false, Some Info_init).
Proof.
  split.
  - exact (ExtractWithEncode_BuildWithEncode sample (Some Info_init) ltac:(vm_compute; reflexivity)).
  - transitivity (if encode_hash unlucky =? 2 ^ 32 - 1 then (false, Some Info_init)
      else (true, url_fields unlucky <$> Some Info_init)).
    + exact (ExtractWithEncode_BuildWithEncode unlucky (Some Info_init)
        ltac:(vm_compute; reflexivity)).
    + vm_compute. reflexivity.
Defined.

(** A postfix with a second dot gives the reader five pieces; without any dot
    the reader finds no name; a slash hides the name altogether. *)
Example two_dots_refused :
  ExtractWithEncode (BuildWithEncode (Info_make (bs "a") 1 100 100 (bs ".tar.gz"))) (Some Info_init)
    = (false, Some Info_init).
Proof. vm_compute. reflexivity. Qed.

Example no_dot_refused :
  ExtractWithEncode (BuildWithEncode (Info_make (bs "a") 1 100 100 [])) (Some Info_init)
    = (false, Some Info_init).
Proof. vm_compute. reflexivity. Qed.

Example slash_refused :
  ExtractWithEncode (BuildWithEncode (Info_make (bs "a") 1 100 100 (bs ".a/b"))) (Some Info_init)
    = (false, Some Info_init).
Proof. vm_compute. reflexivity. Qed.

Lemma ExtractWithEncode_tampered_witness :
  fst (ExtractWithEncode (encoded (bs "p/20" ++ bs "1206" ++ bs "12") 4 2048 15
    (encode_hash (Info_make (bs "p/20120512") 4 2048 15 (bs ".jpg"))) (bs ".jpg"))
    (Some Info_init)) = false.
Proof.
  apply (ExtractWithEncode_tampered (Info_make (bs "p/20120512") 4 2048 15 (bs ".jpg"))
    (bs "p/20") (bs "1205") (bs "1206") (bs "12")); try (vm_compute; reflexivity).
  discriminate.
Defined.

Lemma ExtractSimple_BuildSimple_witness :
  ExtractSimple (bs "p/20120512/4,2048,15.jpg") (Some Info_init) =
  (true, Some (Info_make (bs "p/20120512") 4 2048 15 (bs ".jpg"))).
Proof.
  apply (ExtractSimple_BuildSimple (Info_make (bs "p/20120512") 4 2048 15 (bs ".jpg"))
    (Some Info_init)). vm_compute. reflexivity.
Defined.

Lemma ExtractSimple_no_slash_witness :
  info_prefix <$> snd (ExtractSimple (bs "4,2048,15.jpg") (Some Info_init)) =
  Some (bs "4,2048,15.jpg").
Proof.
  apply (ExtractSimple_no_slash (bs "4,2048,15.jpg") Info_init);
    [apply (bool_decide_eq_false_1 _); reflexivity
    |apply (bool_decide_eq_false_1 _); reflexivity|vm_compute; reflexivity].
Defined.
