(* ===== verification/Posix.v ===== *)
(** * The operating system the program runs on

    What the sources use of POSIX and of stdio, as data: the system calls
    ([sys]), a file system they act on ([fs]), what each call may do
    ([kstep], given a [choice] that settles what the caller cannot control:
    injected errors, short transfers, uninitialised memory, random numbers and
    the clock), and programs as trees of calls ([prog]).

    [Posix W C] is the interface the program is written against: a world [W]
    with a view of its files and a handler for every call that stays inside
    [kstep] with choices in the envelope [C].  Theorems about programs are
    proved once with the weakest precondition [wp C] and hold on every world
    ([wp_run]); [Local] worlds (a file system and a script of choices) are the
    executable instances. *)

From S2P Require Import Prelude CString.

(** ** Error numbers (Linux) *)

Definition EPERM : Z := 1.
Definition ENOENT : Z := 2.
Definition EIO : Z := 5.
Definition EBADF : Z := 9.
Definition EACCES : Z := 13.
Definition EEXIST : Z := 17.
Definition ENOTDIR : Z := 20.
Definition EISDIR : Z := 21.
Definition EINVAL : Z := 22.
Definition EMFILE : Z := 24.
Definition ENOSPC : Z := 28.

(** ** Files *)

Abbreviation path := (list bytes).

Inductive node := NDir | NFile (data : bytes).

#[export] Instance node_eq_decision : EqDecision node.
Proof. solve_decision. Defined.

(** An open file: the path it was opened at (none once that was unlinked; the
    content of a deleted file is not modelled, nothing here reads one) and the
    position. *)
Record fdesc := FDesc { fd_path : option path; fd_pos : Z }.

Record fs := Fs {
  nodes : gmap path node;
  fds : gmap Z fdesc;
  next_fd : Z;
  cwd : path }.

Definition set_nodes (n : gmap path node) (f : fs) : fs := Fs n (fds f) (next_fd f) (cwd f).
Definition set_fds (n : gmap Z fdesc) (f : fs) : fs := Fs (nodes f) n (next_fd f) (cwd f).

(** One component of a path name. *)
Definition walk1 (cur : path) (c : bytes) : path :=
  if bool_decide (c = bs ".") then cur
  else if bool_decide (c = bs "..") then removelast cur
  else cur ++ [c].

(** Path resolution: everything before the last component must be an existing
    directory.  (There are no symbolic links.) *)
Fixpoint walk (n : gmap path node) (cur : path) (cs : list bytes) : Z + path :=
  match cs with
  | [] => inr cur
  | c :: cs =>
      match n !! cur with
      | Some NDir => walk n (walk1 cur c) cs
      | Some (NFile _) => inl ENOTDIR
      | None => inl ENOENT
      end
  end.

Definition components (p : bytes) : list bytes :=
  filter (fun c => c <> []) (split (bs "/") p).

Definition is_abs (p : bytes) : bool :=
  match p with c :: _ => Byte.eqb c "/" | [] => false end.

Definition namei (f : fs) (p : bytes) : Z + path :=
  match p with
  | [] => inl ENOENT
  | _ => walk (nodes f) (if is_abs p then [] else cwd f) (components p)
  end.

(** The content of the regular file a path string names. *)
Definition file_at (f : fs) (p : bytes) : option bytes :=
  match namei f p with
  | inr q => match nodes f !! q with Some (NFile d) => Some d | _ => None end
  | inl _ => None
  end.

(** ** System calls *)

Record oflags := OFlags { o_creat : bool; o_excl : bool; o_trunc : bool }.

Definition O_RDWR := OFlags false false false.
Definition O_RDWR_CREAT_EXCL := OFlags true true false.
Definition O_RDWR_CREAT_TRUNC := OFlags true false true.

(** The calls, with what they return: an error number or a value. *)
Inductive sys : Type -> Type :=
| KOpen (p : bytes) (fl : oflags) : sys (Z + Z)
| KClose (fd : Z) : sys (Z + unit)
| KLseek (fd off : Z) : sys (Z + Z)
| KWrite (fd : Z) (data : bytes) : sys (Z + Z)
| KRead (fd n : Z) : sys (option Z * bytes)
| KLstat (p : bytes) : sys (Z + Z)
| KAccess (p : bytes) : sys (Z + unit)
| KMkdir (p : bytes) : sys (Z + unit)
| KUnlink (p : bytes) : sys (Z + unit)
| KNew (n : Z) : sys bytes
| KRand : sys Z
| KPid : sys Z
| KNow : sys bytes
| KUsleep (us : Z) : sys unit.

(** What the environment decides at one call. *)
Record choice := Choice {
  ch_err : option Z;       (* fail with this error *)
  ch_short : option nat;   (* transfer at most this many bytes *)
  ch_val : Z;              (* rand, pid, size of a directory *)
  ch_bytes : bytes }.      (* uninitialised memory, the formatted clock *)

(** Errors that can strike anywhere.  The ones that carry information the
    program acts on (no such file, exists already) are only reported truly. *)
Definition hard_error (e : Z) : bool :=
  (0 <? e) && negb (e =? ENOENT) && negb (e =? EEXIST).

Definition injected (c : choice) : option Z :=
  match ch_err c with
  | Some e => if hard_error e then Some e else None
  | None => None
  end.

Definition resize (n : nat) (b : bytes) : bytes := take n b ++ replicate (n - length b) x00.

Definition open_result (f : fs) (q : path) (n : gmap path node) : (Z + Z) * fs :=
  (inr (next_fd f),
   Fs n (<[next_fd f := FDesc (Some q) 0]> (fds f)) (next_fd f + 1) (cwd f)).

Definition kopen (p : bytes) (fl : oflags) (f : fs) : (Z + Z) * fs :=
  match namei f p with
  | inl e => (inl e, f)
  | inr q =>
      match nodes f !! q with
      | None =>
          if o_creat fl then open_result f q (<[q := NFile []]> (nodes f)) else (inl ENOENT, f)
      | Some NDir => (inl (if o_creat fl && o_excl fl then EEXIST else EISDIR), f)
      | Some (NFile d) =>
          if o_creat fl && o_excl fl then (inl EEXIST, f)
          else open_result f q (if o_trunc fl then <[q := NFile []]> (nodes f) else nodes f)
      end
  end.

Definition fd_data (f : fs) (d : fdesc) : bytes :=
  match fd_path d with
  | Some q => match nodes f !! q with Some (NFile b) => b | _ => [] end
  | None => []
  end.

Definition kwrite (fd : Z) (data : bytes) (f : fs) : (Z + Z) * fs :=
  match fds f !! fd with
  | None => (inl EBADF, f)
  | Some d =>
      let n := match fd_path d with
               | Some q => match nodes f !! q with
                           | Some (NFile b) => <[q := NFile (splice b (fd_pos d) data)]> (nodes f)
                           | _ => nodes f
                           end
               | None => nodes f
               end in
      (inr (size data),
       set_fds (<[fd := FDesc (fd_path d) (fd_pos d + size data)]> (fds f)) (set_nodes n f))
  end.

Definition kread (fd n : Z) (f : fs) : option Z * bytes * fs :=
  match fds f !! fd with
  | None => (Some EBADF, [], f)
  | Some d =>
      let data := take (Z.to_nat (Z.min n (size (fd_data f d)))) (drop (Z.to_nat (fd_pos d)) (fd_data f d)) in
      (None, data, set_fds (<[fd := FDesc (fd_path d) (fd_pos d + size data)]> (fds f)) f)
  end.

Definition detach (q : path) (d : fdesc) : fdesc :=
  if bool_decide (fd_path d = Some q) then FDesc None (fd_pos d) else d.

(** The call itself, when no error is injected; [ch_short] cuts transfers. *)
Definition kcall {X} (s : sys X) (c : choice) (f : fs) : X * fs :=
  match s in sys X return X * fs with
  | KOpen p fl => kopen p fl f
  | KClose fd =>
      match fds f !! fd with
      | Some _ => (inr tt, set_fds (delete fd (fds f)) f)
      | None => (inl EBADF, f)
      end
  | KLseek fd off =>
      match fds f !! fd with
      | Some d => if off <? 0 then (inl EINVAL, f)
                  else (inr off, set_fds (<[fd := FDesc (fd_path d) off]> (fds f)) f)
      | None => (inl EBADF, f)
      end
  | KWrite fd data =>
      kwrite fd (match ch_short c with Some k => take k data | None => data end) f
  | KRead fd n => kread fd n f
  | KLstat p =>
      match namei f p with
      | inl e => (inl e, f)
      | inr q => match nodes f !! q with
                 | Some (NFile b) => (inr (size b), f)
                 | Some NDir => (inr (Z.abs (ch_val c)), f)
                 | None => (inl ENOENT, f)
                 end
      end
  | KAccess p =>
      match namei f p with
      | inl e => (inl e, f)
      | inr q => match nodes f !! q with Some _ => (inr tt, f) | None => (inl ENOENT, f) end
      end
  | KMkdir p =>
      match namei f p with
      | inl e => (inl e, f)
      | inr q => match nodes f !! q with
                 | Some _ => (inl EEXIST, f)
                 | None => (inr tt, set_nodes (<[q := NDir]> (nodes f)) f)
                 end
      end
  | KUnlink p =>
      match namei f p with
      | inl e => (inl e, f)
      | inr q => match nodes f !! q with
                 | Some (NFile _) =>
                     (inr tt, set_fds (detach q <$> fds f) (set_nodes (delete q (nodes f)) f))
                 | Some NDir => (inl EISDIR, f)
                 | None => (inl ENOENT, f)
                 end
      end
  | KNew n => (resize (Z.to_nat n) (ch_bytes c), f)
  | KRand => (wrap 31 (ch_val c), f)
  | KPid => (wrap 31 (ch_val c), f)
  | KNow => (take 99 (c_str (ch_bytes c)), f)
  | KUsleep _ => (tt, f)
  end.

(** One call with its choice: an injected error leaves the files alone (a
    failing [close] still releases the descriptor; a failing read may have
    returned some bytes). *)
Definition kstep {X} (s : sys X) (c : choice) (f : fs) : X * fs :=
  match injected c with
  | None => kcall s c f
  | Some e =>
      match s in sys X return X * fs -> X * fs with
      | KOpen _ _ => fun _ => (inl e, f)
      | KClose fd => fun r => (inl e, snd r)
      | KLseek _ _ => fun _ => (inl e, f)
      | KWrite _ _ => fun _ => (inl e, f)
      | KRead fd n => fun _ =>
          let '(_, data, f') := kread fd (Z.min n (Z.of_nat (default 0%nat (ch_short c)))) f in
          (Some e, data, f')
      | KLstat _ => fun _ => (inl e, f)
      | KAccess _ => fun _ => (inl e, f)
      | KMkdir _ => fun _ => (inl e, f)
      | KUnlink _ => fun _ => (inl e, f)
      | _ => fun r => r
      end (kcall s c f)
  end.

(** ** Programs *)

Inductive prog (A : Type) : Type :=
| Ret (a : A)
| Vis {X : Type} (s : sys X) (k : X -> prog A).
Arguments Ret {A} a.
Arguments Vis {A X} s k.

Fixpoint pbind {A B} (p : prog A) (f : A -> prog B) : prog B :=
  match p with
  | Ret a => f a
  | Vis s k => Vis s (fun x => pbind (k x) f)
  end.

(** The worst case over every choice of the envelope [C]. *)
Fixpoint wp {A} (C : choice -> Prop) (p : prog A) (Q : A -> fs -> Prop) (f : fs) : Prop :=
  match p with
  | Ret a => Q a f
  | Vis s k => forall c, C c -> wp C (k (fst (kstep s c f))) Q (snd (kstep s c f))
  end.

Lemma wp_mono {A} C (p : prog A) (Q R : A -> fs -> Prop) f :
  wp C p Q f -> (forall a f, Q a f -> R a f) -> wp C p R f.
Proof.
  intros H HQR. revert f H. induction p as [a|X s k IH]; cbn; intros f H; [by apply HQR|].
  intros c Hc. apply IH, H, Hc.
Qed.

Lemma wp_bind {A B} C (p : prog A) (g : A -> prog B) Q f :
  wp C (pbind p g) Q f <-> wp C p (fun a f => wp C (g a) Q f) f.
Proof.
  revert f. induction p as [a|X s k IH]; cbn; intros f; [done|].
  split; intros H c Hc; apply IH, H, Hc.
Qed.

(** Fewer possible choices, more guarantees. *)
Lemma wp_envelope {A} (C D : choice -> Prop) (p : prog A) Q f :
  (forall c, D c -> C c) -> wp C p Q f -> wp D p Q f.
Proof.
  intros HDC. revert f. induction p as [a|X s k IH]; cbn; intros f H; [done|].
  intros c Hc. apply IH, H, HDC, Hc.
Qed.

Lemma wp_conj {A} C (p : prog A) Q R f :
  wp C p Q f -> wp C p R f -> wp C p (fun a f => Q a f /\ R a f) f.
Proof.
  revert f. induction p as [a|X s k IH]; cbn; intros f HQ HR; [done|].
  intros c Hc. apply IH; auto.
Qed.

(** ** Worlds *)

(** What a world promises its programs: a view of its files, and a handler
    whose every answer is one the call specification allows with a choice in
    the envelope. *)
Class Posix (W : Type) (C : choice -> Prop) := {
  view : W -> fs;
  handle : forall X, sys X -> W -> X * W;
  handle_sound : forall X (s : sys X) w, exists c, C c /\
    (fst (handle X s w), view (snd (handle X s w))) = kstep s c (view w) }.
Arguments handle {W C _ X}.

Fixpoint run {A} `{Posix W C} (p : prog A) (w : W) : A * W :=
  match p with
  | Ret a => (a, w)
  | Vis s k => let '(x, w) := handle s w in run (k x) w
  end.

(** A program proved with [wp] behaves so on every world of the interface. *)
Lemma wp_run {A} `{Posix W C} (p : prog A) Q w :
  wp C p Q (view w) -> Q (fst (run p w)) (view (snd (run p w))).
Proof.
  revert w. induction p as [a|X s k IH]; cbn; intros w Hp; [done|].
  destruct (handle_sound X s w) as (c & Hc & E). specialize (Hp c Hc).
  destruct (handle s w) as [x w'] eqn:Ew. cbn in E. rewrite <- E in Hp. by apply IH.
Qed.

(** *** The local file system with a script of choices *)

Definition any_choice (c : choice) : Prop := True.

(** No injected error and no short transfer: the calls fail only truthfully. *)
Definition benign (c : choice) : Prop := injected c = None /\ ch_short c = None.

Definition quiet : choice := Choice None None 0 [].

Record Local := MkLocal { local_fs : fs; local_script : list choice }.

Definition local_handle (clean : choice -> choice) {X} (s : sys X) (w : Local) : X * Local :=
  let c := clean (default quiet (head (local_script w))) in
  let '(x, f) := kstep s c (local_fs w) in (x, MkLocal f (tail (local_script w))).

Definition keep (c : choice) : choice := c.
Definition calm (c : choice) : choice := Choice None None (ch_val c) (ch_bytes c).

Lemma local_sound clean (C : choice -> Prop) :
  (forall c, C (clean c)) ->
  forall X (s : sys X) w, exists c, C c /\
    (fst (local_handle clean s w), local_fs (snd (local_handle clean s w))) =
      kstep s c (local_fs w).
Proof.
  intros HC X s w. exists (clean (default quiet (head (local_script w)))). split; [apply HC|].
  unfold local_handle. by destruct (kstep _ _ _).
Qed.

#[export] Instance faulty_local : Posix Local any_choice :=
  {| view := local_fs; handle := fun X => local_handle keep (X := X);
     handle_sound := local_sound keep any_choice (fun _ => I) |}.

Lemma calm_benign c : benign (calm c).
Proof. split; reflexivity. Qed.

#[export] Instance calm_local : Posix Local benign :=
  {| view := local_fs; handle := fun X => local_handle calm (X := X);
     handle_sound := local_sound calm benign calm_benign |}.

(** ** A process: its own state over the calls, and how it may stop *)

Record proc := Proc { errno : Z; last_id_ : Z }.

(** An uncaught exception, undefined behaviour, or the step bound of a loop
    reached. *)
Inductive stop := Exn | Undef | Fuel.

Definition P (A : Type) : Type := proc -> prog ((stop + A) * proc).

#[export] Instance P_ret : MRet P := fun A a s => Ret (inr a, s).
#[export] Instance P_bind : MBind P := fun A B k m s =>
  pbind (m s) (fun '(r, s) => match r with inr a => k a s | inl e => Ret (inl e, s) end).

Definition halt {A} (e : stop) : P A := fun s => Ret (inl e, s).
Definition call {X} (k : sys X) : P X := fun s => Vis k (fun x => Ret (inr x, s)).
Definition get_errno : P Z := fun s => Ret (inr (errno s), s).
Definition set_errno (e : Z) : P unit := fun s => Ret (inr tt, Proc e (last_id_ s)).
Definition get_last_id : P Z := fun s => Ret (inr (last_id_ s), s).
Definition set_last_id (i : Z) : P unit := fun s => Ret (inr tt, Proc (errno s) i).

(** A C library call that returns [bad] and sets [errno] on failure. *)
Definition sys_ret {X Y} (bad : Y) (good : X -> Y) (k : sys (Z + X)) : P Y :=
  r ← call k;
  match r with
  | inl e => set_errno e;; mret bad
  | inr x => mret (good x)
  end.

Definition open (p : bytes) (fl : oflags) : P Z := sys_ret (-1) id (KOpen (c_str p) fl).
Definition close (fd : Z) : P Z := sys_ret (-1) (fun _ => 0) (KClose fd).
Definition lseek (fd off : Z) : P Z := sys_ret (-1) id (KLseek fd off).
Definition write (fd : Z) (data : bytes) : P Z := sys_ret (-1) id (KWrite fd data).
Definition access (p : bytes) : P Z := sys_ret (-1) (fun _ => 0) (KAccess (c_str p)).
Definition mkdir (p : bytes) : P Z := sys_ret (-1) (fun _ => 0) (KMkdir (c_str p)).
Definition unlink (p : bytes) : P Z := sys_ret (-1) (fun _ => 0) (KUnlink (c_str p)).
(** [lstat]: the result and, when it is 0, [st_size]. *)
Definition lstat (p : bytes) : P (Z * Z) := sys_ret (-1, 0) (fun sz => (0, sz)) (KLstat (c_str p)).
(** stdio: [fopen(path, "r+b")] (null is [None]), [fseek(.., SEEK_SET)],
    [fread] of [n] bytes, which is short only at the end of the file or after
    an error, and [fclose]. *)
Definition fopen (p : bytes) : P (option Z) := sys_ret None Some (KOpen (c_str p) O_RDWR).
Definition fseek (fd off : Z) : P Z := sys_ret (-1) (fun _ => 0) (KLseek fd off).
Definition fclose (fd : Z) : P Z := sys_ret (-1) (fun _ => 0) (KClose fd).
Definition fread (fd n : Z) : P bytes :=
  r ← call (KRead fd n);
  match r with
  | (Some e, data) => set_errno e;; mret data
  | (None, data) => mret data
  end.
(** [new char[n]]: a negative or unaddressable size throws, otherwise the
    memory holds anything. *)
Definition new_array (n : Z) : P bytes :=
  if (n <? 0) || (2 ^ 63 <=? n) then halt Exn else call (KNew n).

(** ** Reasoning about processes *)

(** [m] stops only in the ways [S] allows and otherwise ends in [Q]. *)
Definition wpP {A} (C : choice -> Prop) (S : stop -> Prop) (m : P A)
    (Q : A -> proc -> fs -> Prop) (s : proc) (f : fs) : Prop :=
  wp C (m s) (fun '(r, s) f => match r with inr a => Q a s f | inl e => S e end) f.

Definition never (e : stop) : Prop := False.
(** Only the loop bound may cut the program short. *)
Definition fuel_only (e : stop) : Prop := e = Fuel.
Definition any_stop (e : stop) : Prop := True.

Section WpRules.
Context (C : choice -> Prop) (S : stop -> Prop).
Implicit Types (s : proc) (f : fs).

Lemma wpP_ret {A} (a : A) Q s f : Q a s f -> wpP C S (mret a) Q s f.
Proof. done. Qed.

Lemma wpP_bind {A B} (m : P A) (k : A -> P B) Q s f :
  wpP C S m (fun a s f => wpP C S (k a) Q s f) s f -> wpP C S (mbind k m) Q s f.
Proof.
  unfold wpP. intros H. apply wp_bind. eapply wp_mono; [exact H|].
  intros [[e|a] s'] f'; cbn; done.
Qed.

Lemma wpP_mono {A} (m : P A) (Q R : A -> proc -> fs -> Prop) s f :
  wpP C S m Q s f -> (forall a s f, Q a s f -> R a s f) -> wpP C S m R s f.
Proof.
  intros H HQR. eapply wp_mono; [exact H|]. intros [[e|a] s'] f'; [done|]. apply HQR.
Qed.

Lemma wpP_halt {A} e (Q : A -> proc -> fs -> Prop) s f : S e -> wpP C S (halt e) Q s f.
Proof. done. Qed.

Lemma wpP_call {X} (k : sys X) Q s f :
  (forall c, C c -> Q (fst (kstep k c f)) s (snd (kstep k c f))) -> wpP C S (call k) Q s f.
Proof. done. Qed.

Lemma wpP_get_errno Q s f : Q (errno s) s f -> wpP C S get_errno Q s f.
Proof. done. Qed.

Lemma wpP_set_errno e Q s f : Q tt (Proc e (last_id_ s)) f -> wpP C S (set_errno e) Q s f.
Proof. done. Qed.

Lemma wpP_get_last_id Q s f : Q (last_id_ s) s f -> wpP C S get_last_id Q s f.
Proof. done. Qed.

Lemma wpP_set_last_id i Q s f : Q tt (Proc (errno s) i) f -> wpP C S (set_last_id i) Q s f.
Proof. done. Qed.

(** A library call: what it does when the kernel answers, and when it fails
    (the files are then whatever the kernel left). *)
Lemma wpP_sys_ret {X Y} (bad : Y) (good : X -> Y) (k : sys (Z + X)) Q s f :
  (forall c, C c ->
    match fst (kstep k c f) with
    | inl e => Q bad (Proc e (last_id_ s)) (snd (kstep k c f))
    | inr x => Q (good x) s (snd (kstep k c f))
    end) ->
  wpP C S (sys_ret bad good k) Q s f.
Proof.
  intros H. apply wpP_bind, wpP_call. intros c Hc. specialize (H c Hc).
  destruct (kstep k c f) as [[e|x] f']; cbn [fst snd] in *; [|by apply wpP_ret].
  by apply wpP_bind, wpP_set_errno, wpP_ret.
Qed.
End WpRules.

(** The outcome of a process on a world. *)
Definition runP {A} `{Posix W C} (m : P A) (s : proc) (w : W) : (stop + A) * proc * W :=
  run (m s) w.

Lemma wpP_run {A} `{Posix W C} (S : stop -> Prop) (m : P A) Q s (w : W) :
  wpP C S m Q s (view w) ->
  match runP m s w with
  | (inr a, s', w') => Q a s' (view w')
  | (inl e, _, _) => S e
  end.
Proof.
  intros Hm. apply wp_run in Hm. unfold runP. destruct (run (m s) w) as [[r s'] w'].
  cbn in Hm. by destruct r.
Qed.

(** A program whose result is known. *)
Lemma wpP_result {A} `{Posix W C} (m : P A) (v : A) s (w : W) :
  wpP C never m (fun x _ _ => x = v) s (view w) -> fst (fst (runP m s w)) = inr v.
Proof.
  intros Hm. pose proof (wpP_run _ _ _ _ _ Hm) as Hr.
  destruct (runP m s w) as [[[e|x] s'] w']; [done|]. by subst x.
Qed.

(** ** What each library call does *)

(** The errors the envelope can inject, and whether it can cut transfers. *)
Definition may_fail (C : choice -> Prop) (e : Z) : Prop := exists c, C c /\ injected c = Some e.
Definition may_short (C : choice -> Prop) : Prop := exists c k, C c /\ ch_short c = Some k.

Lemma benign_no_fail e : ~ may_fail benign e.
Proof. intros (c & [Hi _] & E). congruence. Qed.

Lemma benign_no_short : ~ may_short benign.
Proof. intros (c & k & [_ Hs] & E). congruence. Qed.

Lemma injected_hard c e : injected c = Some e -> 0 < e /\ e <> ENOENT /\ e <> EEXIST.
Proof.
  unfold injected. destruct (ch_err c) as [e'|]; [|done].
  destruct (hard_error e') eqn:H; [|done]. intros [= <-]. unfold hard_error in H.
  apply andb_true_iff in H as [H H3]. apply andb_true_iff in H as [H1 H2].
  apply negb_true_iff in H2, H3. zbool. lia.
Qed.

(** The nodes form a tree: the root and the working directory [c] are
    directories, and so is the parent of everything. *)
Definition tree_ok (c : path) (n : gmap path node) : Prop :=
  n !! [] = Some NDir /\ n !! c = Some NDir /\
  forall p x, n !! p = Some x -> p = [] \/ n !! removelast p = Some NDir.

(** Descriptors from [next_fd] on are free, and the nodes form a tree. *)
Definition fs_ok (f : fs) : Prop :=
  0 <= next_fd f /\ (forall fd, next_fd f <= fd -> fds f !! fd = None) /\
  tree_ok (cwd f) (nodes f).

Lemma removelast_ne {A} (p : list A) : p <> [] -> removelast p <> p.
Proof.
  intros Hp E. apply (f_equal length) in E.
  rewrite removelast_firstn_len, length_take in E. destruct p; [done|]. cbn in E. lia.
Qed.

Lemma tree_insert_file c n q d x :
  tree_ok c n -> n !! q = Some (NFile d) -> tree_ok c (<[q := NFile x]> n).
Proof.
  intros (Hr & Hc & Ht) Hq. split; [|split].
  - rewrite lookup_insert_ne; [done|]. intros ->. congruence.
  - rewrite lookup_insert_ne; [done|]. intros ->. congruence.
  - intros p y Hp. assert (p = [] \/ n !! removelast p = Some NDir) as [->|Hpar].
    { destruct (decide (p = q)) as [->|]; [by apply (Ht q _ Hq)|].
      rewrite lookup_insert_ne in Hp by done. by apply (Ht p y). }
    + by left.
    + right. rewrite lookup_insert_ne; [done|]. intros E. rewrite <- E in Hpar. congruence.
Qed.

Lemma tree_insert_new c n q x :
  tree_ok c n -> n !! q = None -> n !! removelast q = Some NDir -> tree_ok c (<[q := x]> n).
Proof.
  intros (Hr & Hc & Ht) Hq Hpar. split; [|split].
  - rewrite lookup_insert_ne; [done|]. intros ->. congruence.
  - rewrite lookup_insert_ne; [done|]. intros ->. congruence.
  - intros p y Hp. destruct (decide (p = q)) as [->|Hne].
    + right. rewrite lookup_insert_ne; [done|]. intros E. rewrite <- E in Hpar. congruence.
    + rewrite lookup_insert_ne in Hp by done. destruct (Ht p y Hp) as [->|H]; [by left|right].
      rewrite lookup_insert_ne; [done|]. intros E. rewrite <- E in H. congruence.
Qed.

Lemma tree_delete_file c n q d :
  tree_ok c n -> n !! q = Some (NFile d) -> tree_ok c (delete q n).
Proof.
  intros (Hr & Hc & Ht) Hq. split; [|split].
  - rewrite lookup_delete_ne; [done|]. intros ->. congruence.
  - rewrite lookup_delete_ne; [done|]. intros ->. congruence.
  - intros p y Hp. destruct (decide (p = q)) as [->|Hne]; [by rewrite lookup_delete_eq in Hp|].
    rewrite lookup_delete_ne in Hp by done. destruct (Ht p y Hp) as [->|H]; [by left|right].
    rewrite lookup_delete_ne; [done|]. intros E. rewrite <- E in H. congruence.
Qed.

(** Where resolution ends at nothing, the parent is a directory. *)
Lemma walk_new c n cur cs q :
  tree_ok c n -> n !! cur = Some NDir -> walk n cur cs = inr q -> n !! q = None ->
  n !! removelast q = Some NDir.
Proof.
  intros (Hr & Hc & Ht). revert cur. induction cs as [|x cs IH]; cbn; intros cur Hcur Hw Hq; [congruence|].
  rewrite Hcur in Hw. destruct (n !! walk1 cur x) as [[|d]|] eqn:E.
  - by apply (IH (walk1 cur x)).
  - destruct cs; cbn in Hw; [congruence|]. by rewrite E in Hw.
  - destruct cs; cbn in Hw; [|by rewrite E in Hw]. injection Hw as <-.
    unfold walk1 in *. case_bool_decide; [congruence|]. case_bool_decide.
    + destruct (Ht cur NDir Hcur) as [->|]; [|congruence]. cbn in E. congruence.
    + by rewrite removelast_last.
Qed.

Lemma base_dir f p : fs_ok f -> nodes f !! (if is_abs p then [] else cwd f) = Some NDir.
Proof. intros (_ & _ & Hr & Hc & _). by destruct (is_abs p). Qed.

Lemma namei_new f p q :
  fs_ok f -> namei f p = inr q -> nodes f !! q = None -> nodes f !! removelast q = Some NDir.
Proof.
  intros Hok Hn. pose proof (base_dir f p Hok) as Hb. destruct Hok as (_ & _ & Ht).
  destruct p; [done|]. by eapply walk_new.
Qed.

(** A file system after opening the existing file [q]. *)
Definition opened (f : fs) (q : path) : fs :=
  Fs (nodes f) (<[next_fd f := FDesc (Some q) 0]> (fds f)) (next_fd f + 1) (cwd f).

(** Running a call apart: the injected error, or the call itself. *)
Ltac kstep_cases c e Ei :=
  unfold kstep; destruct (injected c) as [e|] eqn:Ei; cbn [kcall fst snd].

Lemma walk_error n cur cs e : walk n cur cs = inl e -> 0 < e.
Proof.
  revert cur. induction cs as [|c cs IH]; cbn; intros cur; [done|].
  destruct (n !! cur) as [[|]|]; [apply IH|by intros [= <-]..].
Qed.

Lemma namei_error f p e : namei f p = inl e -> 0 < e.
Proof. destruct p; cbn; [by intros [= <-]|]. apply walk_error. Qed.

(** Opening for reading and writing succeeds exactly on regular files. *)
Lemma kopen_rdwr p f :
  (exists e, kopen p O_RDWR f = (inl e, f) /\ 0 < e /\ file_at f p = None) \/
  (exists q d, namei f p = inr q /\ nodes f !! q = Some (NFile d) /\
    kopen p O_RDWR f = (inr (next_fd f), opened f q)).
Proof.
  unfold kopen, file_at. destruct (namei f p) as [e|q] eqn:En.
  - left. exists e. split; [done|]. split; [by eapply namei_error|done].
  - destruct (nodes f !! q) as [[|d]|] eqn:Eq.
    + left. exists EISDIR. by split_and!.
    + right. by exists q, d.
    + left. exists ENOENT. by split_and!.
Qed.

Section CallRules.
Context (C : choice -> Prop) (S : stop -> Prop).
Implicit Types (s : proc) (f : fs).

(** Both [open(p, O_RDWR)] and [fopen(p, "r+b")]. *)
Lemma wpP_open_gen {Y} (bad : Y) (good : Z -> Y) p Q s f :
  (forall e, may_fail C e \/ file_at f p = None -> 0 < e -> Q bad (Proc e (last_id_ s)) f) ->
  (forall q d, namei f p = inr q -> nodes f !! q = Some (NFile d) ->
     Q (good (next_fd f)) s (opened f q)) ->
  wpP C S (sys_ret bad good (KOpen p O_RDWR)) Q s f.
Proof.
  intros Hfail Hok. apply wpP_sys_ret. intros c Hc. kstep_cases c e Ei.
  - apply Hfail; [left; by exists c|by apply (injected_hard c)].
  - destruct (kopen_rdwr p f) as [(e & -> & He & Hn) | (q & d & Hq & Hd & ->)]; cbn.
    + apply Hfail; [by right|done].
    + by apply (Hok q d).
Qed.

Lemma wpP_open_rdwr p Q s f :
  (forall e, may_fail C e \/ file_at f (c_str p) = None -> 0 < e -> Q (-1) (Proc e (last_id_ s)) f) ->
  (forall q d, namei f (c_str p) = inr q -> nodes f !! q = Some (NFile d) ->
     Q (next_fd f) s (opened f q)) ->
  wpP C S (open p O_RDWR) Q s f.
Proof. exact (wpP_open_gen (-1) id (c_str p) Q s f). Qed.

Lemma wpP_fopen p Q s f :
  (forall e, may_fail C e \/ file_at f (c_str p) = None -> 0 < e -> Q None (Proc e (last_id_ s)) f) ->
  (forall q d, namei f (c_str p) = inr q -> nodes f !! q = Some (NFile d) ->
     Q (Some (next_fd f)) s (opened f q)) ->
  wpP C S (fopen p) Q s f.
Proof. exact (wpP_open_gen None Some (c_str p) Q s f). Qed.

(** Both [lseek] and [fseek]. *)
Lemma wpP_seek_gen {Y} (bad : Y) (good : Z -> Y) fd off d Q s f :
  fds f !! fd = Some d -> 0 <= off ->
  (forall e, may_fail C e -> 0 < e -> Q bad (Proc e (last_id_ s)) f) ->
  Q (good off) s (set_fds (<[fd := FDesc (fd_path d) off]> (fds f)) f) ->
  wpP C S (sys_ret bad good (KLseek fd off)) Q s f.
Proof.
  intros Hd Ho Hfail Hok. apply wpP_sys_ret. intros c Hc. kstep_cases c e Ei.
  - apply Hfail; [by exists c|by apply (injected_hard c)].
  - rewrite Hd. destruct (Z.ltb_spec off 0); [lia|done].
Qed.

Lemma wpP_lseek fd off d Q s f :
  fds f !! fd = Some d -> 0 <= off ->
  (forall e, may_fail C e -> 0 < e -> Q (-1) (Proc e (last_id_ s)) f) ->
  Q off s (set_fds (<[fd := FDesc (fd_path d) off]> (fds f)) f) ->
  wpP C S (lseek fd off) Q s f.
Proof. exact (wpP_seek_gen (-1) id fd off d Q s f). Qed.

Lemma wpP_fseek fd off d Q s f :
  fds f !! fd = Some d -> 0 <= off ->
  (forall e, may_fail C e -> 0 < e -> Q (-1) (Proc e (last_id_ s)) f) ->
  Q 0 s (set_fds (<[fd := FDesc (fd_path d) off]> (fds f)) f) ->
  wpP C S (fseek fd off) Q s f.
Proof. exact (wpP_seek_gen (-1) (fun _ => 0) fd off d Q s f). Qed.

(** A file system after writing [data] at the position of [fd]. *)
Definition written_fs (fd : Z) (q : path) (pos : Z) (b data : bytes) (f : fs) : fs :=
  set_fds (<[fd := FDesc (Some q) (pos + size data)]> (fds f))
    (set_nodes (<[q := NFile (splice b pos data)]> (nodes f)) f).

Lemma wpP_write fd q pos b data Q s f :
  fds f !! fd = Some (FDesc (Some q) pos) -> nodes f !! q = Some (NFile b) ->
  (forall e, may_fail C e -> 0 < e -> Q (-1) (Proc e (last_id_ s)) f) ->
  (forall k, may_short C -> Q (size (take k data)) s (written_fs fd q pos b (take k data) f)) ->
  Q (size data) s (written_fs fd q pos b data f) ->
  wpP C S (write fd data) Q s f.
Proof.
  intros Hd Hq Hfail Hshort Hok. apply wpP_sys_ret. intros c Hc. kstep_cases c e Ei.
  - apply Hfail; [by exists c|by apply (injected_hard c)].
  - unfold kwrite. rewrite Hd. cbn. rewrite Hq.
    destruct (ch_short c) as [k|] eqn:Ek; [|exact Hok]. apply Hshort. by exists c, k.
Qed.

Lemma wpP_close fd d Q s f :
  fds f !! fd = Some d ->
  (forall e, may_fail C e -> 0 < e -> Q (-1) (Proc e (last_id_ s)) (set_fds (delete fd (fds f)) f)) ->
  Q 0 s (set_fds (delete fd (fds f)) f) ->
  wpP C S (close fd) Q s f.
Proof.
  intros Hd Hfail Hok. apply wpP_sys_ret. intros c Hc. kstep_cases c e Ei; rewrite Hd.
  - apply Hfail; [by exists c|by apply (injected_hard c)].
  - done.
Qed.

(** Closing when the caller ignores the result. *)
Lemma wpP_close_ignore {A} fd d (k : P A) Q s f :
  fds f !! fd = Some d ->
  (forall s', last_id_ s' = last_id_ s -> (errno s' = errno s \/ may_fail C (errno s')) ->
     wpP C S k Q s' (set_fds (delete fd (fds f)) f)) ->
  wpP C S (close fd;; k) Q s f.
Proof.
  intros Hd H. apply wpP_bind. eapply wpP_close; [done|..].
  - intros e He _. apply H; [done|by right].
  - apply H; [done|by left].
Qed.

(** [fread] returns what is at the position, all of it unless there was an
    error. *)
Lemma wpP_fread fd q pos b n Q s f :
  fds f !! fd = Some (FDesc (Some q) pos) -> nodes f !! q = Some (NFile b) ->
  0 <= n -> 0 <= pos ->
  (forall s' m, 0 <= m <= n -> last_id_ s' = last_id_ s ->
     (m = n /\ s' = s) \/ (may_fail C (errno s') /\ 0 < errno s') ->
     Q (range b pos m) s'
       (set_fds (<[fd := FDesc (Some q) (pos + size (range b pos m))]> (fds f)) f)) ->
  wpP C S (fread fd n) Q s f.
Proof.
  intros Hd Hq Hn Hp H. apply wpP_bind, wpP_call. intros c Hc.
  assert (forall m, 0 <= m ->
    kread fd m f = (None, range b pos m,
      set_fds (<[fd := FDesc (Some q) (pos + size (range b pos m))]> (fds f)) f)) as Er.
  { intros m Hm. unfold kread. rewrite Hd. unfold fd_data. cbn. rewrite Hq.
    assert (take (Z.to_nat (Z.min m (size b))) (drop (Z.to_nat pos) b) = range b pos m) as ->; [|done].
    unfold range, size. destruct (Z.le_ge_cases m (Z.of_nat (length b))).
    - by rewrite Z.min_l.
    - rewrite !take_ge; [done|len|len]. }
  kstep_cases c e Ei.
  - rewrite Er by lia. cbn [fst snd].
    apply wpP_bind, wpP_set_errno, wpP_ret. apply H; [lia|done|].
    right. split; [by exists c|]. by apply (injected_hard c).
  - rewrite Er by lia. cbn [fst snd]. apply H; [lia|done|]. by left.
Qed.

Lemma wpP_new_array n Q s f :
  0 <= n < 2 ^ 63 -> (forall heap, size heap = n -> Q heap s f) -> wpP C S (new_array n) Q s f.
Proof.
  intros Hn H. unfold new_array.
  destruct (Z.ltb_spec n 0); [lia|]. destruct (Z.leb_spec (2 ^ 63) n); [lia|]. cbn [orb].
  apply wpP_call. intros c Hc. assert (kstep (KNew n) c f = kcall (KNew n) c f) as ->
    by (unfold kstep; by destruct (injected c)).
  apply H. cbn. unfold resize, size. len.
Qed.
End CallRules.

(** Bring projections of updated file systems to the fields. *)
Ltac fs_simpl :=
  unfold written_fs, opened, set_fds, set_nodes in *;
  cbn [nodes fds next_fd cwd fd_path fd_pos errno last_id_] in *.

(** One descriptor was handed out. *)
Ltac next_fd_le :=
  match goal with |- next_fd ?f <= _ => change (next_fd f <= next_fd f + 1); lia end.

(** *** What is left behind *)

(** [f'] has the files [n] and otherwise is as [f]: no descriptor more, none
    less. *)
Definition leaves (f f' : fs) (n : gmap path node) : Prop :=
  nodes f' = n /\ fds f' = fds f /\ cwd f' = cwd f /\ fs_ok f'.

Lemma leaves_refl f : fs_ok f -> leaves f f (nodes f).
Proof. intros H. unfold leaves. by split_and!. Qed.

(** Path resolution depends on the nodes and the working directory only. *)
Lemma namei_cong f f' p : nodes f = nodes f' -> cwd f = cwd f' -> namei f p = namei f' p.
Proof. intros En Ec. unfold namei. by rewrite En, Ec. Qed.

(** Opening a descriptor, using it in any way and closing it. *)
Lemma leaves_closed f n d next :
  fs_ok f -> tree_ok (cwd f) n -> next_fd f <= next ->
  leaves f (set_fds (delete (next_fd f) (<[next_fd f := d]> (fds f))) (Fs n (fds f) next (cwd f))) n.
Proof.
  intros (H0 & Hfree & _) Hn Hle.
  assert (delete (next_fd f) (<[next_fd f := d]> (fds f)) = fds f) as E
    by (apply delete_insert_id, Hfree; lia).
  unfold leaves, fs_ok; cbn. rewrite E. split_and!; try done; [lia|].
  intros fd Hfd. apply Hfree. lia.
Qed.

(** A boolean check of [tree_ok] for concrete trees. *)
Definition tree_check (c : path) (n : gmap path node) : bool :=
  bool_decide (n !! [] = Some NDir) && bool_decide (n !! c = Some NDir) &&
  forallb (fun '(p, _) => bool_decide (p = []) || bool_decide (n !! removelast p = Some NDir))
    (map_to_list n).

Lemma fs_ok_fresh n next c : 0 <= next -> tree_check c n = true -> fs_ok (Fs n ∅ next c).
Proof.
  intros Hnext Ht. unfold tree_check in Ht. apply andb_true_iff in Ht as [Ht H3].
  apply andb_true_iff in Ht as [H1 H2]. apply bool_decide_eq_true_1 in H1, H2.
  split; [done|]. split; [intros; apply lookup_empty|]. split; [done|]. split; [done|].
  intros p x Hp. rewrite forallb_forall in H3. specialize (H3 (p, x)). cbn in H3.
  apply orb_true_iff in H3 as [H|H].
  - left. by apply bool_decide_eq_true_1 in H.
  - right. by apply bool_decide_eq_true_1 in H.
  - apply list_elem_of_In. by apply elem_of_map_to_list.
Qed.

Section MoreCallRules.
Context (C : choice -> Prop) (S : stop -> Prop).
Implicit Types (s : proc) (f : fs).

(** [lstat]: an error (injected, or the truth), a file's size, or something
    for a directory. *)
Lemma wpP_lstat p Q s f :
  (forall e, may_fail C e -> 0 < e -> e <> ENOENT -> Q (-1, 0) (Proc e (last_id_ s)) f) ->
  (forall e, namei f (c_str p) = inl e -> Q (-1, 0) (Proc e (last_id_ s)) f) ->
  (forall q, namei f (c_str p) = inr q -> nodes f !! q = None -> Q (-1, 0) (Proc ENOENT (last_id_ s)) f) ->
  (forall q d, namei f (c_str p) = inr q -> nodes f !! q = Some (NFile d) -> Q (0, size d) s f) ->
  (forall q n, namei f (c_str p) = inr q -> nodes f !! q = Some NDir -> 0 <= n -> Q (0, n) s f) ->
  wpP C S (lstat p) Q s f.
Proof.
  intros Hinj Herr Hnone Hfile Hdir. apply wpP_sys_ret. intros c Hc. kstep_cases c e Ei.
  - destruct (injected_hard c e Ei) as (? & ? & ?). apply Hinj; [by exists c|done|done].
  - destruct (namei f (c_str p)) as [e|q] eqn:En; cbn; [by apply Herr|].
    destruct (nodes f !! q) as [[|d]|] eqn:E; cbn.
    + by apply (Hdir q); [| |lia].
    + by apply (Hfile q).
    + by apply (Hnone q).
Qed.

(** [access(p, F_OK)] *)
Lemma wpP_access p Q s f :
  (forall e, may_fail C e \/ namei f (c_str p) = inl e -> Q (-1) (Proc e (last_id_ s)) f) ->
  (forall q, namei f (c_str p) = inr q -> nodes f !! q = None -> Q (-1) (Proc ENOENT (last_id_ s)) f) ->
  (forall q x, namei f (c_str p) = inr q -> nodes f !! q = Some x -> Q 0 s f) ->
  wpP C S (access p) Q s f.
Proof.
  intros Hfail Hnone Hok. apply wpP_sys_ret. intros c Hc. kstep_cases c e Ei.
  - apply Hfail. left. by exists c.
  - destruct (namei f (c_str p)) as [e|q] eqn:En; cbn; [apply Hfail; by right|].
    destruct (nodes f !! q) as [x|] eqn:E; cbn; [by apply (Hok q x)|by apply (Hnone q)].
Qed.

(** After unlinking the file [q]: open descriptors keep their place but not
    their file. *)
Definition unlinked (f : fs) (q : path) : fs :=
  set_fds (detach q <$> fds f) (set_nodes (delete q (nodes f)) f).

Lemma wpP_unlink_file p q d Q s f :
  namei f (c_str p) = inr q -> nodes f !! q = Some (NFile d) ->
  (forall e, may_fail C e -> 0 < e -> Q (-1) (Proc e (last_id_ s)) f) ->
  Q 0 s (unlinked f q) ->
  wpP C S (unlink p) Q s f.
Proof.
  intros Hn Hq Hfail Hok. apply wpP_sys_ret. intros c Hc. kstep_cases c e Ei.
  - apply Hfail; [by exists c|by apply (injected_hard c)].
  - by rewrite Hn, Hq.
Qed.
End MoreCallRules.

(** [f'] keeps every file and directory of [f] as it is (it may have more),
    has as many open descriptors, and is as well-formed. *)
Definition extends (f f' : fs) : Prop :=
  (forall p x, nodes f !! p = Some x -> nodes f' !! p = Some x) /\
  dom (fds f') = dom (fds f) /\ cwd f' = cwd f /\ fs_ok f'.

Lemma extends_refl f : fs_ok f -> extends f f.
Proof. intros H. by split_and!. Qed.

Lemma extends_trans a b c : extends a b -> extends b c -> extends a c.
Proof. intros (N1 & D1 & C1 & O1) (N2 & D2 & C2 & O2). split_and!; auto; congruence. Qed.

(** Adding at a free place and leaving the rest. *)
Lemma extends_add f f' q x :
  nodes f !! q = None -> leaves f f' (<[q := x]> (nodes f)) -> extends f f'.
Proof.
  intros Hq (En & Ef & Ec & Hok). unfold extends. rewrite En, Ef, Ec. split_and!; try done.
  intros p y Hp. rewrite lookup_insert_ne; [done|]. intros ->. congruence.
Qed.

Lemma extends_same f f' : leaves f f' (nodes f) -> extends f f'.
Proof. intros (En & Ef & Ec & Hok). unfold extends. by rewrite En, Ef, Ec. Qed.

(** Removing again what was added. *)
Lemma extends_unlinked f f' q d :
  nodes f !! q = None -> extends f f' -> nodes f' !! q = Some (NFile d) ->
  extends f (unlinked f' q).
Proof.
  intros Hq (N & D & Cw & (H0 & Hfree & Ht)) Hd. unfold extends, fs_ok, unlinked. fs_simpl.
  split_and!; try done.
  - intros p x Hp. rewrite lookup_delete_ne; [by apply N|]. intros ->. congruence.
  - by rewrite dom_fmap_L.
  - intros fd Hfd. by rewrite lookup_fmap, Hfree.
  - by eapply tree_delete_file.
Qed.

Lemma extends_ok f f' : extends f f' -> fs_ok f'.
Proof. by intros (_ & _ & _ & H). Qed.

(** Path names that resolved still do. *)
Lemma walk_extends n n' cur cs q :
  (forall p x, n !! p = Some x -> n' !! p = Some x) ->
  walk n cur cs = inr q -> walk n' cur cs = inr q.
Proof.
  intros Hn. revert cur. induction cs as [|c cs IH]; intros cur; cbn; [done|].
  destruct (n !! cur) as [[|]|] eqn:E; try done. rewrite (Hn _ _ E). apply IH.
Qed.

Lemma namei_extends f f' p q : extends f f' -> namei f p = inr q -> namei f' p = inr q.
Proof.
  intros (N & _ & Cw & _). unfold namei. rewrite Cw. destruct p; [done|]. by apply walk_extends.
Qed.
