(* ===== verification/Threads.v ===== *)
(** * Interleaving: several processes on one file system

    A configuration is a shared file system and the rest of each process's
    program; a step runs one system call of one of them, with any choice of
    the environment.  For one lock file [q], [disc] says that a program only
    creates it exclusively and only unlinks it while holding it; disciplined
    processes never hold it together ([mutual_exclusion_inv]). *)

From stdpp Require Import relations.
From S2P Require Import Prelude CString Posix.

(** ** Steps *)

Record config (R : Type) := Config { shared : fs; threads : list (prog R) }.
Arguments Config {R} shared threads.
Arguments shared {R} c.
Arguments threads {R} c.

Inductive step {R} : config R -> config R -> Prop :=
| step_call X (s : sys X) k i c f ts :
    ts !! i = Some (Vis s k) ->
    step (Config f ts) (Config (snd (kstep s c f)) (<[i := k (fst (kstep s c f))]> ts)).

(** An executable interleaving: whose turn it is, and the choice it meets. *)
Definition turn {R} (cf : config R) (t : nat * choice) : config R :=
  match threads cf !! fst t with
  | Some (Vis s k) =>
      Config (snd (kstep s (snd t) (shared cf)))
        (<[fst t := k (fst (kstep s (snd t) (shared cf)))]> (threads cf))
  | _ => cf
  end.

Definition run_schedule {R} (ts : list (nat * choice)) (cf : config R) : config R :=
  fold_left turn ts cf.

Lemma run_schedule_steps {R} ts (cf : config R) : rtc step cf (run_schedule ts cf).
Proof.
  revert cf. induction ts as [|[i ch] ts IH]; intros cf; [apply rtc_refl|].
  cbn [run_schedule fold_left]. transitivity (turn cf (i, ch)); [|apply IH].
  unfold turn. cbn [fst snd]. destruct cf as [f ths]. cbn [threads shared].
  destruct (ths !! i) as [[a|X s k]|] eqn:E; try apply rtc_refl.
  apply rtc_once. by apply (step_call _ s k i ch f ths).
Qed.

(** ** Path names without a file system *)

(** Where a path leads if every component exists. *)
Definition lex (c : path) (p : bytes) : path :=
  fold_left walk1 (components p) (if is_abs p then [] else c).

Lemma walk_lex n cur cs q : walk n cur cs = inr q -> q = fold_left walk1 cs cur.
Proof.
  revert cur. induction cs as [|c cs IH]; cbn; intros cur; [congruence|].
  destruct (n !! cur) as [[|]|]; [apply IH|done..].
Qed.

Lemma namei_lex f p q : namei f p = inr q -> q = lex (cwd f) p.
Proof. unfold namei, lex. destruct p; [done|]. apply walk_lex. Qed.

(** ** The discipline for the lock file [q] *)

Section Discipline.
Context (c : path) (q : path).

Definition allowed {X} (s : sys X) (held : bool) : Prop :=
  match s with
  | KOpen p fl => lex c p = q -> o_creat fl = true -> o_excl fl = true
  | KUnlink p => lex c p = q -> held = true
  | _ => True
  end.

(** Whether the process holds the lock after a call with the answer [r]. *)
Definition after {X} (s : sys X) : X -> bool -> bool :=
  match s in sys X return X -> bool -> bool with
  | KOpen p fl => fun r held =>
      match r with
      | inr _ => if o_creat fl && o_excl fl && bool_decide (lex c p = q) then true else held
      | inl _ => held
      end
  | KUnlink p => fun r held =>
      match r with
      | inr _ => if bool_decide (lex c p = q) then false else held
      | inl _ => held
      end
  | _ => fun _ held => held
  end.

Fixpoint disc {A} (held : bool) (p : prog A) (Q : A -> bool -> Prop) : Prop :=
  match p with
  | Ret a => Q a held
  | Vis s k => allowed s held /\ forall r, disc (after s r held) (k r) Q
  end.

Lemma disc_mono {A} held (p : prog A) (Q R : A -> bool -> Prop) :
  disc held p Q -> (forall a h, Q a h -> R a h) -> disc held p R.
Proof.
  intros H HQR. revert held H. induction p as [a|X s k IH]; cbn; intros held H; [auto|].
  destruct H as [Ha H]. split; [done|]. intros r. by apply IH.
Qed.

Lemma disc_bind {A B} held (p : prog A) (g : A -> prog B) Q :
  disc held p (fun a h => disc h (g a) Q) -> disc held (pbind p g) Q.
Proof.
  revert held. induction p as [a|X s k IH]; cbn; intros held H; [done|].
  destruct H as [Ha H]. split; [done|]. intros r. by apply IH.
Qed.

(** The same for processes; a process that stops makes no further promise. *)
Definition discP {A} (held : bool) (m : P A) (Q : A -> bool -> Prop) : Prop :=
  forall s, disc held (m s) (fun '(r, _) h => match r with inr a => Q a h | inl _ => True end).

Lemma discP_ret {A} held (a : A) (Q : A -> bool -> Prop) : Q a held -> discP held (mret a) Q.
Proof. intros H s. exact H. Qed.

Lemma discP_halt {A} held e (Q : A -> bool -> Prop) : discP held (halt e) Q.
Proof. intros s. exact I. Qed.

Lemma discP_bind {A B} held (m : P A) (k : A -> P B) Q :
  discP held m (fun a h => discP h (k a) Q) -> discP held (mbind k m) Q.
Proof.
  intros H s. apply disc_bind. eapply disc_mono; [apply H|].
  intros [[e|a] s'] h; cbn; [done|]. intros Ha. apply Ha.
Qed.

Lemma discP_mono {A} held (m : P A) (Q R : A -> bool -> Prop) :
  discP held m Q -> (forall a h, Q a h -> R a h) -> discP held m R.
Proof.
  intros H HQR s. eapply disc_mono; [apply H|]. intros [[e|a] s'] h; [done|]. apply HQR.
Qed.

Lemma discP_call {X} held (k : sys X) (Q : X -> bool -> Prop) :
  allowed k held -> (forall r, Q r (after k r held)) -> discP held (call k) Q.
Proof. intros Ha H s. split; [done|]. intros r. apply H. Qed.

(** The state of the process does not matter. *)
Lemma discP_get_errno held Q : (forall e, Q e held) -> discP held get_errno Q.
Proof. intros H s. apply H. Qed.
Lemma discP_set_errno held e Q : Q tt held -> discP held (set_errno e) Q.
Proof. intros H s. apply H. Qed.
Lemma discP_get_last_id held Q : (forall e, Q e held) -> discP held get_last_id Q.
Proof. intros H s. apply H. Qed.
Lemma discP_set_last_id held e Q : Q tt held -> discP held (set_last_id e) Q.
Proof. intros H s. apply H. Qed.

Lemma discP_sys_ret {X Y} held (bad : Y) (good : X -> Y) (k : sys (Z + X)) (Q : Y -> bool -> Prop) :
  allowed k held ->
  (forall e, Q bad (after k (inl e) held)) -> (forall x, Q (good x) (after k (inr x) held)) ->
  discP held (sys_ret bad good k) Q.
Proof.
  intros Ha Hbad Hgood. apply discP_bind, discP_call; [done|].
  intros [e|x]; [|by apply discP_ret]. apply discP_bind, discP_set_errno, discP_ret, Hbad.
Qed.

(** ** One call and the lock file *)

Definition present (f : fs) : Prop := exists d, nodes f !! q = Some (NFile d).

Ltac node_cases p :=
  destruct (decide (p = q)) as [->|];
  [rewrite ?lookup_insert_eq, ?lookup_delete_eq in *|rewrite ?lookup_insert_ne, ?lookup_delete_ne in * by done].

(** No call but a successful unlink removes the lock file. *)
Lemma kcall_present {X} (s : sys X) ch f held :
  cwd f = c -> present f -> present (snd (kcall s ch f)) \/ after s (fst (kcall s ch f)) held = false.
Proof.
  intros Hc [d Hd]. destruct s; cbn [kcall].
  - left. unfold kopen. destruct (namei f p) as [e|q']; [by exists d|].
    destruct (nodes f !! q') as [[|d']|] eqn:E; [by exists d| |].
    + destruct (o_creat fl && o_excl fl); [by exists d|]. unfold present. cbn.
      destruct (o_trunc fl); [|by exists d]. node_cases q'; eauto.
    + destruct (o_creat fl); [|by exists d]. unfold present. cbn.
      node_cases q'; [congruence|eauto].
  - left. destruct (fds f !! fd); by exists d.
  - left. destruct (fds f !! fd); [|by exists d]. destruct (off <? 0); by exists d.
  - left. unfold kwrite. destruct (fds f !! fd) as [[[q'|] pos]|]; cbn; [|by exists d..].
    unfold present. cbn. destruct (nodes f !! q') as [[|d']|] eqn:E; [by exists d| |by exists d].
    node_cases q'; eauto.
  - left. unfold kread. destruct (fds f !! fd); by exists d.
  - left. destruct (namei f p) as [e|q']; [by exists d|]. destruct (nodes f !! q') as [[|]|]; by exists d.
  - left. destruct (namei f p) as [e|q']; [by exists d|]. destruct (nodes f !! q') as [[|]|]; by exists d.
  - left. destruct (namei f p) as [e|q']; [by exists d|].
    destruct (nodes f !! q') as [x|] eqn:E; [by exists d|]. unfold present. cbn.
    node_cases q'; [congruence|eauto].
  - destruct (namei f p) as [e|q'] eqn:En; [left; by exists d|].
    destruct (nodes f !! q') as [[|d']|] eqn:E; [left; by exists d| |left; by exists d].
    apply namei_lex in En. rewrite Hc in En. cbn. unfold present. cbn.
    destruct (decide (q' = q)) as [Eq|Hne].
    + right. subst q'. by rewrite bool_decide_true.
    + left. rewrite lookup_delete_ne by done. by exists d.
  - left. by exists d.
  - left. by exists d.
  - left. by exists d.
  - left. by exists d.
  - left. by exists d.
Qed.

(** Holding starts only with the creation of a missing lock file. *)
Lemma kcall_acquire {X} (s : sys X) ch f :
  cwd f = c -> after s (fst (kcall s ch f)) false = true ->
  nodes f !! q = None /\ present (snd (kcall s ch f)).
Proof.
  intros Hc. destruct s; cbn [kcall after]; try done.
  - destruct (o_creat fl && o_excl fl) eqn:Ex; cbn [andb];
      [|intros H; by destruct (fst (kopen p fl f))].
    unfold kopen. rewrite Ex. destruct (namei f p) as [e|q'] eqn:En; [done|].
    apply namei_lex in En. rewrite Hc in En.
    destruct (nodes f !! q') as [[|d']|] eqn:E; [done|done|].
    apply andb_true_iff in Ex as [-> _]. cbn. case_bool_decide as Eq; [|done].
    intros _. assert (q' = q) as -> by congruence. split; [done|].
    exists []. cbn. apply lookup_insert_eq.
  - intros H. exfalso. revert H. destruct (fst _); [done|]. by case_bool_decide.
Qed.

(** A failing call changes no file. *)
Lemma kstep_injected_nodes {X} (s : sys X) ch f e :
  injected ch = Some e -> nodes (snd (kstep s ch f)) = nodes f \/
    (injected ch = Some e /\ kstep s ch f = kcall s ch f).
Proof.
  intros Hi. unfold kstep. rewrite Hi. destruct s; cbn; auto.
  - left. by destruct (fds f !! fd).
  - left. unfold kread. by destruct (fds f !! fd).
Qed.

Lemma kstep_after {X} (s : sys X) ch f held :
  kstep s ch f = kcall s ch f \/
  (nodes (snd (kstep s ch f)) = nodes f /\ after s (fst (kstep s ch f)) held = held).
Proof.
  unfold kstep. destruct (injected ch); [|by left]. destruct s; cbn; auto.
  - right. split; [by destruct (fds f !! fd)|done].
  - right. unfold kread. by destruct (fds f !! fd).
Qed.

Lemma kstep_present {X} (s : sys X) ch f held :
  cwd f = c -> present f ->
  present (snd (kstep s ch f)) \/ after s (fst (kstep s ch f)) held = false.
Proof.
  intros Hc Hp. destruct (kstep_after s ch f held) as [-> | [En _]]; [by apply kcall_present|].
  left. unfold present. by rewrite En.
Qed.

Lemma kstep_acquire {X} (s : sys X) ch f :
  cwd f = c -> after s (fst (kstep s ch f)) false = true ->
  nodes f !! q = None /\ present (snd (kstep s ch f)).
Proof.
  intros Hc. destruct (kstep_after s ch f false) as [-> | [_ ->]]; [by apply kcall_acquire|done].
Qed.

(** Losing the lock is unlinking it, which the discipline allows holders only. *)
Lemma kstep_release {X} (s : sys X) ch f held :
  allowed s held -> after s (fst (kstep s ch f)) held = false ->
  present f -> ~ present (snd (kstep s ch f)) -> cwd f = c -> held = true.
Proof.
  intros Ha Hafter Hp Hnp Hc.
  destruct (kstep_after s ch f held) as [E | [En _]].
  2:{ exfalso. apply Hnp. unfold present. by rewrite En. }
  rewrite E in *. destruct (kcall_present s ch f true Hc Hp) as [|Ht]; [done|].
  destruct s; cbn in Ha, Ht; try done.
  - revert Ht. destruct (kopen p fl f) as [[e|x] f']; cbn; [done|]. by destruct (_ && _).
  - revert Ht. destruct (fst _); [done|]. case_bool_decide; [auto|done].
Qed.

Lemma kstep_cwd {X} (s : sys X) ch f : cwd (snd (kstep s ch f)) = cwd f.
Proof.
  assert (forall g, g = f -> cwd (snd (kcall s ch g)) = cwd f) as Hk.
  { intros g ->. destruct s; cbn [kcall]; unfold kopen, kwrite, kread; by repeat case_match. }
  unfold kstep. destruct (injected ch); [|by apply Hk].
  destruct s; try done; try (by apply Hk).
  unfold kread. by destruct (fds f !! fd).
Qed.

(** ** Mutual exclusion *)

(** The invariant: some assignment of the lock to threads fits every program,
    at most one thread holds it, and then the file exists. *)
Definition lock_inv {R} (Q : R -> bool -> Prop) (cf : config R) : Prop :=
  cwd (shared cf) = c /\
  exists held : nat -> bool,
    (forall i p, threads cf !! i = Some p -> disc (held i) p Q) /\
    (forall i j, held i = true -> held j = true -> i = j) /\
    (forall i, held i = true -> present (shared cf)).

Lemma lock_inv_step {R} (Q : R -> bool -> Prop) (a b : config R) :
  lock_inv Q a -> step a b -> lock_inv Q b.
Proof.
  intros (Hc & held & Hdisc & Huniq & Hpres) Hstep. destruct Hstep as [X s k i ch f ts Hi].
  cbn [shared threads] in *. destruct (Hdisc i _ Hi) as [Ha Hk].
  split; [by rewrite <- Hc; apply kstep_cwd|].
  set (r := fst (kstep s ch f)) in *. set (f' := snd (kstep s ch f)) in *.
  exists (fun j => if decide (j = i) then after s r (held i) else held j).
  assert (forall j, j <> i -> held j = true -> present f') as Hothers.
  { intros j Hj Hh. pose proof (Hpres j Hh) as Hp.
    destruct (decide (held i = true)) as [Hhi|Hhi]; [by destruct (Hj (Huniq _ _ Hh Hhi))|].
    apply not_true_is_false in Hhi.
    destruct (kstep_present s ch f (held i) Hc Hp) as [|Hrel]; [done|].
    unfold f'. destruct (kstep_after s ch f false) as [E|[En _]].
    2:{ unfold present. by rewrite En. }
    assert (present (snd (kstep s ch f)) \/ ~ present (snd (kstep s ch f))) as [|Hno]
      by (unfold present; destruct (nodes (snd (kstep s ch f)) !! q) as [[|d]|];
          [right; by intros []|left; by exists d|right; by intros []]); [done|].
    pose proof (kstep_release s ch f (held i) Ha Hrel Hp Hno Hc). congruence. }
  assert (held i = false -> after s r (held i) = true -> forall j, held j = true -> False) as Hnew.
  { intros Hhi Haft j Hj. rewrite Hhi in Haft. destruct (kstep_acquire s ch f Hc Haft) as [Hn _].
    destruct (Hpres j Hj) as [d Hd]. congruence. }
  split_and!.
  - cbn [threads shared]. intros j p Hj. destruct (decide (j = i)) as [->|Hne].
    + rewrite list_lookup_insert_eq in Hj by (by eapply lookup_lt_Some). injection Hj as <-. apply Hk.
    + rewrite list_lookup_insert_ne in Hj by done. by apply Hdisc.
  - intros j1 j2 H1 H2. destruct (decide (j1 = i)) as [->|N1], (decide (j2 = i)) as [->|N2]; try done.
    + destruct (held i) eqn:Hhi; [by apply Huniq|]. destruct (Hnew eq_refl H1 j2 H2).
    + destruct (held i) eqn:Hhi; [by apply Huniq|]. destruct (Hnew eq_refl H2 j1 H1).
    + by apply Huniq.
  - intros j Hj. destruct (decide (j = i)) as [->|Hne]; [|by apply (Hothers j)].
    destruct (held i) eqn:Hhi.
    + destruct (kstep_present s ch f true Hc (Hpres i Hhi)) as [|Hrel]; [done|].
      fold r in Hrel. congruence.
    + by destruct (kstep_acquire s ch f Hc Hj).
Qed.

Lemma mutual_exclusion_inv {R} (Q : R -> bool -> Prop) (a b : config R) :
  lock_inv Q a -> rtc step a b -> lock_inv Q b.
Proof. intros H Hs. induction Hs as [|x y z Hxy _ IH]; [done|]. by apply IH, (lock_inv_step Q x). Qed.

(** Threads that have not taken the lock yet. *)
Lemma lock_inv_init {R} (Q : R -> bool -> Prop) f (ts : list (prog R)) :
  cwd f = c -> Forall (fun p => disc false p Q) ts -> lock_inv Q (Config f ts).
Proof.
  intros Hc Hts. split; [done|]. exists (fun _ => false). cbn. split_and!; [|done|done].
  intros i p Hi. rewrite Forall_forall in Hts. apply Hts. by eapply list_elem_of_lookup_2.
Qed.
End Discipline.
