(* ===== verification/FileLock.v ===== *)
(** * The lock file (src/bundle/filelock.h)

    A lock is a file created with [O_EXCL]: holding it means having created
    it, releasing it means unlinking it. *)

From stdpp Require Import relations.
From S2P Require Import Prelude CString Posix Threads.

(** ** Operations *)

Record FileLock := mkFileLock {
  lockfile_ : bytes;
  timeout_ : Z;
  delay_ : Z;
  locked_ : bool }.

Definition FileLock_new (name : bytes) (timeout delay : Z) : FileLock :=
  mkFileLock (c_str name) timeout delay false.

(** The constructor's default arguments. *)
Definition FileLock_default (name : bytes) : FileLock := FileLock_new name 10000 500.

Definition set_locked (b : bool) (l : FileLock) : FileLock :=
  mkFileLock (lockfile_ l) (timeout_ l) (delay_ l) b.

(** [static bool Lock(const char *name)] *)
Definition Lock_name (name : bytes) : P bool :=
  fd ← open name O_RDWR_CREAT_EXCL;
  if -1 =? fd then mret false
  else close fd;; mret true.

(** [static bool Unlock(const char *name)] *)
Definition Unlock_name (name : bytes) : P bool :=
  r ← unlink name;
  mret (0 =? r).

Definition TryLock (l : FileLock) : P (bool * FileLock) :=
  b ← Lock_name (lockfile_ l);
  mret (b, set_locked b l).

(** [locked_] stays as it was. *)
Definition Unlock (l : FileLock) : P FileLock :=
  if locked_ l then Unlock_name (lockfile_ l);; mret l else mret l.

Definition IsLocked (l : FileLock) : bool := locked_ l.

(** The destructor. *)
Definition FileLock_delete (l : FileLock) : P unit :=
  if locked_ l then Unlock l;; mret tt else mret tt.

(** The do-while loop of [Lock()]: one attempt per iteration, and a pause that
    doubles; the [int] doubling must not overflow. *)
Fixpoint Lock_loop (fuel : nat) (delay : Z) (l : FileLock) : P (bool * FileLock) :=
  match fuel with
  | O => halt Fuel
  | S fuel =>
      b ← Lock_name (lockfile_ l);
      let l := set_locked b l in
      if negb b then
        if delay <? timeout_ l then
          call (KUsleep delay);;
          if (2 ^ 31 - 1 <? delay + delay) || (delay + delay <? - 2 ^ 31) then halt Undef
          else Lock_loop fuel (delay + delay) l
        else mret (locked_ l, l)
      else mret (locked_ l, l)
  end.

Definition Lock (fuel : nat) (l : FileLock) : P (bool * FileLock) :=
  Lock_loop fuel (delay_ l) l.

(** ** What the operations do to the files *)

Lemma kopen_excl p f :
  (exists e, kopen p O_RDWR_CREAT_EXCL f = (inl e, f) /\ 0 < e /\
     (forall q, namei f p = inr q -> nodes f !! q <> None)) \/
  (exists q, namei f p = inr q /\ nodes f !! q = None /\
    kopen p O_RDWR_CREAT_EXCL f =
      (inr (next_fd f), opened (set_nodes (<[q := NFile []]> (nodes f)) f) q)).
Proof.
  unfold kopen. destruct (namei f p) as [e|q] eqn:En.
  - left. exists e. split; [done|]. split; [by eapply namei_error|done].
  - destruct (nodes f !! q) as [[|d]|] eqn:Eq; cbn.
    + left. exists EEXIST. split_and!; try done. intros q' [= <-]. by rewrite Eq.
    + left. exists EEXIST. split_and!; try done. intros q' [= <-]. by rewrite Eq.
    + right. by exists q.
Qed.

(** [Lock(name)], in any environment: it succeeds only if the file was missing
    and then leaves it behind; otherwise nothing changes.  On a calm system it
    fails only if the file is there (or its directory is not). *)
Lemma Lock_name_wp C S name s f :
  fs_ok f ->
  wpP C S (Lock_name name) (fun b s' f' =>
    last_id_ s' = last_id_ s /\
    if b : bool then exists q, namei f (c_str name) = inr q /\ nodes f !! q = None /\
      leaves f f' (<[q := NFile []]> (nodes f))
    else leaves f f' (nodes f) /\
      ((exists e, may_fail C e) \/ forall q, namei f (c_str name) = inr q -> nodes f !! q <> None)) s f.
Proof.
  intros Hok. pose proof Hok as (Hnf & Hfree & Htree).
  apply wpP_bind, wpP_sys_ret. intros c Hc. kstep_cases c e Ei.
  - apply wpP_ret. split; [done|]. split; [by apply leaves_refl|]. left. exists e. by exists c.
  - destruct (kopen_excl (c_str name) f) as [(e & -> & He & Hn) | (q & Hq & Hq0 & ->)]; cbn [fst snd].
    + apply wpP_ret. split; [done|]. split; [by apply leaves_refl|]. by right.
    + cbn [id]. destruct (Z.eqb_spec (-1) (next_fd f)); [lia|].
      eapply wpP_close_ignore; [apply lookup_insert_eq|].
      intros s' Hid _. apply wpP_ret. split; [done|]. exists q. split; [done|]. split; [done|].
      fs_simpl. apply leaves_closed; [done| |next_fd_le].
      apply tree_insert_new; [done|done|by eapply namei_new].
Qed.

Lemma TryLock_wp C S l s f :
  fs_ok f ->
  wpP C S (TryLock l) (fun '(b, l') s' f' =>
    last_id_ s' = last_id_ s /\ l' = set_locked b l /\
    if b : bool then exists q, namei f (c_str (lockfile_ l)) = inr q /\ nodes f !! q = None /\
      leaves f f' (<[q := NFile []]> (nodes f))
    else leaves f f' (nodes f) /\
      ((exists e, may_fail C e) \/
        forall q, namei f (c_str (lockfile_ l)) = inr q -> nodes f !! q <> None)) s f.
Proof.
  intros Hok. apply wpP_bind. eapply wpP_mono; [by apply Lock_name_wp|].
  intros b s' f' [Hid H]. apply wpP_ret. by destruct b.
Qed.

(** The loop of [Lock()] gives up after finitely many attempts: the pause
    doubles, so [k + 1] attempts pass any timeout up to [delay * 2^k], and the
    doubling cannot overflow. *)
Lemma Lock_loop_total C k delay l s f :
  fs_ok f -> 0 < delay -> timeout_ l <= delay * 2 ^ Z.of_nat k -> timeout_ l <= 2 ^ 30 ->
  wpP C never (Lock_loop (Datatypes.S k) delay l)
    (fun '(b, l') s' f' => locked_ l' = b /\ lockfile_ l' = lockfile_ l /\ last_id_ s' = last_id_ s /\
       if b : bool then exists q, namei f (c_str (lockfile_ l)) = inr q /\ nodes f !! q = None /\
         leaves f f' (<[q := NFile []]> (nodes f))
       else leaves f f' (nodes f)) s f.
Proof.
  revert delay l s f. induction k as [|k IH]; intros delay l s f Hok Hd Ht Hmax;
    cbn [Lock_loop]; apply wpP_bind; (eapply wpP_mono; [by apply Lock_name_wp|]);
    intros [] s1 f1 [Hid H]; cbn [negb]; try (apply wpP_ret; by split_and!).
  - cbn [timeout_ set_locked]. destruct (Z.ltb_spec delay (timeout_ l)); [cbn in Ht; lia|].
    apply wpP_ret. by destruct H as [H _].
  - cbn [timeout_ set_locked]. destruct (Z.ltb_spec delay (timeout_ l)).
    2:{ apply wpP_ret. by destruct H as [H _]. }
    destruct H as [(En & Ef & Ec & Hok1) _].
    apply wpP_bind, wpP_call. intros c _.
    assert (kstep (KUsleep delay) c f1 = (tt, f1)) as -> by (unfold kstep; by destruct (injected c)).
    destruct (Z.ltb_spec (2 ^ 31 - 1) (delay + delay)); [lia|].
    destruct (Z.ltb_spec (delay + delay) (- 2 ^ 31)); [lia|]. cbn [orb fst snd].
    eapply wpP_mono.
    + apply (IH (delay + delay) (set_locked false l)); [done|lia| |done].
      cbn [timeout_ set_locked]. replace (Z.of_nat (Datatypes.S k)) with (Z.succ (Z.of_nat k)) in Ht by lia.
      rewrite Z.pow_succ_r in Ht by lia. lia.
    + intros [b l'] s2 f2 (Hb & Hl & Hid2 & Hcase). cbn in Hl, Hcase.
      rewrite (namei_cong f1 f) in Hcase by done. rewrite En in Hcase.
      split; [done|]. split; [done|]. split; [congruence|].
      destruct b; [destruct Hcase as (q & ? & ? & Hlv); exists q; split; [done|]; split; [done|]
                  |rename Hcase into Hlv].
      all: destruct Hlv as (E1 & E2 & E3 & E4); unfold leaves; split_and!; congruence || done.
Qed.

(** ** The discipline of the lock file *)

Section LockDiscipline.
Context (c : path) (q : path).

(** An object that thinks it is locked really holds the lock file [q]. *)
Definition honest (l : FileLock) (held : bool) : Prop :=
  locked_ l = true -> lex c (c_str (lockfile_ l)) = q -> held = true.

(** [TryLock] takes [q] or leaves the holder as it was. *)
Lemma TryLock_disc held l :
  discP c q held (TryLock l) (fun '(b, l') h =>
    l' = set_locked b l /\ honest l' h /\ (held = true -> h = true)).
Proof.
  apply discP_bind, discP_bind, discP_sys_ret.
  - cbn. auto.
  - intros e. apply discP_ret, discP_ret. cbn. by split_and!.
  - intros fd. cbn [after o_creat o_excl O_RDWR_CREAT_EXCL andb].
    set (h := if bool_decide (lex c (c_str (lockfile_ l)) = q) then true else held).
    assert (held = true -> h = true) as Hmono by (intros ->; unfold h; by case_bool_decide).
    cbn [id]. destruct (-1 =? fd).
    + apply discP_ret, discP_ret. by split_and!.
    + apply discP_bind, discP_sys_ret; [done| |]; intros x; cbn [after];
        apply discP_ret, discP_ret; (split; [done|split; [|done]]);
        intros _ Hl; cbn in Hl; unfold h; by rewrite bool_decide_true.
Qed.

(** Unlinking is for holders only; an object that is not locked does nothing. *)
Lemma FileLock_delete_disc held l :
  honest l held -> discP c q held (FileLock_delete l) (fun _ h =>
    (held = false -> h = false) /\ (lex c (c_str (lockfile_ l)) <> q -> h = held)).
Proof.
  intros Hl. unfold FileLock_delete, Unlock.
  destruct (locked_ l) eqn:El; [|by apply discP_ret].
  apply discP_bind, discP_bind, discP_bind, discP_sys_ret.
  - intros Hq. by apply Hl.
  - intros e. do 3 apply discP_ret. done.
  - intros []. do 3 apply discP_ret. cbn [after]. split.
    + intros ->. by case_bool_decide.
    + intros Hne. by rewrite bool_decide_false.
Qed.
End LockDiscipline.

(** Mutual exclusion: however the system calls of any number of processes
    are interleaved and whatever errors the system injects, no two of the
    processes that called [TryLock] on the same name have both been told that
    they own the lock (and kept it). *)
Theorem TryLock_exclusive (name : bytes) (c : path) (f : fs)
    (b : config ((stop + (bool * FileLock)) * proc)) (ss : list proc) (i j : nat) l1 l2 s1 s2 :
  cwd f = c ->
  rtc step (Config f (map (fun s => TryLock (FileLock_default name) s) ss)) b ->
  threads b !! i = Some (Ret (inr (true, l1), s1)) ->
  threads b !! j = Some (Ret (inr (true, l2), s2)) -> i = j.
Proof.
  intros Hc Hsteps Hi Hj.
  set (Q := fun (x : (stop + (bool * FileLock)) * proc) (h : bool) =>
    match fst x with inr (true, _) => h = true | _ => True end).
  assert (lock_inv c (lex c (c_str (c_str name))) Q b) as (_ & held & Hdisc & Huniq & _).
  { eapply mutual_exclusion_inv; [|exact Hsteps]. apply lock_inv_init; [done|].
    apply Forall_map, Forall_true. intros s.
    eapply disc_mono; [apply (TryLock_disc c (lex c (c_str (c_str name))) false (FileLock_default name) s)|].
    intros [[e|[bb l]] s'] h; [done|]. unfold Q. cbn. intros (-> & Hh & _).
    destruct bb; [|done]. apply Hh; done. }
  apply Huniq; [apply (Hdisc i _ Hi)|apply (Hdisc j _ Hj)].
Qed.

(** C20: [Lock()] always comes back: with a positive initial pause, [k + 1]
    attempts pass every timeout up to [delay * 2^k] (six attempts for the
    default 500 and 10000), the doubling does not overflow, and it reports
    the lock taken exactly when it created the file. *)
Theorem Lock_total {W C} `{Posix W C} (l : FileLock) (k : nat) (s : proc) (w : W) :
  fs_ok (view w) -> 0 < delay_ l -> timeout_ l <= delay_ l * 2 ^ Z.of_nat k -> timeout_ l <= 2 ^ 30 ->
  match runP (Lock (Datatypes.S k) l) s w with
  | (inr (b, l'), _, w') =>
      locked_ l' = b /\ fds (view w') = fds (view w) /\
      if b : bool then exists q, namei (view w) (c_str (lockfile_ l)) = inr q /\
        nodes (view w) !! q = None /\ nodes (view w') = <[q := NFile []]> (nodes (view w))
      else nodes (view w') = nodes (view w)
  | (inl _, _, _) => False
  end.
Proof.
  intros Hok Hd Ht Hm.
  pose proof (wpP_run never _ _ s w (Lock_loop_total C k (delay_ l) l s (view w) Hok Hd Ht Hm)) as Hr.
  unfold Lock. destruct (runP _ s w) as [[[e|[b l']] s'] w']; [exact Hr|].
  destruct Hr as (Hb & _ & _ & Hcase). split; [exact Hb|].
  destruct b; [destruct Hcase as (q & Hq & Hq0 & (En & Ef & _)); split; [exact Ef|by exists q]
              |by destruct Hcase as (En & Ef & _)].
Qed.

(** ** Concrete runs *)

Definition root_fs : fs := Fs {[ [] := NDir ]} ∅ 3 [].

Definition taken_fs : fs := Fs {[ [] := NDir; [bs "lock"] := NFile [] ]} ∅ 3 [].

Lemma taken_fs_ok : fs_ok taken_fs.
Proof. apply fs_ok_fresh; [lia|vm_compute; reflexivity]. Qed.

Lemma Lock_total_witness :
  match runP (C := benign) (Lock 6 (FileLock_default (bs "/lock"))) (Proc 0 0)
    (MkLocal taken_fs []) with
  | (inr (b, l'), _, _) => locked_ l' = b
  | _ => False
  end.
Proof.
  pose proof (Lock_total (H := calm_local) (FileLock_default (bs "/lock")) 5 (Proc 0 0)
    (MkLocal taken_fs []) taken_fs_ok ltac:(cbn; lia) ltac:(cbn; lia) ltac:(cbn; lia)) as Hr.
  destruct (runP _ _ _) as [[[e|[b l']] s'] w']; [exact Hr|]. exact (proj1 Hr).
Defined.

Lemma TryLock_exclusive_witness : (0 = 0)%nat.
Proof.
  eapply (TryLock_exclusive (bs "/lock") [] root_fs _ [Proc 0 0; Proc 0 0] 0 0); [reflexivity| | |].
  - eapply rtc_l; [eapply (step_call _ _ _ 0 quiet); reflexivity|].
    eapply rtc_l; [eapply (step_call _ _ _ 1 quiet); reflexivity|].
    eapply rtc_l; [eapply (step_call _ _ _ 0 quiet); reflexivity|]. apply rtc_refl.
  - reflexivity.
  - reflexivity.
Defined.

(** With a zero pause the loop never gives up: whatever the bound, it is
    reached. *)
Example Lock_zero_delay_spins :
  fst (fst (runP (C := benign) (Lock 100 (FileLock_new (bs "/lock") 10000 0)) (Proc 0 0)
    (MkLocal taken_fs []))) = inl Fuel.
Proof. vm_compute. reflexivity. Qed.

(** [Unlock] leaves [locked_] set, so the destructor unlinks the file again,
    by then another process's lock: [b] is robbed of it and [c] gets it. *)
Example Unlock_then_destroy_robs :
  fst (fst (runP (C := benign) (
    '(a1, a) ← TryLock (FileLock_default (bs "/lock"));
    a ← Unlock a;
    '(b1, b) ← TryLock (FileLock_default (bs "/lock"));
    FileLock_delete a;;
    '(c1, c) ← TryLock (FileLock_default (bs "/lock"));
    mret (a1, b1, c1)) (Proc 0 0) (MkLocal root_fs []))) = inr (true, true, true).
Proof. vm_compute. reflexivity. Qed.
