(* ===== verification/MkDirs.v ===== *)
(** * Creating a directory and its parents (src/base3/mkdirs.cc, the Linux
    version) *)

From S2P Require Import Prelude CString Posix.

(** ** Operations *)

Definition PATH_LENGTH_MAX : nat := 300.

(** The local [path] array after the truncating copy and the removal of one
    trailing slash. *)
Definition mkdirs_path (pathname : bytes) : bytes :=
  let path := take (PATH_LENGTH_MAX - 1) (c_str pathname) in
  match last path with
  | Some c => if Byte.eqb c "/" then removelast path else path
  | None => path
  end.

(** The leading part that is not created, and where [pa] starts. *)
Definition mkdirs_start (path : bytes) : bytes * bytes :=
  match path with
  | c :: rest =>
      if Byte.eqb c "/" then (bs "/", rest)
      else if Byte.eqb c "." then
        match rest with
        | d :: rest' => if Byte.eqb d "/" then (bs "./", rest') else ([], path)
        | [] => ([], path)
        end
      else ([], path)
  | [] => ([], path)
  end.

(** The loop: [segs] are what [strchr(pa, '/')] cuts off one after another,
    the last one being the characters after the last slash. *)
Fixpoint mkdirs_loop (segs : list bytes) (subpath : bytes) : P Z :=
  match segs with
  | [] => mret 0
  | seg :: rest =>
      let subpath := subpath ++ seg in
      retval ← mkdir subpath;
      match rest with
      | [] =>
          if negb (retval =? 0) then
            e ← get_errno;
            if EEXIST =? e then mret 0 else mret retval
          else mret 0
      | _ =>
          if negb (retval =? 0) then
            e ← get_errno;
            if EEXIST =? e then mkdirs_loop rest (subpath ++ bs "/") else mret retval
          else mkdirs_loop rest (subpath ++ bs "/")
      end
  end.

Definition mkdirs (pathname : bytes) : P Z :=
  let '(subpath, pa) := mkdirs_start (mkdirs_path pathname) in
  mkdirs_loop (split (bs "/") pa) subpath.

(** ** Path names, segment by segment *)

Lemma split_nonempty seps s : split seps s <> [].
Proof.
  unfold split. generalize (@nil Init.Byte.byte). induction s as [|c s IH]; intros cur; cbn; [done|].
  destruct (bool_decide _); [done|apply IH].
Qed.

(** Putting the segments back together. *)
Fixpoint join (segs : list bytes) : bytes :=
  match segs with
  | [] => []
  | [seg] => seg
  | seg :: rest => seg ++ bs "/" ++ join rest
  end.

Lemma join_cons seg rest : rest <> [] -> join (seg :: rest) = seg ++ bs "/" ++ join rest.
Proof. by destruct rest. Qed.

Lemma join_split s : join (split (bs "/") s) = s.
Proof.
  assert (forall cur, join (split_aux (bs "/") s cur) = cur ++ s) as H; [|apply H].
  induction s as [|c s IH]; intros cur; cbn [split_aux]; [by rewrite app_nil_r|].
  case_bool_decide as Hc.
  - rewrite join_cons by (apply (split_nonempty (bs "/") s)). rewrite IH.
    apply elem_of_cons in Hc as [->|[]%not_elem_of_nil]. done.
  - rewrite IH. by rewrite <- app_assoc.
Qed.

Lemma split_segments s : Forall (fun seg => ("/"%byte ∉ seg) /\ (forall c, c ∈ seg -> c ∈ s)) (split (bs "/") s).
Proof.
  assert (forall (s0 cur : bytes), "/"%byte ∉ cur -> (forall c, c ∈ cur -> c ∈ s0) -> (forall c, c ∈ s -> c ∈ s0) ->
    Forall (fun seg => ("/"%byte ∉ seg) /\ (forall c, c ∈ seg -> c ∈ s0)) (split_aux (bs "/") s cur)) as H.
  { induction s as [|c s IH]; intros s0 cur Hcur Hin Hs; cbn [split_aux]; [by repeat constructor|].
    case_bool_decide as Hc.
    - constructor; [done|]. apply IH; [apply not_elem_of_nil| |].
      + intros x []%not_elem_of_nil.
      + intros x Hx. apply Hs. by apply elem_of_cons; right.
    - apply IH.
      + rewrite not_elem_of_app. split; [done|]. apply not_elem_of_cons. split; [|apply not_elem_of_nil].
        intros <-. apply Hc. by apply elem_of_cons; left.
      + intros x [Hx|Hx]%elem_of_app; [by apply Hin|].
        apply elem_of_cons in Hx as [->|[]%not_elem_of_nil]. apply Hs. by apply elem_of_cons; left.
      + intros x Hx. apply Hs. by apply elem_of_cons; right. }
  apply H; [apply not_elem_of_nil|intros c []%not_elem_of_nil|done].
Qed.

(** A prefix that ends where a component ends. *)
Definition ends_sep (sp : bytes) : Prop := sp = [] \/ exists x, sp = x ++ bs "/".

Lemma components_app sp seg : ends_sep sp -> components (sp ++ seg) = components sp ++ components seg.
Proof.
  unfold components. intros [->|[x ->]]; [by rewrite app_nil_l|].
  change (bs "/") with (["/"%byte]). rewrite <- app_assoc. cbn [app].
  assert ("/"%byte ∈ ["/"%byte]) by (by apply elem_of_cons; left).
  rewrite !split_app_sep, !filter_app by done. cbn. by rewrite app_nil_r.
Qed.

Lemma components_segment seg :
  "/"%byte ∉ seg -> components seg = if decide (seg = []) then [] else [seg].
Proof.
  intros H. unfold components. rewrite split_token.
  - cbn. by repeat case_decide.
  - apply Forall_forall. intros c Hc [->|[]%not_elem_of_nil]%elem_of_cons. done.
Qed.

Lemma walk_app n cur a b :
  walk n cur (a ++ b) = match walk n cur a with inr q => walk n q b | inl e => inl e end.
Proof.
  revert cur. induction a as [|c a IH]; intros cur; cbn; [done|].
  destruct (n !! cur) as [[|]|]; [apply IH|done..].
Qed.

(** Only new directories. *)
Definition grows (n n' : gmap path node) : Prop :=
  forall p, n' !! p = n !! p \/ (n !! p = None /\ n' !! p = Some NDir).

Lemma grows_refl n : grows n n.
Proof. intros p. by left. Qed.

Lemma grows_trans a b c : grows a b -> grows b c -> grows a c.
Proof. intros H1 H2 p. destruct (H1 p) as [|[]], (H2 p) as [|[]]; (left; congruence) || (right; split; congruence). Qed.

Lemma grows_insert n q : n !! q = None -> grows n (<[q := NDir]> n).
Proof.
  intros Hq p. destruct (decide (p = q)) as [->|].
  - right. by rewrite lookup_insert_eq.
  - left. by rewrite lookup_insert_ne.
Qed.

Lemma grows_lookup n n' p x : grows n n' -> n !! p = Some x -> n' !! p = Some x.
Proof. intros H Hp. destruct (H p) as [->|[]]; congruence. Qed.

Lemma walk_grows n n' cur cs q : grows n n' -> walk n cur cs = inr q -> walk n' cur cs = inr q.
Proof.
  intros Hg. revert cur. induction cs as [|c cs IH]; intros cur; cbn; [done|].
  destruct (n !! cur) as [[|]|] eqn:E; try done. rewrite (grows_lookup _ _ _ _ Hg E). apply IH.
Qed.

(** ** One [mkdir] *)

Lemma walk_error_code n cur cs e : walk n cur cs = inl e -> e = ENOENT \/ e = ENOTDIR.
Proof.
  revert cur. induction cs as [|c cs IH]; cbn; intros cur; [done|].
  destruct (n !! cur) as [[|]|]; [apply IH|intros [= <-]; auto..].
Qed.

Lemma namei_error_code f p e : namei f p = inl e -> e = ENOENT \/ e = ENOTDIR.
Proof. destruct p; cbn; [intros [= <-]; auto|]. apply walk_error_code. Qed.

Lemma wpP_mkdir C S p Q s f :
  (forall e, e <> EEXIST -> may_fail C e \/ namei f (c_str p) = inl e -> Q (-1) (Proc e (last_id_ s)) f) ->
  (forall q x, namei f (c_str p) = inr q -> nodes f !! q = Some x ->
     Q (-1) (Proc EEXIST (last_id_ s)) f) ->
  (forall q, namei f (c_str p) = inr q -> nodes f !! q = None ->
     Q 0 s (set_nodes (<[q := NDir]> (nodes f)) f)) ->
  wpP C S (mkdir p) Q s f.
Proof.
  intros Hfail Hex Hok. apply wpP_sys_ret. intros c Hc. kstep_cases c e Ei.
  - apply Hfail; [by apply (injected_hard c)|]. left. by exists c.
  - destruct (namei f (c_str p)) as [e|q] eqn:En; cbn.
    + apply Hfail; [|by right]. destruct (namei_error_code _ _ _ En) as [->| ->]; done.
    + destruct (nodes f !! q) as [x|] eqn:E; cbn; [by apply (Hex q x)|by apply Hok].
Qed.

(** [f'] is [f] with new directories only. *)
Definition dirs_added (f f' : fs) : Prop := leaves f f' (nodes f') /\ grows (nodes f) (nodes f').

Lemma dirs_added_refl f : fs_ok f -> dirs_added f f.
Proof. intros H. split; [by apply leaves_refl|apply grows_refl]. Qed.

Lemma dirs_added_trans a b c : dirs_added a b -> dirs_added b c -> dirs_added a c.
Proof.
  intros [(_ & F1 & C1 & _) G1] [(_ & F2 & C2 & O2) G2].
  split; [|by eapply grows_trans]. unfold leaves. split_and!; congruence || done.
Qed.

Lemma dirs_added_mkdir f p q :
  fs_ok f -> namei f p = inr q -> nodes f !! q = None ->
  dirs_added f (set_nodes (<[q := NDir]> (nodes f)) f).
Proof.
  intros Hok Hn Hq. pose proof Hok as (H0 & Hfree & Htree). split; [|by apply grows_insert].
  unfold leaves, fs_ok. cbn. split_and!; try done.
  apply tree_insert_new; [done|done|by eapply namei_new].
Qed.

(** ** The loop *)

(** In any environment [mkdirs] only adds directories, and when it returns 0
    the path leads to something that exists. *)
Lemma mkdirs_loop_sound C S segs sp s f :
  fs_ok f -> segs <> [] -> x00 ∉ sp -> Forall (x00 ∉.) segs ->
  wpP C S (mkdirs_loop segs sp) (fun r s' f' =>
    last_id_ s' = last_id_ s /\ dirs_added f f' /\ (r = 0 \/ r = -1) /\
    (r = 0 -> exists q x, namei f' (sp ++ join segs) = inr q /\ nodes f' !! q = Some x)) s f.
Proof.
  revert sp s f. induction segs as [|seg rest IH]; intros sp s f Hok Hne Hsp Hsegs; [done|].
  inversion_clear Hsegs as [|? ? Hseg Hrest].
  assert (x00 ∉ sp ++ seg) as Hnul by (by rewrite not_elem_of_app).
  cbn [mkdirs_loop]. apply wpP_bind.
  (* the recursive call, from any state with directories added *)
  assert (forall s1 f1, rest <> [] -> last_id_ s1 = last_id_ s -> dirs_added f f1 ->
    wpP C S (mkdirs_loop rest ((sp ++ seg) ++ bs "/")) (fun r s' f' =>
      last_id_ s' = last_id_ s /\ dirs_added f f' /\ (r = 0 \/ r = -1) /\
      (r = 0 -> exists q x, namei f' (sp ++ join (seg :: rest)) = inr q /\ nodes f' !! q = Some x)) s1 f1)
    as Hrec.
  { intros s1 f1 Hr Hid Hadd. eapply wpP_mono.
    - apply IH; [apply Hadd|done| |done]. rewrite not_elem_of_app. split; [done|].
      apply (bool_decide_eq_false_1 _). reflexivity.
    - intros r s2 f2 (Hid2 & Hadd2 & Hr2 & Hex). split; [congruence|].
      split; [by eapply dirs_added_trans|]. split; [done|].
      rewrite join_cons by done. by rewrite <- !app_assoc in Hex. }
  apply wpP_mkdir; rewrite c_str_id by done.
  - intros e He _. assert (dirs_added f f) by (by apply dirs_added_refl).
    change (negb (-1 =? 0)) with true. cbv iota.
    destruct rest as [|seg2 rest2]; apply wpP_bind, wpP_get_errno; cbn [errno];
      destruct (Z.eqb_spec EEXIST e); try congruence; apply wpP_ret;
      (split_and!; [done|done|by right|done]).
  - intros q x Hq Hx. change (negb (-1 =? 0)) with true. cbv iota.
    destruct rest as [|seg2 rest2]; apply wpP_bind, wpP_get_errno; cbn [errno];
      change (EEXIST =? EEXIST) with true; cbv iota.
    + apply wpP_ret. split; [done|]. split; [by apply dirs_added_refl|]. split; [by left|].
      intros _. by exists q, x.
    + apply Hrec; [done|done|by apply dirs_added_refl].
  - intros q Hq Hx. change (negb (0 =? 0)) with false. cbv iota.
    assert (dirs_added f (set_nodes (<[q := NDir]> (nodes f)) f)) as Hadd by (by eapply dirs_added_mkdir).
    destruct rest as [|seg2 rest2].
    + apply wpP_ret. split; [done|]. split; [done|]. split; [by left|]. intros _.
      exists q, NDir. split; [|apply lookup_insert_eq]. cbn [join].
      revert Hq. unfold namei. destruct (sp ++ seg) as [|b0 l0]; [done|].
      apply walk_grows. by apply grows_insert.
    + by apply Hrec.
Qed.

(** No regular file on the way. *)
Fixpoint no_file (n : gmap path node) (cur : path) (cs : list bytes) : Prop :=
  match cs with
  | [] => True
  | c :: cs =>
      (forall d, n !! walk1 cur c <> Some (NFile d)) /\ no_file n (walk1 cur c) cs
  end.

Lemma no_file_grows n n' cur cs : grows n n' -> no_file n cur cs -> no_file n' cur cs.
Proof.
  intros Hg. revert cur. induction cs as [|c cs IH]; cbn; intros cur; [done|].
  intros [H1 H2]. split; [|by apply IH]. intros d. destruct (Hg (walk1 cur c)) as [->|[_ ->]]; [apply H1|done].
Qed.

(** Where a path name starts. *)
Definition base_of (f : fs) (p : bytes) : path := if is_abs p then [] else cwd f.

Lemma namei_walk f p : p <> [] -> namei f p = walk (nodes f) (base_of f p) (components p).
Proof. by destruct p. Qed.

(** Where one segment leads: an empty one, between two slashes, leads nowhere. *)
Definition segment_step (cur : path) (seg : bytes) : path :=
  if decide (seg = []) then cur else walk1 cur seg.

Lemma segments_cons cur seg rest :
  fold_left walk1 (filter (.≠ []) (seg :: rest)) cur =
  fold_left walk1 (filter (.≠ []) rest) (segment_step cur seg).
Proof.
  unfold segment_step. rewrite filter_cons. destruct (decide (seg = [])) as [->|Hs].
  - by rewrite decide_False by (by intros []).
  - by rewrite decide_True by done.
Qed.

Lemma no_file_segment f cur seg rest :
  nodes f !! cur = Some NDir -> no_file (nodes f) cur (filter (.≠ []) (seg :: rest)) ->
  (forall d, nodes f !! segment_step cur seg <> Some (NFile d)) /\
  no_file (nodes f) (segment_step cur seg) (filter (.≠ []) rest).
Proof.
  intros Hcur Hfree. unfold segment_step. rewrite filter_cons in Hfree.
  destruct (decide (seg = [])) as [->|Hs].
  - rewrite decide_False in Hfree by (by intros []). by rewrite Hcur.
  - rewrite decide_True in Hfree by done. by destruct Hfree.
Qed.

Lemma base_of_segment f sp seg :
  "/"%byte ∉ seg -> sp ++ seg <> [] -> base_of f (sp ++ seg) = base_of f sp.
Proof.
  intros Hslash Hne. unfold base_of. destruct sp as [|c0 sp0]; [|done]. cbn [app] in *.
  destruct seg as [|c1 seg1]; [done|]. cbn. destruct (eqb_byte_spec c1 "/") as [->|]; [|done].
  exfalso. apply Hslash. by apply elem_of_cons; left.
Qed.

Lemma namei_segment f sp seg cur :
  ends_sep sp -> "/"%byte ∉ seg -> sp ++ seg <> [] ->
  walk (nodes f) (base_of f sp) (components sp) = inr cur -> nodes f !! cur = Some NDir ->
  namei f (sp ++ seg) = inr (segment_step cur seg).
Proof.
  intros Hends Hslash Hne Hwalk Hcur.
  rewrite namei_walk, base_of_segment, components_app, (components_segment seg), walk_app, Hwalk by done.
  unfold segment_step. case_decide; [done|]. cbn. by rewrite Hcur.
Qed.

(** The path with its separator leads where the path leads, also after more
    directories have been made. *)
Lemma components_sep p : components (p ++ bs "/") = components p.
Proof.
  unfold components. change (bs "/") with (["/"%byte]).
  rewrite split_app_sep, filter_app by (by apply elem_of_cons; left). cbn. by rewrite app_nil_r.
Qed.

Lemma base_of_added f f1 p : dirs_added f f1 -> p <> [] -> base_of f1 (p ++ bs "/") = base_of f p.
Proof. intros [(_ & _ & Hc & _) _] Hp. unfold base_of. rewrite Hc. by destruct p. Qed.

Lemma walk_added f f1 p next :
  dirs_added f f1 -> p <> [] -> namei f p = inr next ->
  walk (nodes f1) (base_of f1 (p ++ bs "/")) (components (p ++ bs "/")) = inr next.
Proof.
  intros Hadd Hp Hn. rewrite (base_of_added f f1), components_sep by done.
  eapply walk_grows; [apply Hadd|]. by rewrite <- namei_walk by done.
Qed.

(** What [mkdirs_loop] leaves when every segment is a directory in the end. *)
Definition all_made (segs : list bytes) (sp : bytes) (cur : path) (s : proc) (f : fs)
    (r : Z) (s' : proc) (f' : fs) : Prop :=
  r = 0 /\ last_id_ s' = last_id_ s /\ dirs_added f f' /\
  nodes f' !! fold_left walk1 (filter (.≠ []) segs) cur = Some NDir /\
  walk (nodes f') (base_of f sp) (components (sp ++ join segs)) =
    inr (fold_left walk1 (filter (.≠ []) segs) cur).

(** The last segment is there. *)
Lemma all_made_last seg sp cur s s1 f f1 :
  last_id_ s1 = last_id_ s -> dirs_added f f1 -> sp ++ seg <> [] -> "/"%byte ∉ seg ->
  namei f (sp ++ seg) = inr (segment_step cur seg) ->
  nodes f1 !! segment_step cur seg = Some NDir ->
  all_made [seg] sp cur s f 0 s1 f1.
Proof.
  intros Hid Hadd Hne Hslash Hn Hx. unfold all_made. rewrite segments_cons.
  split; [done|]. split; [done|]. split; [done|].
  cbn [filter list_filter fold_left join]. split; [done|].
  eapply walk_grows; [apply Hadd|].
  by rewrite <- (base_of_segment f sp seg), <- namei_walk.
Qed.

(** One segment is there and the rest of the loop makes the others. *)
Lemma all_made_cons seg rest sp cur s s1 f f1 r s2 f2 :
  last_id_ s1 = last_id_ s -> dirs_added f f1 -> sp ++ seg <> [] -> "/"%byte ∉ seg -> rest <> [] ->
  all_made rest ((sp ++ seg) ++ bs "/") (segment_step cur seg) s1 f1 r s2 f2 ->
  all_made (seg :: rest) sp cur s f r s2 f2.
Proof.
  intros Hid Hadd Hne Hslash Hr (-> & Hid2 & Hadd2 & Hn2 & Hw2).
  unfold all_made. rewrite segments_cons. split; [done|].
  split; [congruence|]. split; [by eapply dirs_added_trans|]. split; [done|].
  rewrite join_cons by done. rewrite (base_of_added f f1), base_of_segment in Hw2 by done.
  by rewrite <- !app_assoc in *.
Qed.

(** On a calm system and with no file in the way every segment is made or was
    there: [mkdirs] returns 0 and the path is a directory. *)
Lemma mkdirs_loop_total segs sp cur s f :
  fs_ok f -> segs <> [] -> x00 ∉ sp ->
  Forall (fun seg => (x00 ∉ seg) /\ ("/"%byte ∉ seg)) segs ->
  ends_sep sp -> (sp = [] -> hd [] segs <> []) ->
  walk (nodes f) (base_of f sp) (components sp) = inr cur -> nodes f !! cur = Some NDir ->
  no_file (nodes f) cur (filter (.≠ []) segs) ->
  wpP benign never (mkdirs_loop segs sp) (all_made segs sp cur s f) s f.
Proof.
  revert sp cur s f. induction segs as [|seg rest IH];
    intros sp cur s f Hok Hne Hsp Hsegs Hends Hfirst Hwalk Hcur Hfree; [done|].
  inversion_clear Hsegs as [|? ? [Hseg Hslash] Hrest].
  assert (x00 ∉ sp ++ seg) as Hnul by (by rewrite not_elem_of_app).
  assert (sp ++ seg <> []) as Hnonempty by (destruct sp; [exact (Hfirst eq_refl)|done]).
  pose proof (namei_segment f sp seg cur Hends Hslash Hnonempty Hwalk Hcur) as Hnamei.
  destruct (no_file_segment f cur seg rest Hcur Hfree) as [Hnext Hfree'].
  set (next := segment_step cur seg) in *.
  (* either way the next directory is there afterwards *)
  assert (forall s1 f1, last_id_ s1 = last_id_ s -> dirs_added f f1 -> nodes f1 !! next = Some NDir ->
    rest <> [] ->
    wpP benign never (mkdirs_loop rest ((sp ++ seg) ++ bs "/")) (all_made (seg :: rest) sp cur s f) s1 f1)
    as Hrec.
  { intros s1 f1 Hid Hadd Hn1 Hr. eapply wpP_mono.
    - apply (IH ((sp ++ seg) ++ bs "/") next); try done.
      + apply Hadd.
      + rewrite not_elem_of_app. split; [done|]. apply (bool_decide_eq_false_1 _). reflexivity.
      + right. by eexists.
      + by intros [_ E]%app_nil.
      + by apply (walk_added f).
      + eapply no_file_grows; [apply Hadd|done].
    - intros r s2 f2. by apply all_made_cons. }
  cbn [mkdirs_loop]. apply wpP_bind. apply wpP_mkdir; rewrite c_str_id by done.
  - intros e He [Hf|Hf]; [by apply benign_no_fail in Hf|congruence].
  - intros q nd Hq Hx. rewrite Hnamei in Hq. injection Hq as <-.
    destruct nd as [|d]; [|by destruct (Hnext d)].
    change (negb (-1 =? 0)) with true. cbv iota.
    destruct rest as [|seg2 rest2]; apply wpP_bind, wpP_get_errno; cbn [errno];
      change (EEXIST =? EEXIST) with true; cbv iota.
    + apply wpP_ret. by apply all_made_last; try apply dirs_added_refl.
    + by apply Hrec; try apply dirs_added_refl.
  - intros q Hq Hx. rewrite Hnamei in Hq. injection Hq as <-.
    change (negb (0 =? 0)) with false. cbv iota.
    assert (dirs_added f (set_nodes (<[next := NDir]> (nodes f)) f)) as Hadd by (by eapply dirs_added_mkdir).
    destruct rest as [|seg2 rest2].
    + apply wpP_ret. apply all_made_last; try done. apply lookup_insert_eq.
    + apply Hrec; try done. apply lookup_insert_eq.
Qed.

(** ** [mkdirs] *)

Lemma split_aux_hd seps s cur : cur <> [] -> hd [] (split_aux seps s cur) <> [].
Proof.
  revert cur. induction s as [|c s IH]; intros cur H; cbn; [done|].
  case_bool_decide; [done|]. apply IH. by destruct cur.
Qed.

Lemma split_hd c s : c <> "/"%byte -> hd [] (split (bs "/") (c :: s)) <> [].
Proof.
  intros H. unfold split. cbn [split_aux]. rewrite bool_decide_false.
  - by apply split_aux_hd.
  - by intros [->|[]%not_elem_of_nil]%elem_of_cons.
Qed.

Lemma mkdirs_start_app path : fst (mkdirs_start path) ++ snd (mkdirs_start path) = path.
Proof.
  unfold mkdirs_start. destruct path as [|c rest]; [done|].
  destruct (eqb_byte_spec c "/") as [->|]; [done|].
  destruct (eqb_byte_spec c ".") as [->|]; [|done].
  destruct rest as [|d rest]; [done|]. by destruct (eqb_byte_spec d "/") as [->|].
Qed.

Lemma mkdirs_path_no_nul p : x00 ∉ mkdirs_path p.
Proof.
  assert (forall (c : Init.Byte.byte) (s : bytes) n, c ∈ take n s -> c ∈ s) as Htake.
  { intros c s n H. rewrite <- (take_drop n s). apply elem_of_app. by left. }
  intros H. apply (c_str_no_nul p). unfold mkdirs_path in H.
  apply (Htake _ _ (PATH_LENGTH_MAX - 1)%nat).
  destruct (last _) as [c|]; [|done]. destruct (Byte.eqb c "/"); [|done].
  rewrite removelast_firstn_len in H. by apply Htake in H.
Qed.

Lemma mkdirs_parts p :
  let '(sp, pa) := mkdirs_start (mkdirs_path p) in
  sp ++ pa = mkdirs_path p /\ (x00 ∉ sp) /\ (x00 ∉ pa) /\
  Forall (fun seg => (x00 ∉ seg) /\ ("/"%byte ∉ seg)) (split (bs "/") pa).
Proof.
  pose proof (mkdirs_start_app (mkdirs_path p)) as E. pose proof (mkdirs_path_no_nul p) as Hn.
  destruct (mkdirs_start (mkdirs_path p)) as [sp pa]. cbn in E.
  rewrite <- E, not_elem_of_app in Hn. destruct Hn as [H1 H2]. split_and!; try done.
  eapply Forall_impl; [apply split_segments|]. cbn beta. intros seg [Hs Hin]. split; [|done].
  intros H. by apply H2, Hin.
Qed.

Lemma mkdirs_sound_wp C S p s f :
  fs_ok f ->
  wpP C S (mkdirs p) (fun r s' f' =>
    last_id_ s' = last_id_ s /\ dirs_added f f' /\ (r = 0 \/ r = -1) /\
    (r = 0 -> exists q x, namei f' (mkdirs_path p) = inr q /\ nodes f' !! q = Some x)) s f.
Proof.
  intros Hok. unfold mkdirs. pose proof (mkdirs_parts p) as Hp.
  destruct (mkdirs_start (mkdirs_path p)) as [sp pa]. destruct Hp as (<- & Hsp & Hpa & Hsegs).
  eapply wpP_mono; [apply mkdirs_loop_sound; [done|apply split_nonempty|done|]|].
  - eapply Forall_impl; [exact Hsegs|]. by intros seg [H _].
  - intros r s' f'. by rewrite join_split.
Qed.

(** The directory a path name starts from exists. *)
Definition base_ok (f : fs) (p : bytes) : Prop := nodes f !! base_of f p = Some NDir.

Lemma mkdirs_total_wp p s f :
  fs_ok f -> mkdirs_path p <> [] -> base_ok f (mkdirs_path p) ->
  no_file (nodes f) (base_of f (mkdirs_path p)) (components (mkdirs_path p)) ->
  wpP benign never (mkdirs p) (fun r s' f' =>
    r = 0 /\ last_id_ s' = last_id_ s /\ dirs_added f f' /\
    exists q, namei f' (mkdirs_path p) = inr q /\ nodes f' !! q = Some NDir) s f.
Proof.
  intros Hok Hne Hbase Hfree. unfold mkdirs. pose proof (mkdirs_parts p) as Hp.
  unfold base_ok in Hbase.
  destruct (mkdirs_start (mkdirs_path p)) as [sp pa] eqn:Est. destruct Hp as (E & Hsp & Hpa & Hsegs).
  assert (ends_sep sp /\ base_of f sp = base_of f (mkdirs_path p) /\
    walk (nodes f) (base_of f sp) (components sp) = inr (base_of f sp) /\
    no_file (nodes f) (base_of f sp) (components pa) /\
    (sp = [] -> hd [] (split (bs "/") pa) <> [])) as (Hends & Hb & Hw & Hfree' & Hfirst).
  { (* nothing is skipped at the start *)
    assert (forall c rest, c <> "/"%byte -> sp = [] -> pa = c :: rest -> mkdirs_path p = pa ->
      ends_sep sp /\ base_of f sp = base_of f (mkdirs_path p) /\
      walk (nodes f) (base_of f sp) (components sp) = inr (base_of f sp) /\
      no_file (nodes f) (base_of f sp) (components pa) /\
      (sp = [] -> hd [] (split (bs "/") pa) <> [])) as Hplain.
    { intros c rest Hc -> Hpa' Ep.
      assert (base_of f [] = base_of f (mkdirs_path p)) as Hb.
      { rewrite Ep, Hpa'. unfold base_of. cbn. by destruct (eqb_byte_spec c "/"). }
      split; [by left|]. split; [done|]. split; [done|]. rewrite Hb. split; [by rewrite <- Ep|].
      intros _. rewrite Hpa'. by apply split_hd. }
    unfold mkdirs_start in Est. destruct (mkdirs_path p) as [|c rest] eqn:Ep; [done|].
    destruct (eqb_byte_spec c "/") as [->|Hc].
    - injection Est as <- <-. split; [right; by exists []|]. split; [done|]. split; [done|].
      split; [|done].
      change ("/"%byte :: rest) with (bs "/" ++ rest) in Hfree.
      rewrite components_app in Hfree by (right; by exists []). exact Hfree.
    - destruct (eqb_byte_spec c ".") as [->|Hd]; [|injection Est as <- <-; by eapply Hplain].
      destruct rest as [|d rest]; [|destruct (eqb_byte_spec d "/") as [->|]];
        injection Est as <- <-; try (by eapply (Hplain "."%byte)).
      split; [right; by exists (bs ".")|]. split; [done|]. split.
      + change (components (bs "./")) with [bs "."]. change (base_of f (bs "./")) with (cwd f).
        change (nodes f !! cwd f = Some NDir) in Hbase. cbn [walk]. by rewrite Hbase.
      + split; [|done]. change ("."%byte :: "/"%byte :: rest) with (bs "./" ++ rest) in Hfree.
        rewrite components_app in Hfree by (right; by exists (bs ".")). by destruct Hfree. }
  eapply wpP_mono.
  { eapply (mkdirs_loop_total _ sp (base_of f sp)); try done; [apply split_nonempty|by rewrite Hb]. }
  unfold all_made. rewrite join_split, E. intros r s' f' (-> & Hid & Hadd & Hn & Hw').
  split_and!; try done. eexists. split; [|exact Hn]. rewrite namei_walk by done.
  rewrite <- Hw', Hb. unfold base_of. by destruct Hadd as [(_ & _ & -> & _) _].
Qed.

(** In any environment [mkdirs] only adds directories (no file and no
    descriptor changes), returns 0 or -1, and when it returns 0 something
    exists at the path (cut to 299 characters) it was given. *)
Theorem mkdirs_sound {W C} `{Posix W C} (p : bytes) (s : proc) (w : W) :
  fs_ok (view w) ->
  match runP (mkdirs p) s w with
  | (inr r, _, w') =>
      (r = 0 \/ r = -1) /\ fds (view w') = fds (view w) /\ grows (nodes (view w)) (nodes (view w')) /\
      (r = 0 -> exists q x, namei (view w') (mkdirs_path p) = inr q /\ nodes (view w') !! q = Some x)
  | (inl _, _, _) => False
  end.
Proof.
  intros Hok. pose proof (wpP_run never _ _ s w (mkdirs_sound_wp C never p s (view w) Hok)) as Hr.
  destruct (runP _ s w) as [[[e|r] s'] w']; [exact Hr|].
  destruct Hr as (_ & [(_ & Ef & _) Hg] & Hcode & Hex). by split_and!.
Qed.

(** On a calm system, when no regular file is in the way, [mkdirs] succeeds
    and the path is a directory: every missing component is created, and the
    ones that exist are passed over. *)
Theorem mkdirs_total {W} `{Posix W benign} (p : bytes) (s : proc) (w : W) :
  fs_ok (view w) -> mkdirs_path p <> [] -> base_ok (view w) (mkdirs_path p) ->
  no_file (nodes (view w)) (base_of (view w) (mkdirs_path p)) (components (mkdirs_path p)) ->
  match runP (mkdirs p) s w with
  | (inr r, _, w') =>
      r = 0 /\ exists q, namei (view w') (mkdirs_path p) = inr q /\ nodes (view w') !! q = Some NDir
  | (inl _, _, _) => False
  end.
Proof.
  intros Hok Hne Hb Hf.
  pose proof (wpP_run never _ _ s w (mkdirs_total_wp p s (view w) Hok Hne Hb Hf)) as Hr.
  destruct (runP _ s w) as [[[e|r] s'] w']; [exact Hr|].
  by destruct Hr as (-> & _ & _ & Hq).
Qed.

Lemma mkdirs_sound_witness :
  match runP (C := any_choice) (mkdirs (bs "/a/b")) (Proc 0 0)
    (MkLocal (Fs {[ [] := NDir ]} ∅ 3 []) [quiet; Choice (Some ENOSPC) None 0 []]) with
  | (inr r, _, _) => r = 0 \/ r = -1
  | _ => False
  end.
Proof.
  assert (fs_ok (Fs {[ [] := NDir ]} ∅ 3 [])) as Hok
    by (apply fs_ok_fresh; [lia|vm_compute; reflexivity]).
  pose proof (mkdirs_sound (H := faulty_local) (bs "/a/b") (Proc 0 0)
    (MkLocal (Fs {[ [] := NDir ]} ∅ 3 []) [quiet; Choice (Some ENOSPC) None 0 []]) Hok) as Hr.
  destruct (runP _ _ _) as [[[e|r] s'] w']; [exact Hr|]. exact (proj1 Hr).
Defined.

Lemma mkdirs_total_witness :
  match runP (C := benign) (mkdirs (bs "/a//b/./c/")) (Proc 0 0)
    (MkLocal (Fs {[ [] := NDir; [bs "a"] := NDir ]} ∅ 3 []) []) with
  | (inr r, _, w') => r = 0 /\ exists q,
      namei (view (Posix := calm_local) w') (mkdirs_path (bs "/a//b/./c/")) = inr q /\
      nodes (view (Posix := calm_local) w') !! q = Some NDir
  | _ => False
  end.
Proof.
  apply (mkdirs_total (H := calm_local) (bs "/a//b/./c/") (Proc 0 0)
    (MkLocal (Fs {[ [] := NDir; [bs "a"] := NDir ]} ∅ 3 []) [])).
  - apply fs_ok_fresh; [lia|vm_compute; reflexivity].
  - discriminate.
  - vm_compute. reflexivity.
  - repeat split; intros d; vm_compute; discriminate.
Defined.

(** The path is cut silently: a longer one is created only in part, and the
    result is 0 all the same. *)
Example mkdirs_cuts_long_paths :
  let p := bs "/" ++ replicate 300 "d"%byte ++ bs "/sub" in
  fst (fst (runP (C := benign) (mkdirs p) (Proc 0 0)
    (MkLocal (Fs {[ [] := NDir ]} ∅ 3 []) []))) = inr 0 /\
  mkdirs_path p = bs "/" ++ replicate 298 "d"%byte.
Proof. split; vm_compute; reflexivity. Qed.

(** A regular file in the last place also counts as success. *)
Example mkdirs_file_at_end :
  fst (fst (runP (C := benign) (mkdirs (bs "/a/f")) (Proc 0 0)
    (MkLocal (Fs {[ [] := NDir; [bs "a"] := NDir; [bs "a"; bs "f"] := NFile [] ]} ∅ 3 []) []))) =
  inr 0.
Proof. vm_compute. reflexivity. Qed.
