(* ===== verification/Format.v ===== *)
(** * The bundle file format (src/bundle/bundle.h)

    A bundle file is a 1024-byte preamble followed by records; a record is a
    512-byte [FileHeader], the content, and padding to a multiple of 1024.
    This file holds the header's encoding, the alignment, and what a reader
    makes of the bytes at an offset. *)

From S2P Require Import Prelude CString Posix.

(** ** Constants *)

Definition kMAGIC_CODE : Z := 0xE4E4E4E4.
Definition kVERSION : Z := 1.
Definition kFILE_NORMAL : Z := 1.
Definition kFILE_REDIRECT : Z := 2.
Definition kFILE_DELETE : Z := 4.

Definition kFileHeaderSize : Z := 512.
Definition kUrlSize : Z := 256.
Definition kUserDataSize : Z := kFileHeaderSize - kUrlSize - 4 * 4.
Definition kBundleHeaderSize : Z := 1024.
Definition kBundleCountPerDay : Z := 50 * 400.
Definition kMaxBundleSize : Z := u32 (2 * 1024 * 1024 * 1024).

(** ** The header *)

Record FileHeader := mkFileHeader {
  magic_ : Z;
  version_ : Z;
  flag_ : Z;
  length_ : Z;
  url_ : bytes;         (* char[256] *)
  user_data_ : bytes }. (* char[240] *)

Definition le32 (v : Z) : bytes := le_split 4 (u32 v).

(** The bytes of the structure in memory (little-endian, no padding). *)
Definition header_bytes (h : FileHeader) : bytes :=
  le32 (magic_ h) ++ le32 (version_ h) ++ le32 (flag_ h) ++ le32 (length_ h) ++
  url_ h ++ user_data_ h.

(** Reading the structure from memory. *)
Definition header_of (b : bytes) : FileHeader :=
  mkFileHeader (le_combine (range b 0 4)) (le_combine (range b 4 4))
    (le_combine (range b 8 4)) (le_combine (range b 12 4))
    (range b 16 kUrlSize) (range b (16 + kUrlSize) kUserDataSize).

(** ** Alignment *)

(** [Align1K<size_t>] *)
Definition Align1K (v : Z) : Z :=
  let a := v mod 1024 in
  if negb (a =? 0) then u64 (v + 1024 - a) else v.

(** [Align4K<size_t>] *)
Definition Align4K (v : Z) : Z :=
  let a := v mod 4096 in
  if negb (a =? 0) then u64 (v + 4096 - a) else v.

(** ** What a record promises: the reader's specification *)

(** The tests [Reader::Read] makes on a header, for a content of [length]
    bytes. *)
Definition header_accepts (h : FileHeader) (length : Z) : bool :=
  (magic_ h =? kMAGIC_CODE) && (version_ h =? kVERSION) && (length <=? length_ h) &&
  (flag_ h =? kFILE_NORMAL).

(** The record at [offset] of a bundle file: content and user data. *)
Definition record_at (file : bytes) (offset length : Z) : option (bytes * bytes) :=
  if offset + kFileHeaderSize + length <=? size file then
    let h := header_of (range file offset kFileHeaderSize) in
    if header_accepts h length then
      Some (range file (offset + kFileHeaderSize) length, user_data_ h)
    else None
  else None.

(** ** Facts *)

Definition header_wf (h : FileHeader) : Prop :=
  0 <= magic_ h < 2 ^ 32 /\ 0 <= version_ h < 2 ^ 32 /\ 0 <= flag_ h < 2 ^ 32 /\
  0 <= length_ h < 2 ^ 32 /\ size (url_ h) = kUrlSize /\ size (user_data_ h) = kUserDataSize.

Lemma size_le32 v : size (le32 v) = 4.
Proof. unfold size, le32. len. Qed.

Lemma le_combine_le32 v : 0 <= v < 2 ^ 32 -> le_combine (le32 v) = v.
Proof. intros. unfold le32. rewrite le_combine_split, wrap_small by done. by apply Z.mod_small. Qed.

Lemma size_header_bytes h :
  size (url_ h) = kUrlSize -> size (user_data_ h) = kUserDataSize ->
  size (header_bytes h) = kFileHeaderSize.
Proof.
  intros Hu Hd. unfold header_bytes. rewrite !size_app, !size_le32, Hu, Hd. reflexivity.
Qed.

(** Taking a field out of a concatenation of fields. *)
Lemma range_field a b c off n :
  off = size a -> n = size b -> range (a ++ b ++ c) off n = b.
Proof.
  intros -> ->. unfold range, size. rewrite !Nat2Z.id.
  by rewrite drop_app_length, take_app_length.
Qed.

Lemma range_field_first b c n : n = size b -> range (b ++ c) 0 n = b.
Proof. exact (range_field [] b c 0 n eq_refl). Qed.

Lemma range_field_last a b off n :
  off = size a -> n = size b -> range (a ++ b) off n = b.
Proof. intros -> ->. rewrite <- (app_nil_r b) at 1. by apply range_field. Qed.

Lemma header_of_bytes_rest h rest :
  header_wf h -> header_of (header_bytes h ++ rest) = h.
Proof.
  intros (Hm & Hv & Hf & Hl & Hu & Hd). unfold header_of, header_bytes.
  pose proof (fun v => size_le32 v) as H4. rewrite <- !app_assoc.
  rewrite (range_field_first (le32 (magic_ h))) by done.
  rewrite (range_field (le32 (magic_ h)) (le32 (version_ h))) by done.
  rewrite (app_assoc (le32 (magic_ h))).
  rewrite (range_field _ (le32 (flag_ h))) by (by rewrite ?size_app, ?H4).
  rewrite (app_assoc _ (le32 (flag_ h))).
  rewrite (range_field _ (le32 (length_ h))) by (by rewrite ?size_app, ?H4).
  rewrite (app_assoc _ (le32 (length_ h))).
  rewrite (range_field _ (url_ h)) by (by rewrite ?size_app, ?H4).
  rewrite (app_assoc _ (url_ h)).
  rewrite (range_field _ (user_data_ h)) by (by rewrite ?size_app, ?H4, ?Hu).
  rewrite !le_combine_le32 by done. by destruct h.
Qed.

(** A file header written to memory and read back is the same header. *)
Theorem header_roundtrip (h : FileHeader) :
  header_wf h ->
  header_of (header_bytes h) = h /\ size (header_bytes h) = kFileHeaderSize.
Proof.
  intros H. split.
  - rewrite <- (app_nil_r (header_bytes h)). by apply header_of_bytes_rest.
  - destruct H as (_ & _ & _ & _ & ? & ?). by apply size_header_bytes.
Qed.

Lemma header_roundtrip_witness :
  let h := mkFileHeader kMAGIC_CODE kVERSION kFILE_NORMAL 15
    (strncpy (bs "p/20120512/4,2048,15.jpg") 256) (replicate 240 x07) in
  header_of (header_bytes h) = h /\ size (header_bytes h) = kFileHeaderSize.
Proof. apply header_roundtrip. repeat split; done. Defined.

(** Rounding up to a block, with the wrap-around of [size_t]. *)
Lemma align_up_spec b v :
  0 < b -> (2 ^ 64) mod b = 0 -> 0 <= v < 2 ^ 64 ->
  let r := if negb (v mod b =? 0) then u64 (v + b - v mod b) else v in
  if v <=? 2 ^ 64 - b then r mod b = 0 /\ v <= r < v + b else r = 0.
Proof.
  intros Hb Hdiv Hv. cbv zeta.
  pose proof (Z.mod_pos_bound v b Hb) as Hm. pose proof (Z.div_mod v b ltac:(lia)) as Hdm.
  pose proof (Z.div_mod (2 ^ 64) b ltac:(lia)) as Hdm64. rewrite Hdiv in Hdm64.
  set (q := v / b) in *. set (a := v mod b) in *. set (t := 2 ^ 64 / b) in *.
  assert (v + b - a = (q + 1) * b) as Eup by lia.
  destruct (Z.leb_spec v (2 ^ 64 - b)) as [Hle|Hgt]; destruct (Z.eqb_spec a 0) as [E|E]; cbn [negb].
  - unfold a in *. lia.
  - assert (b * q < b * (t - 1)) as Hq%Z.mul_lt_mono_pos_l by lia; [|done].
    assert (0 <= q) by (apply Z.div_pos; lia).
    assert ((q + 1) * b <= (t - 1) * b) by (apply Z.mul_le_mono_nonneg_r; lia).
    rewrite wrap_small by lia. rewrite Eup, Z.mod_mul by lia. lia.
  - assert (b * (t - 1) < b * q) as Hq%Z.mul_lt_mono_pos_l by lia; [|done].
    assert (b * q < b * t) as Hq2%Z.mul_lt_mono_pos_l by lia; lia.
  - assert (b * (t - 1) < b * (q + 1)) as Hq%Z.mul_lt_mono_pos_l by lia; [|done].
    assert (b * q < b * t) as Hq2%Z.mul_lt_mono_pos_l by lia; [|done].
    assert (q + 1 = t) as Eq by lia. rewrite Eup, Eq. unfold wrap.
    replace (t * b) with (2 ^ 64) by lia. apply Z.mod_same. lia.
Qed.

(** [Align1K] is the least multiple of 1024 not below its argument, as long
    as that fits a [size_t]; above 2^64 - 1024 it wraps around to zero. *)
Theorem Align1K_spec (v : Z) :
  0 <= v < 2 ^ 64 ->
  if v <=? 2 ^ 64 - 1024
  then Align1K v mod 1024 = 0 /\ v <= Align1K v < v + 1024
  else Align1K v = 0.
Proof. intros Hv. apply (align_up_spec 1024 v); [lia|reflexivity|done]. Qed.

Lemma Align1K_spec_witness : Align1K 527 mod 1024 = 0 /\ 527 <= Align1K 527 < 527 + 1024.
Proof. exact (Align1K_spec 527 ltac:(lia)). Defined.

Lemma Align1K_bounds v :
  0 <= v <= 2 ^ 64 - 1024 -> Align1K v mod 1024 = 0 /\ v <= Align1K v < v + 1024.
Proof.
  intros Hv. pose proof (align_up_spec 1024 v ltac:(lia) eq_refl ltac:(lia)) as H.
  cbv zeta in H. by destruct (Z.leb_spec v (2 ^ 64 - 1024)); [|lia].
Qed.

(** What is at an offset of a file depends on the bytes of the record only. *)
Lemma record_at_ext file file' offset length :
  0 <= offset -> 0 <= length ->
  offset + kFileHeaderSize + length <= size file ->
  offset + kFileHeaderSize + length <= size file' ->
  range file offset (kFileHeaderSize + length) = range file' offset (kFileHeaderSize + length) ->
  record_at file offset length = record_at file' offset length.
Proof.
  intros Ho Hl H1 H2 E. unfold record_at, kFileHeaderSize in *.
  destruct (Z.leb_spec (offset + 512 + length) (size file)); [|lia].
  destruct (Z.leb_spec (offset + 512 + length) (size file')); [|lia].
  assert (range file offset 512 = range file' offset 512) as ->.
  { apply (f_equal (fun r => range r 0 512)) in E.
    by rewrite !range_range, Z.add_0_r in E by lia. }
  assert (range file (offset + 512) length = range file' (offset + 512) length) as ->; [|done].
  apply (f_equal (fun r => range r 512 length)) in E. by rewrite !range_range in E by lia.
Qed.
