(* ===== verification/Bundle.v ===== *)
(** * Reading and writing bundles (src/bundle/bundle.h, src/bundle/bundle.cc)

    [Reader::Read] (by file and by url), the three [Writer::Write]s and
    [BatchWrite]; the operating system is the one of [Posix].  Finding or
    creating the bundle to append to is in [Allocate]. *)

From S2P Require Import Prelude CString PathOps BundleUrl Posix FileLock MkDirs Format.

(** ** Settings *)

Record Setting := mkSetting {
  max_bundle_size : Z;        (* size_t *)
  bundle_count_per_day : Z;   (* int *)
  file_count_level_1 : Z;     (* int *)
  file_count_level_2 : Z;     (* int *)
  extract : ExtractUrl;
  build : BuildUrl }.

Definition g_default_setting : Setting :=
  mkSetting kMaxBundleSize kBundleCountPerDay 50 400 ExtractWithEncode BuildWithEncode.

(** The division traps when a level is 0. *)
Definition Bid2Filename (st : Setting) (bid : Z) : option bytes :=
  let l1 := u32 (file_count_level_1 st) in
  let l2 := u32 (file_count_level_2 st) in
  if (l1 =? 0) || (l2 =? 0) then None
  else Some (hex08 (u32 bid / l1) ++ bs "/" ++ hex08 (u32 bid mod l2)).

Definition bid2filename (st : Setting) (bid : Z) : P bytes :=
  match Bid2Filename st bid with Some s => mret s | None => halt Undef end.

(** ** Reader *)

Section Reader.
Context (st : Setting).

(** [Reader::Read(filename, offset, length, buf, buf_size, &readed,
    user_data, user_data_size)]: the result, what was read into [buf], and
    the user data when it was copied. *)
Definition Read_file_body (fp : Z) (offset length buf_size : Z) (user_data : bool)
    : P (Z * bytes * option bytes) :=
  ret ← fseek fp (i64 offset);
  if -1 =? ret then e ← get_errno; mret (e, [], None)
  else
    header ← fread fp kFileHeaderSize;
    if size header <? kFileHeaderSize then mret (EIO, [], None)
    else
      let h := header_of header in
      if negb (kMAGIC_CODE =? magic_ h) then mret (EIO, [], None)
      else if negb (kVERSION =? version_ h) then mret (EIO, [], None)
      else if length_ h <? length then mret (EIO, [], None)
      else if negb (kFILE_NORMAL =? flag_ h) then mret (EIO, [], None)
      else
        let rsize := i32 (if buf_size <? length then buf_size else length) in
        data ← fread fp (u64 rsize);
        if buf_size <? size data then halt Undef
        else
          let ret := i32 (size data) in
          if ret <? rsize then e ← get_errno; mret (e, data, None)
          else mret (0, data, if user_data then Some (user_data_ h) else None).

Definition Read_file (filename : bytes) (offset length buf_size : Z)
    (user_data : option Z) : P (Z * bytes * option bytes) :=
  if match user_data with Some n => n <? kUserDataSize | None => false end
  then mret (EINVAL, [], None)
  else
    fp ← fopen filename;
    match fp with
    | None => e ← get_errno; mret (e, [], None)
    | Some fp =>
        r ← Read_file_body fp offset length buf_size
              (match user_data with Some _ => true | None => false end);
        fclose fp;;
        mret r
    end.

(** [Reader::Read(url, &buf, storage, extract, &user_data)]: the result and,
    unless the url is refused, the new values of [*buf] and [*user_data]. *)
Definition Read_url (url storage : bytes) (extractor : option ExtractUrl)
    : P (Z * option (bytes * bytes)) :=
  if bool_decide (url = []) then mret (-1, None)
  else
    let ex := default (extract st) extractor in
    match ex (c_str url) (Some Info_init) with
    | (true, Some info) =>
        let bundle_name := PathJoin (c_str storage) (info_prefix info) in
        file ← bid2filename st (info_id info);
        let bundle_name := PathJoin bundle_name file in
        new_array (info_size info);;
        '(ret, content, ud) ← Read_file bundle_name (info_offset info) (info_size info)
          (info_size info) (Some kUserDataSize);
        mret (ret, Some (content, default (replicate (Z.to_nat kUserDataSize) x00) ud))
    | _ => mret (-1, None)
    end.
End Reader.

(** ** Writer *)

Record Writer := mkWriter {
  filename_ : bytes;
  filelock_ : option FileLock;
  builder_ : option BuildUrl;
  info_ : Info }.

Definition set_info (i : Info) (w : Writer) : Writer :=
  mkWriter (filename_ w) (filelock_ w) (builder_ w) i.

Definition EnsureUrl (w : Writer) : bytes :=
  match builder_ w with Some b => b (info_ w) | None => [] end.

(** The header [Write] lays over the first bytes of the uninitialised buffer
    [content]; [user_data] is copied up to the size of its field, and without
    it the field keeps what the memory held. *)
Definition write_header (content url : bytes) (buf_size : Z) (user_data : option bytes)
    : FileHeader :=
  let old := range content (16 + kUrlSize) kUserDataSize in
  let ud := match user_data with
            | Some u => let t := take (Z.to_nat kUserDataSize) u in t ++ drop (length t) old
            | None => old
            end in
  mkFileHeader kMAGIC_CODE kVERSION kFILE_NORMAL (u32 buf_size)
    (strncpy url (Z.to_nat kUrlSize)) ud.

(** The buffer handed to [write]: header, content, and whatever the rest of
    the buffer holds. *)
Definition record_bytes (content url buf : bytes) (user_data : option bytes) : bytes :=
  header_bytes (write_header content url (size buf) user_data) ++ buf ++
  drop (Z.to_nat (kFileHeaderSize + size buf)) content.

(** The static [Writer::Write]: the result and [*written].  The allocation is
    an [int] computed from a [size_t]; when it is too small for the header and
    the content the copies run past it. *)
Definition Write_file (bundle_file : bytes) (offset : Z) (url buf : bytes)
    (user_data : option bytes) : P (Z * Z) :=
  fd ← open bundle_file O_RDWR;
  if -1 =? fd then e ← get_errno; mret (e, 0)
  else
    pos ← lseek fd (i64 offset);
    let ret := i32 pos in
    if -1 =? ret then close fd;; mret (EIO, 0)
    else
      let total := i32 (Align1K (u64 (kFileHeaderSize + size buf))) in
      content ← new_array total;
      if total <? kFileHeaderSize + size buf then halt Undef
      else
        ret ← write fd (record_bytes content url buf user_data);
        let ret := i32 ret in
        close fd;;
        if (ret <? 0) || negb (ret =? total) then e ← get_errno; mret (e, 0)
        else mret (0, size buf).

(** The two public [Write]s. *)
Definition Write_url (w : Writer) (url buf : bytes) (user_data : option bytes) : P (Z * Z) :=
  Write_file (filename_ w) (info_offset (info_ w)) url buf user_data.

Definition Write (w : Writer) (buf : bytes) (user_data : option bytes) : P (Z * Z) :=
  Write_url w (EnsureUrl w) buf user_data.

(** [BatchWrite]: the result, [*written], the url on success, and the writer. *)
Definition BatchWrite (w : Writer) (buf : bytes) (user_data : option bytes)
    : P (Z * Z * option bytes * Writer) :=
  let w := set_info (set_size (size buf) (info_ w)) w in
  let this_url := EnsureUrl w in
  '(ret, written) ← Write_url w this_url buf user_data;
  if 0 =? ret then
    let next := u64 (info_offset (info_ w) + Align1K (u64 (kFileHeaderSize + size buf))) in
    mret (ret, written, Some this_url, set_info (set_offset next (info_ w)) w)
  else mret (ret, written, None, w).

(** ** File names *)

(** With both levels positive and the first dividing the second (50 and
    400 by default), different bundle ids name different files. *)
Theorem Bid2Filename_inj (st : Setting) (a b : Z) :
  0 < file_count_level_1 st < 2 ^ 31 -> 0 < file_count_level_2 st < 2 ^ 31 ->
  (file_count_level_1 st | file_count_level_2 st) ->
  0 <= a < 2 ^ 31 -> 0 <= b < 2 ^ 31 ->
  exists fa fb, Bid2Filename st a = Some fa /\ Bid2Filename st b = Some fb /\
    (length fa = 17)%nat /\ (fa = fb -> a = b).
Proof.
  intros H1 H2 Hdiv Ha Hb. unfold Bid2Filename.
  rewrite !(wrap_small 32) by lia.
  destruct (Z.eqb_spec (file_count_level_1 st) 0); [lia|].
  destruct (Z.eqb_spec (file_count_level_2 st) 0); [lia|]. cbn [orb].
  set (l1 := file_count_level_1 st) in *. set (l2 := file_count_level_2 st) in *.
  assert (forall x, 0 <= x < 2 ^ 31 -> 0 <= x / l1 < 2 ^ 32 /\ 0 <= x mod l2 < 2 ^ 32) as Hr.
  { intros x Hx. pose proof (Z.div_pos x l1 ltac:(lia) ltac:(lia)).
    pose proof (Z.div_le_upper_bound x l1 x ltac:(lia) ltac:(nia)).
    pose proof (Z.mod_pos_bound x l2 ltac:(lia)). lia. }
  destruct (Hr a Ha) as [Ha1 Ha2], (Hr b Hb) as [Hb1 Hb2].
  do 2 eexists. split; [done|]. split; [done|]. rewrite !length_app, !length_hex08 by done.
  split; [done|]. intros [E1 E2]%app_inj_1; [|by rewrite !length_hex08].
  apply app_inv_head in E2. apply hex08_inj in E1, E2; try done.
  destruct Hdiv as [k Hk].
  assert (forall x, x mod l1 = x mod l2 mod l1) as Hm.
  { intros x. rewrite Hk, Z.mul_comm. symmetry.
    destruct (Z.eq_dec k 0) as [->|]; [lia|].
    rewrite Z.rem_mul_r by lia. rewrite (Z.mul_comm l1), Z.mod_add by lia. apply Z.mod_mod. lia. }
  rewrite (Z.div_mod a l1), (Z.div_mod b l1), E1 by lia.
  by rewrite (Hm a), (Hm b), E2.
Qed.

Lemma Bid2Filename_inj_witness :
  exists fa fb, Bid2Filename g_default_setting 7 = Some fa /\
    Bid2Filename g_default_setting 20099 = Some fb /\ (length fa = 17)%nat /\ (fa = fb -> 7 = 20099).
Proof. apply (Bid2Filename_inj g_default_setting); cbn; try lia. by exists 8. Defined.

(** Without the divisibility two bundles share a file. *)
Example Bid2Filename_collision :
  let st := mkSetting kMaxBundleSize kBundleCountPerDay 400 50 ExtractSimple BuildSimple in
  Bid2Filename st 0 = Bid2Filename st 50.
Proof. reflexivity. Qed.

(** ** Writing *)

Lemma size_take_record k d : size (take k d) <= size d.
Proof. unfold size. len. Qed.

(** The allocation of [Write]: the whole record, rounded up. *)
Definition record_total (buf : bytes) : Z := Align1K (kFileHeaderSize + size buf).

Lemma record_total_bounds buf :
  size buf < 2 ^ 31 - 1024 - 512 ->
  i32 (Align1K (u64 (kFileHeaderSize + size buf))) = record_total buf /\
  kFileHeaderSize + size buf <= record_total buf < 2 ^ 31 /\ record_total buf mod 1024 = 0.
Proof.
  intros Hs. pose proof (size_nonneg buf). unfold record_total, kFileHeaderSize.
  rewrite (wrap_small 64) by lia.
  destruct (Align1K_bounds (512 + size buf) ltac:(lia)) as [Hm Hb].
  split; [apply i32_small; lia|]. lia.
Qed.

Lemma size_record_bytes content url buf ud :
  size content = record_total buf -> size buf < 2 ^ 31 - 1024 - 512 ->
  size (record_bytes content url buf ud) = record_total buf.
Proof.
  intros Hc Hs. destruct (record_total_bounds buf Hs) as (_ & Hb & _).
  unfold record_bytes. rewrite !size_app, size_header_bytes.
  - unfold kFileHeaderSize, size in *. len.
  - unfold write_header, size, kUrlSize. cbn. len.
  - unfold write_header. cbn [user_data_].
    assert (size (range content (16 + kUrlSize) kUserDataSize) = kUserDataSize) as Hr.
    { apply size_range; unfold kUserDataSize, kUrlSize, kFileHeaderSize in *;
        pose proof (size_nonneg buf); lia. }
    destruct ud as [u|]; [|done]. revert Hr. unfold size. cbn. len.
Qed.

(** What a static [Write] does to the file [q] with content [b]: either it
    reports success and the whole record is in place, or the environment made
    it fail, and at most a prefix of the record was written.  All other
    files, and the descriptor table, are as before. *)
Definition write_outcome (C : choice -> Prop) (q : path) (b : bytes) (off : Z)
    (url buf : bytes) (ud : option bytes) (r : Z * Z) (s s' : proc) (f f' : fs) : Prop :=
  last_id_ s' = last_id_ s /\
  ((r = (0, size buf) /\ exists heap, size heap = record_total buf /\
     leaves f f' (<[q := NFile (splice b off (record_bytes heap url buf ud))]> (nodes f))) \/
   (snd r = 0 /\ ((exists e, may_fail C e) \/ may_short C) /\
     (leaves f f' (nodes f) \/ exists heap k, size heap = record_total buf /\
       leaves f f' (<[q := NFile (splice b off (take k (record_bytes heap url buf ud)))]> (nodes f))))).

(** A failed [Write] that changed no file. *)
Lemma write_failed C q b off url buf ud n s s' f f' :
  last_id_ s' = last_id_ s -> (exists e, may_fail C e) -> leaves f f' (nodes f) ->
  write_outcome C q b off url buf ud (n, 0) s s' f f'.
Proof. intros Hid He Hl. split; [done|]. right. split_and!; [done|by left|by left]. Qed.

(** The end of [Write]: the record is written, the file closed and the count
    compared. *)
Lemma Write_record_wp C S url buf ud q b off heap s1 s f :
  fs_ok f -> nodes f !! q = Some (NFile b) -> 0 <= off -> size buf < 2 ^ 31 - 1024 - 512 ->
  last_id_ s1 = last_id_ s -> size heap = record_total buf ->
  wpP C S (
      n ← write (next_fd f) (record_bytes heap url buf ud);
      let written := i32 n in
      close (next_fd f);;
      if (written <? 0) || negb (written =? record_total buf) then e ← get_errno; mret (e, 0)
      else mret (0, size buf))
    (fun r s' f' => write_outcome C q b off url buf ud r s s' f f') s1
    (Fs (nodes f) (<[next_fd f := FDesc (Some q) off]> (fds f)) (next_fd f + 1) (cwd f)).
Proof.
  intros Hok Hq Hoff Hsize Hid1 Hheap. pose proof Hok as (Hnf & Hfree & Htree).
  destruct (record_total_bounds buf Hsize) as (_ & Htot & _).
  assert (0 <= record_total buf) as Hpos by (unfold kFileHeaderSize in *; pose proof (size_nonneg buf); lia).
  pose proof (size_record_bytes heap url buf ud Hheap Hsize) as Hrec.
  apply wpP_bind. eapply wpP_write; [apply lookup_insert_eq|exact Hq| | |].
  - (* write fails *)
    intros e He _. eapply wpP_close_ignore; [apply lookup_insert_eq|]. cbn [last_id_].
    intros s' Hid _. change (i32 (-1) <? 0) with true. cbn [orb]. apply wpP_bind, wpP_get_errno, wpP_ret.
    apply write_failed; [congruence|eauto|]. fs_simpl. apply leaves_closed; [done..|next_fd_le].
  - (* a short transfer *)
    intros k Hk. eapply wpP_close_ignore; [fs_simpl; apply lookup_insert_eq|].
    intros s' Hid _. fs_simpl. rewrite insert_insert_eq.
    pose proof (size_take_record k (record_bytes heap url buf ud)) as Hle.
    pose proof (size_nonneg (take k (record_bytes heap url buf ud))).
    rewrite i32_small by lia.
    destruct (Z.ltb_spec (size (take k (record_bytes heap url buf ud))) 0); [lia|].
    destruct (Z.eqb_spec (size (take k (record_bytes heap url buf ud))) (record_total buf)) as [E|_];
      cbn [orb negb].
    + apply wpP_ret. split; [congruence|]. left. split; [done|]. exists heap. split; [done|].
      rewrite <- Hrec in E. unfold size in E. rewrite take_ge by len.
      apply leaves_closed; [done|by eapply tree_insert_file|next_fd_le].
    + apply wpP_bind, wpP_get_errno, wpP_ret. split; [congruence|]. right.
      split_and!; [done|by right|right]. exists heap, k. split; [done|].
      apply leaves_closed; [done|by eapply tree_insert_file|next_fd_le].
  - (* everything written *)
    eapply wpP_close_ignore; [fs_simpl; apply lookup_insert_eq|].
    intros s' Hid _. fs_simpl. rewrite insert_insert_eq, Hrec, i32_small by lia.
    destruct (Z.ltb_spec (record_total buf) 0); [lia|]. rewrite Z.eqb_refl. cbn [orb negb].
    apply wpP_ret. split; [congruence|]. left. split; [done|]. exists heap. split; [done|].
    apply leaves_closed; [done|by eapply tree_insert_file|next_fd_le].
Qed.

Lemma Write_file_wp C S file off url buf ud q b s f :
  fs_ok f -> namei f (c_str file) = inr q -> nodes f !! q = Some (NFile b) ->
  0 <= off < 2 ^ 63 -> i32 off <> -1 -> size buf < 2 ^ 31 - 1024 - 512 ->
  wpP C S (Write_file file off url buf ud)
    (fun r s' f' => write_outcome C q b off url buf ud r s s' f f') s f.
Proof.
  intros Hok Hn Hq Hoff Hneg Hsize. pose proof Hok as (Hnf & Hfree & Htree).
  destruct (record_total_bounds buf Hsize) as (Etot & Htot & _).
  assert (0 <= record_total buf) as Hpos by (unfold kFileHeaderSize in *; pose proof (size_nonneg buf); lia).
  unfold Write_file. apply wpP_bind, wpP_open_rdwr.
  { (* open fails *)
    intros e [He|He] _; [|unfold file_at in He; by rewrite Hn, Hq in He].
    cbn. apply wpP_bind, wpP_get_errno, wpP_ret.
    apply write_failed; [done|eauto|by apply leaves_refl]. }
  intros q' d' Hq' Hd'. rewrite Hn in Hq'. injection Hq' as <-. rewrite Hq in Hd'. injection Hd' as <-.
  destruct (Z.eqb_spec (-1) (next_fd f)) as [|_]; [lia|].
  rewrite i64_small by lia. apply wpP_bind. eapply wpP_lseek;
    [apply lookup_insert_eq|lia| |].
  { intros e He _. change (-1 =? i32 (-1)) with true. cbv iota. eapply wpP_close_ignore; [apply lookup_insert_eq|].
    intros s' Hid _. apply wpP_ret. apply write_failed; [done|eauto|].
    fs_simpl. apply leaves_closed; [done..|next_fd_le]. }
  destruct (Z.eqb_spec (-1) (i32 off)) as [E|_]; [by rewrite <- E in Hneg|].
  rewrite Etot. apply wpP_bind, wpP_new_array; [lia|].
  intros heap Hheap. destruct (Z.ltb_spec (record_total buf) (kFileHeaderSize + size buf)); [lia|].
  fs_simpl. rewrite insert_insert_eq. apply Write_record_wp; (done || lia).
Qed.

(** ** Reading *)

(** What [Read] makes of the file content [b]: the record the specification
    [record_at] finds, or no user data and an error, which is [EIO] or what
    [errno] was before when the content is cut off by the end of the file. *)
Definition read_outcome (C : choice -> Prop) (b : bytes) (off len : Z)
    (r : Z * bytes * option bytes) (s s' : proc) : Prop :=
  last_id_ s' = last_id_ s /\
  ((exists content ud, record_at b off len = Some (content, ud) /\ r = (0, content, Some ud)) \/
   (snd r = None /\
     ((exists e, may_fail C e) \/
      (record_at b off len = None /\
        (fst (fst r) = EIO \/ (size b < off + kFileHeaderSize + len /\ fst (fst r) = errno s)))))).

Lemma size_range_le b off n : 0 <= n -> size (range b off n) <= n.
Proof. intros. unfold range, size. len. Qed.

(** A read that is as long as asked is the whole range and fits the file. *)
Lemma size_range_full b off m n :
  0 <= off -> 0 <= m <= n -> n <= size (range b off m) ->
  m = n /\ (0 < n -> off + n <= size b).
Proof. intros Ho Hm Hn. unfold range, size in *. len. Qed.

Lemma size_range_short b off n :
  0 <= off -> 0 <= n -> size (range b off n) < n -> size b < off + n.
Proof. intros Ho Hn Hs. unfold range, size in *. len. Qed.

Lemma record_at_short b off len : size b < off + kFileHeaderSize + len -> record_at b off len = None.
Proof. intros H. unfold record_at. by destruct (Z.leb_spec (off + kFileHeaderSize + len) (size b)); [lia|]. Qed.

(** The four checks of the header are the one of the specification. *)
Lemma header_checks {A} h len (no yes : A) :
  (if negb (kMAGIC_CODE =? magic_ h) then no
   else if negb (kVERSION =? version_ h) then no
   else if length_ h <? len then no
   else if negb (kFILE_NORMAL =? flag_ h) then no
   else yes) = if header_accepts h len then yes else no.
Proof.
  unfold header_accepts. rewrite (Z.eqb_sym (magic_ h)), (Z.eqb_sym (version_ h)), (Z.eqb_sym (flag_ h)).
  rewrite Z.ltb_antisym.
  by destruct (kMAGIC_CODE =? _), (kVERSION =? _), (len <=? _), (kFILE_NORMAL =? _).
Qed.

Lemma record_at_rejected b off len :
  header_accepts (header_of (range b off kFileHeaderSize)) len = false -> record_at b off len = None.
Proof. intros Hh. unfold record_at. rewrite Hh. by destruct (_ <=? _). Qed.

(** What [Read_file_body] leaves: its outcome, and the file elsewhere in it. *)
Definition body_read (C : choice -> Prop) (fd : Z) (q : path) (b : bytes) (off len : Z) (s : proc) (f : fs)
    (r : Z * bytes * option bytes) (s' : proc) (f' : fs) : Prop :=
  read_outcome C b off len r s s' /\
  exists pos, f' = set_fds (<[fd := FDesc (Some q) pos]> (fds f)) f.

Lemma body_refused C fd q b off len s f e data s2 pos :
  last_id_ s2 = last_id_ s ->
  (exists e, may_fail C e) \/
    (record_at b off len = None /\ (e = EIO \/ (size b < off + kFileHeaderSize + len /\ e = errno s))) ->
  body_read C fd q b off len s f (e, data, None) s2
    (Fs (nodes f) (<[fd := FDesc (Some q) pos]> (fds f)) (next_fd f) (cwd f)).
Proof. intros Hid Hwhy. split; [|by exists pos]. split; [done|]. by right. Qed.

(** The content, once the header is accepted. *)
Lemma Read_content_wp C S fd off len buf_size q b s1 s f :
  nodes f !! q = Some (NFile b) ->
  0 <= off < 2 ^ 62 -> 0 <= len <= buf_size -> len < 2 ^ 31 ->
  let h := header_of (range b off kFileHeaderSize) in
  header_accepts h len = true -> (off + kFileHeaderSize <= size b) ->
  last_id_ s1 = last_id_ s -> errno s1 = errno s \/ (exists e, may_fail C e) ->
  let rsize := i32 (if buf_size <? len then buf_size else len) in
  wpP C S (
      data ← fread fd (u64 rsize);
      if buf_size <? size data then halt Undef
      else
        let ret := i32 (size data) in
        if ret <? rsize then e ← get_errno; mret (e, data, None)
        else mret (0, data, Some (user_data_ h)))
    (body_read C fd q b off len s f) s1
    (Fs (nodes f) (<[fd := FDesc (Some q) (off + kFileHeaderSize)]> (fds f)) (next_fd f) (cwd f)).
Proof.
  intros Hq Hoff Hlen H31 h Haccept Hfit Hid1 Herr1 rsize. subst rsize.
  assert ((if buf_size <? len then buf_size else len) = len) as ->
    by (destruct (Z.ltb_spec buf_size len); lia).
  rewrite (i32_small len), (wrap_small 64 len) by lia.
  apply wpP_bind. eapply wpP_fread; [apply lookup_insert_eq|exact Hq|lia|unfold kFileHeaderSize; lia|].
  intros s2 m2 Hm2 Hid2 Herr2. fs_simpl. rewrite insert_insert_eq.
  set (data := range b (off + kFileHeaderSize) m2).
  assert (size data <= m2) as Hdm by (apply size_range_le; lia).
  destruct (Z.ltb_spec buf_size (size data)); [lia|].
  pose proof (size_nonneg data). rewrite i32_small by lia.
  destruct (Z.ltb_spec (size data) len) as [Hshort|Hall].
  - apply wpP_bind, wpP_get_errno, wpP_ret. apply body_refused; [congruence|].
    destruct Herr2 as [[-> ->] | [He _]]; [|left; eauto].
    destruct Herr1 as [-> | He]; [right|by left].
    apply size_range_short in Hshort; [|unfold kFileHeaderSize; lia|lia].
    split; [by apply record_at_short|by right].
  - apply wpP_ret. split; [|by eexists]. split; [congruence|]. left.
    apply size_range_full in Hall as [-> Hfit2]; [|unfold kFileHeaderSize; lia|lia].
    exists data, (user_data_ h). split; [|done]. unfold record_at. fold h. rewrite Haccept.
    destruct (Z.leb_spec (off + kFileHeaderSize + len) (size b)); [done|].
    exfalso. destruct (Z.eq_dec len 0); lia.
Qed.

Lemma Read_file_body_wp C S fd off len buf_size q b pos s f :
  fds f !! fd = Some (FDesc (Some q) pos) -> nodes f !! q = Some (NFile b) ->
  0 <= off < 2 ^ 62 -> 0 <= len <= buf_size -> len < 2 ^ 31 ->
  wpP C S (Read_file_body fd off len buf_size true) (body_read C fd q b off len s f) s f.
Proof.
  intros Hfd Hq Hoff Hlen H31. unfold Read_file_body.
  rewrite i64_small by lia. apply wpP_bind. eapply wpP_fseek; [exact Hfd|lia| |].
  { intros e He _. change (-1 =? -1) with true. cbv iota. apply wpP_bind, wpP_get_errno, wpP_ret.
    split; [split; [done|]; right; split; [done|]; left; eauto|].
    exists pos. rewrite insert_id by done. by destruct f. }
  change (-1 =? 0) with false. cbv iota. fs_simpl.
  apply wpP_bind. eapply wpP_fread; [apply lookup_insert_eq|exact Hq|done|lia|].
  intros s1 m Hm Hid1 Herr1. fs_simpl. rewrite insert_insert_eq.
  destruct (Z.ltb_spec (size (range b off m)) kFileHeaderSize) as [Hsh|Hfull].
  { apply wpP_ret. apply body_refused; [done|].
    destruct Herr1 as [[-> _] | [He _]]; [right|left; eauto]. split; [|by left].
    apply record_at_short. apply size_range_short in Hsh; unfold kFileHeaderSize in *; lia. }
  apply size_range_full in Hfull as [-> Hfit]; [|lia|lia]. specialize (Hfit eq_refl).
  rewrite (size_range b off kFileHeaderSize) by (unfold kFileHeaderSize in *; lia).
  cbv zeta. rewrite header_checks.
  destruct (header_accepts _ len) eqn:Haccept.
  - apply Read_content_wp; try done. destruct Herr1 as [[_ ->] | [He _]]; [by left|right; eauto].
  - apply wpP_ret. apply body_refused; [done|]. right. split; [by apply record_at_rejected|by left].
Qed.

Lemma Read_file_wp C S file off len buf_size n q b s f :
  fs_ok f -> namei f (c_str file) = inr q -> nodes f !! q = Some (NFile b) ->
  0 <= off < 2 ^ 62 -> 0 <= len <= buf_size -> len < 2 ^ 31 -> kUserDataSize <= n ->
  wpP C S (Read_file file off len buf_size (Some n))
    (fun r s' f' => read_outcome C b off len r s s' /\ leaves f f' (nodes f)) s f.
Proof.
  intros Hok Hn Hq Hoff Hlen H31 Hud. unfold Read_file.
  destruct (Z.ltb_spec n kUserDataSize); [lia|].
  apply wpP_bind, wpP_fopen.
  { intros e [He|He] _; [|unfold file_at in He; by rewrite Hn, Hq in He].
    apply wpP_bind, wpP_get_errno, wpP_ret. split; [|by apply leaves_refl].
    split; [done|]. right. split; [done|]. left; eauto. }
  intros q' d' Hq' Hd'. rewrite Hn in Hq'. injection Hq' as <-.
  apply wpP_bind. eapply wpP_mono.
  { eapply Read_file_body_wp; [apply lookup_insert_eq|exact Hq|lia..]. }
  intros r s1 f1 [Hr (pos & ->)]. fs_simpl. rewrite insert_insert_eq.
  eapply (wpP_close_ignore C S); [apply lookup_insert_eq|].
  intros s2 Hid _. apply wpP_ret. fs_simpl. split.
  - destruct Hr as [Hid1 Hr]. split; [congruence|exact Hr].
  - apply leaves_closed; [done|apply Hok|next_fd_le].
Qed.

(** C15: Reading a record of a bundle file, in any environment: the reader
    returns success and the user data only for the record the specification
    [record_at] finds at that offset, with exactly its content; the files and
    the descriptor table are unchanged on every path. *)
Theorem Read_file_sound {W C} `{Posix W C} (file : bytes) (off len : Z) (q : path) (b : bytes)
    (s : proc) (w : W) :
  fs_ok (view w) -> namei (view w) (c_str file) = inr q -> nodes (view w) !! q = Some (NFile b) ->
  0 <= off < 2 ^ 62 -> 0 <= len < 2 ^ 31 ->
  match runP (Read_file file off len len (Some kUserDataSize)) s w with
  | (inr (r, data, u), _, w') =>
      leaves (view w) (view w') (nodes (view w)) /\
      (u <> None -> r = 0) /\
      (forall ud, u = Some ud -> record_at b off len = Some (data, ud))
  | (inl _, _, _) => False
  end.
Proof.
  intros Hok Hn Hq Ho Hl.
  pose proof (wpP_run never _ _ s w
    (Read_file_wp C never file off len len kUserDataSize q b s (view w) Hok Hn Hq Ho ltac:(lia)
       ltac:(lia) ltac:(lia))) as Hr.
  destruct (runP _ s w) as [[[e|[[r data] u]] s'] w']; [exact Hr|].
  destruct Hr as [[_ [(c & ud & E & [= -> -> ->]) | [Hu _]]] Hf]; cbn in *; split; auto.
  - split; [done|]. intros ud' [= <-]. done.
  - subst u. done.
Qed.

(** C16: Without injected faults the reader decides exactly: it succeeds if and
    only if there is a record at the offset.  Otherwise it returns [EIO], or,
    when the content is cut off by the end of the file, whatever [errno]
    happened to be before. *)
Theorem Read_file_complete {W} `{Posix W benign} (file : bytes) (off len : Z) (q : path)
    (b : bytes) (s : proc) (w : W) :
  fs_ok (view w) -> namei (view w) (c_str file) = inr q -> nodes (view w) !! q = Some (NFile b) ->
  0 <= off < 2 ^ 62 -> 0 <= len < 2 ^ 31 ->
  match runP (Read_file file off len len (Some kUserDataSize)) s w with
  | (inr (r, data, u), _, w') =>
      match record_at b off len with
      | Some (content, ud) => (r, data, u) = (0, content, Some ud)
      | None => u = None /\
          (r = EIO \/ (size b < off + kFileHeaderSize + len /\ r = errno s))
      end
  | (inl _, _, _) => False
  end.
Proof.
  intros Hok Hn Hq Ho Hl.
  pose proof (wpP_run never _ _ s w
    (Read_file_wp benign never file off len len kUserDataSize q b s (view w) Hok Hn Hq Ho ltac:(lia)
       ltac:(lia) ltac:(lia))) as Hr.
  destruct (runP _ s w) as [[[e|[[r data] u]] s'] w']; [exact Hr|].
  destruct Hr as [[_ [(c & ud & E & [= -> -> ->]) | [Hu [[e He] | [E Hr]]]]] _].
  - by rewrite E.
  - by apply benign_no_fail in He.
  - rewrite E. done.
Qed.

(** ** Writing, then reading *)

(** The user data a reader gets for what a writer was given. *)
Definition stored_user_data (heap : bytes) (ud : option bytes) : bytes :=
  user_data_ (write_header heap [] 0 ud).

(** User data of the full size replaces the whole field. *)
Lemma stored_user_data_full heap u :
  size u = kUserDataSize -> stored_user_data heap (Some u) = u.
Proof.
  intros Hu. unfold stored_user_data, write_header. cbn. unfold size in Hu.
  rewrite take_ge by (rewrite <- Hu; lia). rewrite drop_ge, app_nil_r; [done|].
  unfold range. rewrite length_take. lia.
Qed.

(** The record just written is the record found, whatever was in the file and
    in the heap. *)
Lemma record_at_written b off heap url buf ud :
  0 <= off -> size heap = record_total buf -> size buf < 2 ^ 31 - 1024 - 512 ->
  record_at (splice b off (record_bytes heap url buf ud)) off (size buf) =
    Some (buf, stored_user_data heap ud).
Proof.
  intros Ho Hheap Hs. destruct (record_total_bounds buf Hs) as (_ & Htot & _).
  pose proof (size_record_bytes heap url buf ud Hheap Hs) as Hrec.
  pose proof (range_splice_same b off (record_bytes heap url buf ud) Ho) as Hall.
  rewrite Hrec in Hall. pose proof (size_nonneg buf).
  set (file := splice b off (record_bytes heap url buf ud)) in *.
  set (h := write_header heap url (size buf) ud) in *.
  assert (header_wf h) as Hwf.
  { unfold header_wf, h, write_header. cbn [magic_ version_ flag_ length_ url_ user_data_].
    split; [done|]. split; [done|]. split; [done|]. split; [apply wrap_range; lia|].
    split; [unfold size, kUrlSize; len|].
    assert (size (range heap (16 + kUrlSize) kUserDataSize) = kUserDataSize) as Hr
      by (apply size_range; unfold kUserDataSize, kUrlSize, kFileHeaderSize in *; lia).
    destruct ud as [u|]; [|done]. revert Hr. unfold size. len. }
  assert (range file off kFileHeaderSize = header_bytes h) as Eh.
  { apply (f_equal (fun r => range r 0 kFileHeaderSize)) in Hall.
    rewrite range_range, Z.add_0_r in Hall by (unfold kFileHeaderSize in *; lia). rewrite Hall.
    apply range_field_first. symmetry. apply size_header_bytes; apply Hwf. }
  assert (range file (off + kFileHeaderSize) (size buf) = buf) as Eb.
  { apply (f_equal (fun r => range r kFileHeaderSize (size buf))) in Hall.
    rewrite range_range in Hall by (unfold kFileHeaderSize in *; lia). rewrite Hall.
    apply range_field; [|done]. symmetry. apply size_header_bytes; apply Hwf. }
  unfold record_at. destruct (Z.leb_spec (off + kFileHeaderSize + size buf) (size file)) as [_|Hlt].
  2:{ exfalso. subst file. rewrite length_splice, Hrec in Hlt by lia. lia. }
  rewrite Eh, Eb, <- (app_nil_r (header_bytes h)), header_of_bytes_rest by done.
  assert (header_accepts h (size buf) = true) as ->; [|done].
  unfold header_accepts, h, write_header. cbn [magic_ version_ flag_ length_].
  rewrite !Z.eqb_refl, wrap_small by lia. by rewrite Z.leb_refl.
Qed.

(** A write elsewhere in the file leaves a record as it was. *)
Lemma record_at_elsewhere b off data o len :
  0 <= off -> 0 <= o -> 0 <= len -> o + kFileHeaderSize + len <= size b ->
  o + kFileHeaderSize + len <= off \/ off + size data <= o ->
  record_at (splice b off data) o len = record_at b o len.
Proof.
  intros Hoff Ho Hl Hfit Hdis. apply record_at_ext; try done.
  - rewrite length_splice by lia. lia.
  - apply range_splice_other; unfold kFileHeaderSize in *; try lia.
Qed.

(** C13: A write, in any environment, touches only its own place: it reports
    success (0 and the full size) exactly when the whole record is stored, or
    else reports nothing written; no other file and no descriptor changes; and
    even a failed write leaves every other record of the file readable. *)
Theorem Write_file_isolated {W C} `{Posix W C} (file : bytes) (off : Z) (url buf : bytes)
    (ud : option bytes) (q : path) (b : bytes) (s : proc) (w : W) :
  fs_ok (view w) -> namei (view w) (c_str file) = inr q -> nodes (view w) !! q = Some (NFile b) ->
  0 <= off < 2 ^ 63 -> i32 off <> -1 -> size buf < 2 ^ 31 - 1024 - 512 ->
  match runP (Write_file file off url buf ud) s w with
  | (inr (r, n), _, w') =>
      (forall p, p <> q -> nodes (view w') !! p = nodes (view w) !! p) /\
      fds (view w') = fds (view w) /\
      exists b', nodes (view w') !! q = Some (NFile b') /\
        (forall o len, 0 <= o -> 0 <= len -> o + kFileHeaderSize + len <= size b ->
           o + kFileHeaderSize + len <= off \/ off + record_total buf <= o ->
           record_at b' o len = record_at b o len) /\
        ((r = 0 /\ n = size buf /\ exists heap,
            record_at b' off (size buf) = Some (buf, stored_user_data heap ud)) \/ n = 0)
  | (inl _, _, _) => False
  end.
Proof.
  intros Hok Hn Hq Ho Hneg Hs.
  pose proof (wpP_run never _ _ s w
    (Write_file_wp C never file off url buf ud q b s (view w) Hok Hn Hq Ho Hneg Hs)) as Hr.
  destruct (runP _ s w) as [[[e|[r n]] s'] w']; [exact Hr|].
  assert (forall b', leaves (view w) (view w') (<[q := NFile b']> (nodes (view w))) ->
    (forall p, p <> q -> nodes (view w') !! p = nodes (view w) !! p) /\
    fds (view w') = fds (view w) /\ nodes (view w') !! q = Some (NFile b')) as Hins.
  { intros b' (En & Ef & _). rewrite En. split_and!; [|done|apply lookup_insert_eq].
    intros p Hp. by apply lookup_insert_ne. }
  destruct Hr as [_ [[[= -> ->] (heap & Hheap & Hl)] | (Hn0 & _ & Hl)]].
  - destruct (Hins _ Hl) as (? & ? & ?). split; [done|]. split; [done|].
    eexists. split; [done|]. split.
    + intros. apply record_at_elsewhere; try done; [lia|].
      by rewrite size_record_bytes.
    + left. split; [done|]. split; [done|]. exists heap. apply record_at_written; done || lia.
  - cbn in Hn0. subst n. destruct Hl as [(En & Ef & _) | (heap & k & Hheap & Hl)].
    + rewrite En. split; [done|]. split; [done|]. exists b. split; [done|]. split; [done|by right].
    + destruct (Hins _ Hl) as (? & ? & ?). split; [done|]. split; [done|].
      eexists. split; [done|]. split; [|by right].
      intros o len ? ? ? Hdis. apply record_at_elsewhere; try done; [lia|].
      pose proof (size_take_record k (record_bytes heap url buf ud)).
      rewrite size_record_bytes in * by done. lia.
Qed.

Lemma Write_file_benign S file off url buf ud q b s f :
  fs_ok f -> namei f (c_str file) = inr q -> nodes f !! q = Some (NFile b) ->
  0 <= off < 2 ^ 63 -> i32 off <> -1 -> size buf < 2 ^ 31 - 1024 - 512 ->
  wpP benign S (Write_file file off url buf ud)
    (fun r s' f' => r = (0, size buf) /\ last_id_ s' = last_id_ s /\
       exists heap, size heap = record_total buf /\
         leaves f f' (<[q := NFile (splice b off (record_bytes heap url buf ud))]> (nodes f))) s f.
Proof.
  intros. eapply wpP_mono; [by eapply Write_file_wp|]. cbn beta.
  intros r s' f' [Hid [[-> Hl] | (_ & [[e He] | Hsh] & _)]]; [by auto|..].
  - by apply benign_no_fail in He.
  - by apply benign_no_short in Hsh.
Qed.

(** Path resolution only depends on which nodes are directories. *)
Definition same_dirs (n n' : gmap path node) : Prop :=
  forall q, n' !! q = n !! q \/ exists b b', n !! q = Some (NFile b) /\ n' !! q = Some (NFile b').

Lemma walk_same_dirs n n' cur cs : same_dirs n n' -> walk n' cur cs = walk n cur cs.
Proof.
  intros Hs. revert cur. induction cs as [|c cs IH]; intros cur; cbn; [done|].
  destruct (Hs cur) as [-> | (b & b' & -> & ->)]; [|done].
  destruct (n !! cur) as [[]|]; auto.
Qed.

Lemma same_dirs_insert n q b b' : n !! q = Some (NFile b) -> same_dirs n (<[q := NFile b']> n).
Proof.
  intros Hq p. destruct (decide (p = q)) as [->|Hp].
  - right. exists b, b'. by rewrite lookup_insert_eq.
  - left. by rewrite lookup_insert_ne.
Qed.

Lemma namei_same_dirs f f' p :
  same_dirs (nodes f) (nodes f') -> cwd f' = cwd f -> namei f' p = namei f p.
Proof. intros Hs Hc. unfold namei. destruct p; [done|]. rewrite Hc. by apply walk_same_dirs. Qed.

(** C12: Round trip: on a calm system, what is written to an existing bundle file
    is read back from it, content and user data, and the reader reports
    success. *)
Theorem write_then_read {W} `{Posix W benign} (file : bytes) (off : Z) (url buf u : bytes)
    (q : path) (b : bytes) (s : proc) (w : W) :
  fs_ok (view w) -> namei (view w) (c_str file) = inr q -> nodes (view w) !! q = Some (NFile b) ->
  0 <= off < 2 ^ 62 -> i32 off <> -1 -> size buf < 2 ^ 31 - 1024 - 512 ->
  size u = kUserDataSize ->
  fst (fst (runP (
    r ← Write_file file off url buf (Some u);
    x ← Read_file file off (size buf) (size buf) (Some kUserDataSize);
    mret (r, x)) s w)) = inr ((0, size buf), (0, buf, Some u)).
Proof.
  intros Hok Hn Hq Ho Hneg Hs Hu.
  apply wpP_result, wpP_bind. eapply wpP_mono; [eapply Write_file_benign; (done || lia)|].
  intros r s1 f1 (-> & _ & heap & Hheap & (En & Ef & Ec & Hok1)).
  apply wpP_bind. eapply wpP_mono.
  { eapply (Read_file_wp benign); [done| | |lia|pose proof (size_nonneg buf); lia|lia|done].
    - rewrite (namei_same_dirs (view w)); [exact Hn| |done].
      rewrite En. by eapply same_dirs_insert.
    - rewrite En. apply lookup_insert_eq. }
  intros x s2 f2 [[_ Hx] _]. apply wpP_ret. f_equal.
  rewrite record_at_written in Hx by (done || lia).
  rewrite stored_user_data_full in Hx by done. destruct Hx as [(c & ud' & [= <- <-] & ->) | (_ & [[e He] | [[=] _]])]; [done|].
  by apply benign_no_fail in He.
Qed.

(** ** Batches *)

(** Writing a list of contents with one writer, as its callers do; the url of
    each, and the writer in the end.  It stops at the first error. *)
Fixpoint BatchWrite_all (w : Writer) (bufs : list bytes) : P (list (option bytes) * Writer) :=
  match bufs with
  | [] => mret ([], w)
  | buf :: bufs =>
      '(ret, _, url, w) ← BatchWrite w buf None;
      if 0 =? ret then
        '(urls, w) ← BatchWrite_all w bufs;
        mret (url :: urls, w)
      else mret ([url], w)
  end.

(** The info of each record of a batch. *)
Fixpoint batch_infos (i : Info) (bufs : list bytes) : list Info :=
  match bufs with
  | [] => []
  | buf :: bufs =>
      set_size (size buf) i :: batch_infos (set_offset (info_offset i + record_total buf) i) bufs
  end.

Definition batch_total (bufs : list bytes) : Z := fold_right (fun b t => record_total b + t) 0 bufs.

(** Record [i] of [bufs] is in the file where its info says. *)
Definition stored (file : bytes) (buf : bytes) (i : Info) : Prop :=
  exists ud, record_at file (info_offset i) (size buf) = Some (buf, ud).

Lemma record_total_pos buf : size buf < 2 ^ 31 - 1024 - 512 -> kFileHeaderSize + size buf <= record_total buf.
Proof. intros Hs. apply (record_total_bounds buf Hs). Qed.

Lemma batch_total_nonneg bufs :
  Forall (fun b => size b < 2 ^ 31 - 1024 - 512) bufs -> 0 <= batch_total bufs.
Proof.
  induction 1 as [|b bufs Hb _ IH]; [done|]. change (0 <= record_total b + batch_total bufs).
  pose proof (record_total_pos b Hb). pose proof (size_nonneg b). unfold kFileHeaderSize in *. lia.
Qed.

Lemma BatchWrite_benign S w buf bld q b s f :
  fs_ok f -> namei f (c_str (filename_ w)) = inr q -> nodes f !! q = Some (NFile b) ->
  builder_ w = Some bld -> 0 <= info_offset (info_ w) ->
  info_offset (info_ w) + record_total buf < 2 ^ 31 -> size buf < 2 ^ 31 - 1024 - 512 ->
  wpP benign S (BatchWrite w buf None)
    (fun r _ f' =>
       r = (0, size buf, Some (bld (set_size (size buf) (info_ w))),
            set_info (set_offset (info_offset (info_ w) + record_total buf)
                        (set_size (size buf) (info_ w))) w) /\
       exists heap, size heap = record_total buf /\
         leaves f f' (<[q := NFile (splice b (info_offset (info_ w))
           (record_bytes heap (bld (set_size (size buf) (info_ w))) buf None))]> (nodes f))) s f.
Proof.
  intros Hok Hn Hq Hb Ho Hend Hs. pose proof (record_total_pos buf Hs) as Htot.
  pose proof (size_nonneg buf). destruct (record_total_bounds buf Hs) as (_ & Hb2 & _).
  unfold kFileHeaderSize in *. unfold BatchWrite. apply wpP_bind. unfold Write_url.
  eapply wpP_mono; [eapply Write_file_benign; try done; cbn|].
  - lia.
  - rewrite i32_small by lia. lia.
  - cbn. intros r s1 f1 (-> & _ & heap & Hheap & Hl). change (0 =? 0) with true. cbv iota.
    apply wpP_ret. unfold EnsureUrl in *. cbn in *. rewrite Hb in *. split; [|by exists heap].
    rewrite (wrap_small 64 (kFileHeaderSize + size buf)) by (unfold kFileHeaderSize; lia).
    fold (record_total buf). rewrite wrap_small by lia. done.
Qed.

(** The size a writer was left with does not matter for the next records. *)
Lemma batch_infos_size k i bufs : batch_infos (set_size k i) bufs = batch_infos i bufs.
Proof.
  revert i. induction bufs as [|b bufs IH]; intros i; [done|]. cbn [batch_infos]. f_equal.
  exact (IH (set_offset (info_offset i + record_total b) i)).
Qed.

(** A batch on a calm system: every record is stored where its url says, and
    nothing stored before is lost. *)
Lemma BatchWrite_all_benign S w bufs bld q b s f :
  fs_ok f -> namei f (c_str (filename_ w)) = inr q -> nodes f !! q = Some (NFile b) ->
  builder_ w = Some bld -> 0 <= info_offset (info_ w) ->
  Forall (fun b => size b < 2 ^ 31 - 1024 - 512) bufs ->
  info_offset (info_ w) + batch_total bufs < 2 ^ 31 ->
  wpP benign S (BatchWrite_all w bufs)
    (fun r _ f' =>
       fst r = map (fun i => Some (bld i)) (batch_infos (info_ w) bufs) /\
       exists b', leaves f f' (<[q := NFile b']> (nodes f)) /\ size b <= size b' /\
         Forall2 (stored b') bufs (batch_infos (info_ w) bufs) /\
         (forall o len, 0 <= o -> 0 <= len -> o + kFileHeaderSize + len <= size b ->
            o + kFileHeaderSize + len <= info_offset (info_ w) ->
            record_at b' o len = record_at b o len)) s f.
Proof.
  revert w b s f. induction bufs as [|buf bufs IH]; intros w b s f Hok Hn Hq Hb Ho Hs Hend.
  { apply wpP_ret. split; [done|]. exists b. split_and!; [|lia|constructor|done].
    unfold leaves. by rewrite insert_id. }
  inversion_clear Hs as [|? ? Hbuf Hbufs]. cbn [batch_total fold_right] in Hend.
  fold (batch_total bufs) in Hend. pose proof (batch_total_nonneg bufs Hbufs).
  pose proof (record_total_pos buf Hbuf) as Htot. pose proof (size_nonneg buf).
  unfold kFileHeaderSize in Htot.
  cbn [BatchWrite_all]. apply wpP_bind. eapply wpP_mono.
  { eapply BatchWrite_benign; try done. lia. }
  cbn beta. intros r s1 f1 (-> & heap & Hheap & (En & Ef & Ec & Hok1)).
  cbn beta iota. change (0 =? 0) with true. cbv iota.
  set (w1 := set_info _ w). set (data := record_bytes _ _ _ _) in *.
  assert (size data = record_total buf) as Hdata by (by apply size_record_bytes).
  apply wpP_bind. eapply wpP_mono.
  { eapply (IH w1 (splice b (info_offset (info_ w)) data)); try done.
    - rewrite (namei_same_dirs f); [exact Hn| |done]. rewrite En. by eapply same_dirs_insert.
    - rewrite En. apply lookup_insert_eq.
    - cbn. lia.
    - cbn. lia. }
  intros [urls w2] s2 f2 (Eurls & b' & (En2 & Ef2 & Ec2 & Hok2) & Hgrow & Hst & Hold).
  change (info_ w1) with (set_size (size buf)
    (set_offset (info_offset (info_ w) + record_total buf) (info_ w))) in Eurls, Hst, Hold.
  rewrite batch_infos_size in Eurls, Hst. change (info_offset (set_size _ (set_offset ?o _))) with o in Hold.
  apply wpP_ret. cbn [fst batch_infos map]. cbn [fst] in Eurls.
  split; [by rewrite Eurls|].
  rewrite length_splice, Hdata in Hgrow by lia.
  exists b'. split_and!.
  - unfold leaves. rewrite En2, En, insert_insert_eq. split_and!; congruence || done.
  - lia.
  - cbn [batch_infos]. constructor; [|exact Hst].
    exists (stored_user_data heap None). cbn. rewrite Hold; unfold kFileHeaderSize; try lia.
    + by apply record_at_written.
    + rewrite length_splice, Hdata by lia. lia.
  - intros o len Ho' Hlen Hfit Hbefore. rewrite Hold by (try rewrite length_splice; lia).
    apply record_at_elsewhere; try done. by left.
Qed.

(** C14: Batches: a writer that appends several contents on a calm system
    reports the url of each, stores every record where its url says (so that
    each is found by the reader's specification), and keeps every record that
    was before its first offset. *)
Theorem BatchWrite_all_stored {W} `{Posix W benign} (wr : Writer) (bld : BuildUrl)
    (bufs : list bytes) (q : path) (b : bytes) (s : proc) (w : W) :
  fs_ok (view w) -> namei (view w) (c_str (filename_ wr)) = inr q ->
  nodes (view w) !! q = Some (NFile b) -> builder_ wr = Some bld ->
  0 <= info_offset (info_ wr) ->
  Forall (fun buf => size buf < 2 ^ 31 - 1024 - 512) bufs ->
  info_offset (info_ wr) + batch_total bufs < 2 ^ 31 ->
  match runP (BatchWrite_all wr bufs) s w with
  | (inr (urls, _), _, w') =>
      urls = map (fun i => Some (bld i)) (batch_infos (info_ wr) bufs) /\
      exists b', nodes (view w') = <[q := NFile b']> (nodes (view w)) /\
        Forall2 (stored b') bufs (batch_infos (info_ wr) bufs) /\
        (forall o len, 0 <= o -> 0 <= len ->
           o + kFileHeaderSize + len <= Z.min (size b) (info_offset (info_ wr)) ->
           record_at b' o len = record_at b o len)
  | (inl _, _, _) => False
  end.
Proof.
  intros Hok Hn Hq Hb Ho Hs Hend.
  pose proof (wpP_run never _ _ s w
    (BatchWrite_all_benign never wr bufs bld q b s (view w) Hok Hn Hq Hb Ho Hs Hend)) as Hr.
  destruct (runP _ s w) as [[[e|[urls wr']] s'] w']; [exact Hr|].
  destruct Hr as (Hu & b' & (En & _) & _ & Hst & Hold). split; [exact Hu|].
  exists b'. split; [done|]. split; [done|]. intros. apply Hold; lia.
Qed.

(** ** Where the code falls short *)

(** C26: A content whose record does not fit an [int] never gets through: the
    truncated allocation size makes [new] throw, or is smaller than the
    record, so that the copies run past the buffer.  There is no check. *)
Theorem Write_file_oversize {W} `{Posix W benign} (file : bytes) (off : Z) (url buf : bytes)
    (ud : option bytes) (q : path) (b : bytes) (s : proc) (w : W) :
  fs_ok (view w) -> namei (view w) (c_str file) = inr q -> nodes (view w) !! q = Some (NFile b) ->
  0 <= off < 2 ^ 63 -> i32 off <> -1 -> 2 ^ 31 - 512 <= size buf ->
  match runP (Write_file file off url buf ud) s w with
  | (inl e, _, _) => e = Exn \/ e = Undef
  | (inr _, _, _) => False
  end.
Proof.
  intros Hok Hn Hq Ho Hneg Hs.
  assert (wpP benign (fun e => e = Exn \/ e = Undef) (Write_file file off url buf ud)
    (fun _ _ _ => False) s (view w)) as Hwp.
  { unfold Write_file. apply wpP_bind, wpP_open_rdwr.
    { intros e [He|He] _; [by apply benign_no_fail in He|]. unfold file_at in He. by rewrite Hn, Hq in He. }
    intros q' d' Hq' Hd'. destruct Hok as (Hnf & _).
    destruct (Z.eqb_spec (-1) (next_fd (view w))) as [|_]; [lia|].
    rewrite i64_small by lia. apply wpP_bind. eapply wpP_lseek; [apply lookup_insert_eq|lia| |].
    { intros e He. by apply benign_no_fail in He. }
    destruct (Z.eqb_spec (-1) (i32 off)) as [E|_]; [by rewrite <- E in Hneg|].
    set (total := i32 _). assert (total < 2 ^ 31) as Ht.
    { subst total. pose proof (swrap_range 32 (Align1K (u64 (kFileHeaderSize + size buf)))) as Hr.
      change (2 ^ (32 - 1)) with (2 ^ 31) in Hr. lia. }
    unfold kFileHeaderSize. destruct (Z.ltb_spec total 0) as [Hneg2|Hpos2].
    - apply wpP_bind. unfold new_array. destruct (Z.ltb_spec total 0); [|lia]. by left.
    - apply wpP_bind, wpP_new_array; [lia|]. intros heap _.
      destruct (Z.ltb_spec total (512 + size buf)); [by right|lia]. }
  apply wpP_run in Hwp. by destruct (runP _ s w) as [[[e|x] s'] w'].
Qed.

(** *** Concrete runs *)

Definition sample_fs : fs :=
  Fs {[ [] := NDir; [bs "b"] := NFile (replicate 1024 x00) ]} ∅ 3 [].

Lemma sample_fs_ok : fs_ok sample_fs.
Proof. apply fs_ok_fresh; [lia|vm_compute; reflexivity]. Qed.

(** A short transfer at the [write] with [errno] still 0: the caller is told
    success although 5 bytes of 1024 were stored. *)
Example Write_file_short_reports_success :
  fst (fst (runP (C := any_choice)
    (Write_file (bs "/b") 1024 (bs "u") (bs "hello") None) (Proc 0 0)
    (MkLocal sample_fs [quiet; quiet; quiet; Choice None (Some 5%nat) 0 []]))) =
  inr (0, 0).
Proof. vm_compute. reflexivity. Qed.

(** A file cut off in the header is [EIO]; cut off in the content, the reader
    returns [errno], here 0, with fewer bytes than asked. *)
Example Read_file_truncated_reports_success :
  let h := write_header (replicate 1024 x00) (bs "u") 100 None in
  let f := Fs {[ [] := NDir; [bs "b"] := NFile (header_bytes h ++ bs "cut") ]} ∅ 3 [] in
  fst (fst (runP (C := benign) (Read_file (bs "/b") 0 100 100 (Some kUserDataSize))
    (Proc 0 0) (MkLocal f []))) = inr (0, bs "cut", None).
Proof. vm_compute. reflexivity. Qed.

(** *** Witnesses *)

Lemma Read_file_sound_witness :
  let w := MkLocal sample_fs [] in
  match runP (C := any_choice) (Read_file (bs "/b") 0 3 3 (Some kUserDataSize)) (Proc 0 0) w with
  | (inr (r, data, u), _, w') =>
      leaves (view (Posix := faulty_local) w) (view (Posix := faulty_local) w')
        (nodes (view (Posix := faulty_local) w)) /\
      (u <> None -> r = 0) /\
      (forall ud, u = Some ud -> record_at (replicate 1024 x00) 0 3 = Some (data, ud))
  | (inl _, _, _) => False
  end.
Proof.
  apply (Read_file_sound (H := faulty_local) (bs "/b") 0 3 [bs "b"]);
    [apply sample_fs_ok|vm_compute; reflexivity|vm_compute; reflexivity|lia|lia].
Defined.

Lemma Read_file_complete_witness :
  let w := MkLocal sample_fs [] in
  match runP (C := benign) (Read_file (bs "/b") 0 3 3 (Some kUserDataSize)) (Proc 0 0) w with
  | (inr (r, data, u), _, w') =>
      match record_at (replicate 1024 x00) 0 3 with
      | Some (content, ud) => (r, data, u) = (0, content, Some ud)
      | None => u = None /\
          (r = EIO \/ (size (replicate 1024 x00) < 0 + kFileHeaderSize + 3 /\ r = errno (Proc 0 0)))
      end
  | (inl _, _, _) => False
  end.
Proof.
  apply (Read_file_complete (H := calm_local) (bs "/b") 0 3 [bs "b"]);
    [apply sample_fs_ok|vm_compute; reflexivity|vm_compute; reflexivity|lia|lia].
Defined.

Lemma Write_file_isolated_witness :
  let w := MkLocal sample_fs [] in
  match runP (C := any_choice) (Write_file (bs "/b") 1024 (bs "u") (bs "hello") None) (Proc 0 0) w with
  | (inr (r, n), _, w') =>
      (forall p, p <> [bs "b"] -> nodes (view (Posix := faulty_local) w') !! p =
        nodes (view (Posix := faulty_local) w) !! p) /\
      fds (view (Posix := faulty_local) w') = fds (view (Posix := faulty_local) w) /\
      exists b', nodes (view (Posix := faulty_local) w') !! [bs "b"] = Some (NFile b') /\
        (forall o len, 0 <= o -> 0 <= len -> o + kFileHeaderSize + len <= size (replicate 1024 x00) ->
           o + kFileHeaderSize + len <= 1024 \/ 1024 + record_total (bs "hello") <= o ->
           record_at b' o len = record_at (replicate 1024 x00) o len) /\
        ((r = 0 /\ n = size (bs "hello") /\ exists heap,
            record_at b' 1024 (size (bs "hello")) =
              Some (bs "hello", stored_user_data heap None)) \/ n = 0)
  | (inl _, _, _) => False
  end.
Proof.
  apply (Write_file_isolated (H := faulty_local) (bs "/b") 1024 (bs "u") (bs "hello") None [bs "b"]);
    [apply sample_fs_ok|vm_compute; reflexivity|vm_compute; reflexivity|lia|done|reflexivity].
Defined.

Lemma write_then_read_witness :
  fst (fst (runP (C := benign) (
    r ← Write_file (bs "/b") 1024 (bs "u") (bs "hello") (Some (replicate 240 x07));
    x ← Read_file (bs "/b") 1024 (size (bs "hello")) (size (bs "hello")) (Some kUserDataSize);
    mret (r, x)) (Proc 0 0) (MkLocal sample_fs []))) =
  inr ((0, size (bs "hello")), (0, bs "hello", Some (replicate 240 x07))).
Proof.
  apply (write_then_read (H := calm_local) (bs "/b") 1024 (bs "u") (bs "hello")
    (replicate 240 x07) [bs "b"] (replicate 1024 x00));
    [apply sample_fs_ok|vm_compute; reflexivity|vm_compute; reflexivity|lia|done|reflexivity|reflexivity].
Defined.

Definition sample_writer : Writer :=
  mkWriter (bs "/b") None (Some BuildSimple) (Info_make (bs "p") 4 1024 0 (bs ".jpg")).

Lemma BatchWrite_all_stored_witness :
  match runP (C := benign) (BatchWrite_all sample_writer [bs "one"; bs "two"]) (Proc 0 0)
    (MkLocal sample_fs []) with
  | (inr (urls, _), _, _) => urls = [Some (bs "p/4,1024,3.jpg"); Some (bs "p/4,2048,3.jpg")]
  | (inl _, _, _) => False
  end.
Proof.
  pose proof (BatchWrite_all_stored (H := calm_local) sample_writer BuildSimple
    [bs "one"; bs "two"] [bs "b"] (replicate 1024 x00) (Proc 0 0) (MkLocal sample_fs [])
    sample_fs_ok ltac:(vm_compute; reflexivity) ltac:(vm_compute; reflexivity) eq_refl
    ltac:(cbn; lia) ltac:(repeat constructor) ltac:(vm_compute; reflexivity)) as Hr.
  destruct (runP _ _ _) as [[[e|[urls wr]] s'] w']; [exact Hr|].
  rewrite (proj1 Hr). vm_compute. reflexivity.
Defined.

Lemma Write_file_oversize_witness :
  match runP (C := benign) (Write_file (bs "/b") 1024 [] (replicate (Z.to_nat (2 ^ 31)) x00) None)
    (Proc 0 0) (MkLocal sample_fs []) with
  | (inl e, _, _) => e = Exn \/ e = Undef
  | (inr _, _, _) => False
  end.
Proof.
  apply (Write_file_oversize (H := calm_local) (bs "/b") 1024 [] (replicate (Z.to_nat (2 ^ 31)) x00)
    None [bs "b"] (replicate 1024 x00));
    [apply sample_fs_ok|vm_compute; reflexivity|vm_compute; reflexivity|lia|done|].
  unfold size. rewrite length_replicate, Z2Nat.id; lia.
Defined.
