(* ===== verification/Allocate.v ===== *)
(** * Finding a bundle to append to (src/bundle/bundle.cc)

    [CreateBundle], the loop of [Writer::Allocate] that locks a bundle with
    room, and [Writer::Release]. *)

From stdpp Require Import relations.
From S2P Require Import Prelude CString PathOps BundleUrl Posix Threads FileLock MkDirs Format Bundle.

(** ** CreateBundle *)

(** The preamble: a text, the time of creation, and zeros. *)
Definition preamble (now : bytes) : bytes :=
  resize (Z.to_nat kBundleHeaderSize)
    (take (Z.to_nat kBundleHeaderSize - 1)
       (bs "bundle file store" ++ [x0a] ++ bs "1.0" ++ [x0a] ++ now ++ [x0a])).

Definition CreateBundle (filename : bytes) : P bool :=
  fd ← open filename O_RDWR_CREAT_TRUNC;
  if -1 =? fd then mret false
  else
    now_str ← call KNow;
    ret ← write fd (preamble now_str);
    close fd;;
    if negb (i32 ret =? kBundleHeaderSize) then mret false
    else mret true.

(** ** Allocate *)

Section Allocate.
Context (st : Setting).
Context (prefix postfix : bytes) (size_ : Z) (storage lock_dir : bytes).
Context (builder : option BuildUrl).

(** Step 3: make the missing bundle, after its directory. *)
Definition create_missing (bundle_file : bytes) : P bool :=
  let parent := Dirname bundle_file in
  a ← access parent;
  ok ← (if -1 =? a then r ← mkdirs parent; mret (0 =? r) else mret true);
  if negb ok then mret false else CreateBundle bundle_file.

(** What one iteration of the loop decides. *)
Inductive iteration := Continue | Return (w : option Writer).

(** Steps 2 to 4, with the lock held. *)
Definition allocate_locked (filelock : FileLock) (last_id : Z) : P iteration :=
  let bundle_root := PathJoin storage prefix in
  file ← bid2filename st last_id;
  let bundle_file := PathJoin bundle_root file in
  '(stat_ret, st_size) ← lstat bundle_file;
  if (0 =? stat_ret) &&
     (max_bundle_size st <? u64 (st_size + Align1K (u64 (kFileHeaderSize + size_))))
  then
    set_last_id (i32 (last_id + 1));;
    FileLock_delete filelock;;
    mret Continue
  else
    stat_errno ← get_errno;
    let writer offset :=
      Return (Some (mkWriter bundle_file (Some filelock)
        (Some (default (build st) builder))
        (mkInfo last_id [] offset size_ [] prefix postfix))) in
    if (-1 =? stat_ret) && (stat_errno =? ENOENT) then
      ok ← create_missing bundle_file;
      if negb ok then FileLock_delete filelock;; mret (Return None)
      else mret (writer kBundleHeaderSize)
    else if 0 =? stat_ret then mret (writer st_size)
    else
      (* the lock is not released here *)
      set_last_id (i32 (last_id + 1));;
      mret Continue.

(** Step 1: lock, creating the lock directory when that is what is missing. *)
Definition allocate_once (last_id : Z) : P iteration :=
  let filelock := FileLock_default (PathJoin lock_dir (dec last_id)) in
  '(locked, filelock) ← TryLock filelock;
  if (locked : bool) then allocate_locked filelock last_id
  else
    a ← access lock_dir;
    ok ← (if -1 =? a then r ← mkdirs lock_dir; mret (0 =? r) else mret true);
    if negb ok then FileLock_delete filelock;; mret (Return None)
    else
      '(locked, filelock) ← TryLock filelock;
      if (locked : bool) then allocate_locked filelock last_id
      else
        set_last_id (i32 (last_id + 1));;
        FileLock_delete filelock;;
        mret Continue.

Fixpoint allocate_loop (fuel : nat) (loop_count : Z) : P (option Writer) :=
  match fuel with
  | O => halt Fuel
  | S fuel =>
      let loop_count := loop_count + 1 in
      (if bundle_count_per_day st <? loop_count then
         r ← call KRand;
         set_last_id (i32 (bundle_count_per_day st + Z.rem r 100))
       else mret tt);;
      last_id ← get_last_id;
      it ← allocate_once last_id;
      match it with
      | Return w => mret w
      | Continue => allocate_loop fuel loop_count
      end
  end.
End Allocate.

(** [if ('/' == prefix[0]) prefix = prefix+1;] *)
Definition skip_slash (prefix : bytes) : bytes :=
  match prefix with c :: t => if Byte.eqb c "/" then t else prefix | [] => prefix end.

Definition Allocate (st : Setting) (fuel : nat) (prefix postfix : bytes) (size : Z)
    (storage : bytes) (lock_path : option bytes) (builder : option BuildUrl)
    : P (option Writer) :=
  let prefix := skip_slash (c_str prefix) in
  last_id ← get_last_id;
  (if -1 =? last_id then pid ← call KPid; set_last_id (Z.rem pid 10) else mret tt);;
  let lock_dir := match lock_path with
                  | None => PathJoin (c_str storage) (bs ".lock")
                  | Some p => c_str p
                  end in
  allocate_loop st prefix (c_str postfix) size (c_str storage) lock_dir builder fuel 0.

(** [Release]; the destructor of [Writer] calls it again. *)
Definition Release (w : Writer) : P Writer :=
  match filelock_ w with
  | Some l => FileLock_delete l;; mret (mkWriter (filename_ w) None (builder_ w) (info_ w))
  | None => mret w
  end.

(** ** Path names of bundles and locks *)

Definition no_dotdot (cs : list bytes) : Prop := Forall (.≠ bs "..") cs.

(** Nothing exists below what is missing. *)
Lemma missing_below c n p cs :
  tree_ok c n -> no_dotdot cs -> n !! p = None -> n !! fold_left walk1 cs p = None.
Proof.
  intros (_ & _ & Ht) Hcs. revert p. induction Hcs as [|x cs Hx _ IH]; intros p Hp; cbn; [done|].
  apply IH. unfold walk1. rewrite (bool_decide_false (x = bs "..")) by done.
  case_bool_decide; [done|]. destruct (n !! (p ++ [x])) as [y|] eqn:E; [|done].
  destruct (Ht _ _ E) as [E'|E']; [by destruct p|]. rewrite removelast_last in E'. congruence.
Qed.

Lemma walk_missing c n cur cs :
  tree_ok c n -> no_dotdot cs -> walk n cur cs = inl ENOENT -> n !! fold_left walk1 cs cur = None.
Proof.
  intros Ht Hcs. revert cur. induction Hcs as [|x cs Hx Hcs IH]; intros cur; cbn; [done|].
  destruct (n !! cur) as [[|d]|] eqn:E; [apply IH|done|]. intros _.
  change (n !! fold_left walk1 (x :: cs) cur = None).
  eapply missing_below; [done|by constructor|done].
Qed.

(** The three ways a path leads to no file, seen without the file system. *)
Lemma namei_missing f p :
  fs_ok f -> no_dotdot (components p) -> p <> [] -> namei f p = inl ENOENT ->
  nodes f !! lex (cwd f) p = None.
Proof.
  intros (_ & _ & Ht) Hcs Hp. unfold namei, lex. destruct p; [done|]. by eapply walk_missing.
Qed.

Lemma size_preamble now : size (preamble now) = kBundleHeaderSize.
Proof.
  unfold preamble, resize, size. rewrite length_app, length_replicate, length_take.
  unfold kBundleHeaderSize. lia.
Qed.

(** What [CreateBundle] leaves: a new file with the preamble, or nothing and a
    reason why. *)
Definition created (C : choice -> Prop) (b : bytes) (s : proc) (f : fs)
    (r : bool) (s' : proc) (f' : fs) : Prop :=
  last_id_ s' = last_id_ s /\ extends f f' /\
  (r = true -> exists q now, namei f b = inr q /\ nodes f !! q = None /\
     nodes f' = <[q := NFile (preamble now)]> (nodes f)) /\
  (r = false -> (exists e, may_fail C e) \/ may_short C \/
     forall q, namei f b = inr q -> nodes f !! q <> None).

Lemma not_created C b s s' f :
  (exists e, may_fail C e) \/ may_short C \/ (forall q, namei f b = inr q -> nodes f !! q <> None) ->
  fs_ok f -> last_id_ s' = last_id_ s -> created C b s f false s' f.
Proof. intros Hwhy Hok Hid. split; [done|]. split; [by apply extends_refl|]. by split. Qed.

(** Closing the new file, whatever was written to it. *)
Lemma created_closed C b q now data d s s2 f (r : bool) :
  fs_ok f -> namei f b = inr q -> nodes f !! q = None -> last_id_ s2 = last_id_ s ->
  (if r then data = preamble now else (exists e, may_fail C e) \/ may_short C) ->
  created C b s f r s2 (set_fds (delete (next_fd f) (<[next_fd f := d]> (fds f)))
    (Fs (<[q := NFile data]> (nodes f)) (fds f) (next_fd f + 1) (cwd f))).
Proof.
  intros Hok Hn Hq Hid Hr. pose proof Hok as (Hnf & Hfree & Htree).
  split; [done|]. split; [|split; intros ->].
  - eapply (extends_add f _ q (NFile data)); [done|]. apply leaves_closed; [done| |lia].
    apply tree_insert_new; [done|done|by eapply namei_new].
  - exists q, now. by rewrite Hr.
  - by destruct Hr as [Hr|Hr]; auto.
Qed.

(** A new file written at its start holds what was written. *)
Lemma splice_new data : splice [] 0 data = data.
Proof. unfold splice. cbn. by rewrite drop_nil, app_nil_r. Qed.

(** The preamble is written to the file just made. *)
Lemma write_preamble_wp C S b q now s s1 f :
  fs_ok f -> namei f b = inr q -> nodes f !! q = None -> last_id_ s1 = last_id_ s ->
  wpP C S (ret ← write (next_fd f) (preamble now);
           close (next_fd f);;
           if negb (i32 ret =? kBundleHeaderSize) then mret false else mret true)
    (created C b s f) s1
    (Fs (<[q := NFile []]> (nodes f)) (<[next_fd f := FDesc (Some q) 0]> (fds f)) (next_fd f + 1) (cwd f)).
Proof.
  intros Hok Hn Hq Hid1. pose proof (size_preamble now) as Hsz.
  apply wpP_bind. eapply wpP_write; [apply lookup_insert_eq|apply lookup_insert_eq| | |].
  - intros e He _. eapply wpP_close_ignore; [apply lookup_insert_eq|].
    cbn [last_id_]. intros s' Hid _. change (negb (i32 (-1) =? kBundleHeaderSize)) with true. cbv iota.
    apply wpP_ret. apply (created_closed C b q now []); try (done || congruence). left. eauto.
  - intros k Hk. eapply wpP_close_ignore; [fs_simpl; apply lookup_insert_eq|].
    intros s' Hid _. fs_simpl. rewrite !insert_insert_eq, splice_new.
    pose proof (size_take_record k (preamble now)) as Hle.
    pose proof (size_nonneg (take k (preamble now))). unfold kBundleHeaderSize in *.
    rewrite i32_small by lia.
    destruct (Z.eqb_spec (size (take k (preamble now))) 1024) as [E|_]; cbn [negb];
      apply wpP_ret; apply (created_closed C b q now); try (done || congruence); [|by right].
    rewrite <- Hsz in E. unfold size in E. by rewrite take_ge by len.
  - eapply wpP_close_ignore; [fs_simpl; apply lookup_insert_eq|].
    intros s' Hid _. fs_simpl. rewrite !insert_insert_eq, Hsz, splice_new.
    change (negb (i32 kBundleHeaderSize =? kBundleHeaderSize)) with false. cbv iota.
    apply wpP_ret. by apply (created_closed C b q now); try (done || congruence).
Qed.

(** [CreateBundle] makes a new file with the preamble, or fails; what was
    there stays. *)
Lemma CreateBundle_wp C S b s f :
  fs_ok f -> (forall q d, namei f (c_str b) = inr q -> nodes f !! q <> Some (NFile d)) ->
  wpP C S (CreateBundle b) (created C (c_str b) s f) s f.
Proof.
  intros Hok Hnofile.
  apply wpP_bind, wpP_sys_ret. intros c Hc. kstep_cases c e Ei.
  { apply wpP_ret. apply not_created; [|done|done]. left. exists e. by exists c. }
  unfold kopen. destruct (namei f (c_str b)) as [e|q] eqn:En; cbn [fst snd].
  { apply wpP_ret. apply not_created; [|done|done]. right. right. by rewrite En. }
  destruct (nodes f !! q) as [[|d]|] eqn:Eq; cbn [o_creat o_excl o_trunc O_RDWR_CREAT_TRUNC andb fst snd].
  { apply wpP_ret. apply not_created; [|done|done]. right. right. intros q'. rewrite En. intros [= <-]. congruence. }
  { by destruct (Hnofile q d). }
  cbn [id open_result fst snd]. pose proof Hok as (Hnf & _).
  destruct (Z.eqb_spec (-1) (next_fd f)); [lia|].
  apply wpP_bind, wpP_call. intros c2 Hc2.
  assert (forall g, snd (kstep KNow c2 g) = g) as Eg by (intros; unfold kstep; by destruct (injected c2)).
  rewrite Eg. by apply write_preamble_wp.
Qed.

(** Deleting a lock object that holds the file [q]. *)
Lemma FileLock_delete_wp C S l q d s f :
  locked_ l = true -> namei f (c_str (lockfile_ l)) = inr q -> nodes f !! q = Some (NFile d) ->
  wpP C S (FileLock_delete l) (fun _ s' f' => last_id_ s' = last_id_ s /\
    (f' = unlinked f q \/ (f' = f /\ exists e, may_fail C e))) s f.
Proof.
  intros Hl Hn Hq. unfold FileLock_delete, Unlock. rewrite Hl.
  apply wpP_bind, wpP_bind, wpP_bind. eapply wpP_unlink_file; [exact Hn|exact Hq| |].
  - intros e He _. do 3 apply wpP_ret. split; [done|]. right. eauto.
  - do 3 apply wpP_ret. split; [done|]. by left.
Qed.

(** Deleting one that holds nothing. *)
Lemma FileLock_delete_unlocked C S l Q s f :
  locked_ l = false -> Q tt s f -> wpP C S (FileLock_delete l) Q s f.
Proof. intros Hl HQ. unfold FileLock_delete. by rewrite Hl. Qed.

Section AllocateProofs.
Context (st : Setting) (prefix postfix : bytes) (size_ : Z) (storage lock_dir : bytes).
Context (builder : option BuildUrl).
Hypothesis levels : u32 (file_count_level_1 st) <> 0 /\ u32 (file_count_level_2 st) <> 0.

Definition bundle_path (id : Z) : bytes :=
  PathJoin (PathJoin storage prefix)
    (hex08 (u32 id / u32 (file_count_level_1 st)) ++ bs "/" ++
     hex08 (u32 id mod u32 (file_count_level_2 st))).

Definition lock_path (id : Z) : bytes := PathJoin lock_dir (dec id).

Lemma bid2filename_path id : Bid2Filename st id =
  Some (hex08 (u32 id / u32 (file_count_level_1 st)) ++ bs "/" ++
        hex08 (u32 id mod u32 (file_count_level_2 st))).
Proof.
  unfold Bid2Filename. destruct levels as [H1 H2].
  by destruct (Z.eqb_spec (u32 (file_count_level_1 st)) 0), (Z.eqb_spec (u32 (file_count_level_2 st)) 0).
Qed.

(** The paths below are as the program uses them: C strings without a
    parent-directory component. *)
Hypothesis no_nul_storage : x00 ∉ PathJoin storage prefix.
Hypothesis plain_root : no_dotdot (components (PathJoin storage prefix)).

Lemma hex_levels id :
  0 <= u32 id / u32 (file_count_level_1 st) < 2 ^ 32 /\
  0 <= u32 id mod u32 (file_count_level_2 st) < 2 ^ 32.
Proof.
  destruct levels as [H1 H2]. pose proof (wrap_range 32 id ltac:(lia)).
  pose proof (wrap_range 32 (file_count_level_1 st) ltac:(lia)).
  pose proof (wrap_range 32 (file_count_level_2 st) ltac:(lia)). split.
  - split; [apply Z.div_pos; lia|]. apply Z.div_lt_upper_bound; nia.
  - pose proof (Z.mod_pos_bound (u32 id) (u32 (file_count_level_2 st))). lia.
Qed.

Lemma hex08_plain n c : 0 <= n < 2 ^ 32 -> bval c < 48 -> c ∉ hex08 n.
Proof.
  intros Hn Hc Hin. pose proof (hex08_range n Hn) as H. rewrite Forall_forall in H.
  specialize (H c Hin). lia.
Qed.

Lemma normalize_ends d : ends_sep (NormalizeDirectory d).
Proof.
  unfold NormalizeDirectory. destruct (last d) as [c|] eqn:E.
  - destruct (IsPathSep c) eqn:Ec; cbn [negb]; [|right; by exists d].
    apply IsPathSep_true in Ec as ->. right.
    apply last_Some in E as [d' ->]. by exists d'.
  - apply last_None in E as ->. by left.
Qed.

Lemma components_normalize d : components (NormalizeDirectory d) = components d.
Proof.
  unfold NormalizeDirectory. destruct (last d) as [c|]; [|done].
  destruct (negb _); [|done]. unfold components. change [PATH_SEP] with (["/"%byte]).
  rewrite split_app_sep, filter_app by (by apply elem_of_cons; left). cbn. by rewrite app_nil_r.
Qed.

(** Joining a relative name to a directory appends its components. *)
Lemma components_PathJoin a b :
  b <> [] -> IsAbspath b = false -> components (PathJoin a b) = components a ++ components b.
Proof.
  intros Hb Habs. rewrite PathJoin_normalize by done.
  rewrite components_app by apply normalize_ends. by rewrite components_normalize.
Qed.

Definition hex1 id := hex08 (u32 id / u32 (file_count_level_1 st)).
Definition hex2 id := hex08 (u32 id mod u32 (file_count_level_2 st)).

Lemma hex_free id c : bval c < 48 -> (c ∉ hex1 id) /\ (c ∉ hex2 id).
Proof. intros Hc. destruct (hex_levels id). split; by apply hex08_plain. Qed.

Lemma hex_nonempty id : hex1 id <> [] /\ hex2 id <> [].
Proof.
  destruct (hex_levels id) as [H1 H2].
  split; intros E; apply (f_equal length) in E; revert E; unfold hex1, hex2;
    rewrite length_hex08 by done; done.
Qed.

Lemma hex1_relative id rest : IsAbspath (hex1 id ++ rest) = false.
Proof.
  destruct (hex_nonempty id) as [Hne _]. destruct (hex_free id "/"%byte) as [Hs _]; [done|].
  destruct (hex1 id) as [|c l]; [done|]. cbn. apply IsPathSep_false. intros ->.
  apply Hs. by apply elem_of_cons; left.
Qed.

Lemma components_bundle id :
  components (bundle_path id) = components (PathJoin storage prefix) ++ [hex1 id; hex2 id].
Proof.
  unfold bundle_path. fold (hex1 id) (hex2 id). destruct (hex_nonempty id) as [H1 H2].
  destruct (hex_free id "/"%byte) as [F1 F2]; [done|].
  rewrite components_PathJoin; [|by destruct (hex1 id)|apply hex1_relative]. f_equal.
  unfold components. change (bs "/") with (["/"%byte]).
  cbn [app]. rewrite split_app_sep, filter_app by (by apply elem_of_cons; left).
  rewrite !split_token.
  - cbn. rewrite !decide_True by done. done.
  - apply Forall_forall. by intros c Hc [->|[]%not_elem_of_nil]%elem_of_cons.
  - apply Forall_forall. by intros c Hc [->|[]%not_elem_of_nil]%elem_of_cons.
Qed.

Lemma bundle_plain id : no_dotdot (components (bundle_path id)).
Proof.
  rewrite components_bundle. apply Forall_app. split; [done|].
  assert ("."%byte ∈ bs "..") as Hd by (by apply elem_of_cons; left).
  destruct (hex_free id "."%byte) as [F1 F2]; [done|].
  repeat constructor; intros E; [apply F1|apply F2]; rewrite E; apply Hd.
Qed.

Lemma bundle_c_str id : c_str (bundle_path id) = bundle_path id.
Proof.
  apply c_str_id. unfold bundle_path. fold (hex1 id) (hex2 id).
  destruct (hex_free id x00) as [F1 F2]; [done|]. destruct (hex_nonempty id) as [H1 _].
  rewrite PathJoin_normalize; [|by destruct (hex1 id)|apply hex1_relative].
  rewrite !not_elem_of_app.
  split_and!; try done; [|apply (bool_decide_eq_false_1 _); reflexivity].
  unfold NormalizeDirectory. destruct (last _); [|done]. destruct (negb _); [|done].
  rewrite not_elem_of_app. split; [done|]. apply (bool_decide_eq_false_1 _). reflexivity.
Qed.

Lemma bundle_nonempty id : bundle_path id <> [].
Proof.
  apply PathJoin_nonempty. destruct (hex_nonempty id) as [H1 _]. fold (hex1 id). by destruct (hex1 id).
Qed.

(** *** What an allocated writer is *)

(** The lock file of bundle [id] is there and was made since [f0]. *)
Definition lock_held (f0 f : fs) (id : Z) : Prop :=
  exists ql d, namei f (c_str (c_str (lock_path id))) = inr ql /\ nodes f0 !! ql = None /\
    nodes f !! ql = Some (NFile d).

Definition room (off : Z) : bool :=
  negb (max_bundle_size st <? u64 (off + Align1K (u64 (kFileHeaderSize + size_)))).

(** A writer [Allocate] returns for bundle [id], having started from [f0]: it
    holds the lock, and its offset is the end of an existing bundle with room
    or of the preamble of a new one. *)
Definition writer_ok (f0 f : fs) (id : Z) (w : Writer) : Prop :=
  filename_ w = bundle_path id /\
  (exists l, filelock_ w = Some l /\ locked_ l = true /\ lockfile_ l = c_str (lock_path id)) /\
  builder_ w = Some (default (build st) builder) /\
  lock_held f0 f id /\
  exists off q x, info_ w = mkInfo id [] off size_ [] prefix postfix /\
    namei f (bundle_path id) = inr q /\ nodes f !! q = Some x /\
    (forall d, x = NFile d -> off = size d) /\
    (room off = true \/
     (nodes f0 !! q = None /\ off = kBundleHeaderSize /\ exists now, x = NFile (preamble now))).

Lemma dirs_added_extends f f' : dirs_added f f' -> extends f f'.
Proof.
  intros [(_ & Ef & Ec & Hok) Hg]. unfold extends. rewrite Ef. split_and!; try done.
  intros p x Hp. by eapply grows_lookup.
Qed.

Lemma lock_held_extends f0 f f' id : lock_held f0 f id -> extends f f' -> lock_held f0 f' id.
Proof.
  intros (ql & d & Hn & H0 & Hd) He. exists ql, d. split; [by eapply namei_extends|].
  split; [done|]. by apply He.
Qed.

(** Deleting the lock object restores the state before it was taken. *)
Lemma release_lock C S f0 f l id s :
  extends f0 f -> locked_ l = true -> lockfile_ l = c_str (lock_path id) -> lock_held f0 f id ->
  wpP C S (FileLock_delete l) (fun _ s' f' => last_id_ s' = last_id_ s /\ extends f0 f') s f.
Proof.
  intros He Hl Hf (ql & d & Hn & H0 & Hd). eapply wpP_mono.
  - eapply FileLock_delete_wp; [done|by rewrite Hf|exact Hd].
  - cbn beta. intros _ s' f' (Hid & [-> | [-> _]]); (split; [done|]); [|done].
    by eapply extends_unlinked.
Qed.

(** Step 3: a missing bundle is created, with its directories, or not; what
    was there stays. *)
Lemma create_missing_wp C S id s f :
  fs_ok f -> nodes f !! lex (cwd f) (bundle_path id) = None ->
  wpP C S (create_missing (bundle_path id)) (fun r s' f' =>
    last_id_ s' = last_id_ s /\ extends f f' /\
    (r = true -> exists q now, namei f' (bundle_path id) = inr q /\
       nodes f !! q = None /\ nodes f' !! q = Some (NFile (preamble now)))) s f.
Proof.
  intros Hok Hmiss. unfold create_missing.
  set (parent := Dirname (bundle_path id)).
  (* with the directories in place *)
  assert (forall s1 f1, last_id_ s1 = last_id_ s -> dirs_added f f1 ->
    wpP C S (CreateBundle (bundle_path id)) (fun r s' f' =>
      last_id_ s' = last_id_ s /\ extends f f' /\
      (r = true -> exists q now, namei f' (bundle_path id) = inr q /\
         nodes f !! q = None /\ nodes f' !! q = Some (NFile (preamble now)))) s1 f1) as Hcreate.
  { intros s1 f1 Hid Hadd. pose proof Hadd as [(_ & _ & Ec & Hok1) Hg].
    assert (forall q, namei f1 (bundle_path id) = inr q -> nodes f !! q = None) as Hq.
    { intros q Hn. apply namei_lex in Hn. rewrite Ec in Hn. by subst q. }
    eapply wpP_mono; [apply CreateBundle_wp; [done|]|]; rewrite bundle_c_str.
    - intros q d Hn. apply Hq in Hn. destruct (Hg q) as [->|[_ ->]]; congruence.
    - intros r s2 f2 (Hid2 & He2 & Hr & _). split; [congruence|].
      split; [eapply extends_trans; [by apply dirs_added_extends|done]|].
      intros Hrt. destruct (Hr Hrt) as (q & now & Hn & Hnone & En).
      exists q, now. split; [by eapply namei_extends|]. split; [by apply Hq|].
      rewrite En. apply lookup_insert_eq. }
  apply wpP_bind. apply wpP_access.
  2:{ intros q Hn Hq. change (-1 =? -1) with true. cbv iota. apply wpP_bind, wpP_bind.
      eapply wpP_mono; [by apply mkdirs_sound_wp|]. intros r s1 f1 (Hid1 & Hadd & Hr & _).
      apply wpP_ret. destruct (Z.eqb_spec 0 r); cbn [negb]; [by apply Hcreate|].
      apply wpP_ret. split; [done|]. split; [by apply dirs_added_extends|done]. }
  - intros e _. change (-1 =? -1) with true. cbv iota. apply wpP_bind, wpP_bind.
    eapply wpP_mono; [by apply mkdirs_sound_wp|]. intros r s1 f1 (Hid1 & Hadd & Hr & _).
    apply wpP_ret. destruct (Z.eqb_spec 0 r); cbn [negb]; [by apply Hcreate|].
    apply wpP_ret. split; [done|]. split; [by apply dirs_added_extends|done].
  - intros q x Hn Hq. change (-1 =? 0) with false. cbv iota. apply wpP_bind, wpP_ret.
    apply Hcreate; [done|by apply dirs_added_refl].
Qed.

(** One iteration started at [f], the loop having started from [f0]. *)
Definition iteration_ok (f0 : fs) (id : Z) (it : iteration) (s' : proc) (f' : fs) : Prop :=
  extends f0 f' /\ match it with Return (Some w) => writer_ok f0 f' id w | _ => True end.

(** The writer handed out for bundle [id], and the branches of
    [allocate_locked] after its [lstat]. *)
Abbreviation handed l id off :=
  (mkWriter (bundle_path id) (Some l) (Some (default (build st) builder))
     (mkInfo id [] off size_ [] prefix postfix)).

Definition locked_missing (l : FileLock) (id : Z) : P iteration :=
  ok ← create_missing (bundle_path id);
  if negb ok then FileLock_delete l;; mret (Return None)
  else mret (Return (Some (handed l id kBundleHeaderSize))).

Definition locked_full (l : FileLock) (id : Z) : P iteration :=
  set_last_id (i32 (id + 1));; FileLock_delete l;; mret Continue.

(** Nothing is at a path. *)
Definition not_there (f : fs) (p : bytes) : Prop :=
  namei f p = inl ENOENT \/ exists q, namei f p = inr q /\ nodes f !! q = None.

(** What [allocate_locked] does, by the outcome of [lstat]: the bundle is not
    there; it cannot be looked at; it is there with so many bytes. *)
Lemma allocate_locked_cases C S l id Q s f :
  (forall s1, last_id_ s1 = last_id_ s -> not_there f (bundle_path id) ->
     wpP C S (locked_missing l id) Q s1 f) ->
  (forall s1 e, last_id_ s1 = i32 (id + 1) -> may_fail C e \/ namei f (bundle_path id) = inl e ->
     Q Continue s1 f) ->
  (forall q x n, namei f (bundle_path id) = inr q -> nodes f !! q = Some x ->
     (forall d, x = NFile d -> n = size d) ->
     if room n then Q (Return (Some (handed l id n))) s f else wpP C S (locked_full l id) Q s f) ->
  wpP C S (allocate_locked st prefix postfix size_ storage builder l id) Q s f.
Proof.
  intros Hmissing Hother Hthere. unfold allocate_locked, bid2filename. rewrite bid2filename_path.
  apply wpP_bind, wpP_ret. cbv zeta. fold (bundle_path id).
  assert (forall q x n, namei f (bundle_path id) = inr q -> nodes f !! q = Some x ->
    (forall d, x = NFile d -> n = size d) ->
    wpP C S (if (0 =? 0) && (max_bundle_size st <? u64 (n + Align1K (u64 (kFileHeaderSize + size_))))
             then locked_full l id
             else stat_errno ← get_errno;
               if (-1 =? 0) && (stat_errno =? ENOENT) then locked_missing l id
               else if 0 =? 0 then mret (Return (Some (handed l id n)))
               else set_last_id (i32 (id + 1));; mret Continue) Q s f) as Hfound.
  { intros q x n Hn Hx Hd. specialize (Hthere q x n Hn Hx Hd). revert Hthere. unfold room.
    change (0 =? 0) with true. change (-1 =? 0) with false. cbn [andb].
    destruct (_ <? _); cbn [negb]; [done|]. intros HQ. by apply wpP_bind, wpP_get_errno, wpP_ret. }
  apply wpP_bind, wpP_lstat; rewrite ?bundle_c_str.
  - (* an injected error other than ENOENT *)
    intros e He _ He2. change (0 =? -1) with false. change (-1 =? -1) with true. cbn [andb].
    apply wpP_bind, wpP_get_errno. cbn [errno]. destruct (Z.eqb_spec e ENOENT); [done|].
    apply wpP_bind, wpP_set_last_id, wpP_ret. eapply Hother; [done|by left].
  - intros e Hn. change (0 =? -1) with false. change (-1 =? -1) with true. cbn [andb].
    apply wpP_bind, wpP_get_errno. cbn [errno]. destruct (Z.eqb_spec e ENOENT) as [->|].
    + apply Hmissing; [done|by left].
    + apply wpP_bind, wpP_set_last_id, wpP_ret. eapply Hother; [done|by right].
  - intros q Hn Hq. change (0 =? -1) with false. change (-1 =? -1) with true. cbn [andb].
    apply wpP_bind, wpP_get_errno. cbn [errno]. change (ENOENT =? ENOENT) with true. cbv iota.
    apply Hmissing; [done|]. right. by exists q.
  - intros q d Hn Hq. apply (Hfound q (NFile d) (size d)); [done|done|by intros ? [= <-]].
  - intros q n Hn Hq _. by apply (Hfound q NDir n).
Qed.

Lemma not_there_bundle f id :
  fs_ok f -> not_there f (bundle_path id) -> nodes f !! lex (cwd f) (bundle_path id) = None.
Proof.
  intros Hok [Hn|(q & Hn & Hq)].
  - apply namei_missing; [done|apply bundle_plain|apply bundle_nonempty|done].
  - by rewrite <- (namei_lex _ _ _ Hn).
Qed.

(** Giving up with the lock held gives the lock back. *)
Lemma give_up_wp C S f0 f id l it s :
  extends f0 f -> locked_ l = true -> lockfile_ l = c_str (lock_path id) -> lock_held f0 f id ->
  it = Continue \/ it = Return None ->
  wpP C S (FileLock_delete l;; mret it) (iteration_ok f0 id) s f.
Proof.
  intros He Hl Hf Hheld Hit. apply wpP_bind. eapply wpP_mono; [by eapply release_lock|].
  intros _ s2 f2 [_ H2]. apply wpP_ret. split; [done|]. by destruct Hit as [-> | ->].
Qed.

Lemma locked_missing_wp C S f0 f l id s :
  extends f0 f -> locked_ l = true -> lockfile_ l = c_str (lock_path id) -> lock_held f0 f id ->
  not_there f (bundle_path id) ->
  wpP C S (locked_missing l id) (iteration_ok f0 id) s f.
Proof.
  intros He Hl Hf Hheld Hmiss. pose proof (extends_ok _ _ He) as Hok. unfold locked_missing.
  apply wpP_bind. eapply wpP_mono; [apply create_missing_wp; [done|by apply not_there_bundle]|].
  intros r s2 f2 (_ & He2 & Hr). assert (extends f0 f2) by (by eapply extends_trans).
  assert (lock_held f0 f2 id) by (by eapply lock_held_extends).
  destruct r; cbn [negb]; [|by apply give_up_wp; auto].
  apply wpP_ret. split; [done|]. destruct (Hr eq_refl) as (q & now & Hn & Hnone & Hq).
  split; [done|]. split; [by exists l|]. split; [done|]. split; [done|].
  exists kBundleHeaderSize, q, (NFile (preamble now)). split_and!; try done.
  - intros d [= <-]. by rewrite size_preamble.
  - right. split_and!; [|done|by exists now].
    destruct (nodes f0 !! q) as [y|] eqn:E; [|done]. apply He in E. congruence.
Qed.

(** Steps 2 to 4, in any environment. *)
Lemma allocate_locked_wp C S f0 f l id s :
  extends f0 f -> locked_ l = true -> lockfile_ l = c_str (lock_path id) -> lock_held f0 f id ->
  wpP C S (allocate_locked st prefix postfix size_ storage builder l id) (iteration_ok f0 id) s f.
Proof.
  intros He Hl Hf Hheld. apply allocate_locked_cases.
  - intros s1 _ Hmiss. by apply locked_missing_wp.
  - done.
  - intros q x n Hn Hx Hd. destruct (room n) eqn:Eroom.
    + split; [done|]. split; [done|]. split; [by exists l|]. split; [done|]. split; [done|].
      exists n, q, x. split_and!; try done. by left.
    + apply wpP_bind, wpP_set_last_id. apply give_up_wp; auto.
Qed.

(** *** The loop, in any environment *)

Lemma lockfile_default id : lockfile_ (FileLock_default (lock_path id)) = c_str (lock_path id).
Proof. done. Qed.

(** With the lock just taken. *)
Lemma allocate_taken_wp C S f0 f f1 l ql id s :
  extends f0 f -> namei f (c_str (c_str (lock_path id))) = inr ql -> nodes f !! ql = None ->
  leaves f f1 (<[ql := NFile []]> (nodes f)) ->
  locked_ l = true -> lockfile_ l = c_str (lock_path id) ->
  wpP C S (allocate_locked st prefix postfix size_ storage builder l id) (iteration_ok f0 id) s f1.
Proof.
  intros He Hn Hq Hl1 Hl Hf.
  assert (extends f f1) as He1 by (by eapply extends_add).
  apply allocate_locked_wp; [by eapply extends_trans|done|done|].
  exists ql, []. split; [by eapply namei_extends|]. split.
  - destruct (nodes f0 !! ql) as [y|] eqn:E; [|done]. apply He in E. congruence.
  - destruct Hl1 as [-> _]. apply lookup_insert_eq.
Qed.

(** The second attempt, and what comes before it once the lock directory is
    known to be there or not. *)
Definition lock_retry (id : Z) : P iteration :=
  '(locked, filelock) ← TryLock (set_locked false (FileLock_default (lock_path id)));
  if (locked : bool) then allocate_locked st prefix postfix size_ storage builder filelock id
  else set_last_id (i32 (id + 1));; FileLock_delete filelock;; mret Continue.

Definition lock_retry_if (ok : bool) (id : Z) : P iteration :=
  if negb ok then FileLock_delete (set_locked false (FileLock_default (lock_path id)));; mret (Return None)
  else lock_retry id.

Lemma lock_retry_wp C S f0 f id s :
  extends f0 f -> wpP C S (lock_retry id) (iteration_ok f0 id) s f.
Proof.
  intros He. pose proof (extends_ok _ _ He) as Hok.
  apply wpP_bind. eapply wpP_mono; [by apply TryLock_wp|].
  intros [b l] s3 f3 (_ & -> & Hb). destruct b.
  - destruct Hb as (ql & Hn & Hq & Hl1). by eapply allocate_taken_wp.
  - destruct Hb as [Hl3 _]. apply wpP_bind, wpP_set_last_id.
    apply wpP_bind, FileLock_delete_unlocked; [done|]. apply wpP_ret. split; [|done].
    eapply extends_trans; [done|by apply extends_same].
Qed.

Lemma lock_retry_if_wp C S f0 f ok id s :
  extends f0 f -> wpP C S (lock_retry_if ok id) (iteration_ok f0 id) s f.
Proof.
  intros He. destruct ok; [by apply lock_retry_wp|].
  apply wpP_bind, FileLock_delete_unlocked; [done|]. by apply wpP_ret.
Qed.

(** The lock directory is made. *)
Lemma lock_mkdirs_wp C S f0 f id s :
  extends f0 f ->
  wpP C S (r ← mkdirs lock_dir; mret (0 =? r))
    (fun ok s' f' => wpP C S (lock_retry_if ok id) (iteration_ok f0 id) s' f') s f.
Proof.
  intros He. pose proof (extends_ok _ _ He) as Hok.
  apply wpP_bind. eapply wpP_mono; [by apply mkdirs_sound_wp|].
  intros r s3 f3 (_ & Hadd & _). apply wpP_ret. apply lock_retry_if_wp.
  eapply extends_trans; [done|by apply dirs_added_extends].
Qed.

Lemma allocate_once_wp C S f0 f id s :
  extends f0 f ->
  wpP C S (allocate_once st prefix postfix size_ storage lock_dir builder id) (iteration_ok f0 id) s f.
Proof.
  intros He. pose proof (extends_ok _ _ He) as Hok. unfold allocate_once. fold (lock_path id).
  apply wpP_bind. eapply wpP_mono; [by apply TryLock_wp|].
  intros [b l] s1 f1 (_ & -> & Hb). destruct b.
  { destruct Hb as (ql & Hn & Hq & Hl1). by eapply allocate_taken_wp. }
  destruct Hb as [Hsame _]. cbn [set_locked].
  assert (extends f0 f1) as He1 by (eapply extends_trans; [done|by apply extends_same]).
  apply wpP_bind, wpP_access.
  - intros e _. change (-1 =? -1) with true. cbv iota. by apply wpP_bind, lock_mkdirs_wp.
  - intros q _ _. change (-1 =? -1) with true. cbv iota. by apply wpP_bind, lock_mkdirs_wp.
  - intros q x _ _. change (-1 =? 0) with false. cbv iota. apply wpP_bind, wpP_ret.
    by apply lock_retry_wp.
Qed.

Lemma allocate_loop_wp C fuel n f0 f s :
  extends f0 f ->
  wpP C fuel_only (allocate_loop st prefix postfix size_ storage lock_dir builder fuel n)
    (fun w s' f' => extends f0 f' /\
       match w with Some w => writer_ok f0 f' (info_id (info_ w)) w | None => True end) s f.
Proof.
  revert n f s. induction fuel as [|fuel IH]; intros n f s He; cbn [allocate_loop]; [done|].
  assert (forall s1, wpP C fuel_only (
      last_id ← get_last_id;
      it ← allocate_once st prefix postfix size_ storage lock_dir builder last_id;
      match it with
      | Return w => mret w
      | Continue => allocate_loop st prefix postfix size_ storage lock_dir builder fuel (n + 1)
      end) (fun w s' f' => extends f0 f' /\
       match w with Some w => writer_ok f0 f' (info_id (info_ w)) w | None => True end) s1 f) as Hbody.
  { intros s1. apply wpP_bind, wpP_get_last_id, wpP_bind.
    eapply wpP_mono; [by apply allocate_once_wp|].
    intros [|w] s2 f2 [He2 Hw]; [by apply IH|]. apply wpP_ret. split; [done|].
    destruct w as [w|]; [|done]. pose proof Hw as (_ & _ & _ & _ & off & q & x & Ei & _).
    by rewrite Ei. }
  apply wpP_bind. destruct (_ <? _); [|by apply wpP_ret, Hbody].
  apply wpP_bind, wpP_call. intros c _.
  assert (snd (kstep KRand c f) = f) as -> by (unfold kstep; by destruct (injected c)).
  apply wpP_set_last_id, Hbody.
Qed.
End AllocateProofs.

Lemma PathJoin_no_nul a b : x00 ∉ a -> x00 ∉ b -> x00 ∉ PathJoin a b.
Proof.
  intros Ha Hb. unfold PathJoin. destruct b; [done|]. destruct a; [done|].
  destruct (IsAbspath _); [done|]. destruct (IsDirectory _); rewrite not_elem_of_app; split; try done.
  apply not_elem_of_cons. by split.
Qed.

Lemma skip_slash_no_nul p : x00 ∉ p -> x00 ∉ skip_slash p.
Proof.
  destruct p as [|c p]; [done|]. cbn. destruct (Byte.eqb c "/"); [|done].
  by intros [_ ?]%not_elem_of_cons.
Qed.

(** The directory of the bundles of one [Allocate] call. *)
Definition bundle_root (storage prefix : bytes) : bytes :=
  PathJoin (c_str storage) (skip_slash (c_str prefix)).

Lemma bundle_root_no_nul storage prefix : x00 ∉ bundle_root storage prefix.
Proof. apply PathJoin_no_nul; [|apply skip_slash_no_nul]; apply c_str_no_nul. Qed.

Definition lock_dir_of (storage : bytes) (lock_path : option bytes) : bytes :=
  match lock_path with None => PathJoin (c_str storage) (bs ".lock") | Some p => c_str p end.

Definition levels_ok (st : Setting) : Prop :=
  u32 (file_count_level_1 st) <> 0 /\ u32 (file_count_level_2 st) <> 0.

(** C3: [Allocate] in any environment, on a well-formed file system, with
    level settings that are not zero, and below a storage path and prefix
    without a component [..]: it never changes or removes a file or directory
    that was there (in particular no bundle loses data), leaks no descriptor,
    and a writer it returns owns a lock file that was not there before, for a
    bundle that ends where the writer's offset says, with room for the record,
    or that it just created with its 1024-byte preamble.  With a [..] in the
    prefix an existing bundle can be truncated: [Allocate_dotdot_truncates]. *)
Theorem Allocate_safe {W C} `{Posix W C} (st : Setting) (fuel : nat) (prefix postfix : bytes)
    (size : Z) (storage : bytes) (lock_path : option bytes) (builder : option BuildUrl)
    (s : proc) (w : W) :
  fs_ok (view w) -> levels_ok st -> no_dotdot (components (bundle_root storage prefix)) ->
  match runP (Allocate st fuel prefix postfix size storage lock_path builder) s w with
  | (inr r, _, w') =>
      extends (view w) (view w') /\
      match r with
      | Some wr => writer_ok st (skip_slash (c_str prefix)) (c_str postfix) size (c_str storage)
          (lock_dir_of storage lock_path) builder (view w) (view w') (info_id (info_ wr)) wr
      | None => True
      end
  | (inl e, _, _) => e = Fuel
  end.
Proof.
  intros Hok Hlev Hplain.
  pose proof (fun n s f => allocate_loop_wp st (skip_slash (c_str prefix)) (c_str postfix) size
    (c_str storage) (lock_dir_of storage lock_path) builder Hlev
    (bundle_root_no_nul storage prefix) Hplain C fuel n (view w) f s) as Hloop.
  assert (wpP C fuel_only (Allocate st fuel prefix postfix size storage lock_path builder)
    (fun r s' f' => extends (view w) f' /\
      match r with
      | Some wr => writer_ok st (skip_slash (c_str prefix)) (c_str postfix) size (c_str storage)
          (lock_dir_of storage lock_path) builder (view w) f' (info_id (info_ wr)) wr
      | None => True
      end) s (view w)) as Hwp.
  { unfold Allocate. apply wpP_bind, wpP_get_last_id, wpP_bind.
    destruct (_ =? _); [|apply wpP_ret, Hloop, extends_refl, Hok].
    apply wpP_bind, wpP_call. intros c _.
    assert (snd (kstep KPid c (view w)) = view w) as -> by (unfold kstep; by destruct (injected c)).
    apply wpP_set_last_id, Hloop, extends_refl, Hok. }
  apply wpP_run in Hwp. by destruct (runP _ s w) as [[[e|r] s'] w'].
Qed.

(** A process that has not allocated yet starts at the last digit of its number. *)
Lemma Allocate_first C S st fuel prefix postfix size storage lock_path builder Q s f :
  last_id_ s = -1 ->
  (forall id, 0 <= id < 10 ->
     wpP C S (Allocate st fuel prefix postfix size storage lock_path builder) Q (Proc (errno s) id) f) ->
  wpP C S (Allocate st fuel prefix postfix size storage lock_path builder) Q s f.
Proof.
  intros Hid Hall. unfold Allocate. apply wpP_bind, wpP_get_last_id. rewrite Hid. cbn [Z.eqb Pos.eqb].
  apply wpP_bind, wpP_bind, wpP_call. intros c _.
  assert (kstep KPid c f = (wrap 31 (ch_val c), f)) as -> by (unfold kstep; by destruct (injected c)).
  apply wpP_set_last_id. cbn [fst snd]. set (pid := wrap 31 (ch_val c)).
  assert (0 <= pid) by (apply wrap_range; lia). pose proof (Z.rem_bound_pos pid 10 ltac:(lia) ltac:(lia)) as Hr.
  specialize (Hall _ Hr). unfold Allocate in Hall. cbv zeta in Hall.
  match type of Hall with
  | wpP _ _ (mbind ?k get_last_id) _ ?s1 _ => change (wpP C S (k (last_id_ s1)) Q s1 f) in Hall
  end.
  cbn [last_id_] in Hall. rewrite (proj2 (Z.eqb_neq (-1) (Z.rem pid 10))) in Hall by lia. exact Hall.
Qed.

(** ** Several processes allocating *)

Section AllocateDiscipline.
Context (st : Setting) (prefix postfix : bytes) (size_ : Z) (storage lock_dir : bytes).
Context (builder : option BuildUrl) (c q : path).

(** [q] is not a bundle: the bundle files are created without [O_EXCL]. *)
Hypothesis not_bundle : forall id file, Bid2Filename st id = Some file ->
  lex c (c_str (PathJoin (PathJoin storage prefix) file)) <> q.

Lemma mkdirs_disc held p : discP c q held (mkdirs p) (fun _ h => h = held).
Proof.
  unfold mkdirs. destruct (mkdirs_start _) as [sp pa]. generalize (split (bs "/") pa).
  intros segs. revert sp. induction segs as [|seg rest IH]; intros sp; [by apply discP_ret|].
  cbn [mkdirs_loop]. apply discP_bind, discP_sys_ret; [done| |]; intros x; cbn [after];
    destruct rest as [|seg2 rest2].
  - apply discP_bind, discP_get_errno. intros e. destruct (_ =? _); by apply discP_ret.
  - apply discP_bind, discP_get_errno. intros e. destruct (_ =? _); [apply IH|by apply discP_ret].
  - by apply discP_ret.
  - apply IH.
Qed.

Lemma CreateBundle_disc held b :
  lex c (c_str b) <> q -> discP c q held (CreateBundle b) (fun _ h => h = held).
Proof.
  intros Hb. apply discP_bind, discP_sys_ret; [by intros Hq; destruct (Hb Hq)| |].
  - intros e. by apply discP_ret.
  - intros fd. cbn. destruct fd as [|p|[]]; try (by apply discP_ret).
    all: apply discP_bind, discP_call; [done|]; intros now; cbn [after].
    all: apply discP_bind, discP_sys_ret; [done| |]; intros r; cbn [after].
    all: apply discP_bind, discP_sys_ret; [done| |]; intros x; cbn [after].
    all: destruct (negb _); by apply discP_ret.
Qed.

(** The lock of the bundle of a returned writer is held. *)
Definition writer_holds (w : option Writer) (h : bool) : Prop :=
  forall wr, w = Some wr -> lex c (c_str (c_str (PathJoin lock_dir (dec (info_id (info_ wr)))))) = q -> h = true.

Definition iteration_holds (it : iteration) (h : bool) : Prop :=
  match it with Return w => writer_holds w h | Continue => True end.

Lemma give_up_disc held l (it : iteration) :
  honest c q l held -> it = Continue \/ it = Return None ->
  discP c q held (FileLock_delete l;; mret it) iteration_holds.
Proof.
  intros Hl Hit. apply discP_bind. eapply discP_mono; [by apply FileLock_delete_disc|].
  intros _ h _. apply discP_ret. by destruct Hit as [-> | ->].
Qed.

Lemma allocate_locked_disc held l id :
  locked_ l = true -> lockfile_ l = c_str (PathJoin lock_dir (dec id)) -> honest c q l held ->
  discP c q held (allocate_locked st prefix postfix size_ storage builder l id) iteration_holds.
Proof.
  intros Hl Hf Hh. unfold allocate_locked, bid2filename.
  destruct (Bid2Filename st id) as [file|] eqn:Efile; [|apply discP_bind, discP_halt].
  apply discP_bind, discP_ret. cbv zeta. pose proof (not_bundle id file Efile) as Hb.
  set (b := PathJoin (PathJoin storage prefix) file) in *.
  assert (forall off, discP c q held (mret (Return (Some (mkWriter b (Some l)
    (Some (default (build st) builder)) (mkInfo id [] off size_ [] prefix postfix))))) iteration_holds) as Hret.
  { intros off. apply discP_ret. intros wr [= <-] Hq. cbn in Hq. apply Hh; [done|by rewrite Hf]. }
  apply discP_bind, discP_sys_ret; [done| |]; intros x; cbn [after];
    (destruct (_ && (_ <? _)); [apply discP_bind, discP_set_last_id, give_up_disc; auto|]);
    apply discP_bind, discP_get_errno; intros e; destruct (_ && (_ =? _)).
  2, 4: destruct (0 =? _); [apply Hret|apply discP_bind, discP_set_last_id; by apply discP_ret].
  all: apply discP_bind, discP_bind, discP_sys_ret; [done| |]; intros y; cbn [after];
    cbn beta iota; try change (-1 =? -1) with true; try change (-1 =? 0) with false; cbv iota.
  all: apply discP_bind; try apply discP_bind.
  all: try (eapply discP_mono; [apply mkdirs_disc|]; intros r h ->).
  all: apply discP_ret; try destruct (0 =? r); cbn [negb].
  all: try (apply discP_ret; cbn [negb]; by apply give_up_disc; auto).
  all: eapply discP_mono; [by apply CreateBundle_disc|]; intros ok h ->;
    destruct ok; cbn [negb]; [apply Hret|apply give_up_disc; auto].
Qed.

Lemma try_then_disc held l id (k : FileLock -> P iteration) :
  lockfile_ l = c_str (PathJoin lock_dir (dec id)) ->
  (forall h, discP c q h (k (set_locked false l)) iteration_holds) ->
  discP c q held ('(locked, filelock) ← TryLock l;
    if (locked : bool) then allocate_locked st prefix postfix size_ storage builder filelock id
    else k filelock) iteration_holds.
Proof.
  intros Hf Hk. apply discP_bind. eapply discP_mono; [apply TryLock_disc|].
  intros [b l'] h (-> & Hh & _). destruct b; [by apply allocate_locked_disc|apply Hk].
Qed.

Lemma allocate_once_disc held id :
  discP c q held (allocate_once st prefix postfix size_ storage lock_dir builder id) iteration_holds.
Proof.
  unfold allocate_once. apply try_then_disc; [done|]. intros h1.
  assert (forall h, honest c q (set_locked false (set_locked false
    (FileLock_default (PathJoin lock_dir (dec id))))) h) as Hoff by (by intros h [=]).
  assert (forall h, discP c q h (
      '(locked, filelock) ← TryLock (set_locked false (FileLock_default (PathJoin lock_dir (dec id))));
      if (locked : bool) then allocate_locked st prefix postfix size_ storage builder filelock id
      else set_last_id (i32 (id + 1));; FileLock_delete filelock;; mret Continue) iteration_holds) as Hagain.
  { intros h. apply (try_then_disc h _ id (fun filelock =>
      set_last_id (i32 (id + 1));; FileLock_delete filelock;; mret Continue)); [done|].
    intros h2. apply discP_bind, discP_set_last_id, give_up_disc; [apply Hoff|by left]. }
  apply discP_bind, discP_sys_ret; [done| |]; intros y; cbn [after].
  - change (-1 =? -1) with true. cbv iota. apply discP_bind, discP_bind.
    eapply discP_mono; [apply mkdirs_disc|]. intros r h _. apply discP_ret.
    destruct (0 =? r); cbn [negb]; [apply Hagain|apply give_up_disc; [by intros [=]|by right]].
  - change (-1 =? 0) with false. cbv iota. apply discP_bind, discP_ret. apply Hagain.
Qed.

Lemma allocate_loop_disc fuel held n :
  discP c q held (allocate_loop st prefix postfix size_ storage lock_dir builder fuel n) writer_holds.
Proof.
  revert held n. induction fuel as [|fuel IH]; intros held n; cbn [allocate_loop];
    [apply discP_halt|].
  assert (forall h, discP c q h (
      last_id ← get_last_id;
      it ← allocate_once st prefix postfix size_ storage lock_dir builder last_id;
      match it with
      | Return w => mret w
      | Continue => allocate_loop st prefix postfix size_ storage lock_dir builder fuel (n + 1)
      end) writer_holds) as Hbody.
  { intros h. apply discP_bind, discP_get_last_id. intros id. apply discP_bind.
    eapply discP_mono; [apply allocate_once_disc|].
    intros [|w] h2 Hw; [apply IH|by apply discP_ret]. }
  apply discP_bind. destruct (_ <? _); [|apply discP_ret, Hbody].
  apply discP_bind, discP_call; [done|]. intros r. apply discP_set_last_id, Hbody.
Qed.
End AllocateDiscipline.

(** No bundle file of this storage is a lock file of this lock directory. *)
Definition bundles_not_locks (st : Setting) (c : path) (storage prefix lock_dir : bytes) : Prop :=
  forall id id' file, Bid2Filename st id = Some file ->
    lex c (c_str (PathJoin (bundle_root storage prefix) file)) <>
    lex c (c_str (c_str (PathJoin lock_dir (dec id')))).

(** A process that runs [Allocate], with parameters of its own but the lock
    directory [lock_dir]. *)
Definition allocating (st : Setting) (c : path) (lock_dir : bytes)
    (p : prog ((stop + option Writer) * proc)) : Prop :=
  exists fuel prefix postfix size storage lock_path builder s,
    p = Allocate st fuel prefix postfix size storage lock_path builder s /\
    lock_dir_of storage lock_path = lock_dir /\ bundles_not_locks st c storage prefix lock_dir.

(** C4: However the system calls of any number of processes are interleaved,
    and whatever errors the system injects, two processes never get writers
    for the same bundle. *)
Theorem Allocate_exclusive (st : Setting) (c : path) (lock_dir : bytes) (f : fs)
    (ps : list (prog ((stop + option Writer) * proc))) (b : config ((stop + option Writer) * proc))
    (i j : nat) (w1 w2 : Writer) (s1 s2 : proc) :
  cwd f = c -> Forall (allocating st c lock_dir) ps -> rtc step (Config f ps) b ->
  threads b !! i = Some (Ret (inr (Some w1), s1)) ->
  threads b !! j = Some (Ret (inr (Some w2), s2)) ->
  i <> j -> info_id (info_ w1) <> info_id (info_ w2).
Proof.
  intros Hc Hps Hsteps Hi Hj Hne Eid. apply Hne.
  set (q := lex c (c_str (c_str (PathJoin lock_dir (dec (info_id (info_ w1))))))).
  set (Q := fun (x : (stop + option Writer) * proc) (h : bool) =>
    match fst x with inr w => writer_holds lock_dir c q w h | _ => True end).
  assert (lock_inv c q Q b) as (_ & held & Hdisc & Huniq & _).
  { eapply mutual_exclusion_inv; [|exact Hsteps]. apply lock_inv_init; [done|].
    eapply Forall_impl; [exact Hps|]. cbn beta.
    intros p (fuel & prefix & postfix & size & storage & lock_path & builder & s & -> & Hld & Hnb).
    assert (discP c q false (Allocate st fuel prefix postfix size storage lock_path builder)
      (writer_holds lock_dir c q)) as Hd.
    { unfold Allocate. fold (lock_dir_of storage lock_path). rewrite Hld.
      apply discP_bind, discP_get_last_id. intros id.
      assert (forall h, discP c q h (allocate_loop st (skip_slash (c_str prefix)) (c_str postfix) size
        (c_str storage) lock_dir builder fuel 0) (writer_holds lock_dir c q)) as Hloop.
      { intros h. apply allocate_loop_disc. intros id2 file Hfile. by apply (Hnb id2). }
      apply discP_bind. destruct (-1 =? id); [|by apply discP_ret].
      apply discP_bind, discP_call; [done|]. intros r. apply discP_set_last_id, Hloop. }
    eapply disc_mono; [apply Hd|]. by intros [[e|w] s'] h. }
  apply Huniq.
  - by apply (Hdisc i _ Hi w1).
  - apply (Hdisc j _ Hj w2); [done|]. by rewrite <- Eid.
Qed.

(** *** When bundles are not locks *)

Definition plain_path (cs : list bytes) : Prop := Forall (fun x => x <> bs "." /\ x <> bs "..") cs.

Lemma fold_walk1_plain cs cur : plain_path cs -> fold_left walk1 cs cur = cur ++ cs.
Proof.
  intros H. revert cur. induction H as [|x cs [H1 H2] _ IH]; intros cur; cbn; [by rewrite app_nil_r|].
  rewrite IH. unfold walk1. rewrite !bool_decide_false by done. by rewrite <- app_assoc.
Qed.

Lemma dec_nonempty z : dec z <> [].
Proof.
  unfold dec. destruct (z <? 0) eqn:E; [done|]. zbool.
  by destruct (dec_nonneg_cons z E) as (d & ds & -> & _).
Qed.

Lemma dec_relative z : IsAbspath (dec z) = false.
Proof.
  pose proof (dec_free "/" z eq_refl ltac:(done)) as H. destruct (dec z) as [|c l]; [done|].
  cbn. apply IsPathSep_false. intros ->. apply H. by apply elem_of_cons; left.
Qed.

Lemma components_lock d z : components (PathJoin d (dec z)) = components d ++ [dec z].
Proof.
  rewrite components_PathJoin by (apply dec_nonempty || apply dec_relative). f_equal.
  rewrite components_segment by (by apply dec_free). rewrite decide_False; [done|]. apply dec_nonempty.
Qed.

Lemma is_abs_PathJoin a b : is_abs a = true -> b <> [] -> IsAbspath b = false -> is_abs (PathJoin a b) = true.
Proof.
  intros Ha Hb Habs. rewrite PathJoin_normalize by done. destruct a as [|c a]; [done|].
  cbn in Ha. unfold NormalizeDirectory. destruct (last _); [|done]. by destruct (negb _).
Qed.

(** Absolute directories without dots, at depths that differ by more than the
    file names make up for: the usual case of a lock directory next to the
    prefix directories. *)
Lemma bundles_not_locks_depth st c storage prefix lock_dir :
  levels_ok st -> x00 ∉ lock_dir -> is_abs (bundle_root storage prefix) = true -> is_abs lock_dir = true ->
  plain_path (components (bundle_root storage prefix)) -> plain_path (components lock_dir) ->
  (length (components (bundle_root storage prefix)) + 1 <> length (components lock_dir))%nat ->
  bundles_not_locks st c storage prefix lock_dir.
Proof.
  intros Hlev Hnul Ha1 Ha2 Hp1 Hp2 Hlen id id' file Hfile.
  assert (no_dotdot (components (bundle_root storage prefix))) as Hdd
    by (eapply Forall_impl; [exact Hp1|]; by intros x [_ ?]).
  rewrite (bid2filename_path st Hlev) in Hfile.
  assert (file = hex1 st id ++ bs "/" ++ hex2 st id) as -> by (unfold hex1, hex2; congruence).
  pose proof (bundle_c_str st (skip_slash (c_str prefix)) (c_str storage) Hlev
    (bundle_root_no_nul storage prefix) id) as Ec.
  pose proof (components_bundle st (skip_slash (c_str prefix)) (c_str storage) Hlev id) as Eb.
  unfold bundle_path in Ec, Eb. fold (hex1 st id) (hex2 st id) in Ec, Eb.
  fold (bundle_root storage prefix) in Ec, Eb. rewrite Ec.
  assert (x00 ∉ PathJoin lock_dir (dec id')) as Hln by (apply PathJoin_no_nul; [done|by apply dec_free]).
  rewrite (c_str_id (PathJoin lock_dir (dec id'))), (c_str_id (PathJoin lock_dir (dec id'))) by done.
  destruct (hex_nonempty st Hlev id) as [Hne1 Hne2].
  unfold lex. rewrite Eb, components_lock.
  rewrite !is_abs_PathJoin; try done; try apply dec_nonempty; try apply dec_relative;
    [|by destruct (hex1 st id)|by apply hex1_relative].
  intros E. apply (f_equal length) in E. revert E.
  assert (forall x, x <> [] -> "."%byte ∉ x -> x <> bs "." /\ x <> bs "..") as Hx.
  { intros x _ Hd. split; intros ->; apply Hd; by apply elem_of_cons; left. }
  destruct (hex_free st Hlev id "."%byte) as [F1 F2]; [done|].
  rewrite !fold_walk1_plain.
  - cbn [app]. rewrite !length_app. cbn [length]. lia.
  - apply Forall_app. split; [done|]. constructor; [|constructor].
    apply Hx; [apply dec_nonempty|by apply dec_free].
  - apply Forall_app. split; [done|]. repeat constructor; by apply Hx.
Qed.

(** ** Allocation on a calm system: linear probing *)

Section Probing.
Context (st : Setting) (prefix postfix : bytes) (size_ : Z) (storage lock_dir : bytes).
Context (builder : option BuildUrl).
Hypothesis levels : levels_ok st.
Hypothesis no_nul_storage : x00 ∉ PathJoin storage prefix.

Abbreviation bpath := (bundle_path st prefix storage).
Abbreviation lpath id := (c_str (c_str (lock_path lock_dir id))).
Abbreviation has_room := (room st size_).

(** Only the descriptor counter may differ. *)
Definition same_files (f f' : fs) : Prop :=
  nodes f' = nodes f /\ cwd f' = cwd f /\ fs_ok f'.

Lemma same_files_namei f f' p : same_files f f' -> namei f' p = namei f p.
Proof. intros (En & Ec & _). by apply namei_cong. Qed.

(** The lock directory is there. *)
Definition lock_dir_ready (f : fs) : Prop :=
  exists q x, namei f (c_str lock_dir) = inr q /\ nodes f !! q = Some x.

(** Bundle [id] is locked by somebody, or full. *)
Definition busy (f : fs) (id : Z) : Prop :=
  exists ql, namei f (lpath id) = inr ql /\
    ((exists y, nodes f !! ql = Some y) \/
     (nodes f !! ql = None /\ exists q d, namei f (bpath id) = inr q /\
        nodes f !! q = Some (NFile d) /\ has_room (size d) = false)).

(** Bundle [id] can be had: unlocked, and either with room or not there yet
    (but its directory is); [q] is its file, [off] where to write, and [n']
    the files before the lock is added. *)
Definition available (f : fs) (id off : Z) (ql q : path) (n' : gmap path node) : Prop :=
  namei f (lpath id) = inr ql /\ nodes f !! ql = None /\ namei f (bpath id) = inr q /\ q <> ql /\
  ((exists d, nodes f !! q = Some (NFile d) /\ off = size d /\ has_room off = true /\ n' = nodes f) \/
   (nodes f !! q = None /\ off = kBundleHeaderSize /\
    (exists qp x, namei f (c_str (Dirname (bpath id))) = inr qp /\ nodes f !! qp = Some x) /\
    exists now, n' = <[q := NFile (preamble now)]> (nodes f))).

Definition new_writer (id off : Z) : Writer :=
  mkWriter (bpath id) (Some (set_locked true (FileLock_default (lock_path lock_dir id))))
    (Some (default (build st) builder)) (mkInfo id [] off size_ [] prefix postfix).

(** A calm [TryLock] is decided by whether the lock file is there. *)
Lemma TryLock_calm S id ql s f (Q : bool * FileLock -> proc -> fs -> Prop) l :
  fs_ok f -> lockfile_ l = c_str (lock_path lock_dir id) -> namei f (lpath id) = inr ql ->
  (nodes f !! ql = None -> forall s' f', last_id_ s' = last_id_ s ->
     leaves f f' (<[ql := NFile []]> (nodes f)) -> Q (true, set_locked true l) s' f') ->
  (forall y, nodes f !! ql = Some y -> forall s' f', last_id_ s' = last_id_ s ->
     leaves f f' (nodes f) -> Q (false, set_locked false l) s' f') ->
  wpP benign S (TryLock l) Q s f.
Proof.
  intros Hok Hl Hn Hfree Htaken. eapply wpP_mono; [by apply TryLock_wp|]. rewrite Hl.
  intros [b l'] s' f' (Hid & -> & Hb). destruct b.
  - destruct Hb as (ql' & Hn' & Hq & Hlv). rewrite Hn in Hn'. injection Hn' as <-. by apply Hfree.
  - destruct Hb as [Hlv [[e He]|Hno]]; [by apply benign_no_fail in He|].
    destruct (nodes f !! ql) as [y|] eqn:E; [by apply (Htaken y)|]. by destruct (Hno ql Hn).
Qed.

Lemma same_files_trans a b c : same_files a b -> same_files b c -> same_files a c.
Proof. intros (N1 & C1 & _) (N2 & C2 & O2). split_and!; congruence || done. Qed.

Lemma same_files_leaves f f' : leaves f f' (nodes f) -> same_files f f'.
Proof. by intros (? & _ & ? & ?). Qed.

(** A full bundle is let go, leaving no trace. *)
Lemma allocate_locked_full id ql q d s f f1 :
  fs_ok f -> namei f (lpath id) = inr ql -> nodes f !! ql = None ->
  leaves f f1 (<[ql := NFile []]> (nodes f)) ->
  namei f (bpath id) = inr q -> nodes f !! q = Some (NFile d) -> has_room (size d) = false ->
  wpP benign never (allocate_locked st prefix postfix size_ storage builder
      (set_locked true (FileLock_default (lock_path lock_dir id))) id)
    (fun it s' f' => it = Continue /\ last_id_ s' = i32 (id + 1) /\ same_files f f') s f1.
Proof.
  intros Hok Hql Hnone Hl1 Hnb Hq Hroom.
  assert (extends f f1) as He1 by (by eapply extends_add).
  assert (namei f1 (bpath id) = inr q) as Hnb1 by (by eapply namei_extends).
  assert (nodes f1 !! q = Some (NFile d)) as Hq1 by (by apply He1).
  apply allocate_locked_cases; [done|done|..].
  - intros s1 _ [Hn|(q' & Hn & Hq')]; congruence.
  - intros s1 e _ [He|He]; [by apply benign_no_fail in He|congruence].
  - intros q' x n Hn' Hx Hd. rewrite Hnb1 in Hn'. injection Hn' as <-.
    rewrite Hq1 in Hx. injection Hx as <-. rewrite (Hd d eq_refl), Hroom.
    apply wpP_bind, wpP_set_last_id, wpP_bind. eapply wpP_mono.
    { eapply FileLock_delete_wp; [done|by eapply namei_extends|].
      destruct Hl1 as [-> _]. apply lookup_insert_eq. }
    cbn beta. intros _ s2 f2 (Hid2 & [-> | [_ [e He]]]); [|by apply benign_no_fail in He].
    apply wpP_ret. split; [done|]. split; [done|].
    destruct Hl1 as (En & Ef & Ec & Hok1).
    destruct (extends_unlinked f f1 ql [] Hnone He1) as (_ & _ & Ec2 & Hok2).
    { rewrite En. apply lookup_insert_eq. }
    split; [|by split]. cbn. rewrite En. by apply delete_insert_id.
Qed.

(** So is a locked one, after the second attempt. *)
Lemma lock_retry_locked id ql y s f f1 :
  same_files f f1 -> namei f (lpath id) = inr ql -> nodes f !! ql = Some y ->
  wpP benign never (lock_retry st prefix postfix size_ storage lock_dir builder id)
    (fun it s' f' => it = Continue /\ last_id_ s' = i32 (id + 1) /\ same_files f f') s f1.
Proof.
  intros Hs1 Hql Hy. assert (fs_ok f1) as Hok1 by apply Hs1.
  apply wpP_bind. eapply TryLock_calm; [done|done|by rewrite (same_files_namei f)| |].
  - intros Hnone. destruct Hs1 as [En _]. rewrite En in Hnone. congruence.
  - intros y2 Hy2 s2 f2 Hid2 Hl2. apply wpP_bind, wpP_set_last_id, wpP_bind.
    apply FileLock_delete_unlocked; [done|]. apply wpP_ret.
    split; [done|]. split; [done|]. eapply same_files_trans; [done|by apply same_files_leaves].
Qed.

(** Locked bundles and full ones are passed over, leaving no trace. *)
Lemma allocate_once_busy id s f :
  fs_ok f -> lock_dir_ready f -> busy f id ->
  wpP benign never (allocate_once st prefix postfix size_ storage lock_dir builder id)
    (fun it s' f' => it = Continue /\ last_id_ s' = i32 (id + 1) /\ same_files f f') s f.
Proof.
  intros Hok (qd & xd & Hnd & Hd) (ql & Hql & Hcase). unfold allocate_once. fold (lock_path lock_dir id).
  apply wpP_bind. eapply TryLock_calm; [done|done|exact Hql| |].
  - (* free but full *)
    intros Hnone s1 f1 Hid1 Hl1.
    destruct Hcase as [[y Hy]|(_ & q & d & Hnb & Hq & Hroom)]; [congruence|].
    by eapply allocate_locked_full.
  - (* locked *)
    intros y Hy s1 f1 Hid1 Hl1. apply same_files_leaves in Hl1 as Hs1.
    apply wpP_bind, wpP_access.
    + intros e [He|He]; [by apply benign_no_fail in He|].
      rewrite (same_files_namei f) in He by done. congruence.
    + intros q Hn Hq. rewrite (same_files_namei f) in Hn by done. destruct Hs1 as [En _].
      rewrite En in Hq. congruence.
    + intros q x _ _. change (-1 =? 0) with false. cbv iota. apply wpP_bind, wpP_ret.
      by eapply lock_retry_locked.
Qed.

(** What a calm [allocate_locked] leaves of an available bundle. *)
Definition allocated_calm (f : fs) (id off : Z) (ql q : path) (it : iteration) (s' : proc) (f' : fs) : Prop :=
  it = Return (Some (new_writer id off)) /\ cwd f' = cwd f /\ fs_ok f' /\
  exists n', available f id off ql q n' /\ nodes f' = <[ql := NFile []]> n'.

(** A calm [create_missing] whose directory is there is [CreateBundle], and
    that makes the bundle. *)
Lemma create_missing_calm id q qp x (Q : bool -> proc -> fs -> Prop) s f :
  fs_ok f -> namei f (bpath id) = inr q -> nodes f !! q = None ->
  namei f (c_str (Dirname (bpath id))) = inr qp -> nodes f !! qp = Some x ->
  (forall s' f' now, last_id_ s' = last_id_ s -> extends f f' ->
     nodes f' = <[q := NFile (preamble now)]> (nodes f) -> Q true s' f') ->
  wpP benign never (create_missing (bpath id)) Q s f.
Proof.
  intros Hok Hnb Hq Hpar Hx HQ. unfold create_missing. apply wpP_bind, wpP_access.
  - intros e [He|He]; [by apply benign_no_fail in He|congruence].
  - intros qp' Hp' Hx'. congruence.
  - intros _ _ _ _. change (-1 =? 0) with false. cbv iota. apply wpP_bind, wpP_ret. cbn [negb].
    eapply wpP_mono.
    { apply CreateBundle_wp; [done|]. rewrite bundle_c_str by done. congruence. }
    rewrite bundle_c_str by done. intros [|] s2 f2 (Hid & He2 & Hr & Hf).
    + destruct (Hr eq_refl) as (q2 & now & Hn2 & _ & En2). rewrite Hnb in Hn2. injection Hn2 as <-.
      by eapply HQ.
    + destruct (Hf eq_refl) as [[e He]|[Hsh|Hno]].
      * by apply benign_no_fail in He.
      * by apply benign_no_short in Hsh.
      * by destruct (Hno q Hnb).
Qed.

(** The lock is taken and the bundle opened or made. *)
Lemma allocate_locked_available id off ql q s f f1 l :
  (exists n', available f id off ql q n') -> fs_ok f -> leaves f f1 (<[ql := NFile []]> (nodes f)) ->
  l = set_locked true (FileLock_default (lock_path lock_dir id)) ->
  wpP benign never (allocate_locked st prefix postfix size_ storage builder l id)
    (allocated_calm f id off ql q) s f1.
Proof.
  intros (n0 & Hav) Hok Hl1 ->. pose proof Hav as (Hql & Hnone & Hnb & Hne & Hcase).
  pose proof Hl1 as (En & Ef & Ec & Hok1).
  assert (extends f f1) as He1 by (by eapply extends_add).
  assert (namei f1 (bpath id) = inr q) as Hnb1 by (by eapply namei_extends).
  assert (nodes f1 !! q = nodes f !! q) as Eq1 by (rewrite En, lookup_insert_ne by done; done).
  apply allocate_locked_cases; [done|done|..].
  - (* missing *)
    intros s1 _ [Hn|(q' & Hn & Hq')]; [congruence|].
    rewrite Hnb1 in Hn. injection Hn as <-.
    destruct Hcase as [(d & Hd & _) | (Hq & -> & (qp & x & Hpar & Hx) & _)]; [congruence|].
    unfold locked_missing. apply wpP_bind. eapply (create_missing_calm id q qp x); try done.
    + by eapply namei_extends.
    + by apply He1.
    + intros s2 f2 now _ (_ & _ & Ec2 & Hok2) En2. apply wpP_ret.
      split; [done|]. split; [congruence|]. split; [done|].
      exists (<[q := NFile (preamble now)]> (nodes f)). split.
      * split_and!; try done. right. split; [done|]. split; [done|]. split; [eauto|by exists now].
      * rewrite En2, En. by apply insert_insert_ne.
  - intros s1 e _ [He|He]; [by apply benign_no_fail in He|congruence].
  - (* there, with room *)
    intros q' x n Hn' Hx Hd. rewrite Hnb1 in Hn'. injection Hn' as <-.
    destruct Hcase as [(d' & Hd' & -> & Hroom & Hn0) | (Hq & _)]; [|congruence].
    rewrite Eq1, Hd' in Hx. injection Hx as <-. rewrite (Hd d' eq_refl), Hroom.
    split; [done|]. split; [done|]. split; [done|].
    exists (nodes f). split; [|done]. split_and!; try done. left. by exists d'.
Qed.

Lemma allocate_once_available id off ql q n0 s f :
  fs_ok f -> available f id off ql q n0 ->
  wpP benign never (allocate_once st prefix postfix size_ storage lock_dir builder id)
    (fun it s' f' => it = Return (Some (new_writer id off)) /\ cwd f' = cwd f /\ fs_ok f' /\
       exists n', available f id off ql q n' /\ nodes f' = <[ql := NFile []]> n') s f.
Proof.
  intros Hok Hav. unfold allocate_once. fold (lock_path lock_dir id).
  apply wpP_bind. eapply TryLock_calm; [done|done|apply Hav| |].
  - intros _ s1 f1 _ Hl1. eapply allocate_locked_available; eauto.
  - intros y Hy. destruct Hav as (_ & Hnone & _). congruence.
Qed.

Lemma busy_same f f' id : same_files f f' -> busy f id -> busy f' id.
Proof.
  intros Hs (ql & Hn & H). exists ql. rewrite (same_files_namei f) by done.
  pose proof Hs as (-> & _). split; [done|]. destruct H as [H|(H1 & q & d & H2 & H3)]; [by left|right].
  split; [done|]. exists q, d. by rewrite (same_files_namei f) by done.
Qed.

Lemma available_same f f' id off ql q n' :
  same_files f f' -> available f' id off ql q n' <-> available f id off ql q n'.
Proof.
  intros Hs. unfold available. rewrite !(same_files_namei f f') by done. destruct Hs as (-> & _). reflexivity.
Qed.

Lemma lock_dir_ready_same f f' : same_files f f' -> lock_dir_ready f -> lock_dir_ready f'.
Proof.
  intros Hs (q & x & Hn & Hx). exists q, x. rewrite (same_files_namei f) by done.
  by destruct Hs as (-> & _).
Qed.

(** The loop passes [k] busy bundles and takes the next one, if that is
    available and the random phase is not reached. *)
Lemma allocate_loop_probes k : forall fuel id n off ql q n0 s f, (k < fuel)%nat ->
  fs_ok f -> lock_dir_ready f -> last_id_ s = id -> - 2 ^ 31 <= id -> id + Z.of_nat k < 2 ^ 31 ->
  n + Z.of_nat k < bundle_count_per_day st ->
  (forall j, id <= j < id + Z.of_nat k -> busy f j) ->
  available f (id + Z.of_nat k) off ql q n0 ->
  wpP benign never
    (allocate_loop st prefix postfix size_ storage lock_dir builder fuel n)
    (fun w s' f' => w = Some (new_writer (id + Z.of_nat k) off) /\ cwd f' = cwd f /\ fs_ok f' /\
       exists n', available f (id + Z.of_nat k) off ql q n' /\ nodes f' = <[ql := NFile []]> n') s f.
Proof.
  induction k as [|k IH]; intros [|fuel] id n off ql q n0 s f Hfuel Hok Hready Hid Hlow Hid31 Hn Hbusy Hav;
    try lia; rewrite ?Nat2Z.inj_succ in *; cbn [allocate_loop];
    (destruct (Z.ltb_spec (bundle_count_per_day st) (n + 1)); [lia|]);
    apply wpP_bind, wpP_ret, wpP_bind, wpP_get_last_id; rewrite Hid; apply wpP_bind.
  - rewrite Z.add_0_r in *. eapply wpP_mono; [by eapply allocate_once_available|].
    cbn beta. intros it s1 f1 (-> & H1). by apply wpP_ret.
  - eapply wpP_mono; [apply allocate_once_busy; [done|done|apply Hbusy; lia]|].
    cbn beta. intros it s1 f1 (-> & Hid1 & Hs1). rewrite i32_small in Hid1 by lia.
    replace (id + Z.succ (Z.of_nat k)) with (id + 1 + Z.of_nat k) in * by lia.
    eapply wpP_mono.
    + eapply (IH fuel (id + 1) (n + 1)); [lia|apply Hs1|by eapply lock_dir_ready_same|done|lia|lia|lia| |].
      * intros j Hj. eapply busy_same; [done|]. apply Hbusy. lia.
      * by apply (available_same f f1).
    + cbn beta. intros w s2 f2 (-> & Ec & Hok2 & n' & Hav' & En).
      split; [done|]. split; [destruct Hs1 as (_ & <- & _); done|]. split; [done|].
      exists n'. split; [by apply (available_same f f1)|done].
Qed.
End Probing.

(** On a calm system [Allocate] terminates and finds a bundle: starting at
    [last_id_], when [k] bundles in a row are locked or full and the next one
    is available, [k + 1] iterations return a writer for that next one, and
    all that changed is its lock file and, if it was missing, the bundle with
    its preamble. *)
Theorem Allocate_probes {W} `{Posix W benign} (st : Setting) (k : nat) (prefix postfix : bytes)
    (size : Z) (storage : bytes) (lock_path : option bytes) (builder : option BuildUrl)
    (off : Z) (ql q : path) (n0 : gmap path node) (s : proc) (w : W) :
  let pre := skip_slash (c_str prefix) in
  let sto := c_str storage in
  let ldir := lock_dir_of storage lock_path in
  fs_ok (view w) -> levels_ok st -> lock_dir_ready ldir (view w) ->
  0 <= last_id_ s -> last_id_ s + Z.of_nat k < 2 ^ 31 -> Z.of_nat k < bundle_count_per_day st ->
  (forall j, last_id_ s <= j < last_id_ s + Z.of_nat k -> busy st pre size sto ldir (view w) j) ->
  available st pre size sto ldir (view w) (last_id_ s + Z.of_nat k) off ql q n0 ->
  match runP (Allocate st (S k) prefix postfix size storage lock_path builder) s w with
  | (inr r, _, w') =>
      r = Some (new_writer st pre (c_str postfix) size sto ldir builder (last_id_ s + Z.of_nat k) off) /\
      exists n', available st pre size sto ldir (view w) (last_id_ s + Z.of_nat k) off ql q n' /\
        nodes (view w') = <[ql := NFile []]> n'
  | (inl _, _, _) => False
  end.
Proof.
  cbv zeta. intros Hok Hlev Hready Hid Hid31 Hk Hbusy Hav.
  assert (wpP benign never (Allocate st (S k) prefix postfix size storage lock_path builder)
    (fun r s' f' =>
      r = Some (new_writer st (skip_slash (c_str prefix)) (c_str postfix) size (c_str storage)
        (lock_dir_of storage lock_path) builder (last_id_ s + Z.of_nat k) off) /\
      exists n', available st (skip_slash (c_str prefix)) size (c_str storage)
        (lock_dir_of storage lock_path) (view w) (last_id_ s + Z.of_nat k) off ql q n' /\
        nodes f' = <[ql := NFile []]> n') s (view w)) as Hwp.
  { unfold Allocate. apply wpP_bind, wpP_get_last_id.
    destruct (Z.eqb_spec (-1) (last_id_ s)); [lia|]. apply wpP_bind, wpP_ret.
    eapply wpP_mono.
    - eapply allocate_loop_probes; try done; try lia. apply bundle_root_no_nul.
    - cbn beta. intros r s2 f2 (Hr & _ & _ & Hn). done. }
  apply wpP_run in Hwp. by destruct (runP _ s w) as [[[e|r] s'] w'].
Qed.

(** ** The life of a record *)

Lemma walk_dirs n n' cur cs q :
  (forall p, n !! p = Some NDir -> n' !! p = Some NDir) ->
  walk n cur cs = inr q -> walk n' cur cs = inr q.
Proof.
  intros Hn. revert cur. induction cs as [|c cs IH]; intros cur; cbn; [done|].
  destruct (n !! cur) as [[|]|] eqn:E; try done. rewrite (Hn _ E). apply IH.
Qed.

Lemma namei_dirs f f' p q :
  (forall p, nodes f !! p = Some NDir -> nodes f' !! p = Some NDir) -> cwd f' = cwd f ->
  namei f p = inr q -> namei f' p = inr q.
Proof. intros Hn Hc. unfold namei. rewrite Hc. destruct p; [done|]. by apply walk_dirs. Qed.

(** Reading by url goes to the bundle the url names. *)
Lemma Read_url_wp C S st url storage prefix info q b s f :
  levels_ok st -> url <> [] ->
  extract st (c_str url) (Some Info_init) = (true, Some info) -> info_prefix info = prefix ->
  x00 ∉ PathJoin (c_str storage) prefix ->
  fs_ok f -> namei f (bundle_path st prefix (c_str storage) (info_id info)) = inr q ->
  nodes f !! q = Some (NFile b) -> 0 <= info_offset info < 2 ^ 62 -> 0 <= info_size info < 2 ^ 31 ->
  wpP C S (Read_url st url storage None) (fun r s' f' => leaves f f' (nodes f) /\
    exists data ud, r = (fst r, Some (data, ud)) /\
      (forall content u, record_at b (info_offset info) (info_size info) = Some (content, u) ->
         (exists e, may_fail C e) \/ (fst r = 0 /\ data = content /\ ud = u))) s f.
Proof.
  intros Hlev Hurl Hex <- Hnul Hok Hn Hq Hoff Hsz. unfold Read_url.
  rewrite bool_decide_false by done. cbn [default]. change (default (extract st) None) with (extract st).
  rewrite Hex. cbv zeta. unfold bid2filename. rewrite bid2filename_path by done.
  apply wpP_bind, wpP_ret. fold (bundle_path st (info_prefix info) (c_str storage) (info_id info)).
  apply wpP_bind, wpP_new_array; [lia|]. intros heap _.
  apply wpP_bind. eapply wpP_mono.
  { eapply Read_file_wp; [done|rewrite bundle_c_str by done; exact Hn|exact Hq|lia|lia|lia|done]. }
  cbn beta. intros [[r data] u] s2 f2 [[_ Hr] Hl]. apply wpP_ret. split; [done|].
  do 2 eexists. split; [done|]. intros content u' Hrec. rewrite Hrec in Hr.
  destruct Hr as [(c & ud & [= <- <-] & [= -> -> ->]) | (_ & [He | [[=] _]])]; [by right|by left].
Qed.

(** *** Storing through a writer, step by step *)

Section Storing.
Context (st : Setting) (k : nat) (prefix postfix buf storage : bytes) (lock_path : option bytes).
Context (id0 off : Z) (ql q : path) (f0 : fs).

Abbreviation pre := (skip_slash (c_str prefix)).
Abbreviation sto := (c_str storage).
Abbreviation ldir := (lock_dir_of storage lock_path).
Abbreviation id := (id0 + Z.of_nat k).
Abbreviation info := (mkInfo id [] off (size buf) [] pre (c_str postfix)).
Abbreviation wtr := (new_writer st pre (c_str postfix) (size buf) sto ldir None id off).

(** In [f0] a content can be stored after [k] busy bundles, under a readable url. *)
Record storable : Prop := {
  st_ok : fs_ok f0;
  st_levels : levels_ok st;
  st_build : build st = BuildWithEncode;
  st_extract : extract st = ExtractWithEncode;
  st_ready : lock_dir_ready ldir f0;
  st_id0 : 0 <= id0;
  st_id : id < 2 ^ 31;
  st_tries : Z.of_nat k < bundle_count_per_day st;
  st_busy : forall j, id0 <= j < id -> busy st pre (size buf) sto ldir f0 j;
  st_available : exists n0, available st pre (size buf) sto ldir f0 id off ql q n0;
  st_encodable : encodable info = true;
  st_hash : encode_hash info <> 2 ^ 32 - 1;
  st_off : off < 2 ^ 31 - 1;
  st_size : size buf < 2 ^ 31 - 1024 - 512 }.

(** After [Allocate]: nothing changed but the lock and, at most, a new bundle. *)
Definition allocated (f : fs) : Prop :=
  cwd f = cwd f0 /\ fs_ok f /\
  exists n', available st pre (size buf) sto ldir f0 id off ql q n' /\ nodes f = <[ql := NFile []]> n'.

(** The record can be read in the bundle. *)
Definition in_bundle (ud : option bytes) (f : fs) : Prop :=
  fs_ok f /\ namei f (bundle_path st pre sto id) = inr q /\
  exists data heap, nodes f !! q = Some (NFile data) /\ size heap = record_total buf /\
    record_at data off (size buf) = Some (buf, stored_user_data heap ud).

(** The directories of [f0] are still there. *)
Definition kept (f : fs) : Prop :=
  cwd f = cwd f0 /\ forall d, nodes f0 !! d = Some NDir -> nodes f !! d = Some NDir.

(** The lock of the bundle is there. *)
Definition still_locked (f : fs) : Prop :=
  kept f /\
  namei f (c_str (c_str (Allocate.lock_path ldir id))) = inr ql /\ nodes f !! ql = Some (NFile []) /\ ql <> [] /\ q <> ql.

Hypothesis Hst : storable.

Lemma root_no_nul : x00 ∉ PathJoin sto pre.
Proof. apply bundle_root_no_nul. Qed.

Lemma Allocate_calm fuel s : (k < fuel)%nat -> last_id_ s = id0 ->
  wpP benign never (Allocate st fuel prefix postfix (size buf) storage lock_path None)
    (fun wr _ f' => wr = Some wtr /\ allocated f') s f0.
Proof.
  intros Hfuel Hid. pose proof Hst as []. destruct st_available0 as [n0 Hav].
  unfold Allocate. apply wpP_bind, wpP_get_last_id. rewrite Hid.
  destruct (Z.eqb_spec (-1) id0); [lia|]. apply wpP_bind, wpP_ret.
  fold (lock_dir_of storage lock_path). unfold lock_dir_of at 1.
  change (match lock_path with None => _ | Some _ => _ end) with ldir.
  eapply wpP_mono.
  { eapply (allocate_loop_probes st pre (c_str postfix) (size buf) sto ldir None st_levels0 root_no_nul k fuel id0 0);
      try done; lia. }
  cbn beta. intros wr s1 f1 (-> & Ec & Hok & Hn). by split.
Qed.

(** The directories of [f0] and the bundle, as [Allocate] leaves them. *)
Lemma available_bundle n' : available st pre (size buf) sto ldir f0 id off ql q n' ->
  q <> ql /\ ql <> [] /\ (exists b, n' !! q = Some (NFile b) /\ off = size b) /\
  (forall p, nodes f0 !! p = Some NDir -> n' !! p = Some NDir /\ p <> ql /\ p <> q).
Proof.
  intros (Hql & Hqln & Hnb & Hne & Hcase). destruct st_ok as (_ & _ & Hr & _); [done|].
  split; [done|]. split; [intros ->; congruence|].
  destruct Hcase as [(d & Hd & -> & _ & ->) | (Hq & -> & _ & now & ->)].
  - split; [by exists d|]. intros p Hp. split; [done|]. split; intros ->; congruence.
  - split; [exists (preamble now); by rewrite size_preamble, lookup_insert_eq|].
    intros p Hp. rewrite lookup_insert_ne by (intros ->; congruence). split; [done|]. split; intros ->; congruence.
Qed.

(** Paths of [f0] resolve the same where its directories are kept. *)
Lemma path_kept g p r : kept g -> namei f0 p = inr r -> namei g p = inr r.
Proof. intros [Hc Hg] Hn. by eapply (namei_dirs f0). Qed.

Lemma Write_calm S ud s f1 : allocated f1 ->
  wpP benign S (Write wtr buf ud)
    (fun r _ f' => r = (0, size buf) /\ in_bundle ud f' /\ still_locked f') s f1.
Proof.
  intros (Ec1 & Hok1 & n' & Hav & En1). pose proof Hst as [].
  destruct (available_bundle n' Hav) as (Hne & Hql0 & (b & Hb & Hoff) & Hdirs).
  pose proof Hav as (Hql & _ & Hnb & _). pose proof (size_nonneg b).
  unfold Write, Write_url. eapply wpP_mono.
  { eapply (Write_file_benign _ _ _ _ _ _ q b); [exact Hok1| | | | |done].
    - cbn. rewrite bundle_c_str by (done || exact root_no_nul). apply path_kept; [|done]. split; [done|].
      intros d (Hd & Hd1 & _)%Hdirs. by rewrite En1, lookup_insert_ne.
    - by rewrite En1, lookup_insert_ne.
    - cbn. lia.
    - cbn. rewrite i32_small by lia. lia. }
  cbn beta. intros r s2 f2 (-> & _ & heap & Hheap & (En2 & _ & Ec2 & Hok2)). cbn in En2, Hheap.
  assert (kept f2) as Hkept.
  { split; [congruence|]. intros d (Hd & Hd1 & Hd2)%Hdirs. by rewrite En2, En1, !lookup_insert_ne. }
  split; [done|]. split.
  - split; [done|]. split; [by apply path_kept|].
    do 2 eexists. split; [rewrite En2; apply lookup_insert_eq|]. split; [exact Hheap|].
    apply record_at_written; done || lia.
  - split; [done|]. split; [by apply path_kept|]. split; [|done].
    rewrite En2, lookup_insert_ne, En1 by done. apply lookup_insert_eq.
Qed.

Lemma Release_calm S ud s f : in_bundle ud f -> still_locked f ->
  wpP benign S (Release wtr) (fun _ _ f' => in_bundle ud f' /\ nodes f' !! ql = None) s f.
Proof.
  intros (Hok & _ & data & heap & Hq & Hheap & Hrec) ([Hc Hd] & Hql & Hqln & Hql0 & Hne).
  destruct (st_available Hst) as [n0 (_ & _ & Hnb & _)].
  unfold Release. cbn [filelock_ new_writer]. apply wpP_bind. eapply wpP_mono.
  { by eapply (FileLock_delete_wp _ _ _ ql []). }
  cbn beta. intros _ s3 f3 (_ & [-> | [_ [e He]]]); [|by apply benign_no_fail in He].
  apply wpP_ret. pose proof Hok as (Hfd0 & Hfree & Ht).
  split; [|cbn; apply lookup_delete_eq]. split; [|split].
  - unfold unlinked, fs_ok. fs_simpl. split; [done|]. split.
    + intros fd Hfd. by rewrite lookup_fmap, Hfree.
    + by eapply (tree_delete_file _ _ ql []).
  - apply path_kept; [|done]. split; [done|]. intros d Hd0. cbn. rewrite lookup_delete_ne; [by apply Hd|].
    intros <-. apply Hd in Hd0. congruence.
  - exists data, heap. split; [|done]. cbn. by rewrite lookup_delete_ne.
Qed.

Lemma fetch_calm S url ud s f : in_bundle ud f -> c_str url = BuildWithEncode info ->
  wpP benign S (Read_url st url storage None)
    (fun x _ f' => leaves f f' (nodes f) /\ exists heap, size heap = record_total buf /\
       x = (0, Some (buf, stored_user_data heap ud))) s f.
Proof.
  intros (Hok & Hn & data & heap & Hq & Hheap & Hrec) Hurl. pose proof Hst as [].
  destruct (encodable_inv _ st_encodable0) as (_ & Hoff & _).
  eapply wpP_mono.
  { eapply (Read_url_wp benign S st url storage pre (url_fields info Info_init) q data).
    - done.
    - intros ->. cbn in Hurl. unfold BuildWithEncode in Hurl. cbn in Hurl. by destruct pre.
    - rewrite st_extract0, Hurl, ExtractWithEncode_read by done.
      destruct (Z.eqb_spec (encode_hash info) (2 ^ 32 - 1)); done.
    - done.
    - exact root_no_nul.
    - done.
    - exact Hn.
    - exact Hq.
    - cbn in *. lia.
    - cbn. pose proof (size_nonneg buf). lia. }
  cbn beta. intros x s4 f4 (Hl & d & u & Ex & Hread). split; [done|]. exists heap. split; [done|].
  destruct (Hread buf (stored_user_data heap ud)) as [[e He] | (Er & -> & ->)]; [exact Hrec| |].
  - by apply benign_no_fail in He.
  - by rewrite Ex, Er.
Qed.

Lemma writer_url : EnsureUrl wtr = BuildWithEncode info.
Proof. cbn. by rewrite (st_build Hst). Qed.

Lemma url_c_str : c_str (BuildWithEncode info) = BuildWithEncode info.
Proof.
  destruct (encodable_inv _ (st_encodable Hst)) as (Hid & Hoff & Hsz & Hp & Hq & _).
  rewrite BuildWithEncode_encoded by done. apply bool_decide_eq_true_1 in Hp, Hq.
  apply c_str_id. unfold encoded.
  rewrite not_elem_of_app. split; [done|].
  rewrite not_elem_of_app. split; [by apply (bool_decide_eq_false_1 _)|].
  rewrite not_elem_of_app. split; [|done].
  pose proof (encode_hash_range info). apply sixty_middle_free; cbn in *; [by left|lia..].
Qed.
End Storing.

(** What a client does to store one content and fetch it back by its url. *)
Definition store_and_fetch (st : Setting) (fuel : nat) (prefix postfix buf u storage : bytes)
    (lock_path : option bytes) : P (option (Z * Z * (Z * option (bytes * bytes)))) :=
  w ← Allocate st fuel prefix postfix (size buf) storage lock_path None;
  match w with
  | None => mret None
  | Some w =>
      r ← Write w buf (Some u);
      Release w;;
      x ← Read_url st (EnsureUrl w) storage None;
      mret (Some (r, x))
  end.

(** C2: The life of a record on a calm system, from [Allocate] to [Read]: a
    content stored through a writer is returned, with its user data, by
    reading the url the writer gives for it, after the lock is released;
    provided the url is readable (well-formed fields, and a hash that is not
    the reserved 2^32 - 1). *)
Theorem store_and_fetch_correct {W} `{Posix W benign} (st : Setting) (k : nat)
    (prefix postfix buf u storage : bytes) (lock_path : option bytes)
    (off : Z) (ql q : path) (n0 : gmap path node) (s : proc) (w : W) :
  let pre := skip_slash (c_str prefix) in
  let sto := c_str storage in
  let ldir := lock_dir_of storage lock_path in
  let id := last_id_ s + Z.of_nat k in
  let info := mkInfo id [] off (size buf) [] pre (c_str postfix) in
  fs_ok (view w) -> levels_ok st -> build st = BuildWithEncode -> extract st = ExtractWithEncode ->
  lock_dir_ready ldir (view w) ->
  0 <= last_id_ s -> id < 2 ^ 31 -> Z.of_nat k < bundle_count_per_day st ->
  (forall j, last_id_ s <= j < id -> busy st pre (size buf) sto ldir (view w) j) ->
  available st pre (size buf) sto ldir (view w) id off ql q n0 ->
  encodable info = true -> encode_hash info <> 2 ^ 32 - 1 ->
  off < 2 ^ 31 - 1 -> size buf < 2 ^ 31 - 1024 - 512 -> size u = kUserDataSize ->
  fst (fst (runP (store_and_fetch st (S k) prefix postfix buf u storage lock_path) s w)) =
    inr (Some ((0, size buf), (0, Some (buf, u)))).
Proof.
  cbv zeta. intros Hok Hlev Hbuild Hextract Hready Hid Hid31 Hk Hbusy Hav Henc Hhash Hoff Hsz Hu.
  assert (storable st k prefix postfix buf storage lock_path (last_id_ s) off ql q (view w)) as Hst
    by (split; eauto).
  apply wpP_result. unfold store_and_fetch. apply wpP_bind. eapply wpP_mono; [by eapply Allocate_calm; [done|lia|..]|].
  cbn beta. intros wr s1 f1 (-> & Hal). apply wpP_bind. eapply wpP_mono; [by eapply Write_calm|].
  cbn beta. intros r s2 f2 (-> & Hin & Hlk). apply wpP_bind. eapply wpP_mono; [by eapply Release_calm|].
  cbn beta. intros _ s3 f3 [Hin3 _]. rewrite (writer_url _ _ _ _ _ _ _ _ _ _ _ _ Hst). apply wpP_bind.
  eapply wpP_mono; [eapply fetch_calm; [done|done|by eapply url_c_str]|].
  cbn beta. intros x s4 f4 (_ & heap & Hheap & ->). apply wpP_ret. do 5 f_equal.
  by apply stored_user_data_full.
Qed.

(** ** Concrete runs *)

Definition zero8 : bytes := bs "00000000".

(** A storage where bundle 0 is locked and bundle 1 exists. *)
Definition storage_fs : fs :=
  Fs {[ [] := NDir; [bs "s"] := NDir; [bs "s"; bs ".lock"] := NDir;
        [bs "s"; bs ".lock"; bs "0"] := NFile [];
        [bs "s"; bs "p"] := NDir; [bs "s"; bs "p"; zero8] := NDir;
        [bs "s"; bs "p"; zero8; bs "00000001"] := NFile (replicate 1024 x00) ]} ∅ 3 [].

Lemma storage_fs_ok : fs_ok storage_fs.
Proof. apply fs_ok_fresh; [lia|vm_compute; reflexivity]. Qed.

Lemma default_levels : levels_ok g_default_setting.
Proof. by split. Qed.

Lemma storage_lock_dir_ready : lock_dir_ready (lock_dir_of (bs "/s") None) storage_fs.
Proof. exists [bs "s"; bs ".lock"], NDir. split; vm_compute; reflexivity. Qed.

Lemma storage_busy size j :
  0 <= j < 0 + Z.of_nat 1 ->
  busy g_default_setting (bs "p") size (bs "/s") (lock_dir_of (bs "/s") None) storage_fs j.
Proof.
  intros Hj. assert (j = 0) as -> by lia. exists [bs "s"; bs ".lock"; bs "0"].
  split; [vm_compute; reflexivity|]. left. eexists. vm_compute. reflexivity.
Qed.

Lemma storage_available :
  available g_default_setting (bs "p") 5 (bs "/s") (lock_dir_of (bs "/s") None) storage_fs
    (0 + Z.of_nat 1) 1024 [bs "s"; bs ".lock"; bs "1"] [bs "s"; bs "p"; zero8; bs "00000001"]
    (nodes storage_fs).
Proof.
  split; [vm_compute; reflexivity|]. split; [vm_compute; reflexivity|].
  split; [vm_compute; reflexivity|]. split; [done|]. left. exists (replicate 1024 x00).
  split; [vm_compute; reflexivity|]. split; [vm_compute; reflexivity|].
  split; [vm_compute; reflexivity|reflexivity].
Qed.

Lemma Allocate_probes_witness :
  match runP (C := benign) (Allocate g_default_setting 2 (bs "/p") (bs ".jpg") 5 (bs "/s") None None)
    (Proc 0 0) (MkLocal storage_fs []) with
  | (inr (Some wr), _, _) => info_id (info_ wr) = 1 /\ info_offset (info_ wr) = 1024
  | _ => False
  end.
Proof.
  pose proof (Allocate_probes (H := calm_local) g_default_setting 1 (bs "/p") (bs ".jpg") 5 (bs "/s")
    None None 1024 _ _ _ (Proc 0 0) (MkLocal storage_fs []) storage_fs_ok default_levels
    storage_lock_dir_ready ltac:(cbn [last_id_]; lia) ltac:(reflexivity) ltac:(reflexivity) (storage_busy 5)
    storage_available) as Hr.
  destruct (runP _ _ _) as [[[e|r] s'] w']; [exact Hr|]. destruct Hr as [-> _]. split; reflexivity.
Defined.

Lemma store_and_fetch_correct_witness :
  fst (fst (runP (C := benign) (store_and_fetch g_default_setting 2 (bs "/p") (bs ".jpg") (bs "hello")
    (replicate 240 x07) (bs "/s") None) (Proc 0 0) (MkLocal storage_fs []))) =
  inr (Some ((0, size (bs "hello")), (0, Some (bs "hello", replicate 240 x07)))).
Proof.
  apply (store_and_fetch_correct (H := calm_local) g_default_setting 1 (bs "/p") (bs ".jpg")
    (bs "hello") (replicate 240 x07) (bs "/s") None 1024 _ _ _ (Proc 0 0) (MkLocal storage_fs [])
    storage_fs_ok default_levels eq_refl eq_refl storage_lock_dir_ready ltac:(cbn [last_id_]; lia)
    ltac:(reflexivity) ltac:(reflexivity) (storage_busy 5) storage_available
    ltac:(vm_compute; reflexivity) ltac:(vm_compute; congruence) ltac:(lia) ltac:(reflexivity)
    ltac:(reflexivity)).
Defined.

Lemma Allocate_safe_witness :
  match runP (C := any_choice) (Allocate g_default_setting 3 (bs "/p") (bs ".jpg") 5 (bs "/s") None None)
    (Proc 0 0) (MkLocal storage_fs [quiet; quiet; quiet; Choice (Some EACCES) None 0 []]) with
  | (inr _, _, w') => extends storage_fs (local_fs w')
  | (inl e, _, _) => e = Fuel
  end.
Proof.
  pose proof (Allocate_safe (H := faulty_local) g_default_setting 3 (bs "/p") (bs ".jpg") 5 (bs "/s")
    None None (Proc 0 0) (MkLocal storage_fs [quiet; quiet; quiet; Choice (Some EACCES) None 0 []])
    storage_fs_ok default_levels) as Hr.
  destruct (runP _ _ _) as [[[e|r] s'] w']; apply Hr; repeat constructor; discriminate.
Defined.

(** Two processes that take turns on the same storage. *)
Definition two_allocators : list (prog ((stop + option Writer) * proc)) :=
  [Allocate g_default_setting 3 (bs "p") (bs ".jpg") 5 (bs "/s") None None (Proc 0 1);
   Allocate g_default_setting 3 (bs "p") (bs ".txt") 9 (bs "/s") None None (Proc 0 1)].

Lemma two_allocators_allocating :
  Forall (allocating g_default_setting [] (lock_dir_of (bs "/s") None)) two_allocators.
Proof.
  assert (bundles_not_locks g_default_setting [] (bs "/s") (bs "p") (lock_dir_of (bs "/s") None)) as Hn.
  { apply bundles_not_locks_depth; [apply default_levels|apply (bool_decide_eq_false_1 _); reflexivity
      |reflexivity|reflexivity| | |vm_compute; lia]; vm_compute; repeat constructor; discriminate. }
  repeat constructor; do 8 eexists; (split; [reflexivity|]); by split.
Qed.

(** The calls of the first process until it has its writer, mixed with those of
    the second, which finds bundle 1 locked and goes on to make bundle 2. *)
Definition two_turns : config ((stop + option Writer) * proc) :=
  run_schedule (map (fun i => (i, quiet)) ([0; 1; 0; 1; 0] ++ replicate 12 1)%nat)
    (Config storage_fs two_allocators).

(** The id of the writer a finished process has. *)
Definition writer_id (p : option (prog ((stop + option Writer) * proc))) : option Z :=
  match p with Some (Ret (inr (Some w), _)) => Some (info_id (info_ w)) | _ => None end.

Example two_turns_ids :
  writer_id (threads two_turns !! 0%nat) = Some 1 /\ writer_id (threads two_turns !! 1%nat) = Some 2.
Proof. split; vm_compute; reflexivity. Qed.

Lemma writer_id_inv p i :
  writer_id p = Some i -> exists w s, p = Some (Ret (inr (Some w), s)) /\ info_id (info_ w) = i.
Proof.
  destruct p as [[[[e|[w|]] s]|]|]; cbn; try done. intros [= <-]. by exists w, s.
Qed.

Lemma Allocate_exclusive_witness :
  exists w1 w2 s1 s2,
    threads two_turns !! 0%nat = Some (Ret (inr (Some w1), s1)) /\
    threads two_turns !! 1%nat = Some (Ret (inr (Some w2), s2)) /\ info_id (info_ w1) <> info_id (info_ w2).
Proof.
  destruct two_turns_ids as [H0 H1].
  destruct (writer_id_inv _ _ H0) as (w1 & s1 & E1 & _).
  destruct (writer_id_inv _ _ H1) as (w2 & s2 & E2 & _).
  exists w1, w2, s1, s2. split; [exact E1|]. split; [exact E2|].
  apply (Allocate_exclusive g_default_setting [] (lock_dir_of (bs "/s") None) storage_fs
    two_allocators two_turns 0 1 w1 w2 s1 s2 eq_refl two_allocators_allocating
    (run_schedule_steps _ _) E1 E2 ltac:(discriminate)).
Defined.

(** The first use of an empty storage makes the lock directory, the bundle's
    directory and the bundle itself. *)
Example Allocate_empty_storage :
  match runP (C := benign) (Allocate g_default_setting 1 (bs "/p/20120512") (bs ".jpg") 5 (bs "/s") None None)
    (Proc 0 0) (MkLocal root_fs []) with
  | (inr (Some wr), _, w') =>
      EnsureUrl wr = bs "p/20120512/A_SE_F_DWNjvZ.jpg" /\
      file_at (local_fs w') (bs "/s/.lock/0") = Some [] /\
      option_map size (file_at (local_fs w') (bs "/s/p/20120512/00000000/00000000")) = Some 1024
  | _ => False
  end.
Proof. vm_compute. repeat split. Qed.

(** When [lstat] fails with anything but [ENOENT] the lock object is dropped
    without being released: no writer, and the bundle stays locked. *)
Example Allocate_leaks_lock :
  match runP (C := any_choice) (Allocate g_default_setting 1 (bs "/p") (bs ".jpg") 5 (bs "/s") None None)
    (Proc 0 1) (MkLocal storage_fs [quiet; quiet; Choice (Some EACCES) None 0 []]) with
  | (inl Fuel, p, w') =>
      last_id_ p = 2 /\ file_at storage_fs (bs "/s/.lock/1") = None /\
      file_at (local_fs w') (bs "/s/.lock/1") = Some []
  | _ => False
  end.
Proof. vm_compute. repeat split. Qed.

(** A prefix that climbs out of a missing directory makes [lstat] report
    [ENOENT] for a bundle that exists; once [mkdirs] has made the directory,
    [CreateBundle] truncates that bundle. *)
Example Allocate_dotdot_truncates :
  let f := Fs {[ [] := NDir; [bs "s"] := NDir; [bs "s"; bs "p"] := NDir; [bs "s"; bs "p"; zero8] := NDir;
                 [bs "s"; bs "p"; zero8; zero8] := NFile (replicate 3000 x01) ]} ∅ 3 [] in
  match runP (C := benign) (Allocate g_default_setting 1 (bs "x/../p") (bs ".jpg") 5 (bs "/s") None None)
    (Proc 0 0) (MkLocal f []) with
  | (inr (Some wr), _, w') =>
      option_map size (file_at f (bs "/s/p/00000000/00000000")) = Some 3000 /\
      option_map size (file_at (local_fs w') (bs "/s/p/00000000/00000000")) = Some 1024
  | _ => False
  end.
Proof. vm_compute. repeat split. Qed.
