(* ===== verification/Datapack.v ===== *)
(** * Packing integers into messages (src/moosefs/datapack.h)

    The [put] functions write at a moving pointer: here the bytes written so
    far.  The [get] functions read at a moving pointer: here the bytes from
    the pointer to the end of the memory it points into; reading past that
    end is [None].  The readers add up [int]s, which for a leading byte from
    128 on overflow; they are taken to wrap. *)

From S2P Require Import Prelude CString.

Definition put64bit (w : bytes) (val : Z) : bytes :=
  w ++ [byt (Z.land (Z.shiftr val 56) 0xFF); byt (Z.land (Z.shiftr val 48) 0xFF);
        byt (Z.land (Z.shiftr val 40) 0xFF); byt (Z.land (Z.shiftr val 32) 0xFF);
        byt (Z.land (Z.shiftr val 24) 0xFF); byt (Z.land (Z.shiftr val 16) 0xFF);
        byt (Z.land (Z.shiftr val 8) 0xFF); byt (Z.land val 0xFF)].

Definition put32bit (w : bytes) (val : Z) : bytes :=
  w ++ [byt (Z.land (Z.shiftr val 24) 0xFF); byt (Z.land (Z.shiftr val 16) 0xFF);
        byt (Z.land (Z.shiftr val 8) 0xFF); byt (Z.land val 0xFF)].

Definition put16bit (w : bytes) (val : Z) : bytes :=
  w ++ [byt (Z.land (Z.shiftr val 8) 0xFF); byt (Z.land val 0xFF)].

Definition put8bit (w : bytes) (val : Z) : bytes := w ++ [byt (Z.land val 0xFF)].

Definition get64bit (r : bytes) : option (Z * bytes) :=
  match r with
  | b0 :: b1 :: b2 :: b3 :: b4 :: b5 :: b6 :: b7 :: r =>
      let t64 := u64 (i32 (bval b3 + 256 * (bval b2 + 256 * (bval b1 + 256 * bval b0)))) in
      let t64 := u64 (Z.shiftl t64 32) in
      let t64 := Z.lor t64
        (Z.land (u32 (i32 (bval b7 + 256 * (bval b6 + 256 * (bval b5 + 256 * bval b4)))))
                0xffffffff) in
      Some (t64, r)
  | _ => None
  end.

Definition get32bit (r : bytes) : option (Z * bytes) :=
  match r with
  | b0 :: b1 :: b2 :: b3 :: r =>
      Some (u32 (i32 (bval b3 + 256 * (bval b2 + 256 * (bval b1 + 256 * bval b0)))), r)
  | _ => None
  end.

Definition get16bit (r : bytes) : option (Z * bytes) :=
  match r with
  | b0 :: b1 :: r => Some (u16 (bval b1 + 256 * bval b0), r)
  | _ => None
  end.

Definition get8bit (r : bytes) : option (Z * bytes) :=
  match r with b0 :: r => Some (u8 (bval b0), r) | [] => None end.

(** ** Big-endian words *)

(** The bytes of a [n]-byte word, most significant first. *)
Fixpoint be (n : nat) (v : Z) : bytes :=
  match n with O => [] | S n => byt (Z.shiftr v (8 * Z.of_nat n)) :: be n v end.

Lemma length_be n v : length (be n v) = n.
Proof. by induction n as [|n IH]; cbn; [|rewrite IH]. Qed.

Lemma size_be n v : size (be n v) = Z.of_nat n.
Proof. unfold size. by rewrite length_be. Qed.

Lemma byt_land v : byt (Z.land v 0xFF) = byt v.
Proof.
  change 0xFF with (Z.ones 8). rewrite Z.land_ones by lia.
  rewrite <- (byt_bval (byt v)), byte.unsigned_of_Z. done.
Qed.

Lemma bval_byt_mod v : bval (byt v) = v mod 256.
Proof. apply byte.unsigned_of_Z. Qed.

Lemma put64bit_be w v : put64bit w v = w ++ be 8 v.
Proof. unfold put64bit. by rewrite !byt_land. Qed.

Lemma put32bit_be w v : put32bit w v = w ++ be 4 v.
Proof. unfold put32bit. by rewrite !byt_land. Qed.

Lemma put16bit_be w v : put16bit w v = w ++ be 2 v.
Proof. unfold put16bit. by rewrite !byt_land. Qed.

Lemma put8bit_be w v : put8bit w v = w ++ be 1 v.
Proof. unfold put8bit. by rewrite !byt_land. Qed.

(** Four bytes added up are the low word. *)
Lemma sum_be v :
  (v mod 256 + 256 * (Z.shiftr v 8 mod 256 + 256 * (Z.shiftr v 16 mod 256 +
     256 * (Z.shiftr v 24 mod 256)))) = u32 v.
Proof.
  rewrite !Z.shiftr_div_pow2 by lia. unfold wrap.
  change (2 ^ 32) with 4294967296. change (2 ^ 24) with 16777216.
  change (2 ^ 16) with 65536. change (2 ^ 8) with 256.
  Z.to_euclidean_division_equations. lia.
Qed.

Lemma get32bit_be v r : get32bit (be 4 v ++ r) = Some (u32 v, r).
Proof.
  cbn -[Z.mul]. rewrite !bval_byt_mod.
  change (8 * Z.of_nat 0) with 0. change (8 * Z.of_nat 1) with 8.
  change (8 * Z.of_nat 2) with 16. change (8 * Z.of_nat 3) with 24.
  rewrite Z.shiftr_0_r, sum_be, wrap_swrap, wrap_wrap by lia. done.
Qed.

Lemma get16bit_be v r : get16bit (be 2 v ++ r) = Some (u16 v, r).
Proof.
  cbn -[Z.mul]. rewrite !bval_byt_mod.
  change (8 * Z.of_nat 0) with 0. change (8 * Z.of_nat 1) with 8.
  rewrite Z.shiftr_0_r, Z.shiftr_div_pow2 by lia. do 2 f_equal. unfold wrap.
  change (2 ^ 16) with 65536. change (2 ^ 8) with 256.
  Z.to_euclidean_division_equations. lia.
Qed.

Lemma get8bit_be v r : get8bit (be 1 v ++ r) = Some (u8 v, r).
Proof.
  cbn -[Z.mul]. rewrite bval_byt_mod. change (8 * Z.of_nat 0) with 0.
  rewrite Z.shiftr_0_r. change (v mod 256) with (u8 v). by rewrite wrap_wrap.
Qed.

Lemma get64bit_be v r : get64bit (be 8 v ++ r) = Some (u64 v, r).
Proof.
  cbn -[Z.mul Z.lor Z.land Z.shiftl]. rewrite !bval_byt_mod.
  change (8 * Z.of_nat 0) with 0. change (8 * Z.of_nat 1) with 8.
  change (8 * Z.of_nat 2) with 16. change (8 * Z.of_nat 3) with 24.
  change (8 * Z.of_nat 4) with 32. change (8 * Z.of_nat 5) with (8 + 32).
  change (8 * Z.of_nat 6) with (16 + 32). change (8 * Z.of_nat 7) with (24 + 32).
  rewrite !(Z.add_comm _ 32). rewrite <- !(Z.shiftr_shiftr v 32) by lia.
  rewrite Z.shiftr_0_r, !sum_be.
  rewrite wrap_swrap, wrap_wrap by lia.
  do 2 f_equal. rewrite (Z.land_ones _ 32) by lia. fold (wrap 32 (u32 v)). rewrite wrap_wrap.
  rewrite Z.lor_comm. rewrite Z.shiftl_mul_pow2 by lia.
  assert (u64 (u64 (i32 (u32 (Z.shiftr v 32))) * 2 ^ 32) =
          Z.shiftl (u32 (Z.shiftr v 32)) 32) as ->.
  { rewrite Z.shiftl_mul_pow2 by lia. unfold wrap at 1. change 64 with (32 + 32).
    rewrite Z.pow_add_r, Z.mul_mod_distr_r by lia. f_equal.
    change (u32 (u64 (i32 (u32 (Z.shiftr v 32)))) = u32 (Z.shiftr v 32)).
    assert (forall z, u32 (u64 z) = u32 z) as E.
    { intros z. unfold wrap. change 64 with (32 + 32). rewrite Z.pow_add_r by lia.
      rewrite Z.rem_mul_r by lia. rewrite Z.mul_comm, Z.mod_add by lia. by apply Z.mod_mod. }
    by rewrite E, wrap_swrap, wrap_wrap by lia. }
  rewrite lor_shiftl_add by (pose proof (wrap_range 32 v); lia).
  rewrite Z.shiftr_div_pow2 by lia. unfold wrap. change 64 with (32 + 32).
  rewrite Z.pow_add_r, Z.rem_mul_r by lia. lia.
Qed.

(** What the writers put, the readers get back, whatever follows: values
    of the full width of each word. *)
Theorem get_put (a b c d : Z) (rest : bytes) :
  0 <= a < 2 ^ 64 -> 0 <= b < 2 ^ 32 -> 0 <= c < 2 ^ 16 -> 0 <= d < 2 ^ 8 ->
  (r ← get64bit (put8bit (put16bit (put32bit (put64bit [] a) b) c) d ++ rest);
   let '(a', r) := r in
   r ← get32bit r; let '(b', r) := r in
   r ← get16bit r; let '(c', r) := r in
   r ← get8bit r; let '(d', r) := r in
   Some (a', b', c', d', r)) = Some (a, b, c, d, rest).
Proof.
  intros Ha Hb Hc Hd. rewrite put64bit_be, put32bit_be, put16bit_be, put8bit_be.
  rewrite <- !app_assoc, app_nil_l, get64bit_be. cbn [mbind option_bind].
  rewrite get32bit_be. cbn [mbind option_bind]. rewrite get16bit_be. cbn [mbind option_bind].
  rewrite get8bit_be. cbn [mbind option_bind]. by rewrite !wrap_small.
Qed.

Lemma get_put_witness :
  (r ← get64bit (put8bit (put16bit (put32bit (put64bit [] (2 ^ 64 - 1)) 0x80000000) 7) 255 ++ bs "x");
   let '(a', r) := r in
   r ← get32bit r; let '(b', r) := r in
   r ← get16bit r; let '(c', r) := r in
   r ← get8bit r; let '(d', r) := r in
   Some (a', b', c', d', r)) = Some (2 ^ 64 - 1, 0x80000000, 7, 255, bs "x").
Proof. apply (get_put (2 ^ 64 - 1) 0x80000000 7 255 (bs "x")); lia. Defined.
