(* ===== verification/Net.v ===== *)
(** * The network the program runs on

    The calls the MooseFS client makes ([nsys]), the interface a network has
    to keep ([Network]: POSIX's promises about the results of [read] and
    [new]; everything else, refusals, fragmentation and lies of the peer
    included, is up to the network), and the monad [N] of programs that make
    such calls: state passing with the ways a process may stop.

    A call that blocks for ever is not modelled; it has to return. *)

From S2P Require Import Prelude CString.

Record sockaddr := SockAddr { sin_addr : Z; sin_port : Z }.

#[export] Instance sockaddr_eq_decision : EqDecision sockaddr.
Proof. solve_decision. Defined.

Inductive nsys : Type -> Type :=
| NSocket : nsys Z
| NConnect (fd : Z) (addr : sockaddr) : nsys Z
| NWrite (fd : Z) (data : bytes) : nsys Z
| NRead (fd n : Z) : nsys (Z * bytes)    (* the result and what was stored *)
| NShutdown (fd : Z) : nsys unit
| NClose (fd : Z) : nsys unit
| NSleep (seconds : Z) : nsys unit
| NTime : nsys Z
| NNew (n : Z) : nsys bytes.             (* uninitialised memory *)

Class Network (W : Type) := {
  nhandle : forall X, nsys X -> W -> X * W;
  nread_ok : forall fd n w, 0 <= n ->
    let '(r, d) := fst (nhandle _ (NRead fd n) w) in
    (r = -1 /\ d = []) \/ (r = size d /\ size d <= n);
  nnew_ok : forall n w, 0 <= n -> size (fst (nhandle _ (NNew n) w)) = n }.
Arguments nhandle {W _ X}.

(** ** Programs *)

(** How a process ends before its time: a failed [ASSERT] of a debug build, an
    exception nobody catches, undefined behaviour, or the step bound of a loop
    reached. *)
Inductive nstop := Trap | Exn | Undef | Fuel.

Definition N (St W A : Type) : Type := St -> W -> (nstop + A) * (St * W).

Section Monad.
Context {St W : Type}.

#[export] Instance N_ret : MRet (N St W) := fun A a s w => (inr a, (s, w)).
#[export] Instance N_bind : MBind (N St W) := fun A B k m s w =>
  match m s w with
  | (inr a, (s, w)) => k a s w
  | (inl e, sw) => (inl e, sw)
  end.

Definition nhalt {A} (e : nstop) : N St W A := fun s w => (inl e, (s, w)).
Definition get_state : N St W St := fun s w => (inr s, (s, w)).
Definition put_state (s : St) : N St W unit := fun _ w => (inr tt, (s, w)).
Definition ncall `{Network W} {X} (c : nsys X) : N St W X := fun s w =>
  let '(x, w) := nhandle c w in (inr x, (s, w)).
(** Reading through a pointer: past the end of the memory is undefined. *)
Definition ptr_get {A} (o : option A) : N St W A :=
  match o with Some a => mret a | None => nhalt Undef end.

(** ** Reasoning *)

(** [m] stops only in the ways [S] allows, and otherwise ends in [Q]. *)
Definition wpN {A} (S : nstop -> Prop) (m : N St W A) (Q : A -> St -> W -> Prop)
    (s : St) (w : W) : Prop :=
  match m s w with
  | (inr a, (s, w)) => Q a s w
  | (inl e, _) => S e
  end.

Context (S : nstop -> Prop).

Lemma wpN_ret {A} (a : A) Q s w : Q a s w -> wpN S (mret a) Q s w.
Proof. done. Qed.

Lemma wpN_bind {A B} (m : N St W A) (k : A -> N St W B) Q s w :
  wpN S m (fun a s w => wpN S (k a) Q s w) s w -> wpN S (mbind k m) Q s w.
Proof.
  unfold wpN, mbind, N_bind. destruct (m s w) as [[e|a] [s' w']]; [done|].
  by destruct (k a s' w') as [[e|b] [? ?]].
Qed.

Lemma wpN_mono {A} (m : N St W A) (Q R : A -> St -> W -> Prop) s w :
  wpN S m Q s w -> (forall a s w, Q a s w -> R a s w) -> wpN S m R s w.
Proof. unfold wpN. destruct (m s w) as [[e|a] [s' w']]; auto. Qed.

Lemma wpN_halt {A} e (Q : A -> St -> W -> Prop) s w : S e -> wpN S (nhalt e) Q s w.
Proof. done. Qed.

Lemma wpN_get Q s w : Q s s w -> wpN S get_state Q s w.
Proof. done. Qed.

Lemma wpN_put s' Q s w : Q tt s' w -> wpN S (put_state s') Q s w.
Proof. done. Qed.

Lemma wpN_ptr_get {A} (a : A) Q s w : Q a s w -> wpN S (ptr_get (Some a)) Q s w.
Proof. done. Qed.

Lemma wpN_call `{Network W} {X} (c : nsys X) Q s w :
  Q (fst (nhandle c w)) s (snd (nhandle c w)) -> wpN S (ncall c) Q s w.
Proof. unfold wpN, ncall. by destruct (nhandle c w). Qed.

(** What the network promises of the two calls it promises anything of. *)
Lemma wpN_read `{Network W} fd n Q s w :
  0 <= n ->
  (forall r d w', (r = -1 /\ d = []) \/ (r = size d /\ size d <= n) -> Q (r, d) s w') ->
  wpN S (ncall (NRead fd n)) Q s w.
Proof.
  intros Hn HQ. apply wpN_call. pose proof (nread_ok fd n w Hn) as Hr.
  destruct (nhandle (NRead fd n) w) as [[r d] w']. by apply HQ.
Qed.

Lemma wpN_new `{Network W} n Q s w :
  0 <= n -> (forall d w', size d = n -> Q d s w') -> wpN S (ncall (NNew n)) Q s w.
Proof. intros Hn HQ. apply wpN_call, HQ, nnew_ok, Hn. Qed.
End Monad.

(** One step of a program: the sequencing, the state, the pure steps. *)
Ltac nstep_basic :=
  cbv beta; lazymatch goal with
  | |- wpN _ (mbind _ _) _ _ _ => apply wpN_bind
  | |- wpN _ (mret _) _ _ _ => apply wpN_ret
  | |- wpN _ get_state _ _ _ => apply wpN_get
  | |- wpN _ (put_state _) _ _ _ => apply wpN_put
  | |- wpN _ (ptr_get (Some _)) _ _ _ => apply wpN_ptr_get
  end; cbv beta iota.

(** The same after a test on constants; a test that follows is left alone. *)
Ltac nstep :=
  cbv beta; lazymatch goal with
  | |- wpN _ (if ?c then _ else _) _ _ _ =>
      let b := eval vm_compute in c in
      lazymatch b with true => change c with true | false => change c with false end; cbv iota;
      lazymatch goal with |- wpN _ (if _ then _ else _) _ _ _ => idtac | |- _ => nstep_basic end
  | |- _ => nstep_basic
  end.

Definition nnever (e : nstop) : Prop := False.
Definition nany (e : nstop) : Prop := True.

Lemma wpN_nany {St W A} (m : N St W A) s w : wpN nany m (fun _ _ _ => True) s w.
Proof. unfold wpN. by destruct (m s w) as [[e|a] [s' w']]. Qed.

(** Enough: a run that is known to end in [Q] does end. *)
Lemma wpN_result {St W A} (m : N St W A) Q s w :
  wpN nnever m Q s w -> exists a s' w', m s w = (inr a, (s', w')) /\ Q a s' w'.
Proof.
  unfold wpN. destruct (m s w) as [[e|a] [s' w']]; [done|]. intros HQ. by exists a, s', w'.
Qed.
