(* ===== verification/Servers.v ===== *)
(** * A network of servers

    The network the functional theorems about the MooseFS client are stated
    on.  [Service] is what answers: packets in, bytes out, for every address
    that accepts connections; it is a parameter everywhere.  A [world] holds
    the state of the servers, the connections, a clock, and scripts for what a
    network is free to do: how it fragments what a [read] returns, and what
    uninitialised memory holds.  Theorems are about the [net], the part of a
    world without the scripts, and hold for every script ([wpV]). *)

From S2P Require Import Prelude CString Posix Datapack Net.

(** ** Packets *)

(** type:32 length:32 data *)
Definition packet (cmd : Z) (data : bytes) : bytes := be 4 cmd ++ be 4 (size data) ++ data.

(** The complete packets a byte sequence starts with, and the rest. *)
Fixpoint packets (fuel : nat) (b : bytes) : list (Z * bytes) * bytes :=
  match fuel with
  | O => ([], b)
  | S fuel =>
      match get32bit b with
      | Some (cmd, r) =>
          match get32bit r with
          | Some (len, r) =>
              if size r <? len then ([], b)
              else
                let '(ps, rest) := packets fuel (drop (Z.to_nat len) r) in
                ((cmd, take (Z.to_nat len) r) :: ps, rest)
          | None => ([], b)
          end
      | None => ([], b)
      end
  end.

Class Service (S : Type) := {
  accepts : sockaddr -> bool;
  serve : sockaddr -> S -> Z -> bytes -> S * bytes }.

(** ** The world *)

Record conn := mkConn {
  peer : option sockaddr;
  inbox : bytes;       (* sent by the server, not read yet *)
  outbox : bytes }.    (* the beginning of a packet *)

Record net (S : Type) := mkNet {
  servers : S;
  conns : gmap Z conn;
  next_sock : Z;
  clock : Z }.
Arguments mkNet {S}. Arguments servers {S}. Arguments conns {S}.
Arguments next_sock {S}. Arguments clock {S}.

Record world (S : Type) := mkWorld {
  the_net : net S;
  cuts : list nat;
  junk : list bytes }.
Arguments mkWorld {S}. Arguments the_net {S}. Arguments cuts {S}. Arguments junk {S}.

Definition set_conns {S} (c : gmap Z conn) (n : net S) : net S :=
  mkNet (servers n) c (next_sock n) (clock n).
Definition set_servers {S} (s : S) (n : net S) : net S :=
  mkNet s (conns n) (next_sock n) (clock n).

Section World.
Context {S : Type} `{Service S}.

Fixpoint serve_all (a : sockaddr) (s : S) (ps : list (Z * bytes)) : S * bytes :=
  match ps with
  | [] => (s, [])
  | (cmd, data) :: ps =>
      let '(s, out) := serve a s cmd data in
      let '(s, outs) := serve_all a s ps in
      (s, out ++ outs)
  end.

(** Writing to a connection: the server answers every packet completed. *)
Definition net_write (fd : Z) (data : bytes) (n : net S) : Z * net S :=
  match conns n !! fd with
  | Some (mkConn (Some a) i o) =>
      let '(ps, rest) := packets (length (o ++ data)) (o ++ data) in
      let '(s, out) := serve_all a (servers n) ps in
      (size data, mkNet s (<[fd := mkConn (Some a) (i ++ out) rest]> (conns n)) (next_sock n) (clock n))
  | _ => (-1, n)
  end.

(** Reading at most [k] bytes, [1 <= k]; an empty inbox is the end. *)
Definition net_read (fd k : Z) (n : net S) : Z * bytes * net S :=
  match conns n !! fd with
  | Some (mkConn p i o) =>
      let data := take (Z.to_nat k) i in
      (size data, data, set_conns (<[fd := mkConn p (drop (Z.to_nat k) i) o]> (conns n)) n)
  | None => (-1, [], n)
  end.

Definition net_connect (fd : Z) (a : sockaddr) (n : net S) : Z * net S :=
  match conns n !! fd with
  | Some c =>
      if accepts a then (0, set_conns (<[fd := mkConn (Some a) [] []]> (conns n)) n) else (-1, n)
  | None => (-1, n)
  end.

Definition with_net {X} (w : world S) (r : X * net S) : X * world S :=
  (fst r, mkWorld (snd r) (cuts w) (junk w)).

Definition world_handle (X : Type) (c : nsys X) (w : world S) : X * world S :=
  let n := the_net w in
  match c in nsys X return X * world S with
  | NSocket =>
      with_net w (next_sock n,
        mkNet (servers n) (<[next_sock n := mkConn None [] []]> (conns n)) (next_sock n + 1) (clock n))
  | NConnect fd a => with_net w (net_connect fd a n)
  | NWrite fd data => with_net w (net_write fd data n)
  | NRead fd k =>
      let cut := Z.of_nat (Datatypes.S (default (Z.to_nat k) (head (cuts w)))) in
      let '(r, n) := net_read fd (Z.min k cut) n in
      (r, mkWorld n (tail (cuts w)) (junk w))
  | NShutdown fd => (tt, w)
  | NClose fd => with_net w (tt, set_conns (delete fd (conns n)) n)
  | NSleep s => with_net w (tt, mkNet (servers n) (conns n) (next_sock n) (clock n + Z.max s 0))
  | NTime => (clock n, w)
  | NNew k => (resize (Z.to_nat k) (default [] (head (junk w))), mkWorld n (cuts w) (tail (junk w)))
  end.

#[export] Program Instance world_network : Network (world S) := {| nhandle := world_handle |}.
Next Obligation.
  intros fd n w Hn. cbn. unfold net_read. destruct (conns (the_net w) !! fd) as [[p i o]|]; cbn.
  - right. split; [done|]. unfold size. len.
  - by left.
Qed.
Next Obligation. intros n w Hn. cbn. unfold resize, size. len. Qed.

(** ** Reasoning about nets *)

Definition wpV {St A} (Sp : nstop -> Prop) (m : N St (world S) A) (Q : A -> St -> net S -> Prop)
    (s : St) (n : net S) : Prop :=
  forall cs js, wpN Sp m (fun a s w => Q a s (the_net w)) s (mkWorld n cs js).

Section Rules.
Context {St : Type} (Sp : nstop -> Prop).

Lemma wpV_ret {A} (a : A) Q (s : St) n : Q a s n -> wpV Sp (mret a) Q s n.
Proof. by intros HQ cs js. Qed.

Lemma wpV_bind {A B} (m : N St (world S) A) (k : A -> N St (world S) B) Q s n :
  wpV Sp m (fun a s n => wpV Sp (k a) Q s n) s n -> wpV Sp (mbind k m) Q s n.
Proof.
  intros Hm cs js. apply wpN_bind. eapply wpN_mono; [apply Hm|].
  intros a s' [n' cs' js'] HQ. apply HQ.
Qed.

Lemma wpV_mono {A} (m : N St (world S) A) (Q R : A -> St -> net S -> Prop) s n :
  wpV Sp m Q s n -> (forall a s n, Q a s n -> R a s n) -> wpV Sp m R s n.
Proof. intros Hm HQR cs js. eapply wpN_mono; [apply Hm|]. auto. Qed.

Lemma wpV_halt {A} e (Q : A -> St -> net S -> Prop) s n : Sp e -> wpV Sp (nhalt e) Q s n.
Proof. by intros HS cs js. Qed.

Lemma wpV_get Q (s : St) n : Q s s n -> wpV Sp get_state Q s n.
Proof. by intros HQ cs js. Qed.

Lemma wpV_put s' Q (s : St) n : Q tt s' n -> wpV Sp (put_state s') Q s n.
Proof. by intros HQ cs js. Qed.

Lemma wpV_ptr_get {A} (a : A) Q (s : St) n : Q a s n -> wpV Sp (ptr_get (Some a)) Q s n.
Proof. by intros HQ cs js. Qed.

Lemma wpV_new k Q (s : St) n :
  0 <= k -> (forall d, size d = k -> Q d s n) -> wpV Sp (ncall (NNew k)) Q s n.
Proof.
  intros Hk HQ cs js. apply wpN_call. cbn. apply HQ. unfold resize, size. len.
Qed.

Lemma wpV_time Q (s : St) n : Q (clock n) s n -> wpV Sp (ncall NTime) Q s n.
Proof. by intros HQ cs js. Qed.

Lemma wpV_shutdown fd Q (s : St) n : Q tt s n -> wpV Sp (ncall (NShutdown fd)) Q s n.
Proof. by intros HQ cs js. Qed.

Lemma wpV_close fd Q (s : St) n :
  Q tt s (set_conns (delete fd (conns n)) n) -> wpV Sp (ncall (NClose fd)) Q s n.
Proof. by intros HQ cs js. Qed.

Lemma wpV_socket Q (s : St) n :
  Q (next_sock n) s (mkNet (servers n) (<[next_sock n := mkConn None [] []]> (conns n))
                       (next_sock n + 1) (clock n)) ->
  wpV Sp (ncall NSocket) Q s n.
Proof. by intros HQ cs js. Qed.

Lemma wpV_connect fd a c Q (s : St) n :
  conns n !! fd = Some c -> accepts a = true ->
  Q 0 s (set_conns (<[fd := mkConn (Some a) [] []]> (conns n)) n) ->
  wpV Sp (ncall (NConnect fd a)) Q s n.
Proof.
  intros Hc Ha HQ cs js. apply wpN_call. cbn. unfold net_connect. by rewrite Hc, Ha.
Qed.

(** A read returns some of what is there, however it is cut. *)
Lemma wpV_read fd k p i o Q (s : St) n :
  conns n !! fd = Some (mkConn p i o) -> 0 < k -> i <> [] ->
  (forall j, (0 < j <= length i)%nat -> Z.of_nat j <= k ->
    Q (Z.of_nat j, take j i) s (set_conns (<[fd := mkConn p (drop j i) o]> (conns n)) n)) ->
  wpV Sp (ncall (NRead fd k)) Q s n.
Proof.
  intros Hc Hk Hi HQ cs js. apply wpN_call. cbn [nhandle world_network world_handle the_net cuts].
  set (cut := Z.of_nat _). assert (1 <= cut) as Hcut by (unfold cut; lia). clearbody cut.
  unfold net_read. rewrite Hc. cbn [fst snd].
  assert (0 < length i)%nat by (destruct i; [done|cbn; lia]).
  set (j := Z.to_nat (Z.min k cut)).
  destruct (Nat.le_gt_cases j (length i)) as [Hj|Hj].
  - specialize (HQ j). unfold size. rewrite length_take, Nat.min_l by done. apply HQ; lia.
  - rewrite take_ge, drop_ge by lia. specialize (HQ (length i)).
    rewrite firstn_all, drop_all in HQ. apply HQ; lia.
Qed.

Lemma wpV_write fd a i o data ps rest srv out Q (s : St) n :
  conns n !! fd = Some (mkConn (Some a) i o) ->
  packets (length (o ++ data)) (o ++ data) = (ps, rest) ->
  serve_all a (servers n) ps = (srv, out) ->
  Q (size data) s (mkNet srv (<[fd := mkConn (Some a) (i ++ out) rest]> (conns n))
                     (next_sock n) (clock n)) ->
  wpV Sp (ncall (NWrite fd data)) Q s n.
Proof.
  intros Hc Hp Hs HQ cs js. apply wpN_call. cbn. unfold net_write. by rewrite Hc, Hp, Hs.
Qed.
End Rules.

(** More ways to stop may be allowed. *)
Lemma wpV_weaken {St A} (Sp Sp' : nstop -> Prop) (m : N St (world S) A) Q s n :
  (forall e, Sp e -> Sp' e) -> wpV Sp m Q s n -> wpV Sp' m Q s n.
Proof.
  intros HS Hm cs js. specialize (Hm cs js). unfold wpN in *. destruct (m s _) as [[e|a] [s' w']]; auto.
Qed.

(** What a run gives. *)
Lemma wpV_run {St A} (Sp : nstop -> Prop) (m : N St (world S) A) Q s n cs js :
  wpV Sp m Q s n ->
  match m s (mkWorld n cs js) with
  | (inr a, (s', w')) => Q a s' (the_net w')
  | (inl e, _) => Sp e
  end.
Proof. intros Hm. exact (Hm cs js). Qed.

(** A run that is known to end, does. *)
Lemma wpV_result {St A} (m : N St (world S) A) Q s n cs js :
  wpV nnever m Q s n ->
  exists a s' w', m s (mkWorld n cs js) = (inr a, (s', w')) /\ Q a s' (the_net w').
Proof. intros Hm. apply (wpN_result m (fun a s w => Q a s (the_net w))), Hm. Qed.

End World.

(** One step of a program on a net. *)
Ltac vstep_basic :=
  cbv beta; lazymatch goal with
  | |- wpV _ (mbind _ _) _ _ _ => apply wpV_bind
  | |- wpV _ (mret _) _ _ _ => apply wpV_ret
  | |- wpV _ get_state _ _ _ => apply wpV_get
  | |- wpV _ (put_state _) _ _ _ => apply wpV_put
  | |- wpV _ (ptr_get (Some _)) _ _ _ => apply wpV_ptr_get
  end; cbv beta iota.

(** The same after a test on constants; a test that follows is left alone. *)
Ltac vstep :=
  cbv beta; lazymatch goal with
  | |- wpV _ (if ?c then _ else _) _ _ _ =>
      let b := eval vm_compute in c in
      lazymatch b with true => change c with true | false => change c with false end; cbv iota;
      lazymatch goal with |- wpV _ (if _ then _ else _) _ _ _ => idtac | |- _ => vstep_basic end
  | |- _ => vstep_basic
  end.

(** ** Facts about packets *)

Lemma size_packet cmd data : size (packet cmd data) = 8 + size data.
Proof. unfold packet. rewrite !size_app, !size_be. lia. Qed.

Lemma packet_nonempty cmd data : packet cmd data <> [].
Proof.
  intros E. apply (f_equal size) in E. rewrite size_packet in E. pose proof (size_nonneg data).
  change (size []) with 0 in E. lia.
Qed.

(** One packet is taken off the front. *)
Lemma packets_packet fuel cmd data rest :
  0 <= cmd < 2 ^ 32 -> size data < 2 ^ 32 ->
  packets (Datatypes.S fuel) (packet cmd data ++ rest) =
  (let '(ps, r) := packets fuel rest in ((cmd, data) :: ps, r)).
Proof.
  intros Hc Hd. pose proof (size_nonneg data). cbn [packets]. unfold packet.
  rewrite <- !app_assoc, get32bit_be, get32bit_be, !wrap_small by lia.
  destruct (Z.ltb_spec (size (data ++ rest)) (size data)) as [E|_].
  { rewrite size_app in E. pose proof (size_nonneg rest). lia. }
  unfold size. rewrite Nat2Z.id, drop_app_length, take_app_length.
  by destruct (packets fuel rest).
Qed.

Lemma packets_one cmd data :
  0 <= cmd < 2 ^ 32 -> size data < 2 ^ 32 ->
  packets (length (packet cmd data)) (packet cmd data) = ([(cmd, data)], []).
Proof.
  intros Hc Hd. pose proof (size_packet cmd data) as Hs. pose proof (size_nonneg data).
  unfold size in Hs. destruct (length (packet cmd data)) as [|fuel] eqn:E; [lia|].
  rewrite <- (app_nil_r (packet cmd data)), packets_packet by done. by destruct fuel.
Qed.

(** A packet without its data is not answered yet. *)
Lemma packets_partial fuel cmd len data :
  0 <= len < 2 ^ 32 -> size data < len ->
  packets fuel (be 4 cmd ++ be 4 len ++ data) = ([], be 4 cmd ++ be 4 len ++ data).
Proof.
  intros Hl Hd. destruct fuel as [|fuel]; [done|]. cbn [packets].
  rewrite get32bit_be, get32bit_be, (wrap_small 32 len) by done.
  by destruct (Z.ltb_spec (size data) len); [|lia].
Qed.
