(* ===== verification/Protocol.v ===== *)
(** * The MooseFS client: messages, connection and session
    (src/mooseclient/moose.h, src/mooseclient/moose.cc)

    Buffers, reading and building messages, and the [MasterServer] up to
    [SendAndReceive].  The requests themselves are in [Master], the chunk
    servers in [Chunks]. *)

From S2P Require Import Prelude CString Posix Datapack Net.

(** ** Constants of the protocol (src/moosefs/MFSCommunication.h) *)

Definition ANTOAN_NOP : Z := 0.
Definition CUTOCS_READ : Z := 200.
Definition CSTOCU_READ_STATUS : Z := 201.
Definition CSTOCU_READ_DATA : Z := 202.
Definition CUTOCS_WRITE : Z := 210.
Definition CSTOCU_WRITE_STATUS : Z := 211.
Definition CUTOCS_WRITE_DATA : Z := 212.
Definition CUTOMA_FUSE_REGISTER : Z := 400.
Definition MATOCU_FUSE_REGISTER : Z := 401.
Definition CUTOMA_FUSE_ACCESS : Z := 404.
Definition MATOCU_FUSE_ACCESS : Z := 405.
Definition CUTOMA_FUSE_LOOKUP : Z := 406.
Definition MATOCU_FUSE_LOOKUP : Z := 407.
Definition CUTOMA_FUSE_GETATTR : Z := 408.
Definition MATOCU_FUSE_GETATTR : Z := 409.
Definition CUTOMA_FUSE_MKNOD : Z := 416.
Definition MATOCU_FUSE_MKNOD : Z := 417.
Definition CUTOMA_FUSE_MKDIR : Z := 418.
Definition MATOCU_FUSE_MKDIR : Z := 419.
Definition CUTOMA_FUSE_UNLINK : Z := 420.
Definition MATOCU_FUSE_UNLINK : Z := 421.
Definition CUTOMA_FUSE_RMDIR : Z := 422.
Definition MATOCU_FUSE_RMDIR : Z := 423.
Definition CUTOMA_FUSE_OPEN : Z := 430.
Definition MATOCU_FUSE_OPEN : Z := 431.
Definition CUTOMA_FUSE_READ_CHUNK : Z := 432.
Definition MATOCU_FUSE_READ_CHUNK : Z := 433.
Definition CUTOMA_FUSE_WRITE_CHUNK : Z := 434.
Definition MATOCU_FUSE_WRITE_CHUNK : Z := 435.
Definition CUTOMA_FUSE_WRITE_CHUNK_END : Z := 436.
Definition MATOCU_FUSE_WRITE_CHUNK_END : Z := 437.
Definition CUTOMA_FUSE_TRUNCATE : Z := 464.
Definition MATOCU_FUSE_TRUNCATE : Z := 465.
Definition CUTOMA_INFO : Z := 510.

Definition MFS_ROOT_ID : Z := 1.
Definition MFS_MAX_FILE_SIZE : Z := u64 (Z.shiftl 0x04000000 31).
Definition STATUS_OK : Z := 0.
Definition ERROR_ENOENT : Z := 3.
Definition ERROR_EEXIST : Z := 5.
Definition ERROR_IO : Z := 22.
Definition TYPE_FILE : Z := bval "f".
Definition WANT_READ : Z := 1.
Definition WANT_WRITE : Z := 2.
Definition REGISTER_NEWSESSION : Z := 2.
Definition REGISTER_RECONNECT : Z := 3.
Definition FUSE_REGISTER_BLOB_ACL : bytes :=
  bs "DjI1GAQDULI5d2YjA26ypc3ovkhjvhciTQVx3CS4nYgtBoUcsljiVpsErJENHaw0".

(** ** State *)

Record MasterServer := mkMasterServer {
  master_socket_ : Z;
  session_id_ : Z;
  uid_ : Z;
  gid_ : Z;
  auto_reconnect_ : bool;
  hostaddr_ : option sockaddr }.

Record ChunkServer := mkChunkServer {
  socket_ : Z;
  ip_ : Z;
  port_ : Z }.

(** The client's state: the one [MasterServer], the file-static
    [last_registered_], and [Cached::map_]. *)
Record client := mkClient {
  master : MasterServer;
  last_registered_ : Z;
  map_ : gmap Z ChunkServer }.

Definition MasterServer_new : MasterServer := mkMasterServer 0 0 0 0 true None.

(** How the code is built: whether [ASSERT] traps (no [NDEBUG]), and whether
    a hash map node just erased can still be read, which the language leaves
    undefined. *)
Class Build := { asserts : bool; erased_readable : bool }.

Section Protocol.
Context {W : Type} `{Network W} `{Build}.
Abbreviation M := (N client W).

Definition ASSERT (x : bool) : M unit := if asserts && negb x then nhalt Trap else mret tt.

Definition get_master : M MasterServer := s ← get_state; mret (master s).
Definition set_master (m : MasterServer) : M unit :=
  s ← get_state; put_state (mkClient m (last_registered_ s) (map_ s)).
Definition set_master_socket (fd : Z) : M unit :=
  m ← get_master;
  set_master (mkMasterServer fd (session_id_ m) (uid_ m) (gid_ m) (auto_reconnect_ m) (hostaddr_ m)).
Definition set_session_id (i : Z) : M unit :=
  m ← get_master;
  set_master (mkMasterServer (master_socket_ m) i (uid_ m) (gid_ m) (auto_reconnect_ m) (hostaddr_ m)).
Definition set_hostaddr (a : sockaddr) : M unit :=
  m ← get_master;
  set_master (mkMasterServer (master_socket_ m) (session_id_ m) (uid_ m) (gid_ m)
                (auto_reconnect_ m) (Some a)).

(** ** Buffer *)

(** [length] is the size of the memory [ptr] points to. *)
Record Buffer := mkBuffer { ptr : bytes; used : Z }.
Definition Buffer_new : Buffer := mkBuffer [] 0.

Definition Alloca (b : Buffer) (len : Z) : M Buffer :=
  if size (ptr b) <? len then mem ← ncall (NNew len); mret (mkBuffer mem (used b)) else mret b.

(** Bytes stored at an offset of the buffer; [read] never stores more than
    there is room for. *)
Definition fill (b : Buffer) (off : Z) (data : bytes) : Buffer :=
  mkBuffer (splice (ptr b) off data) (used b).

(** The message written from the start of the buffer up to [wptr]; writing
    past the allocation is undefined. *)
Definition written (b : Buffer) (w : bytes) : M Buffer :=
  if size (ptr b) <? size w then nhalt Undef
  else mret (mkBuffer (w ++ drop (length w) (ptr b)) (size w)).

(** ** Messages *)

(** [tcptoread]: its result, and the bytes stored so far when it returns. *)
Fixpoint tcptoread_loop (fuel : nat) (sock leng : Z) (buff : bytes) : M (Z * bytes) :=
  let rcvd := size buff in
  if rcvd <? leng then
    match fuel with
    | O => nhalt Fuel
    | S fuel =>
        '(i, data) ← ncall (NRead sock (leng - rcvd));
        if i <=? 0 then mret (i, buff) else tcptoread_loop fuel sock leng (buff ++ data)
    end
  else mret (i32 rcvd, buff).

(** Every call of [read] stores at least one byte, or ends the loop. *)
Definition tcptoread (sock leng : Z) : M (Z * bytes) :=
  tcptoread_loop (Z.to_nat leng) sock leng [].

(** The loop of [ReadCommand] that eats NOPs. *)
Fixpoint ReadCommand_loop (fuel : nat) (fd : Z) (input : Buffer)
    : M (option (Z * Z) * Buffer) :=
  match fuel with
  | O => nhalt Fuel
  | S fuel =>
      '(ret, data) ← tcptoread fd 8;
      let input := fill input 0 data in
      if ret <=? 0 then mret (None, input)
      else if negb (8 =? ret) then mret (None, input)
      else
        '(cmd, mem) ← ptr_get (get32bit (ptr input));
        '(length, _) ← ptr_get (get32bit mem);
        if cmd =? ANTOAN_NOP then
          ASSERT (length =? 4);;
          '(ret, data) ← tcptoread fd 4;
          let input := fill input 0 data in
          ASSERT (ret =? 4);;
          ReadCommand_loop fuel fd input
        else mret (Some (cmd, length), input)
  end.

(** [ReadCommand]: the command and the length, unless it fails, and the
    buffer. *)
Definition ReadCommand (fuel : nat) (fd : Z) (input : Buffer) : M (option (Z * Z) * Buffer) :=
  input ← Alloca input 8;
  '(r, input) ← ReadCommand_loop fuel fd input;
  match r with
  | None => mret (None, input)
  | Some (cmd, length) =>
      if 64 * 1024 * 1024 <? length then mret (None, input)
      else
        input ← Alloca input (8 + length);
        '(ret, data) ← tcptoread fd length;
        let input := fill input 8 data in
        if u32 ret =? length then mret (Some (cmd, length), input) else mret (None, input)
  end.

(** [BuildCommand]: the buffer, and what is written from its start. *)
Definition BuildCommand (output : Buffer) (cmd length session_id : Z) : M (Buffer * bytes) :=
  output ← Alloca output (8 + 4 + length);
  mret (output, put32bit (put32bit (put32bit [] cmd) (u32 (4 + length))) session_id).

(** ** Registering *)

Definition VERSMAJ : Z := 1.
Definition VERSMID : Z := 1.
Definition VERSMIN : Z := 1.

(** The text of the message. *)
Definition register_message (session_id : Z) : bytes :=
  let info := bs "/libmoose/mount" ++ [x00] in
  let subfolder := bs "/" ++ [x00] in
  let ileng := size info in
  let pleng := size subfolder in
  let w := put32bit [] CUTOMA_FUSE_REGISTER in
  let w := if 0 =? session_id then put32bit w (64 + 13 + ileng + pleng)
           else put32bit w (64 + 1 + 4 + 4) in
  let w := w ++ take 64 FUSE_REGISTER_BLOB_ACL in
  let w := if 0 =? session_id then put8bit w REGISTER_NEWSESSION
           else put32bit (put8bit w REGISTER_RECONNECT) session_id in
  let w := put8bit (put8bit (put16bit w VERSMAJ) VERSMID) VERSMIN in
  if 0 =? session_id then
    put32bit (put32bit w ileng ++ info) pleng ++ subfolder
  else w.

Definition BuildRegister (output : Buffer) : M Buffer :=
  output ← Alloca output (8 + 64 + 13 + 16 + 2);
  m ← get_master;
  written output (register_message (session_id_ m)).

(** [payload] runs to the end of the memory it points into. *)
Definition GotRegister (payload : bytes) : M unit :=
  '(sid, _) ← ptr_get (get32bit payload);
  m ← get_master;
  if session_id_ m =? 0 then set_session_id sid else ASSERT (sid =? session_id_ m).

(** [BuildQueryInfo]; nothing sends it yet. *)
Definition BuildQueryInfo (output : Buffer) : M Buffer :=
  output ← Alloca output 8;
  written output (put32bit (put32bit [] CUTOMA_INFO) 0).

(** ** Connecting *)

Definition Connect (fuel : nat) (addr : sockaddr) (remember_address : bool) : M bool :=
  m ← get_master;
  ASSERT (0 =? master_socket_ m);;
  sock ← ncall NSocket;
  ASSERT (0 <? sock);;
  if sock <? 0 then mret false
  else
    ret ← ncall (NConnect sock addr);
    ASSERT (ret =? 0);;
    if ret <? 0 then ncall (NClose sock);; mret false
    else
      buf ← BuildRegister Buffer_new;
      ret ← ncall (NWrite sock (take (Z.to_nat (used buf)) (ptr buf)));
      ASSERT (ret =? used buf);;
      if 0 =? ret then ncall (NClose sock);; mret false
      else
        '(r, buf) ← ReadCommand fuel sock buf;
        match r with
        | None => ncall (NClose sock);; mret false
        | Some (cmd, length) =>
            ASSERT (cmd =? MATOCU_FUSE_REGISTER);;
            GotRegister (drop 8 (ptr buf));;
            m ← get_master;
            ASSERT (negb (session_id_ m =? 0));;
            (if remember_address then set_hostaddr addr else mret tt);;
            set_master_socket sock;;
            mret true
        end.

(** The do-while of [EnsureConnect]: the value of [retry] after it. *)
Fixpoint reconnect_loop (fuel : nat) (addr : sockaddr) (retry : nat) : M Z :=
  f ← Connect fuel addr false;
  if (f : bool) then mret (Z.of_nat retry)
  else
    ncall (NSleep 1);;
    match retry with
    | O => mret (-1)
    | S retry => reconnect_loop fuel addr retry
    end.

Definition EnsureConnect (fuel : nat) : M unit :=
  m ← get_master;
  if negb (master_socket_ m =? 0) then mret tt
  else
    match hostaddr_ m with
    | None => mret tt
    | Some addr =>
        if negb (auto_reconnect_ m) then mret tt
        else
          retry ← reconnect_loop fuel addr 10;
          if negb (retry =? 10) then
            t ← ncall NTime;
            s ← get_state;
            put_state (mkClient (master s) t (map_ s))
          else mret tt
    end.

Definition Disconnect : M unit :=
  m ← get_master;
  if negb (master_socket_ m =? 0) then
    ncall (NShutdown (master_socket_ m));;
    ncall (NClose (master_socket_ m));;
    set_master_socket 0
  else mret tt.

(** The destructor of [MasterServer]. *)
Definition MasterServer_delete : M unit :=
  m ← get_master;
  if negb (master_socket_ m =? 0) then ncall (NClose (master_socket_ m)) else mret tt.

(** ** A request and its reply *)

(** The do-while of [SendAndReceive]. *)
Fixpoint exchange_loop (fuel : nat) (buf : Buffer) (retry : nat)
    : M (option (Z * Z) * Buffer) :=
  let again buf :=
    match retry with
    | O => mret (None, buf)
    | S retry => exchange_loop fuel buf retry
    end in
  m ← get_master;
  ret ← ncall (NWrite (master_socket_ m) (take (Z.to_nat (used buf)) (ptr buf)));
  if ret =? 0 then Disconnect;; EnsureConnect fuel;; again buf
  else
    ASSERT (ret =? used buf);;
    '(r, buf) ← ReadCommand fuel (master_socket_ m) buf;
    match r with
    | None => Disconnect;; EnsureConnect fuel;; again buf
    | Some cl => mret (Some cl, buf)
    end.

(** [SendAndReceive]: null, or what [rptr] points to and [*left_length]. *)
Definition SendAndReceive (fuel : nat) (buf : Buffer) (expect_cmd : Z)
    : M (option (bytes * Z)) :=
  EnsureConnect fuel;;
  ASSERT (0 <? used buf);;
  '(r, buf) ← exchange_loop fuel buf 3;
  match r with
  | Some (cmd, length) =>
      if cmd =? expect_cmd then
        '(packet_id, rptr) ← ptr_get (get32bit (drop 8 (ptr buf)));
        m ← get_master;
        ASSERT (packet_id =? session_id_ m);;
        mret (Some (rptr, i32 (u32 (length - 4))))
      else mret None
  | None => mret None
  end.

End Protocol.
