(* ===== verification/Exchange.v ===== *)
(** * The MooseFS client: packets over connections, whatever the
    fragmentation

    What [tcptoread], [ReadCommand] and [SendAndReceive] of [Protocol] do on
    the networks of [Servers]. *)

From S2P Require Import Prelude CString Posix Datapack Net Servers Protocol.

(** ** Nets *)

Lemma set_conns_id {S} (n : net S) fd c :
  conns n !! fd = Some c -> set_conns (<[fd := c]> (conns n)) n = n.
Proof. intros Hc. unfold set_conns. rewrite insert_id by done. by destruct n. Qed.

Lemma set_conns_twice {S} (n : net S) a b : set_conns a (set_conns b n) = set_conns a n.
Proof. done. Qed.

(** A connection to [a] with nothing under way. *)
Definition idle {S} (n : net S) (fd : Z) (a : sockaddr) : Prop :=
  conns n !! fd = Some (mkConn (Some a) [] []).

Section Exchange.
Context {S : Type} `{Service S} `{Build}.
Context (Sp : nstop -> Prop).
Implicit Types (s : client) (n : net S).

(** ** Reading *)

Lemma tcptoread_loop_wp fuel fd leng p d rest o buff Q s n :
  conns n !! fd = Some (mkConn p (d ++ rest) o) ->
  size buff + size d = leng -> leng < 2 ^ 31 -> (length d <= fuel)%nat ->
  Q (leng, buff ++ d) s (set_conns (<[fd := mkConn p rest o]> (conns n)) n) ->
  wpV Sp (tcptoread_loop fuel fd leng buff) Q s n.
Proof.
  revert d buff n. induction fuel as [|fuel IH]; intros d buff n Hc Hl Hlt Hf HQ;
    cbn [tcptoread_loop]; pose proof (size_nonneg d); pose proof (size_nonneg buff).
  - assert (d = []) as -> by (destruct d; [done|cbn [length] in *; lia]).
    change (size []) with 0 in Hl. destruct (Z.ltb_spec (size buff) leng); [lia|].
    vstep. rewrite i32_small by lia. rewrite app_nil_r in HQ. cbn [app] in Hc.
    rewrite set_conns_id in HQ by done. by replace (size buff) with leng by lia.
  - destruct (Z.ltb_spec (size buff) leng) as [Hr|Hr].
    + assert (0 < length d)%nat by (unfold size in *; lia).
      vstep. eapply wpV_read; [exact Hc|lia|destruct d; [cbn [length] in *; lia|done]|].
      intros j Hj Hjk. unfold size in *.
      destruct (Z.leb_spec (Z.of_nat j) 0); [lia|].
      rewrite take_app_le, drop_app_le by lia.
      eapply (IH (drop j d)).
      * cbn [conns set_conns]. apply lookup_insert_eq.
      * len.
      * lia.
      * len.
      * rewrite <- app_assoc, take_drop, set_conns_twice. cbn [conns set_conns].
        by rewrite insert_insert_eq.
    + assert (d = []) as -> by (destruct d; [done|unfold size in *; cbn in *; lia]).
      change (size []) with 0 in Hl. vstep. rewrite i32_small by lia.
      rewrite app_nil_r in HQ. cbn [app] in Hc.
      rewrite set_conns_id in HQ by done. by replace (size buff) with leng by lia.
Qed.

(** All of what is asked for, when it is there. *)
Lemma tcptoread_wp fd k p d rest o Q s n :
  conns n !! fd = Some (mkConn p (d ++ rest) o) -> size d = k -> k < 2 ^ 31 ->
  Q (k, d) s (set_conns (<[fd := mkConn p rest o]> (conns n)) n) ->
  wpV Sp (tcptoread fd k) Q s n.
Proof.
  intros Hc Hk Hlt HQ. unfold tcptoread.
  eapply (tcptoread_loop_wp _ fd k p d rest o []); [done|done|done|unfold size in *; lia|done].
Qed.

Lemma ASSERT_wp (x : bool) Q s n : x = true -> Q tt s n -> wpV Sp (ASSERT x) Q s n.
Proof. intros -> HQ. unfold ASSERT. rewrite andb_false_r. by vstep. Qed.

Lemma get_master_wp Q s n : Q (master s) s n -> wpV Sp get_master Q s n.
Proof. intros HQ. unfold get_master. repeat vstep. done. Qed.

Lemma Alloca_wp b len Q s n :
  0 <= len ->
  (forall mem, len <= size mem -> size (ptr b) <= size mem ->
     Q (mkBuffer mem (used b)) s n) ->
  wpV Sp (Alloca b len) Q s n.
Proof.
  intros Hl HQ. unfold Alloca. destruct (Z.ltb_spec (size (ptr b)) len).
  - vstep. apply wpV_new; [done|]. intros mem Hm. vstep. apply HQ; lia.
  - vstep. destruct b. by apply HQ.
Qed.

Lemma written_wp b w Q s n :
  size w <= size (ptr b) ->
  (forall mem, take (length w) mem = w -> size mem = size (ptr b) ->
     Q (mkBuffer mem (size w)) s n) ->
  wpV Sp (written b w) Q s n.
Proof.
  intros Hw HQ. unfold written. destruct (Z.ltb_spec (size (ptr b)) (size w)); [lia|].
  vstep. apply HQ; [by rewrite take_app_length|]. rewrite size_app. unfold size in *. len.
Qed.

(** What was stored at the start is what is read there. *)
Lemma fill_ptr b d : size d <= size (ptr b) -> ptr (fill b 0 d) = d ++ drop (length d) (ptr b).
Proof.
  intros Hd. unfold fill, splice. cbn [ptr Z.to_nat]. by rewrite take_0.
Qed.

Lemma size_fill b off d :
  0 <= off -> off + size d <= size (ptr b) -> size (ptr (fill b off d)) = size (ptr b).
Proof. intros Ho Hd. unfold fill. cbn [ptr]. rewrite length_splice by done. lia. Qed.

(** ** ReadCommand *)

(** The keep-alive packets a server may send before its answer. *)
Definition nop (junk : bytes) : bytes := packet ANTOAN_NOP junk.

Lemma ReadCommand_loop_wp nops fuel fd p cmd data rest o input Q s n :
  conns n !! fd = Some (mkConn p (concat (map nop nops) ++ packet cmd data ++ rest) o) ->
  Forall (fun j => size j = 4) nops -> (length nops < fuel)%nat ->
  cmd <> ANTOAN_NOP -> 0 <= cmd < 2 ^ 32 -> size data < 2 ^ 32 -> 8 <= size (ptr input) ->
  (forall input', size (ptr input') = size (ptr input) -> used input' = used input ->
     Q (Some (cmd, size data), input') s
       (set_conns (<[fd := mkConn p (data ++ rest) o]> (conns n)) n)) ->
  wpV Sp (ReadCommand_loop fuel fd input) Q s n.
Proof.
  revert fuel input n.
  induction nops as [|j nops IH]; intros fuel input n Hc Hj Hf Hcmd Hcr Hdr Hi HQ;
    (destruct fuel as [|fuel]; [cbn in Hf; lia|]); cbn [ReadCommand_loop]; pose proof (size_nonneg data).
  - cbn [map concat app] in Hc. unfold packet in Hc. rewrite <- !app_assoc in Hc.
    rewrite (app_assoc (be 4 cmd)) in Hc.
    vstep. eapply (tcptoread_wp fd 8); [exact Hc|by rewrite size_app, !size_be|lia|].
    cbn [Z.leb Z.compare Z.eqb negb Pos.eqb]. rewrite fill_ptr by (rewrite size_app, !size_be; lia).
    rewrite <- !app_assoc, get32bit_be. do 2 vstep. rewrite get32bit_be. do 2 vstep.
    rewrite !wrap_small by lia.
    destruct (Z.eqb_spec cmd ANTOAN_NOP); [done|]. vstep. apply HQ; [|done].
    apply size_fill; [lia|]. rewrite size_app, !size_be. lia.
  - inversion_clear Hj as [|? ? Hj4 Hj']. cbn [map concat] in Hc. unfold nop at 1, packet at 1 in Hc.
    rewrite Hj4, <- !app_assoc in Hc. rewrite (app_assoc (be 4 ANTOAN_NOP)) in Hc.
    vstep. eapply (tcptoread_wp fd 8); [exact Hc|by rewrite size_app, !size_be|lia|].
    cbn [Z.leb Z.compare Z.eqb negb Pos.eqb]. rewrite fill_ptr by (rewrite size_app, !size_be; lia).
    rewrite <- !app_assoc, get32bit_be. do 2 vstep. rewrite get32bit_be. do 2 vstep.
    rewrite !wrap_small by (unfold ANTOAN_NOP; lia). rewrite Z.eqb_refl. vstep. apply ASSERT_wp; [done|].
    vstep. eapply (tcptoread_wp fd 4).
    { cbn [conns set_conns]. apply lookup_insert_eq. }
    { done. } { lia. }
    vstep. apply ASSERT_wp; [done|]. rewrite set_conns_twice. cbn [conns set_conns].
    rewrite insert_insert_eq.
    assert (size (ptr (fill (fill input 0 (be 4 ANTOAN_NOP ++ be 4 4)) 0 j)) = size (ptr input)) as Hsz.
    { assert (size (ptr (fill input 0 (be 4 ANTOAN_NOP ++ be 4 4))) = size (ptr input)) as E
        by (apply size_fill; rewrite ?size_app, ?size_be; lia).
      rewrite size_fill; lia. }
    eapply (IH fuel).
    + cbn [conns set_conns]. apply lookup_insert_eq.
    + done.
    + cbn in Hf. lia.
    + done.
    + done.
    + done.
    + by rewrite Hsz.
    + intros input' Hs Hu. rewrite set_conns_twice. cbn [conns set_conns].
      rewrite insert_insert_eq. apply HQ; [by rewrite Hs|by rewrite Hu].
Qed.

(** The next packet that is no NOP, in the buffer from byte 8 on. *)
Lemma ReadCommand_wp nops fuel fd p cmd data rest o input Q s n :
  conns n !! fd = Some (mkConn p (concat (map nop nops) ++ packet cmd data ++ rest) o) ->
  Forall (fun j => size j = 4) nops -> (length nops < fuel)%nat ->
  cmd <> ANTOAN_NOP -> 0 <= cmd < 2 ^ 32 -> size data <= 64 * 1024 * 1024 ->
  (forall input' tl, drop 8 (ptr input') = data ++ tl -> used input' = used input ->
     Q (Some (cmd, size data), input') s
       (set_conns (<[fd := mkConn p rest o]> (conns n)) n)) ->
  wpV Sp (ReadCommand fuel fd input) Q s n.
Proof.
  intros Hc Hj Hf Hcmd Hcr Hdr HQ. unfold ReadCommand. pose proof (size_nonneg data).
  vstep. apply Alloca_wp; [lia|]. intros mem Hm _. vstep.
  eapply ReadCommand_loop_wp; [exact Hc|done|done|done|done|lia|done|].
  intros input' Hs Hu. destruct (Z.ltb_spec (64 * 1024 * 1024) (size data)); [lia|].
  vstep. apply Alloca_wp; [lia|]. intros mem' Hm' _. cbn [ptr used] in *. vstep.
  eapply tcptoread_wp; [cbn [conns set_conns]; apply lookup_insert_eq|done|lia|].
  rewrite wrap_small, Z.eqb_refl by lia. vstep. rewrite set_conns_twice. cbn [conns set_conns].
  rewrite insert_insert_eq.
  apply (HQ _ (drop (8 + length data) mem')); [|done].
  unfold fill, splice. cbn [ptr]. change (Z.to_nat 8) with 8%nat. unfold size in *.
  rewrite drop_app_ge by len. rewrite drop_app_ge by len.
  replace (_ - _ - _)%nat with 0%nat by len. by rewrite drop_0.
Qed.

(** ** SendAndReceive *)

(** A session with the master at [a]: connected, nothing under way. *)
Definition session (a : sockaddr) (s : client) (n : net S) : Prop :=
  master_socket_ (master s) <> 0 /\ idle n (master_socket_ (master s)) a /\
  0 <= session_id_ (master s) < 2 ^ 32.

Lemma EnsureConnect_wp fuel a Q s n : session a s n -> Q tt s n -> wpV Sp (EnsureConnect fuel) Q s n.
Proof.
  intros (Hm & _ & _) HQ. unfold EnsureConnect. vstep. apply get_master_wp.
  destruct (Z.eqb_spec (master_socket_ (master s)) 0); [done|]. by vstep.
Qed.

(** What the server sent for one packet: NOPs, and an answer to this
    session. *)
Definition answer (nops : list bytes) (cmd sid : Z) (payload : bytes) : bytes :=
  concat (map nop nops) ++ packet cmd (be 4 sid ++ payload).

Definition answer_ok (fuel : nat) (nops : list bytes) (cmd : Z) (payload : bytes) : Prop :=
  Forall (fun j => size j = 4) nops /\ (length nops < fuel)%nat /\
  cmd <> ANTOAN_NOP /\ 0 <= cmd < 2 ^ 32 /\ 4 + size payload <= 64 * 1024 * 1024.

Lemma SendAndReceive_wp fuel a srv nops cmd data rcmd payload buf Q s n :
  session a s n ->
  take (Z.to_nat (used buf)) (ptr buf) = packet cmd data ->
  used buf = size (packet cmd data) ->
  0 <= cmd < 2 ^ 32 -> size data < 2 ^ 32 ->
  serve a (servers n) cmd data = (srv, answer nops rcmd (session_id_ (master s)) payload) ->
  answer_ok fuel nops rcmd payload ->
  (forall tl, Q (Some (payload ++ tl, size payload)) s (set_servers srv n)) ->
  wpV Sp (SendAndReceive fuel buf rcmd) Q s n.
Proof.
  intros Hses Hb Hu Hc Hd Hs (Hj & Hf & Hn & Hr & Hp) HQ. unfold SendAndReceive.
  pose proof (size_nonneg data). pose proof (size_nonneg payload).
  vstep. eapply EnsureConnect_wp; [done|]. destruct Hses as (Hm & Hidle & Hsid).
  vstep. apply ASSERT_wp; [rewrite Hu, size_packet; lia|].
  vstep. cbn [exchange_loop]. vstep. apply get_master_wp. vstep.
  rewrite Hb. eapply wpV_write; [exact Hidle|by apply packets_one|cbn [serve_all]; by rewrite Hs|].
  rewrite app_nil_r. cbn [app].
  destruct (Z.eqb_spec (size (packet cmd data)) 0) as [E|_]; [rewrite size_packet in E; lia|].
  vstep. apply ASSERT_wp; [rewrite Hu; apply Z.eqb_refl|]. vstep.
  set (fd := master_socket_ (master s)) in *. unfold answer.
  eapply (ReadCommand_wp nops fuel fd (Some a) rcmd _ []).
  { cbn [conns]. rewrite app_nil_r. apply lookup_insert_eq. }
  { done. } { done. } { done. } { done. } { rewrite size_app, size_be. lia. }
  intros input' tl Ht _. vstep. rewrite Z.eqb_refl. cbn [conns]. vstep.
  rewrite Ht, <- app_assoc, get32bit_be. vstep. vstep. apply get_master_wp.
  vstep. apply ASSERT_wp; [rewrite wrap_small by done; apply Z.eqb_refl|]. vstep.
  rewrite size_app, size_be. replace (Z.of_nat 4 + size payload - 4) with (size payload) by lia.
  rewrite wrap_small, i32_small by lia.
  replace (set_conns _ _) with (set_servers srv n); [apply HQ|].
  unfold set_servers, set_conns. cbn. by rewrite insert_insert_eq, insert_id.
Qed.
End Exchange.
