(* ===== verification/Master.v ===== *)
(** * The MooseFS client: requests to the master
    (src/mooseclient/moose.h, src/mooseclient/moose.cc)

    File attributes, and every operation of [MasterServer] that sends a
    request.  Outputs through pointers are part of the result; a null pointer
    only drops the output, except where the code tests it. *)

From S2P Require Import Prelude CString Posix Datapack Net Protocol.

(** ** Attributes *)

(** The fields of [struct stat] that are set. *)
Record stat := mkStat {
  st_ino : Z; st_mode : Z; st_nlink : Z; st_uid : Z; st_gid : Z; st_rdev : Z;
  st_size : Z; st_blksize : Z; st_blocks : Z; st_atime : Z; st_mtime : Z; st_ctime : Z }.

Definition S_IFDIR : Z := 0x4000.
Definition S_IFLNK : Z := 0xA000.
Definition S_IFREG : Z := 0x8000.
Definition S_IFIFO : Z := 0x1000.
Definition S_IFSOCK : Z := 0xC000.
Definition S_IFBLK : Z := 0x6000.
Definition S_IFCHR : Z := 0x2000.

(** [mfs_attr_to_stat]; [old] is what [*stbuf] held, [attr] the 35 bytes. *)
Definition mfs_attr_to_stat (inode : Z) (attr : bytes) (old : stat) : option stat :=
  '(attrtype, p) ← get8bit attr;
  '(attrmode, p) ← get16bit p;
  '(attruid, p) ← get32bit p;
  '(attrgid, p) ← get32bit p;
  '(attratime, p) ← get32bit p;
  '(attrmtime, p) ← get32bit p;
  '(attrctime, p) ← get32bit p;
  '(attrnlink, p) ← get32bit p;
  let mode kind := Z.lor kind (Z.land attrmode 0xFFF) in
  let result mode rdev sz blocks :=
    Some (mkStat inode mode attrnlink attruid attrgid rdev sz 0x10000 blocks
            attratime attrmtime attrctime) in
  let sized kind :=
    '(attrlength, _) ← get64bit p;
    result (mode kind) (st_rdev old) (i64 attrlength) (u64 (attrlength + 511) / 512) in
  let special kind := result (mode kind) (st_rdev old) 0 0 in
  let device kind :=
    '(attrrdev, _) ← get32bit p;
    result (mode kind) attrrdev 0 0 in
  if attrtype =? bval "d" then sized S_IFDIR
  else if attrtype =? bval "l" then sized S_IFLNK
  else if attrtype =? bval "f" then sized S_IFREG
  else if attrtype =? bval "q" then special S_IFIFO
  else if attrtype =? bval "s" then special S_IFSOCK
  else if attrtype =? bval "b" then device S_IFBLK
  else if attrtype =? bval "c" then device S_IFCHR
  else result 0 (st_rdev old) (st_size old) (st_blocks old).

(** [FileAttribute]: its 35 bytes; the constructor clears them. *)
Definition FileAttribute := bytes.
Definition FileAttribute_new : FileAttribute := replicate 35 x00.

(** The inode given is not used. *)
Definition to_stat (attr : FileAttribute) (inode : Z) (old : stat) : option stat :=
  mfs_attr_to_stat 0 attr old.

Definition attr_type (attr : FileAttribute) : Z := swrap 8 (bval (nth 0 attr x00)).

(** [mode()] and [size()] read an uninitialised [struct stat] after
    [to_stat]. *)
Definition attr_mode (attr : FileAttribute) (old : stat) : option Z :=
  s ← to_stat attr 0 old; Some (i32 (st_mode s)).
Definition attr_size (attr : FileAttribute) (old : stat) : option Z :=
  s ← to_stat attr 0 old; Some (u64 (st_size s)).

(** ** Requests *)

Section Master.
Context {W : Type} `{Network W} `{Build}.
Abbreviation M := (N client W).
Context (fuel : nat).

(** [memcpy] out of the reply. *)
Definition copy_out (rptr : bytes) (n : Z) : M bytes :=
  if size rptr <? n then nhalt Undef else mret (take (Z.to_nat n) rptr).

(** [buf.used = wptr - buf.ptr;] and the exchange. *)
Definition send (buf : Buffer) (wptr : bytes) (expect_cmd : Z) : M (option (bytes * Z)) :=
  buf ← written buf wptr;
  SendAndReceive fuel buf expect_cmd.

Definition put_name (w name : bytes) : bytes := put8bit w (size name) ++ name.

(** The status byte of a reply of length 1. *)
Definition status_of (rptr : bytes) : M Z := '(status, _) ← ptr_get (get8bit rptr); mret status.

Definition Lookup (parent : Z) (name : bytes) : M (Z * option (Z * FileAttribute)) :=
  let name := c_str name in
  m ← get_master;
  '(buf, w) ← BuildCommand Buffer_new CUTOMA_FUSE_LOOKUP (13 + size name) (session_id_ m);
  let w := put32bit (put32bit (put_name (put32bit w parent) name) (uid_ m)) (gid_ m) in
  r ← send buf w MATOCU_FUSE_LOOKUP;
  match r with
  | None => mret (ERROR_IO, None)
  | Some (rptr, length) =>
      if length =? 1 then status ← status_of rptr; mret (status, None)
      else if length =? 39 then
        '(t, rptr) ← ptr_get (get32bit rptr);
        attr ← copy_out rptr 35;
        mret (STATUS_OK, Some (t, attr))
      else Disconnect;; mret (ERROR_IO, None)
  end.

(** The loop of the path version over the segments between slashes. *)
Fixpoint Lookup_loop (segs : list bytes) (inode_temp : Z) (attr_temp : FileAttribute)
    : M (Z * option (Z * FileAttribute)) :=
  match segs with
  | [] => mret (STATUS_OK, Some (inode_temp, attr_temp))
  | copy :: segs =>
      if bool_decide (copy = []) then Lookup_loop segs inode_temp attr_temp
      else
        '(ret, out) ← Lookup inode_temp copy;
        if negb (ret =? STATUS_OK) then mret (ret, None)
        else
          let '(inode_temp, attr_temp) := default (inode_temp, attr_temp) out in
          Lookup_loop segs inode_temp attr_temp
  end.

Definition Lookup_path (name : bytes) : M (Z * option (Z * FileAttribute)) :=
  Lookup_loop (split (bs "/") (c_str name)) MFS_ROOT_ID FileAttribute_new.

Definition GetAttr (inode : Z) : M (Z * option FileAttribute) :=
  m ← get_master;
  '(buf, w) ← BuildCommand Buffer_new CUTOMA_FUSE_GETATTR 12 (session_id_ m);
  let w := put32bit (put32bit (put32bit w inode) (uid_ m)) (gid_ m) in
  r ← send buf w MATOCU_FUSE_GETATTR;
  match r with
  | None => mret (ERROR_IO, None)
  | Some (rptr, length) =>
      if length =? 1 then status ← status_of rptr; mret (status, None)
      else if negb (length =? 35) then Disconnect;; mret (ERROR_IO, None)
      else attr ← copy_out rptr 35; mret (STATUS_OK, Some attr)
  end.

(** A status reply is turned into a truth value; [attr] is whether the
    pointer is not null. *)
Definition Truncate (inode opened attrlength : Z) (attr : bool) : M (Z * option FileAttribute) :=
  m ← get_master;
  '(buf, w) ← BuildCommand Buffer_new CUTOMA_FUSE_TRUNCATE 21 (session_id_ m);
  let w := put64bit (put32bit (put32bit (put8bit (put32bit w inode) opened) (uid_ m)) (gid_ m))
             attrlength in
  r ← send buf w MATOCU_FUSE_TRUNCATE;
  match r with
  | None => mret (ERROR_IO, None)
  | Some (rptr, length) =>
      if length =? 1 then
        status ← status_of rptr; mret (Z.b2z (status =? STATUS_OK), None)
      else if (length =? 35) && attr then
        a ← copy_out rptr 35; mret (STATUS_OK, Some a)
      else Disconnect;; mret (ERROR_IO, None)
  end.

(** [buf.used] is left at 0: nothing of the request is sent. *)
Definition Access (inode modemask : Z) : M Z :=
  m ← get_master;
  '(buf, w) ← BuildCommand Buffer_new CUTOMA_FUSE_ACCESS 13 (session_id_ m);
  let w := put8bit (put32bit (put32bit (put32bit w inode) (uid_ m)) (gid_ m)) modemask in
  buf ← written buf w;
  r ← SendAndReceive fuel (mkBuffer (ptr buf) 0) MATOCU_FUSE_ACCESS;
  match r with
  | Some (rptr, length) => if negb (length =? 1) then mret ERROR_IO else status_of rptr
  | None => mret ERROR_IO
  end.

Definition Open (inode flags : Z) (attr : bool) : M (Z * option FileAttribute) :=
  m ← get_master;
  '(buf, w) ← BuildCommand Buffer_new CUTOMA_FUSE_OPEN 13 (session_id_ m);
  let w := put8bit (put32bit (put32bit (put32bit w inode) (uid_ m)) (gid_ m)) flags in
  r ← send buf w MATOCU_FUSE_OPEN;
  match r with
  | None => mret (ERROR_IO, None)
  | Some (rptr, length) =>
      if length =? 1 then status ← status_of rptr; mret (status, None)
      else if (length =? 35) && attr then
        a ← copy_out rptr 35; mret (STATUS_OK, Some a)
      else Disconnect;; mret (ERROR_IO, None)
  end.

(** An inode and, if asked for, an attribute. *)
Definition entry_out (rptr : bytes) (attr : bool) : M (Z * option (Z * option FileAttribute)) :=
  '(t, rptr) ← ptr_get (get32bit rptr);
  if attr then a ← copy_out rptr 35; mret (STATUS_OK, Some (t, Some a))
  else mret (STATUS_OK, Some (t, None)).

(** A reply of a wrong length does not disconnect here. *)
Definition Mknod (parent : Z) (name : bytes) (type mode rdev : Z) (attr : bool)
    : M (Z * option (Z * option FileAttribute)) :=
  let name := c_str name in
  m ← get_master;
  '(buf, w) ← BuildCommand Buffer_new CUTOMA_FUSE_MKNOD (20 + size name) (session_id_ m);
  let w := put16bit (put8bit (put_name (put32bit w parent) name) type) mode in
  let w := put32bit (put32bit (put32bit w (uid_ m)) (gid_ m)) rdev in
  r ← send buf w MATOCU_FUSE_MKNOD;
  match r with
  | None => mret (ERROR_IO, None)
  | Some (rptr, length) =>
      if length =? 1 then status ← status_of rptr; mret (status, None)
      else if negb (length =? 39) then mret (ERROR_IO, None)
      else entry_out rptr attr
  end.

Definition Mkdir (parent : Z) (name : bytes) (mode : Z) (attr : bool)
    : M (Z * option (Z * option FileAttribute)) :=
  let name := c_str name in
  m ← get_master;
  '(buf, w) ← BuildCommand Buffer_new CUTOMA_FUSE_MKDIR (15 + size name) (session_id_ m);
  let w := put16bit (put_name (put32bit w parent) name) mode in
  let w := put32bit (put32bit w (uid_ m)) (gid_ m) in
  r ← send buf w MATOCU_FUSE_MKDIR;
  match r with
  | None => mret (ERROR_IO, None)
  | Some (rptr, length) =>
      if length =? 1 then status ← status_of rptr; mret (status, None)
      else if negb (length =? 39) then Disconnect;; mret (ERROR_IO, None)
      else entry_out rptr attr
  end.

Definition Rmdir (parent : Z) (name : bytes) : M Z :=
  let name := c_str name in
  m ← get_master;
  '(buf, w) ← BuildCommand Buffer_new CUTOMA_FUSE_RMDIR (13 + size name) (session_id_ m);
  let w := put32bit (put32bit (put_name (put32bit w parent) name) (uid_ m)) (gid_ m) in
  r ← send buf w MATOCU_FUSE_RMDIR;
  match r with
  | None => mret ERROR_IO
  | Some (rptr, length) =>
      if length =? 1 then status_of rptr else Disconnect;; mret ERROR_IO
  end.

Definition Unlink (parent : Z) (name : bytes) : M Z :=
  let name := c_str name in
  m ← get_master;
  '(buf, w) ← BuildCommand Buffer_new CUTOMA_FUSE_UNLINK (13 + size name) (session_id_ m);
  let w := put32bit (put32bit (put_name (put32bit w parent) name) (uid_ m)) (gid_ m) in
  r ← send buf w MATOCU_FUSE_UNLINK;
  match r with
  | None => mret ERROR_IO
  | Some (rptr, length) =>
      if length =? 1 then status_of rptr else Disconnect;; mret ERROR_IO
  end.

(** [MasterServer::Create] *)
Definition Create_node (parent : Z) (name : bytes) (mode : Z)
    : M (Z * option (Z * option FileAttribute)) :=
  Mknod parent name TYPE_FILE (Z.land mode 0xFFF) 0 false.

(** ** Chunks *)

Record Location := mkLocation { loc_ip : Z; loc_port : Z }.
Record Chunk := mkChunk { chunk_id : Z; chunk_version : Z; location : list Location }.

Definition Chunk_new : Chunk := mkChunk 0 0 [].

(** The loop over the locations, [left] bytes of them. *)
Fixpoint read_locations (fuel : nat) (left : Z) (rptr : bytes) : M (list Location) :=
  if 0 <? left then
    match fuel with
    | O => nhalt Fuel
    | S fuel =>
        '(ip, rptr) ← ptr_get (get32bit rptr);
        '(port, rptr) ← ptr_get (get16bit rptr);
        locs ← read_locations fuel (left - (4 + 2)) rptr;
        mret (mkLocation ip port :: locs)
    end
  else mret [].

(** [*file_length], [*chunk] of a reply with [length] bytes. *)
Definition read_chunk_reply (rptr : bytes) (length : Z) : M (Z * Chunk) :=
  '(file_length, rptr) ← ptr_get (get64bit rptr);
  '(t64, rptr) ← ptr_get (get64bit rptr);
  '(t32, rptr) ← ptr_get (get32bit rptr);
  let left := length - 8 - 8 - 4 in
  locs ← read_locations (Z.to_nat left) left rptr;
  mret (file_length, mkChunk t64 t32 locs).

(** The length of the reply is not checked. *)
Definition ReadChunk (inode indx : Z) : M (Z * option (Z * Chunk)) :=
  m ← get_master;
  '(buf, w) ← BuildCommand Buffer_new CUTOMA_FUSE_READ_CHUNK 8 (session_id_ m);
  let w := put32bit (put32bit w inode) indx in
  r ← send buf w MATOCU_FUSE_READ_CHUNK;
  match r with
  | None => mret (ERROR_IO, None)
  | Some (rptr, length) =>
      if length =? 1 then status ← status_of rptr; mret (status, None)
      else out ← read_chunk_reply rptr length; mret (STATUS_OK, Some out)
  end.

Definition WriteChunk (inode indx : Z) : M (Z * option (Z * Chunk)) :=
  m ← get_master;
  '(buf, w) ← BuildCommand Buffer_new CUTOMA_FUSE_WRITE_CHUNK 8 (session_id_ m);
  let w := put32bit (put32bit w inode) indx in
  r ← send buf w MATOCU_FUSE_WRITE_CHUNK;
  match r with
  | None => mret (ERROR_IO, None)
  | Some (rptr, length) =>
      if length =? 1 then status ← status_of rptr; mret (status, None)
      else if (length <? 20) || negb (Z.rem (length - 20) 6 =? 0) then
        Disconnect;; mret (ERROR_IO, None)
      else out ← read_chunk_reply rptr length; mret (STATUS_OK, Some out)
  end.

Definition WriteChunkEnd (chunkid inode length : Z) : M Z :=
  m ← get_master;
  '(buf, w) ← BuildCommand Buffer_new CUTOMA_FUSE_WRITE_CHUNK_END 20 (session_id_ m);
  let w := put64bit (put32bit (put64bit w chunkid) inode) length in
  r ← send buf w MATOCU_FUSE_WRITE_CHUNK_END;
  match r with
  | None => mret ERROR_IO
  | Some (rptr, length_) => if length_ =? 1 then status_of rptr else mret ERROR_IO
  end.

End Master.
