(* ===== verification/MasterSpec.v ===== *)
(** * The MooseFS client: what the requests to the master do

    Each request of [Master] against a server that answers it in the format
    of src/moosefs/MFSCommunication.h: what is sent, and what becomes of the
    answer.  A path is looked up as the server's directories say
    ([Directory]). *)

From S2P Require Import Prelude CString Posix Datapack Net Servers Protocol Exchange Master.

Create Rewrite HintDb sizes.
#[export] Hint Rewrite @size_app size_be size_packet : sizes.

(** [sizes]: sizes of packed messages. *)
Ltac sizes := autorewrite with sizes in *; cbn [Z.of_nat Pos.of_succ_nat Pos.succ] in *; try lia.

Section Requests.
Context {S : Type} `{Service S} `{Build}.
Context (Sp : nstop -> Prop).
Context (fuel : nat).
Implicit Types (s : client) (n : net S).

Lemma BuildCommand_wp cmd L sid Q s n :
  0 <= L < 2 ^ 31 ->
  (forall buf, 12 + L <= size (ptr buf) ->
     Q (buf, be 4 cmd ++ be 4 (4 + L) ++ be 4 sid) s n) ->
  wpV Sp (BuildCommand Buffer_new cmd L sid) Q s n.
Proof.
  intros HL HQ. unfold BuildCommand. vstep. apply Alloca_wp; [lia|]. intros mem Hm _. vstep.
  rewrite !put32bit_be, wrap_small, app_nil_l, <- app_assoc by lia. apply HQ. cbn [ptr]. lia.
Qed.

(** The answer to a request, split into payload and what follows it in the
    buffer. *)
Lemma send_wp a srv nops cmd args rcmd payload buf w Q s n :
  session a s n ->
  w = packet cmd (be 4 (session_id_ (master s)) ++ args) -> size w <= size (ptr buf) ->
  0 <= cmd < 2 ^ 32 -> size args < 2 ^ 31 ->
  serve a (servers n) cmd (be 4 (session_id_ (master s)) ++ args) =
    (srv, answer nops rcmd (session_id_ (master s)) payload) ->
  answer_ok fuel nops rcmd payload ->
  (forall tl, Q (Some (payload ++ tl, size payload)) s (set_servers srv n)) ->
  wpV Sp (send fuel buf w rcmd) Q s n.
Proof.
  intros Hses -> Hw Hc Ha Hs Hok HQ. unfold send. vstep. apply written_wp; [done|].
  intros mem Hm Hsz. pose proof (size_nonneg args).
  eapply SendAndReceive_wp; [done| |done|done|sizes|done|done|done].
  cbn [ptr used]. unfold size. by rewrite Nat2Z.id.
Qed.

Lemma status_of_wp st tl Q s n :
  0 <= st < 256 -> Q st s n -> wpV Sp (status_of (be 1 st ++ tl)) Q s n.
Proof.
  intros Hst HQ. unfold status_of. rewrite get8bit_be. do 2 vstep. vstep. by rewrite wrap_small.
Qed.

Lemma copy_out_wp b tl Q s n k : size b = k -> Q b s n -> wpV Sp (copy_out (b ++ tl) k) Q s n.
Proof.
  intros <- HQ. unfold copy_out. destruct (Z.ltb_spec (size (b ++ tl)) (size b)).
  { rewrite size_app in *. pose proof (size_nonneg tl). lia. }
  vstep. unfold size. by rewrite Nat2Z.id, take_app_length.
Qed.

(** A reply is a status or a result of known size. *)
Definition reply_payload {A} (enc : A -> bytes) (r : Z + A) : bytes :=
  match r with inl st => be 1 st | inr x => enc x end.

Definition entry_bytes (e : Z * FileAttribute) : bytes := be 4 (fst e) ++ snd e.

Definition entry_ok (r : Z + Z * FileAttribute) : Prop :=
  match r with
  | inl st => 0 < st < 256
  | inr (i, a) => 0 <= i < 2 ^ 32 /\ size a = 35
  end.

Definition lookup_args (parent : Z) (name : bytes) (m : MasterServer) : bytes :=
  be 4 parent ++ be 1 (size name) ++ name ++ be 4 (uid_ m) ++ be 4 (gid_ m).

(** [Lookup] of one name. *)
Lemma Lookup_wp a srv nops parent name r Q s n :
  session a s n -> c_str name = name -> size name < 2 ^ 30 ->
  serve a (servers n) CUTOMA_FUSE_LOOKUP
    (be 4 (session_id_ (master s)) ++ lookup_args parent name (master s)) =
    (srv, answer nops MATOCU_FUSE_LOOKUP (session_id_ (master s)) (reply_payload entry_bytes r)) ->
  answer_ok fuel nops MATOCU_FUSE_LOOKUP (reply_payload entry_bytes r) -> entry_ok r ->
  Q (match r with inl st => (st, None) | inr e => (STATUS_OK, Some e) end) s (set_servers srv n) ->
  wpV Sp (Lookup fuel parent name) Q s n.
Proof.
  intros Hses Hn Hl Hs Hok Hr HQ. unfold Lookup. rewrite Hn. pose proof (size_nonneg name).
  vstep. apply get_master_wp. vstep. apply BuildCommand_wp; [lia|]. intros buf Hbuf.
  vstep. rewrite !put32bit_be. unfold put_name. rewrite put8bit_be.
  eapply (send_wp a srv nops CUTOMA_FUSE_LOOKUP (lookup_args parent name (master s))).
  - done.
  - unfold packet, lookup_args. rewrite <- !app_assoc. do 3 f_equal. sizes.
  - unfold lookup_args. sizes.
  - unfold CUTOMA_FUSE_LOOKUP. lia.
  - unfold lookup_args. sizes.
  - exact Hs.
  - exact Hok.
  - intros tl. destruct r as [st|[i at']]; cbn [reply_payload entry_bytes fst snd] in *.
    + rewrite size_be. cbn [Z.of_nat Pos.of_succ_nat Z.eqb Pos.eqb]. vstep.
      apply status_of_wp; [unfold entry_ok in Hr; lia|]. by vstep.
    + destruct Hr as [Hi Ha]. unfold entry_bytes. cbn [fst snd]. rewrite size_app, size_be, Ha.
      cbn [Z.of_nat Pos.of_succ_nat Pos.succ Z.add Pos.add Pos.add_carry Z.eqb Pos.eqb].
      rewrite <- app_assoc, get32bit_be. vstep. vstep. vstep. vstep.
      apply copy_out_wp; [done|]. vstep. by rewrite wrap_small.
Qed.

(** ** Chunks *)

Definition location_bytes (l : Location) : bytes := be 4 (loc_ip l) ++ be 2 (loc_port l).

Definition location_ok (l : Location) : Prop := 0 <= loc_ip l < 2 ^ 32 /\ 0 <= loc_port l < 2 ^ 16.

Definition chunk_bytes (r : Z * Chunk) : bytes :=
  be 8 (fst r) ++ be 8 (chunk_id (snd r)) ++ be 4 (chunk_version (snd r)) ++
  concat (map location_bytes (location (snd r))).

Definition chunk_ok (r : Z * Chunk) : Prop :=
  0 <= fst r < 2 ^ 64 /\ 0 <= chunk_id (snd r) < 2 ^ 64 /\ 0 <= chunk_version (snd r) < 2 ^ 32 /\
  Forall location_ok (location (snd r)) /\ Z.of_nat (length (location (snd r))) < 2 ^ 16.

Lemma size_location_bytes l : size (location_bytes l) = 6.
Proof. unfold location_bytes. sizes. Qed.

Lemma size_locations ls : size (concat (map location_bytes ls)) = 6 * Z.of_nat (length ls).
Proof.
  induction ls as [|l ls IH]; [done|]. cbn [map concat length].
  rewrite size_app, size_location_bytes, IH. lia.
Qed.

Lemma size_chunk_bytes r : size (chunk_bytes r) = 20 + 6 * Z.of_nat (length (location (snd r))).
Proof. unfold chunk_bytes. rewrite !size_app, !size_be, size_locations. lia. Qed.

Lemma read_locations_wp f ls tl Q s n :
  Forall location_ok ls -> (length ls <= f)%nat -> Q ls s n ->
  wpV Sp (read_locations f (6 * Z.of_nat (length ls)) (concat (map location_bytes ls) ++ tl)) Q s n.
Proof.
  revert f Q. induction ls as [|l ls IH]; intros f Q Hls Hf HQ.
  - destruct f; cbn [read_locations length]; by vstep.
  - inversion_clear Hls as [|? ? [Hi Hp] Hls']. destruct f as [|f]; [cbn in Hf; lia|].
    cbn [read_locations]. cbn [length] in *. destruct (Z.ltb_spec 0 (6 * Z.of_nat (Datatypes.S (length ls)))); [|lia].
    cbn [map concat]. unfold location_bytes at 1. rewrite <- !app_assoc, get32bit_be.
    do 2 vstep. rewrite get16bit_be. do 2 vstep.
    replace (6 * Z.of_nat (Datatypes.S (length ls)) - (4 + 2)) with (6 * Z.of_nat (length ls)) by lia.
    vstep. apply IH; [done|lia|]. vstep. rewrite !wrap_small by lia. by destruct l.
Qed.

Lemma read_chunk_reply_wp r tl Q s n :
  chunk_ok r -> Q r s n ->
  wpV Sp (read_chunk_reply (chunk_bytes r ++ tl) (size (chunk_bytes r))) Q s n.
Proof.
  destruct r as [len [id ver ls]]. intros (Hl & Hi & Hv & Hls & Hn) HQ. cbn [fst snd chunk_id chunk_version location] in *.
  unfold read_chunk_reply. rewrite size_chunk_bytes. cbn [snd location].
  unfold chunk_bytes. cbn [fst snd chunk_id chunk_version location].
  rewrite <- !app_assoc, get64bit_be. do 2 vstep. rewrite get64bit_be. do 2 vstep.
  rewrite get32bit_be. do 2 vstep.
  replace (20 + 6 * Z.of_nat (length ls) - 8 - 8 - 4) with (6 * Z.of_nat (length ls)) by lia.
  vstep. apply read_locations_wp; [done|lia|]. vstep. by rewrite !wrap_small.
Qed.

Definition chunk_reply_ok (r : Z + Z * Chunk) : Prop :=
  match r with inl st => 0 < st < 256 | inr r => chunk_ok r end.

Lemma WriteChunk_wp a srv nops inode indx r Q s n :
  session a s n ->
  serve a (servers n) CUTOMA_FUSE_WRITE_CHUNK
    (be 4 (session_id_ (master s)) ++ be 4 inode ++ be 4 indx) =
    (srv, answer nops MATOCU_FUSE_WRITE_CHUNK (session_id_ (master s)) (reply_payload chunk_bytes r)) ->
  answer_ok fuel nops MATOCU_FUSE_WRITE_CHUNK (reply_payload chunk_bytes r) -> chunk_reply_ok r ->
  Q (match r with inl st => (st, None) | inr e => (STATUS_OK, Some e) end) s (set_servers srv n) ->
  wpV Sp (WriteChunk fuel inode indx) Q s n.
Proof.
  intros Hses Hs Hok Hr HQ. unfold WriteChunk.
  vstep. apply get_master_wp. vstep. apply BuildCommand_wp; [lia|]. intros buf Hbuf.
  vstep. rewrite !put32bit_be.
  eapply (send_wp a srv nops CUTOMA_FUSE_WRITE_CHUNK (be 4 inode ++ be 4 indx)).
  - done.
  - unfold packet. by rewrite <- !app_assoc.
  - sizes.
  - unfold CUTOMA_FUSE_WRITE_CHUNK. lia.
  - sizes.
  - exact Hs.
  - exact Hok.
  - intros tl. destruct r as [st|r]; cbn [reply_payload] in *.
    + rewrite size_be. cbn [Z.of_nat Pos.of_succ_nat Z.eqb Pos.eqb]. vstep.
      apply status_of_wp; [unfold chunk_reply_ok in Hr; lia|]. by vstep.
    + pose proof (size_chunk_bytes r) as Hsz.
      destruct (Z.eqb_spec (size (chunk_bytes r)) 1); [lia|].
      destruct (Z.ltb_spec (size (chunk_bytes r)) 20); [lia|]. cbn [orb].
      rewrite Hsz at 1. replace (20 + 6 * Z.of_nat (length (location (snd r))) - 20)
        with (Z.of_nat (length (location (snd r))) * 6) by lia.
      rewrite Z.rem_mul by lia. cbn [Z.eqb negb]. vstep. apply read_chunk_reply_wp; [done|]. by vstep.
Qed.

Lemma ReadChunk_wp a srv nops inode indx r Q s n :
  session a s n ->
  serve a (servers n) CUTOMA_FUSE_READ_CHUNK
    (be 4 (session_id_ (master s)) ++ be 4 inode ++ be 4 indx) =
    (srv, answer nops MATOCU_FUSE_READ_CHUNK (session_id_ (master s)) (reply_payload chunk_bytes r)) ->
  answer_ok fuel nops MATOCU_FUSE_READ_CHUNK (reply_payload chunk_bytes r) -> chunk_reply_ok r ->
  Q (match r with inl st => (st, None) | inr e => (STATUS_OK, Some e) end) s (set_servers srv n) ->
  wpV Sp (ReadChunk fuel inode indx) Q s n.
Proof.
  intros Hses Hs Hok Hr HQ. unfold ReadChunk.
  vstep. apply get_master_wp. vstep. apply BuildCommand_wp; [lia|]. intros buf Hbuf.
  vstep. rewrite !put32bit_be.
  eapply (send_wp a srv nops CUTOMA_FUSE_READ_CHUNK (be 4 inode ++ be 4 indx)).
  - done.
  - unfold packet. by rewrite <- !app_assoc.
  - sizes.
  - unfold CUTOMA_FUSE_READ_CHUNK. lia.
  - sizes.
  - exact Hs.
  - exact Hok.
  - intros tl. destruct r as [st|r]; cbn [reply_payload] in *.
    + rewrite size_be. cbn [Z.of_nat Pos.of_succ_nat Z.eqb Pos.eqb]. vstep.
      apply status_of_wp; [unfold chunk_reply_ok in Hr; lia|]. by vstep.
    + pose proof (size_chunk_bytes r) as Hsz.
      destruct (Z.eqb_spec (size (chunk_bytes r)) 1); [lia|].
      vstep. apply read_chunk_reply_wp; [done|]. by vstep.
Qed.

Lemma WriteChunkEnd_wp a srv nops chunkid inode length st Q s n :
  session a s n ->
  serve a (servers n) CUTOMA_FUSE_WRITE_CHUNK_END
    (be 4 (session_id_ (master s)) ++ be 8 chunkid ++ be 4 inode ++ be 8 length) =
    (srv, answer nops MATOCU_FUSE_WRITE_CHUNK_END (session_id_ (master s)) (be 1 st)) ->
  answer_ok fuel nops MATOCU_FUSE_WRITE_CHUNK_END (be 1 st) -> 0 <= st < 256 ->
  Q st s (set_servers srv n) ->
  wpV Sp (WriteChunkEnd fuel chunkid inode length) Q s n.
Proof.
  intros Hses Hs Hok Hr HQ. unfold WriteChunkEnd.
  vstep. apply get_master_wp. vstep. apply BuildCommand_wp; [lia|]. intros buf Hbuf.
  vstep. rewrite !put64bit_be, put32bit_be.
  eapply (send_wp a srv nops CUTOMA_FUSE_WRITE_CHUNK_END (be 8 chunkid ++ be 4 inode ++ be 8 length)).
  - done.
  - unfold packet. by rewrite <- !app_assoc.
  - sizes.
  - unfold CUTOMA_FUSE_WRITE_CHUNK_END. lia.
  - sizes.
  - exact Hs.
  - exact Hok.
  - intros tl. rewrite size_be. cbn [Z.of_nat Pos.of_succ_nat Z.eqb Pos.eqb].
    by apply status_of_wp.
Qed.
End Requests.

(** [Access] leaves [buf.used] at 0, so the assertion of [SendAndReceive]
    fails in every debug build: whatever the network, it never returns. *)
Lemma Access_traps {W} `{Network W} `{Build} fuel inode modemask (s : client) (w : W) :
  asserts = true -> wpN nany (Access fuel inode modemask) (fun _ _ _ => False) s w.
Proof.
  intros Ha. unfold Access, SendAndReceive.
  apply wpN_bind. eapply wpN_mono; [apply wpN_nany|intros m s1 w1 _].
  apply wpN_bind. eapply wpN_mono; [apply wpN_nany|intros [buf w2] s2 w3 _].
  apply wpN_bind. eapply wpN_mono; [apply wpN_nany|intros buf' s3 w4 _].
  apply wpN_bind, wpN_bind. eapply wpN_mono; [apply wpN_nany|intros [] s4 w5 _].
  apply wpN_bind. unfold ASSERT. rewrite Ha. by apply wpN_halt.
Qed.
