(* ===== verification/Chunks.v ===== *)
(** * The MooseFS client: chunk servers (src/mooseclient/moose.h,
    src/mooseclient/moose.cc)

    [ChunkServer] with its block transfers, and the cache of connections
    [Cached].  A [ChunkServer] object is owned by one pointer at a time, so
    it is a value here. *)

From S2P Require Import Prelude CString Posix Datapack Net Protocol Master.

Definition ChunkServer_new : ChunkServer := mkChunkServer 0 0 0.

Section Chunks.
Context {W : Type} `{Network W} `{Build}.
Abbreviation M := (N client W).
Context (fuel : nat).

(** [mycrc32(0, block, leng)]: Boost's [crc_32_type]. *)
Context (crc32 : bytes -> Z).

(** On failure of [connect] the socket is closed; the object is the second
    component. *)
Definition ChunkServer_Connect (cs : ChunkServer) (ip port : Z) : M (bool * ChunkServer) :=
  ASSERT (0 =? socket_ cs);;
  sock ← ncall NSocket;
  let cs := mkChunkServer sock (ip_ cs) (port_ cs) in
  if sock <? 0 then mret (false, cs)
  else
    ret ← ncall (NConnect sock (SockAddr ip port));
    ASSERT (ret =? 0);;
    if ret <? 0 then
      ncall (NClose sock);;
      mret (false, mkChunkServer 0 (ip_ cs) (port_ cs))
    else mret (true, mkChunkServer sock ip port).

(** The destructor. *)
Definition ChunkServer_delete (cs : ChunkServer) : M unit :=
  if negb (socket_ cs =? 0) then
    ncall (NShutdown (socket_ cs));; ncall (NClose (socket_ cs));; mret tt
  else mret tt.

(** The reply loop of [ReadBlock]: the result, and the bytes stored from
    [buff] on. *)
Fixpoint ReadBlock_loop (fuel : nat) (sock : Z) (chunk : Chunk) (offset sz : Z)
    (input : Buffer) (buff : bytes) : M (Z * bytes) :=
  match fuel with
  | O => nhalt Fuel
  | S fuel =>
      '(ret, data) ← tcptoread sock 8;
      let input := fill input 0 data in
      ASSERT (ret =? 8);;
      if negb (ret =? 8) then mret (ERROR_IO, buff)
      else
        '(cmd, rptr) ← ptr_get (get32bit (ptr input));
        '(length, _) ← ptr_get (get32bit rptr);
        if cmd =? CSTOCU_READ_STATUS then
          if negb (length =? 9) then mret (-1, buff)
          else
            '(ret, data) ← tcptoread sock 9;
            let input := fill input 0 data in
            if negb (ret =? 9) then mret (-1, buff)
            else
              '(t64, rptr) ← ptr_get (get64bit (ptr input));
              '(status, _) ← ptr_get (get8bit rptr);
              if negb (status =? 0) then mret (-1, buff)
              else if negb (t64 =? chunk_id chunk) then mret (-1, buff)
              else if negb (sz =? 0) then mret (-1, buff)
              else mret (0, buff)
        else if cmd =? CSTOCU_READ_DATA then
          ASSERT (20 <=? length);;
          if length <? 20 then mret (-1, buff)
          else
            input ← Alloca input 20;
            '(ret, data) ← tcptoread sock 20;
            let input := fill input 0 data in
            if negb (20 =? ret) then mret (-1, buff)
            else
              '(t64, rptr) ← ptr_get (get64bit (ptr input));
              if negb (t64 =? chunk_id chunk) then mret (-1, buff)
              else
                '(blockno, rptr) ← ptr_get (get16bit rptr);
                '(blockoffset, rptr) ← ptr_get (get16bit rptr);
                '(blocksize, rptr) ← ptr_get (get32bit rptr);
                '(blockcrc, _) ← ptr_get (get32bit rptr);
                if negb (length =? u32 (20 + blocksize)) then mret (-1, buff)
                else if 0 =? blocksize then mret (-1, buff)
                else if negb (blockno =? Z.shiftr offset 16) then mret (-1, buff)
                else if negb (blockoffset =? Z.land offset 0xFFFF) then mret (-1, buff)
                else
                  let breq := u32 (65536 - blockoffset) in
                  let breq := if sz <? breq then sz else breq in
                  if negb (blocksize =? breq) then mret (-1, buff)
                  else
                    '(ret, data) ← tcptoread sock blocksize;
                    let readed := u32 ret in
                    if negb (readed =? blocksize) then mret (-1, buff ++ data)
                    else if negb (blockcrc =? crc32 data) then mret (-1, buff ++ data)
                    else ReadBlock_loop fuel sock chunk (u32 (offset + blocksize))
                           (u32 (sz - blocksize)) input (buff ++ data)
        (* any other command is passed over, its data is not *)
        else ReadBlock_loop fuel sock chunk offset sz input buff
  end.

Definition read_request (chunk : Chunk) (offset sz : Z) : bytes :=
  put32bit (put32bit (put32bit (put64bit (put32bit (put32bit [] CUTOCS_READ) 20)
    (chunk_id chunk)) (chunk_version chunk)) offset) sz.

Definition ReadBlock (cs : ChunkServer) (chunk : Chunk) (offset sz : Z) : M (Z * bytes) :=
  ret ← ncall (NWrite (socket_ cs) (read_request chunk offset sz));
  if negb (ret =? 28) then mret (ERROR_IO, [])
  else
    input ← Alloca Buffer_new 20;
    ReadBlock_loop fuel (socket_ cs) chunk offset sz input [].

(** The status message both writing operations wait for: the chunk id, the
    write id and the status it holds, or nothing when it does not come. *)
Definition write_status (cs : ChunkServer) (buf : Buffer) : M (option (Z * Z * Z)) :=
  buf ← Alloca buf (8 + 13);
  '(ret, data) ← tcptoread (socket_ cs) (8 + 13);
  let buf := fill buf 0 data in
  if negb (ret =? 8 + 13) then mret None
  else
    '(cmd, rptr) ← ptr_get (get32bit (ptr buf));
    '(length, rptr) ← ptr_get (get32bit rptr);
    ASSERT (CSTOCU_WRITE_STATUS =? cmd);;
    ASSERT (13 =? length);;
    '(recchunkid, rptr) ← ptr_get (get64bit rptr);
    '(recwriteid, rptr) ← ptr_get (get32bit rptr);
    '(recstatus, _) ← ptr_get (get8bit rptr);
    mret (Some (recchunkid, recwriteid, recstatus)).

Definition put_location (w : bytes) (l : Location) : bytes :=
  put16bit (put32bit w (loc_ip l)) (loc_port l).

(** Without a location [chainsize] wraps, and [Alloca] is asked for too
    little. *)
Definition WriteBlockInit (cs : ChunkServer) (chunk : Chunk) : M (Z * option Z) :=
  let chainsize := u32 ((Z.of_nat (length (location chunk)) - 1) * 6) in
  buf ← Alloca Buffer_new (i32 (8 + 12 + chainsize));
  let w := put32bit (put32bit [] CUTOCS_WRITE) (u32 (12 + chainsize)) in
  let w := put32bit (put64bit w (chunk_id chunk)) (chunk_version chunk) in
  let w := fold_left put_location (drop 1 (location chunk)) w in
  buf ← written buf w;
  ret ← ncall (NWrite (socket_ cs) (take (Z.to_nat (used buf)) (ptr buf)));
  ASSERT (ret =? used buf);;
  r ← write_status cs buf;
  match r with
  | None => mret (ERROR_IO, None)
  | Some (recchunkid, recwriteid, recstatus) =>
      ASSERT (recchunkid =? chunk_id chunk);;
      if negb (recstatus =? STATUS_OK) then mret (recstatus, None)
      else mret (STATUS_OK, Some recwriteid)
  end.

Definition write_request (chunk : Chunk) (writeid blockno offset : Z) (buff : bytes) : bytes :=
  let w := put32bit (put32bit [] CUTOCS_WRITE_DATA) (u32 (24 + size buff)) in
  let w := put32bit (put64bit w (chunk_id chunk)) writeid in
  let w := put32bit (put16bit (put16bit w blockno) offset) (size buff) in
  put32bit w (crc32 buff).

(** [buff] is the [size] bytes to write. *)
Definition WriteBlock (cs : ChunkServer) (chunk : Chunk) (writeid blockno offset : Z)
    (buff : bytes) : M Z :=
  ret ← ncall (NWrite (socket_ cs) (write_request chunk writeid blockno offset buff));
  if negb (ret =? 32) then mret (-1)
  else
    ret ← ncall (NWrite (socket_ cs) buff);
    if negb (u32 ret =? size buff) then mret (-1)
    else
      r ← write_status cs Buffer_new;
      match r with
      | None => mret ERROR_IO
      | Some (recchunkid, recwriteid, recstatus) =>
          ASSERT (recwriteid =? writeid);;
          ASSERT (recchunkid =? chunk_id chunk);;
          if negb (recstatus =? STATUS_OK) then mret recstatus else mret STATUS_OK
      end.

(** ** Cached *)

Definition Key (ip port : Z) (is_read : bool) : Z :=
  Z.lor (Z.lor (u64 (Z.shiftl ip 32)) (u32 (Z.shiftl port 16))) (Z.b2z is_read).

Definition set_map (m : gmap Z ChunkServer) : M unit :=
  s ← get_state; put_state (mkClient (master s) (last_registered_ s) m).

(** A new connection, or null. *)
Definition Cached_connect (ip port : Z) : M (option ChunkServer) :=
  '(ok, cs) ← ChunkServer_Connect ChunkServer_new ip port;
  if negb (ok : bool) then ChunkServer_delete cs;; mret None else mret (Some cs).

(** The entry is read after it is erased. *)
Definition Cached_Create (ip port : Z) (is_read : bool) : M (option ChunkServer) :=
  if is_read then
    s ← get_state;
    let key := Key ip port is_read in
    match map_ s !! key with
    | Some cs =>
        set_map (delete key (map_ s));;
        if erased_readable then mret (Some cs) else nhalt Undef
    | None => Cached_connect ip port
    end
  else Cached_connect ip port.

Definition Cached_Return (cs : ChunkServer) (is_read : bool) : M unit :=
  if is_read then
    s ← get_state;
    let key := Key (ip_ cs) (port_ cs) is_read in
    match map_ s !! key with
    | None => set_map (<[key := cs]> (map_ s))
    | Some _ => ChunkServer_delete cs
    end
  else ChunkServer_delete cs.

End Chunks.
