(* ===== verification/Files.v ===== *)
(** * The MooseFS client: files (src/mooseclient/moose.h,
    src/mooseclient/moose.cc)

    [File]: opening, creating, reading and writing by chunks and blocks,
    seeking and closing.  An operation takes the object and returns it with
    its result. *)

From S2P Require Import Prelude CString Posix Datapack Net Protocol Master Chunks.

(** ** Flags (Linux) *)

Definition O_ACCMODE : Z := 3.
Definition O_RDONLY : Z := 0.
Definition O_WRONLY : Z := 1.
Definition O_RDWR_ : Z := 2.
Definition O_CREAT : Z := 0x40.
Definition O_EXCL : Z := 0x80.
Definition O_APPEND : Z := 0x400.
Definition SEEK_SET : Z := 0.
Definition SEEK_CUR : Z := 1.
Definition EFBIG : Z := 27.

Definition M64 : Z := 64 * 1024 * 1024.
Definition K64 : Z := 64 * 1024.

Record File := mkFile {
  position_ : Z;
  inode_ : Z;
  truncate_in_close_ : bool }.

Definition File_new : File := mkFile 0 0 false.

Definition set_position (p : Z) (f : File) : File := mkFile p (inode_ f) (truncate_in_close_ f).
Definition set_truncate (b : bool) (f : File) : File := mkFile (position_ f) (inode_ f) b.

Definition has_flag (flags bit : Z) : bool := negb (Z.land flags bit =? 0).

(** What [Write] and [Read] compute for one chunk: its index, the offset in
    it, and how much of it is wanted. *)
Definition chunk_index_of (pos : Z) : Z := i32 (Z.shiftr pos 26).
Definition chunk_offset_of (pos index : Z) : Z := u64 (pos - u64 (index * M64)).
Definition chunk_size_of (pos index end_ : Z) : Z :=
  u64 (Z.min end_ (u64 ((index + 1) * M64)) - pos).

(** The same for one block of a chunk. *)
Definition block_offset_of (chunk_pos blockno : Z) : Z := u32 (chunk_pos - u64 (blockno * K64)).
Definition block_size_of (chunk_pos blockno chunk_end : Z) : Z :=
  u32 (Z.min chunk_end (u64 ((blockno + 1) * K64)) - chunk_pos).

Section Files.
Context {W : Type} `{Network W} `{Build}.
Abbreviation M := (N client W).
Context (fuel : nat).
Context (crc32 : bytes -> Z).

(** An uninitialised [struct stat], as [FileAttribute::size] has one. *)
Definition uninit_stat : M stat :=
  b ← ncall (NNew 96);
  let field i := le_combine (range b (8 * i) 8) in
  mret (mkStat (field 0) (field 1) (field 2) (field 3) (field 4) (field 5)
          (i64 (field 6)) (field 7) (field 8) (field 9) (field 10) (field 11)).

(** [FileAttribute::size()] *)
Definition attribute_size (a : FileAttribute) : M Z :=
  old ← uninit_stat; ptr_get (attr_size a old).

(** ** Create and Open *)

Definition Create (f : File) (pathname : bytes) (mode : Z) : M (Z * File) :=
  ASSERT (inode_ f =? 0);;
  let pathname := c_str pathname in
  let slash := rfind "/" pathname in
  '(ret, parent, name) ←
    (if negb (slash =? npos) then
       '(ret, out) ← Lookup_path fuel (substr pathname 0 slash);
       mret (ret, match out with Some (i, _) => i | None => 0 end,
             substr pathname (slash + 1) npos)
     else mret (STATUS_OK, MFS_ROOT_ID, pathname));
  if negb (ret =? STATUS_OK) then mret (ret, f)
  else
    '(ret, out) ← Create_node fuel parent name mode;
    if negb (ret =? STATUS_OK) then mret (ret, f)
    else
      let inode := match out with Some (i, _) => i | None => 0 end in
      mret (STATUS_OK, mkFile 0 inode (truncate_in_close_ f)).

(** Only "no such file" with [O_CREAT] and "found" with [O_EXCL] end early:
    after any other failed lookup the inode is uninitialised. *)
Definition Open (f : File) (pathname : bytes) (flags mode : Z) : M (Z * File) :=
  ASSERT (inode_ f =? 0);;
  '(ret, out) ← Lookup_path fuel pathname;
  if (ERROR_ENOENT =? ret) && has_flag flags O_CREAT then Create f pathname mode
  else if (0 =? ret) && has_flag flags O_EXCL then mret (-1, f)
  else
    let acc := Z.land flags O_ACCMODE in
    let '(oflags, f) :=
      if acc =? O_RDONLY then (WANT_READ, f)
      else if acc =? O_WRONLY then (WANT_WRITE, set_truncate true f)
      else if acc =? O_RDWR_ then (Z.lor WANT_READ WANT_WRITE, f)
      else (0, f) in
    inode ← match out with
            | Some (i, _) => mret i
            | None => b ← ncall (NNew 4); mret (le_combine b)
            end;
    '(ret, att) ← Master.Open fuel inode oflags true;
    if negb (ret =? STATUS_OK) then mret (ret, f)
    else
      f ← (if Z.land flags O_APPEND =? O_APPEND then
             sz ← attribute_size (default FileAttribute_new att);
             mret (set_truncate true (set_position sz f))
           else mret (set_position 0 f));
      mret (STATUS_OK, mkFile (position_ f) inode (truncate_in_close_ f)).

Definition Close (f : File) : M (Z * File) :=
  let closed := mkFile 0 0 (truncate_in_close_ f) in
  if truncate_in_close_ f then
    '(ret, attr) ← GetAttr fuel (inode_ f);
    longer ← (if ret =? STATUS_OK then
                sz ← attribute_size (default FileAttribute_new attr);
                mret (position_ f <? sz)
              else mret false);
    if (longer : bool) then
      '(ret, attr2) ← Truncate fuel (inode_ f) 0 (position_ f) true;
      if negb (ret =? STATUS_OK) then mret (ret, f)
      else
        sz ← attribute_size (default FileAttribute_new attr2);
        ASSERT (sz =? position_ f);;
        mret (0, closed)
    else mret (0, closed)
  else mret (0, closed).

(** ** Write *)

(** The blocks of one chunk: false after a failure, and the rest of the
    buffer. *)
Fixpoint write_blocks (fuel : nat) (cs : ChunkServer) (chunk : Chunk) (writeid : Z)
    (chunk_pos blockno chunk_end : Z) (buf : bytes) : M (bool * bytes) :=
  match fuel with
  | O => nhalt Fuel
  | S fuel =>
      let block_offset := block_offset_of chunk_pos blockno in
      let block_size := block_size_of chunk_pos blockno chunk_end in
      if size buf <? block_size then nhalt Undef
      else
        ret ← WriteBlock crc32 cs chunk writeid (u16 blockno) (u16 block_offset)
                (take (Z.to_nat block_size) buf);
        if negb (ret =? STATUS_OK) then ChunkServer_delete cs;; mret (false, buf)
        else
          let chunk_pos := u64 (chunk_pos + block_size) in
          let buf := drop (Z.to_nat block_size) buf in
          if chunk_end <=? chunk_pos then mret (true, buf)
          else write_blocks fuel cs chunk (u32 (writeid + 1)) chunk_pos (u64 (blockno + 1))
                 chunk_end buf
  end.

(** The chunk loop: where it got to, unless something failed. *)
Fixpoint write_chunks (loops : nat) (inode : Z) (write_position chunk_index end_ : Z)
    (buf : bytes) : M (option Z) :=
  match loops with
  | O => nhalt Fuel
  | S loops =>
      '(ret, out) ← WriteChunk fuel inode (u32 chunk_index);
      if negb (ret =? STATUS_OK) then mret None
      else
        let chunk := match out with Some (_, chunk) => chunk | None => Chunk_new end in
        let chunk_offset := chunk_offset_of write_position chunk_index in
        let chunk_size := chunk_size_of write_position chunk_index end_ in
        loc ← ptr_get (head (location chunk));
        cs ← Cached_Create (loc_ip loc) (loc_port loc) false;
        cs ← match cs with
             | Some cs => mret (Some cs)
             | None => Cached_Create (loc_ip loc) (loc_port loc) false
             end;
        match cs with
        | None => mret None
        | Some cs =>
            '(ret, writeid) ← WriteBlockInit cs chunk;
            match writeid with
            | None => mret None
            | Some writeid =>
                '(ok, buf) ← write_blocks fuel cs chunk writeid chunk_offset
                  (Z.shiftr chunk_offset 16) (u64 (chunk_offset + chunk_size)) buf;
                if negb (ok : bool) then mret None
                else
                  Cached_Return cs false;;
                  let write_position := u64 (write_position + chunk_size) in
                  ret ← WriteChunkEnd fuel (chunk_id chunk) inode write_position;
                  if negb (ret =? STATUS_OK) then mret None
                  else if end_ <=? write_position then mret (Some write_position)
                  else write_chunks loops inode write_position (chunk_index + 1) end_ buf
            end
        end
  end.

Definition Write (f : File) (buf : bytes) (count : Z) : M (Z * File) :=
  ASSERT (negb (inode_ f =? 0));;
  r ← write_chunks fuel (inode_ f) (position_ f) (chunk_index_of (position_ f))
        (u64 (position_ f + count)) buf;
  match r with
  | None => mret (0, f)
  | Some p => mret (u32 count, set_position p f)
  end.

(** ** Read *)

(** The first location that can be connected to. *)
Fixpoint connect_any (locs : list Location) : M (option ChunkServer) :=
  match locs with
  | [] => mret None
  | loc :: locs =>
      cs ← Cached_Create (loc_ip loc) (loc_port loc) true;
      match cs with
      | Some cs => mret (Some cs)
      | None => connect_any locs
      end
  end.

(** Is the last registration less than ten seconds ago?  If so, pause. *)
Definition just_registered : M bool :=
  now ← ncall NTime;
  s ← get_state;
  if now - last_registered_ s <? 10 then ncall (NSleep 1);; mret true else mret false.

(** Bytes stored at [pos] of the caller's buffer. *)
Definition store (mem : bytes) (pos : Z) (data : bytes) : M bytes :=
  if size mem <? pos + size data then nhalt Undef else mret (splice mem pos data).

(** The chunk loop: where it got to, unless something failed, and the
    buffer.  [old_position] is [position_]; the buffer position is the
    distance from it. *)
Fixpoint read_chunks (loops : nat) (inode old_position : Z)
    (write_position chunk_index end_ : Z) (mem : bytes) : M (option Z * bytes) :=
  match loops with
  | O => nhalt Fuel
  | S loops =>
      '(status, out) ← ReadChunk fuel inode (u32 chunk_index);
      if negb (status =? STATUS_OK) then mret (None, mem)
      else
        '(file_length, chunk) ← match out with
                                | Some out => mret out
                                | None => b ← ncall (NNew 8); mret (le_combine b, Chunk_new)
                                end;
        let end_ := if file_length <? end_ then file_length else end_ in
        if file_length <? old_position then mret (None, mem)
        else
          let chunk_offset := chunk_offset_of write_position chunk_index in
          let chunk_size := chunk_size_of write_position chunk_index end_ in
          if Z.of_nat (length (location chunk)) <? 1 then
            again ← just_registered;
            if (again : bool) then
              read_chunks loops inode old_position write_position chunk_index end_ mem
            else mret (None, mem)
          else
            cs ← connect_any (location chunk);
            match cs with
            | None => mret (None, mem)
            | Some cs =>
                '(ret, data) ← ReadBlock fuel crc32 cs chunk (u32 chunk_offset) (u32 chunk_size);
                mem ← store mem (write_position - old_position) data;
                if negb (ret =? STATUS_OK) then
                  ChunkServer_delete cs;;
                  again ← just_registered;
                  if (again : bool) then
                    read_chunks loops inode old_position write_position chunk_index end_ mem
                  else
                    (* the deleted object is handed to [Cached::Return] *)
                    nhalt Undef
                else
                  Cached_Return cs true;;
                  let write_position := u64 (write_position + chunk_size) in
                  if end_ <=? write_position then mret (Some write_position, mem)
                  else read_chunks loops inode old_position write_position (chunk_index + 1)
                         end_ mem
            end
  end.

(** The result, the caller's buffer, and the file. *)
Definition Read (f : File) (mem : bytes) (count : Z) : M (Z * bytes * File) :=
  ASSERT (negb (inode_ f =? 0));;
  if MFS_MAX_FILE_SIZE <=? position_ f then mret (EFBIG, mem, f)
  else
    '(r, mem) ← read_chunks fuel (inode_ f) (position_ f) (position_ f)
                  (chunk_index_of (position_ f)) (u64 (position_ f + count)) mem;
    match r with
    | None => mret (0, mem, f)
    | Some p => mret (u32 (p - position_ f), mem, set_position p f)
    end.

(** ** Seek, Pwrite, Pread *)

Definition Seek (f : File) (offset whence : Z) : M (Z * File) :=
  let old_position := position_ f in
  '(ret, attr) ← GetAttr fuel (inode_ f);
  if ret =? STATUS_OK then
    sz ← attribute_size (default FileAttribute_new attr);
    if (whence =? SEEK_SET) && (offset <=? sz) then mret (old_position, set_position offset f)
    else if (whence =? SEEK_CUR) && (u64 (offset + position_ f) <=? sz) then
      mret (old_position, set_position (u64 (position_ f + offset)) f)
    else mret (u64 (-1), f)
  else mret (u64 (-1), f).

Definition Pwrite (f : File) (buf : bytes) (count offset : Z) : M (Z * File) :=
  Write (set_position (u64 offset) f) buf count.

Definition Pread (f : File) (mem : bytes) (count offset : Z) : M (Z * bytes * File) :=
  Read (set_position (u64 offset) f) mem count.

End Files.
