(* ===== verification/Storage.v ===== *)
(** * What the MooseFS client relies on: the servers' side of the protocol

    The master and the chunk servers are not part of the sources.  What the
    client needs of them is two interfaces over a [Service]: [Directory], how
    names are looked up, and [Storage], what the chunk requests do to the
    contents of files.  Both speak in the packets that
    src/moosefs/MFSCommunication.h documents; the file theorems of
    [FilesSpec] are proved against them, and [Cluster] has servers that keep
    them. *)

From S2P Require Import Prelude CString Posix Datapack Net Servers Protocol Exchange Master MasterSpec Chunks Files.

(** ** Directories *)

Class Directory (S : Type) `{Service S} (a : sockaddr) (fuel : nat) := {
  entry : S -> Z -> Z -> Z -> bytes -> Z + Z * FileAttribute;
  entry_result : forall srv uid gid parent name, entry_ok (entry srv uid gid parent name);
  lookup_law : forall srv sid parent name m,
    0 <= sid < 2 ^ 32 -> 0 <= parent < 2 ^ 32 -> 0 < size name < 256 ->
    exists nops, answer_ok fuel nops MATOCU_FUSE_LOOKUP
        (reply_payload entry_bytes (entry srv (uid_ m) (gid_ m) parent name)) /\
      serve a srv CUTOMA_FUSE_LOOKUP (be 4 sid ++ lookup_args parent name m) =
        (srv, answer nops MATOCU_FUSE_LOOKUP sid
                (reply_payload entry_bytes (entry srv (uid_ m) (gid_ m) parent name))) }.

(** Following names from an inode. *)
Fixpoint resolve {S} `{Service S} {a fuel} `{!Directory S a fuel} (srv : S) (uid gid : Z) (e : Z * FileAttribute)
    (names : list bytes) : Z + Z * FileAttribute :=
  match names with
  | [] => inr e
  | name :: names =>
      match entry srv uid gid (fst e) name with
      | inl st => inl st
      | inr e => resolve srv uid gid e names
      end
  end.

(** ** Blocks *)

(** A range of a chunk cut at the block boundaries. *)
Fixpoint block_list (fuel : nat) (off : Z) (data : bytes) : list (Z * bytes) :=
  match fuel, data with
  | Datatypes.S fuel, _ :: _ =>
      let k := Z.min (size data) (K64 - off mod K64) in
      (off, take (Z.to_nat k) data) :: block_list fuel (off + k) (drop (Z.to_nat k) data)
  | _, _ => []
  end.

Definition blocks (off : Z) (data : bytes) : list (Z * bytes) :=
  block_list (Z.to_nat (size data / K64 + 2)) off data.

Definition data_packet (crc32 : bytes -> Z) (id : Z) (b : Z * bytes) : bytes :=
  packet CSTOCU_READ_DATA
    (be 8 id ++ be 2 (fst b / K64) ++ be 2 (fst b mod K64) ++ be 4 (size (snd b)) ++
     be 4 (crc32 (snd b)) ++ snd b).

Definition read_status (id st : Z) : bytes := packet CSTOCU_READ_STATUS (be 8 id ++ be 1 st).

Definition write_status_packet (id wid st : Z) : bytes :=
  packet CSTOCU_WRITE_STATUS (be 8 id ++ be 4 wid ++ be 1 st).

Definition address (l : Location) : sockaddr := SockAddr (loc_ip l) (loc_port l).

(** ** Contents *)

(** The bytes [o .. o + n) of a file given byte by byte. *)
Definition bytes_at (b : Z -> Init.Byte.byte) (o n : Z) : bytes :=
  map (fun k => b (o + Z.of_nat k)) (seq 0 (Z.to_nat n)).

(** A file after [data] is written at [base]. *)
Definition patch (b : Z -> Init.Byte.byte) (base : Z) (data : bytes) (o : Z) : Init.Byte.byte :=
  if (base <=? o) && (o <? base + size data) then nth (Z.to_nat (o - base)) data x00 else b o.

Class Storage (S : Type) `{Service S} (a : sockaddr) (fuel : nat) (crc32 : bytes -> Z) := {
  healthy : S -> Prop;
  vfile : S -> Z -> Prop;                            (* an inode that can be read and written *)
  vlen : S -> Z -> Z;
  vbyte : S -> Z -> Z -> Init.Byte.byte;
  holds : S -> Chunk -> Location -> Z -> Z -> Prop;  (* this is chunk [indx] of [inode] *)

  vlen_range : forall srv i, healthy srv -> 0 <= vlen srv i < 2 ^ 63;
  holds_chunk : forall srv ch l i x, healthy srv -> holds srv ch l i x ->
    0 <= chunk_id ch < 2 ^ 64 /\ 0 <= chunk_version ch < 2 ^ 32 /\ location_ok l /\
    accepts (address l) = true;

  (* the servers after a request: the lengths and the bytes *)
  after (srv srv' : S) (len : Z -> Z) (byte : Z -> Z -> Init.Byte.byte) : Prop :=
    healthy srv' /\ (forall i, vfile srv i -> vfile srv' i) /\
    (forall i, vlen srv' i = len i) /\ (forall i o, vbyte srv' i o = byte i o) /\
    (forall ch l i x, holds srv ch l i x -> holds srv' ch l i x);

  write_chunk_law : forall srv sid i x,
    healthy srv -> vfile srv i -> 0 <= sid < 2 ^ 32 -> 0 <= i < 2 ^ 32 -> 0 <= x < 2 ^ 31 ->
    exists srv' nops len ch,
      serve a srv CUTOMA_FUSE_WRITE_CHUNK (be 4 sid ++ be 4 i ++ be 4 x) =
        (srv', answer nops MATOCU_FUSE_WRITE_CHUNK sid (chunk_bytes (len, ch))) /\
      answer_ok fuel nops MATOCU_FUSE_WRITE_CHUNK (chunk_bytes (len, ch)) /\ chunk_ok (len, ch) /\
      location ch <> [] /\ Forall (fun l => holds srv' ch l i x) (location ch) /\
      after srv srv' (vlen srv) (vbyte srv);

  write_init_law : forall srv ch l i x,
    healthy srv -> holds srv ch l i x ->
    exists srv' wid,
      serve (address l) srv CUTOCS_WRITE
        (be 8 (chunk_id ch) ++ be 4 (chunk_version ch) ++
         concat (map location_bytes (drop 1 (location ch)))) =
        (srv', write_status_packet (chunk_id ch) wid 0) /\
      0 <= wid < 2 ^ 32 /\ after srv srv' (vlen srv) (vbyte srv);

  write_data_law : forall srv ch l i x wid blockno off data,
    healthy srv -> holds srv ch l i x -> 0 <= wid < 2 ^ 32 ->
    0 <= blockno < 1024 -> 0 <= off -> 0 < size data -> off + size data <= K64 ->
    exists srv',
      serve (address l) srv CUTOCS_WRITE_DATA
        (be 8 (chunk_id ch) ++ be 4 wid ++ be 2 blockno ++ be 2 off ++ be 4 (size data) ++
         be 4 (crc32 data) ++ data) =
        (srv', write_status_packet (chunk_id ch) wid 0) /\
      after srv srv' (vlen srv)
        (fun j => if j =? i then patch (vbyte srv i) (x * M64 + blockno * K64 + off) data
                  else vbyte srv j);

  write_end_law : forall srv sid ch l i x len,
    healthy srv -> vfile srv i -> holds srv ch l i x -> 0 <= sid < 2 ^ 32 -> 0 <= i < 2 ^ 32 ->
    0 <= len <= MFS_MAX_FILE_SIZE ->
    exists srv' nops,
      serve a srv CUTOMA_FUSE_WRITE_CHUNK_END
        (be 4 sid ++ be 8 (chunk_id ch) ++ be 4 i ++ be 8 len) =
        (srv', answer nops MATOCU_FUSE_WRITE_CHUNK_END sid (be 1 0)) /\
      answer_ok fuel nops MATOCU_FUSE_WRITE_CHUNK_END (be 1 0) /\
      after srv srv' (fun j => if j =? i then Z.max (vlen srv i) len else vlen srv j) (vbyte srv);

  read_chunk_law : forall srv sid i x,
    healthy srv -> vfile srv i -> 0 <= sid < 2 ^ 32 -> 0 <= i < 2 ^ 32 -> 0 <= x < 2 ^ 31 ->
    exists srv' nops ch,
      serve a srv CUTOMA_FUSE_READ_CHUNK (be 4 sid ++ be 4 i ++ be 4 x) =
        (srv', answer nops MATOCU_FUSE_READ_CHUNK sid (chunk_bytes (vlen srv i, ch))) /\
      answer_ok fuel nops MATOCU_FUSE_READ_CHUNK (chunk_bytes (vlen srv i, ch)) /\
      chunk_ok (vlen srv i, ch) /\
      (x * M64 < vlen srv i -> location ch <> []) /\
      Forall (fun l => holds srv' ch l i x) (location ch) /\
      after srv srv' (vlen srv) (vbyte srv);

  read_block_law : forall srv ch l i x off sz,
    healthy srv -> holds srv ch l i x -> 0 <= off -> 0 <= sz -> off + sz <= M64 ->
    x * M64 + off + sz <= vlen srv i ->
    exists srv',
      serve (address l) srv CUTOCS_READ
        (be 8 (chunk_id ch) ++ be 4 (chunk_version ch) ++ be 4 off ++ be 4 sz) =
        (srv', concat (map (data_packet crc32 (chunk_id ch))
                        (blocks off (bytes_at (vbyte srv i) (x * M64 + off) sz))) ++
               read_status (chunk_id ch) 0) /\
      after srv srv' (vlen srv) (vbyte srv) }.
