(* ===== verification/ChunksSpec.v ===== *)
(** * The MooseFS client: what the chunk transfers do

    The operations of [Chunks] on a connection to a server that answers as
    [Storage] says, and what [ReadBlock] guarantees on any network. *)

From S2P Require Import Prelude CString Posix Datapack Net Servers Protocol Exchange Master MasterSpec Chunks Files Storage.

Lemma set_servers_twice {S} (n : net S) s t : set_servers s (set_servers t n) = set_servers s n.
Proof. done. Qed.

(** A connection used and idle again leaves only the servers changed. *)
Lemma idle_again {S} (n : net S) fd l srv nx ck c :
  idle n fd l -> nx = next_sock n -> ck = clock n ->
  set_conns (<[fd := mkConn (Some l) [] []]> (<[fd := c]> (conns n))) (mkNet srv (<[fd := c]> (conns n)) nx ck) =
  set_servers srv n.
Proof.
  intros Hi -> ->. unfold set_conns, set_servers. cbn [servers next_sock clock].
  by rewrite insert_insert_eq, insert_id.
Qed.

(** The key is the three fields side by side. *)
Lemma Key_sum ip port r :
  0 <= ip < 2 ^ 32 -> 0 <= port < 2 ^ 16 ->
  Key ip port r = Z.b2z r + (port + ip * 2 ^ 16) * 2 ^ 16.
Proof.
  intros Hi Hp. unfold Key.
  assert (0 <= Z.b2z r < 2 ^ 16) as Hb by (destruct r; cbn; lia).
  rewrite (wrap_small 64 (Z.shiftl ip 32)) by (rewrite Z.shiftl_mul_pow2; lia).
  rewrite (wrap_small 32 (Z.shiftl port 16)) by (rewrite Z.shiftl_mul_pow2; lia).
  rewrite Z.lor_comm, (Z.lor_comm (Z.shiftl ip 32)).
  rewrite (lor_shiftl_add _ ip 32); [|lia|rewrite Z.shiftl_mul_pow2 by lia; lia].
  replace (Z.shiftl port 16 + ip * 2 ^ 32) with (Z.shiftl (port + ip * 2 ^ 16) 16)
    by (rewrite !Z.shiftl_mul_pow2 by lia; lia).
  apply lor_shiftl_add; lia.
Qed.

Lemma Key_inj ip port r ip' port' r' :
  0 <= ip < 2 ^ 32 -> 0 <= port < 2 ^ 16 -> 0 <= ip' < 2 ^ 32 -> 0 <= port' < 2 ^ 16 ->
  Key ip port r = Key ip' port' r' -> ip = ip' /\ port = port' /\ r = r'.
Proof.
  intros Hi Hp Hi' Hp'. rewrite !Key_sum by done.
  destruct r, r'; cbn [Z.b2z]; lia.
Qed.

Section Transfers.
Context {S : Type} `{Service S} `{Build}.
Context (Sp : nstop -> Prop).
Context (crc32 : bytes -> Z).
Hypothesis crc32_range : forall b, 0 <= crc32 b < 2 ^ 32.
Implicit Types (s : client) (n : net S).

(** ** Writing *)

Lemma write_status_wp cs p id wid st buf Q s n :
  conns n !! socket_ cs = Some (mkConn p (write_status_packet id wid st) []) ->
  0 <= id < 2 ^ 64 -> 0 <= wid < 2 ^ 32 -> 0 <= st < 256 ->
  Q (Some (id, wid, st)) s (set_conns (<[socket_ cs := mkConn p [] []]> (conns n)) n) ->
  wpV Sp (write_status cs buf) Q s n.
Proof.
  intros Hc Hid Hw Hst HQ. unfold write_status. vstep. apply Alloca_wp; [lia|].
  intros mem Hm _. vstep.
  assert (size (write_status_packet id wid st) = 21) as Hsz
    by (unfold write_status_packet; sizes).
  eapply tcptoread_wp; [rewrite app_nil_r; exact Hc|exact Hsz|lia|].
  change (negb (8 + 13 =? 8 + 13)) with false. cbv iota.
  rewrite fill_ptr by (rewrite Hsz; cbn [ptr]; lia).
  unfold write_status_packet at 1, packet. rewrite <- !app_assoc.
  rewrite get32bit_be. do 2 vstep. rewrite get32bit_be. do 2 vstep.
  vstep. apply ASSERT_wp; [done|].
  vstep. apply ASSERT_wp; [by sizes|].
  rewrite get64bit_be. do 2 vstep. rewrite get32bit_be. do 2 vstep.
  rewrite get8bit_be. do 2 vstep. vstep. by rewrite !wrap_small.
Qed.

Lemma put_locations w ls :
  fold_left put_location ls w = w ++ concat (map location_bytes ls).
Proof.
  revert w. induction ls as [|l ls IH]; intros w; cbn [fold_left map concat].
  { by rewrite app_nil_r. }
  rewrite IH. unfold put_location, location_bytes. rewrite put16bit_be, put32bit_be.
  by rewrite <- !app_assoc.
Qed.

Lemma WriteBlockInit_wp cs l ch srv wid Q s n :
  idle n (socket_ cs) l -> location ch <> [] -> Z.of_nat (length (location ch)) < 2 ^ 16 ->
  0 <= chunk_id ch < 2 ^ 64 -> 0 <= wid < 2 ^ 32 ->
  serve l (servers n) CUTOCS_WRITE
    (be 8 (chunk_id ch) ++ be 4 (chunk_version ch) ++
     concat (map location_bytes (drop 1 (location ch)))) =
    (srv, write_status_packet (chunk_id ch) wid 0) ->
  Q (STATUS_OK, Some wid) s (set_servers srv n) ->
  wpV Sp (WriteBlockInit cs ch) Q s n.
Proof.
  intros Hi Hne Hlen Hid Hw Hs HQ. unfold WriteBlockInit.
  set (k := Z.of_nat (length (drop 1 (location ch)))).
  assert (0 < length (location ch))%nat as Hl1 by (destruct (location ch); [done|cbn; lia]).
  assert (Z.of_nat (length (location ch)) - 1 = k) as -> by (unfold k; rewrite length_drop; lia).
  assert (0 <= k < 2 ^ 16) as Hk by (unfold k; rewrite length_drop; lia).
  rewrite (wrap_small 32 (k * 6)), i32_small, (wrap_small 32 (12 + k * 6)) by lia.
  set (ls := drop 1 (location ch)) in *.
  vstep. apply Alloca_wp; [lia|]. intros mem Hm _. vstep.
  rewrite put_locations, put32bit_be, put64bit_be, !put32bit_be, app_nil_l, <- !app_assoc.
  set (args := be 8 (chunk_id ch) ++ be 4 (chunk_version ch) ++ concat (map location_bytes ls)) in *.
  assert (size args = 12 + k * 6) as Ha.
  { unfold args. rewrite !size_app, !size_be, size_locations. fold k. lia. }
  assert (be 4 CUTOCS_WRITE ++ be 4 (12 + k * 6) ++ args = packet CUTOCS_WRITE args) as ->
    by (unfold packet; by rewrite Ha).
  apply written_wp; [cbn [ptr]; rewrite size_packet; lia|]. intros mem' Hm' _.
  cbn [ptr used]. vstep. unfold size at 1. rewrite Nat2Z.id, Hm'.
  eapply wpV_write; [exact Hi|apply packets_one; [unfold CUTOCS_WRITE; lia|lia]|
    cbn [serve_all]; by rewrite Hs|].
  rewrite app_nil_r. cbn [app]. vstep. apply ASSERT_wp; [apply Z.eqb_refl|]. vstep.
  eapply write_status_wp; [cbn [conns]; apply lookup_insert_eq|done|done|lia|].
  cbn [conns]. rewrite idle_again by done.
  vstep. apply ASSERT_wp; [apply Z.eqb_refl|]. by vstep.
Qed.

Lemma WriteBlock_wp cs l ch srv wid blockno off data Q s n :
  idle n (socket_ cs) l ->
  0 <= chunk_id ch < 2 ^ 64 -> 0 <= wid < 2 ^ 32 -> size data <= K64 ->
  serve l (servers n) CUTOCS_WRITE_DATA
    (be 8 (chunk_id ch) ++ be 4 wid ++ be 2 blockno ++ be 2 off ++ be 4 (size data) ++
     be 4 (crc32 data) ++ data) =
    (srv, write_status_packet (chunk_id ch) wid 0) ->
  0 < size data ->
  Q STATUS_OK s (set_servers srv n) ->
  wpV Sp (WriteBlock crc32 cs ch wid blockno off data) Q s n.
Proof.
  intros Hi Hid Hw Hd Hs Hpos HQ. unfold WriteBlock, K64 in *.
  set (head := be 8 (chunk_id ch) ++ be 4 wid ++ be 2 blockno ++ be 2 off ++ be 4 (size data) ++
     be 4 (crc32 data)).
  assert (size head = 24) as Hh by (unfold head; sizes).
  assert (be 8 (chunk_id ch) ++ be 4 wid ++ be 2 blockno ++ be 2 off ++ be 4 (size data) ++
     be 4 (crc32 data) ++ data = head ++ data) as E by (unfold head; by rewrite <- !app_assoc).
  rewrite E in Hs. clear E.
  assert (write_request crc32 ch wid blockno off data =
          be 4 CUTOCS_WRITE_DATA ++ be 4 (24 + size data) ++ head) as ->.
  { unfold write_request, head. rewrite !put32bit_be, put64bit_be, !put16bit_be.
    rewrite wrap_small by lia. by rewrite app_nil_l, <- !app_assoc. }
  vstep. eapply wpV_write; [exact Hi|apply packets_partial; lia|done|].
  rewrite app_nil_r. cbn [app].
  assert (size (be 4 CUTOCS_WRITE_DATA ++ be 4 (24 + size data) ++ head) = 32) as Hsz
    by (rewrite !size_app, !size_be, Hh; lia).
  rewrite Hsz. cbn [Z.eqb Pos.eqb negb]. vstep.
  assert ((be 4 CUTOCS_WRITE_DATA ++ be 4 (24 + size data) ++ head) ++ data =
    packet CUTOCS_WRITE_DATA (head ++ data)) as Ep.
  { unfold packet. rewrite size_app, Hh. by rewrite <- !app_assoc. }
  eapply wpV_write.
  { cbn [conns]. apply lookup_insert_eq. }
  { rewrite Ep. apply packets_one; [unfold CUTOCS_WRITE_DATA; lia|rewrite size_app, Hh; lia]. }
  { cbn [serve_all servers]. by rewrite Hs. }
  cbn [conns next_sock clock]. rewrite app_nil_r, insert_insert_eq. cbn [app].
  rewrite wrap_small, Z.eqb_refl by lia. cbn [negb]. vstep.
  eapply write_status_wp; [cbn [conns]; apply lookup_insert_eq|done|done|lia|].
  cbn [conns]. rewrite idle_again by done.
  vstep. apply ASSERT_wp; [apply Z.eqb_refl|]. vstep. apply ASSERT_wp; [apply Z.eqb_refl|].
  by vstep.
Qed.

(** ** Reading *)

Lemma block_list_nil fuel off : block_list fuel off [] = [].
Proof. by destruct fuel. Qed.

(** The reply that ends the transfer. *)
Lemma ReadBlock_loop_status fuel fd p ch off input buff Q s n :
  conns n !! fd = Some (mkConn p (read_status (chunk_id ch) 0) []) ->
  0 <= chunk_id ch < 2 ^ 64 -> 20 <= size (ptr input) ->
  Q (0, buff) s (set_conns (<[fd := mkConn p [] []]> (conns n)) n) ->
  wpV Sp (ReadBlock_loop crc32 (Datatypes.S fuel) fd ch off 0 input buff) Q s n.
Proof.
  intros Hc Hid Hi HQ. cbn [ReadBlock_loop]. unfold read_status, packet in Hc. rewrite app_assoc in Hc.
  vstep. eapply (tcptoread_wp Sp fd 8); [exact Hc|by rewrite size_app, !size_be|lia|].
  vstep. apply ASSERT_wp; [done|]. cbn [Z.eqb Pos.eqb negb].
  rewrite fill_ptr by (rewrite size_app, !size_be; lia).
  rewrite <- !app_assoc, get32bit_be. do 2 vstep. rewrite get32bit_be. do 2 vstep.
  rewrite wrap_small by (unfold CSTOCU_READ_STATUS; lia). rewrite Z.eqb_refl.
  rewrite wrap_small by sizes. rewrite size_app, !size_be. cbn [Z.of_nat Pos.of_succ_nat Pos.succ Z.add Pos.add Pos.add_carry Z.eqb Pos.eqb negb].
  vstep. eapply (tcptoread_wp Sp fd 9 p _ []).
  { cbn [conns set_conns]. rewrite app_nil_r. apply lookup_insert_eq. }
  { by rewrite size_app, !size_be. } { lia. }
  cbn [Z.eqb Pos.eqb negb].
  rewrite fill_ptr by (rewrite size_app, !size_be, size_fill by (rewrite ?size_app, ?size_be; lia); lia).
  rewrite <- !app_assoc, get64bit_be. do 2 vstep. rewrite get8bit_be. do 2 vstep.
  rewrite !wrap_small by lia. rewrite !Z.eqb_refl. cbn [negb].
  vstep. rewrite set_conns_twice. cbn [conns set_conns]. by rewrite insert_insert_eq.
Qed.

(** What is asked of a block reaches its end or the end of the data. *)
Definition block_size (off sz : Z) : Z := Z.min sz (64 * 1024 - off mod (64 * 1024)).

Lemma block_size_range off sz : 0 < sz -> 0 < block_size off sz <= sz /\ block_size off sz <= 64 * 1024.
Proof. intros Hs. unfold block_size. pose proof (Z.mod_pos_bound off (64 * 1024) ltac:(lia)). lia. Qed.

(** The head of a data packet. *)
Definition data_head (id off : Z) (d : bytes) : bytes :=
  be 8 id ++ be 2 (off / K64) ++ be 2 (off mod K64) ++ be 4 (size d) ++ be 4 (crc32 d).

Lemma size_data_head id off d : size (data_head id off d) = 20.
Proof. unfold data_head. sizes. Qed.

Lemma data_packet_head id off d : data_packet crc32 id (off, d) = (be 4 CSTOCU_READ_DATA ++ be 4 (20 + size d)) ++ data_head id off d ++ d.
Proof.
  unfold data_packet, packet. cbn [fst snd].
  assert (be 8 id ++ be 2 (off / K64) ++ be 2 (off mod K64) ++ be 4 (size d) ++ be 4 (crc32 d) ++ d = data_head id off d ++ d) as ->
    by (unfold data_head; by rewrite <- !app_assoc).
  by rewrite size_app, size_data_head, <- !app_assoc.
Qed.

(** Which block that is. *)
Lemma block_place off sz : 0 <= off -> off + sz <= M64 -> 0 < sz ->
  Z.shiftr off 16 = off / K64 /\ Z.land off 0xFFFF = off mod K64 /\ 0 <= off / K64 < 2 ^ 16 /\ 0 <= off mod K64 < 2 ^ 16 /\
  (if sz <? u32 (65536 - off mod K64) then sz else u32 (65536 - off mod K64)) = block_size off sz.
Proof.
  unfold M64, K64, block_size. intros Ho Hm Hsz. pose proof (Z.mod_pos_bound off (64 * 1024) ltac:(lia)) as Hmod.
  split; [by rewrite Z.shiftr_div_pow2 by lia|].
  split; [change 0xFFFF with (Z.ones 16); by rewrite Z.land_ones by lia|].
  split; [split; [apply Z.div_pos; lia|apply Z.div_lt_upper_bound; lia]|]. split; [lia|].
  rewrite wrap_small by lia. destruct (Z.ltb_spec sz (65536 - off mod (64 * 1024))); lia.
Qed.

(** A block that arrives is taken, and the loop goes on behind it. *)
Lemma ReadBlock_loop_data fuel fd p ch off sz d rest input buff Q s n :
  conns n !! fd = Some (mkConn p (data_packet crc32 (chunk_id ch) (off, d) ++ rest) []) ->
  0 < sz -> size d = block_size off sz -> 0 <= off -> off + sz <= M64 -> 0 <= chunk_id ch < 2 ^ 64 -> 20 <= size (ptr input) ->
  (forall input', 20 <= size (ptr input') ->
    wpV Sp (ReadBlock_loop crc32 fuel fd ch (off + size d) (sz - size d) input' (buff ++ d)) Q s
      (set_conns (<[fd := mkConn p rest []]> (conns n)) n)) ->
  wpV Sp (ReadBlock_loop crc32 (Datatypes.S fuel) fd ch off sz input buff) Q s n.
Proof.
  unfold M64. intros Hc Hsz Hd Ho Hm Hid Hi HQ. cbn [ReadBlock_loop]. destruct (block_size_range off sz Hsz) as [Hj Hj'].
  pose proof (Z.mod_pos_bound off (64 * 1024) ltac:(lia)) as Hmod. set (j := block_size off sz) in *.
  rewrite data_packet_head in Hc. set (hd := data_head (chunk_id ch) off d) in *.
  rewrite <- (app_assoc (be 4 CSTOCU_READ_DATA ++ be 4 (20 + size d))), <- (app_assoc hd) in Hc.
  assert (size hd = 20) as Hh by apply size_data_head.
  vstep. eapply (tcptoread_wp Sp fd 8); [exact Hc|by rewrite size_app, !size_be|lia|].
  vstep. apply ASSERT_wp; [done|]. change (negb (8 =? 8)) with false. cbv iota.
  set (input1 := fill input 0 _).
  assert (size (ptr input1) = size (ptr input)) as Hi1
    by (apply size_fill; rewrite ?size_app, ?size_be; lia).
  assert (exists tl, ptr input1 = be 4 CSTOCU_READ_DATA ++ be 4 (20 + size d) ++ tl) as [tl Et].
  { unfold input1. rewrite fill_ptr by (rewrite size_app, !size_be; lia). rewrite <- app_assoc. eauto. }
  rewrite Et, get32bit_be. do 2 vstep. rewrite get32bit_be. do 2 vstep.
  rewrite (wrap_small 32 CSTOCU_READ_DATA) by (unfold CSTOCU_READ_DATA; lia).
  rewrite Hd.
  change (CSTOCU_READ_DATA =? CSTOCU_READ_STATUS) with false. cbv iota. rewrite Z.eqb_refl.
  rewrite (wrap_small 32 (20 + j)) by (unfold j; lia).
  vstep. apply ASSERT_wp; [apply Z.leb_le; lia|].
  destruct (Z.ltb_spec (20 + j) 20); [lia|].
  vstep. apply Alloca_wp; [lia|]. intros mem Hmem Hmem'. cbn [used].
  vstep. eapply (tcptoread_wp Sp fd 20); [cbn [conns set_conns]; apply lookup_insert_eq|exact Hh|lia|].
  change (negb (20 =? 20)) with false. cbv iota. rewrite fill_ptr by (cbn [ptr]; lia). cbn [ptr].
  assert (forall tl, hd ++ tl = be 8 (chunk_id ch) ++ be 2 (off / K64) ++ be 2 (off mod K64) ++
    be 4 (size d) ++ be 4 (crc32 d) ++ tl) as Ehd by (intros; unfold hd, data_head; by rewrite <- !app_assoc).
  rewrite Ehd, get64bit_be. do 2 vstep.
  rewrite (wrap_small 64) by lia. rewrite Z.eqb_refl. cbn [negb].
  rewrite get16bit_be. do 2 vstep. rewrite get16bit_be. do 2 vstep.
  rewrite get32bit_be. do 2 vstep. rewrite get32bit_be. do 2 vstep.
  rewrite Hd, (wrap_small 32 j), (wrap_small 32 (20 + j)), Z.eqb_refl by (unfold j; lia). cbn [negb].
  destruct (Z.eqb_spec 0 j); [lia|].
  destruct (block_place off sz) as (B1 & B2 & B3 & B4 & B5); [done|unfold M64; lia|done|]. fold j in B5.
  rewrite (wrap_small 16 (off / K64)), B1, Z.eqb_refl by done. cbn [negb].
  rewrite (wrap_small 16 (off mod K64)), B2, Z.eqb_refl by done. cbn [negb].
  rewrite B5, Z.eqb_refl. cbn [negb].
  vstep. eapply (tcptoread_wp Sp fd j).
  { rewrite set_conns_twice. cbn [conns set_conns]. apply lookup_insert_eq. }
  { exact Hd. } { unfold j; lia. }
  rewrite (wrap_small 32 j), Z.eqb_refl by (unfold j; lia). cbn [negb].
  rewrite (wrap_small 32 (crc32 d)), Z.eqb_refl by apply crc32_range. cbn [negb].
  rewrite (wrap_small 32 (off + j)), (wrap_small 32 (sz - j)) by lia.
  rewrite !set_conns_twice. cbn [conns set_conns]. rewrite !insert_insert_eq.
  rewrite <- Hd. apply HQ. rewrite size_fill by (rewrite ?Hh; cbn [ptr]; lia). cbn [ptr]. lia.
Qed.

(** How many blocks are left behind one. *)
Lemma blocks_left off sz k : 0 <= off -> 0 < sz -> (off + sz - 1) / K64 - off / K64 < Z.of_nat (Datatypes.S k) ->
  block_size off sz < sz -> (off + sz - 1) / K64 - (off + block_size off sz) / K64 < Z.of_nat k.
Proof.
  unfold K64, block_size. intros Ho Hsz Hk Hl. pose proof (Z.mod_pos_bound off (64 * 1024) ltac:(lia)) as Hmod.
  rewrite Z.min_r in * by lia.
  replace (off + (64 * 1024 - off mod (64 * 1024))) with (off / (64 * 1024) * (64 * 1024) + 1 * (64 * 1024))
    by (pose proof (Z.div_mod off (64 * 1024) ltac:(lia)); lia).
  rewrite <- Z.mul_add_distr_r, Z.div_mul by lia. lia.
Qed.

(** The reply loop takes the blocks off the connection one by one. *)
Lemma ReadBlock_loop_wp k fuel fd p ch off data input buff Q s n :
  conns n !! fd = Some (mkConn p
    (concat (map (data_packet crc32 (chunk_id ch)) (block_list k off data)) ++
     read_status (chunk_id ch) 0) []) ->
  (data <> [] -> (off + size data - 1) / K64 - off / K64 < Z.of_nat k) -> (k < fuel)%nat ->
  0 <= off -> off + size data <= M64 -> 0 <= chunk_id ch < 2 ^ 64 -> 20 <= size (ptr input) ->
  Q (0, buff ++ data) s (set_conns (<[fd := mkConn p [] []]> (conns n)) n) ->
  wpV Sp (ReadBlock_loop crc32 fuel fd ch off (size data) input buff) Q s n.
Proof.
  revert k off data input buff n.
  induction fuel as [|fuel IH]; intros k off data input buff n Hc Hk Hf Ho Hm Hid Hi HQ; [lia|].
  destruct (decide (data = [])) as [->|Hne]; [rewrite block_list_nil in Hc; rewrite app_nil_r in HQ; by apply (ReadBlock_loop_status fuel fd p)|].
  assert (0 < size data) as Hpos by (destruct data as [|x data']; [done|rewrite size_cons; pose proof (size_nonneg data'); lia]).
  destruct (block_size_range off (size data) Hpos) as [Hj _]. set (j := block_size off (size data)) in *.
  destruct k as [|k].
  { exfalso. specialize (Hk Hne). pose proof (Z.div_le_mono off (off + size data - 1) K64 ltac:(unfold K64; lia) ltac:(lia)). lia. }
  assert (block_list (Datatypes.S k) off data =
    (off, take (Z.to_nat j) data) :: block_list k (off + j) (drop (Z.to_nat j) data)) as Eb by (by destruct data).
  rewrite Eb in Hc. cbn [map concat] in Hc. rewrite <- app_assoc in Hc.
  assert (size (take (Z.to_nat j) data) = j) as Hd by (unfold size in *; len).
  assert (size (drop (Z.to_nat j) data) = size data - j) as Hrest by (unfold size in *; len).
  eapply (ReadBlock_loop_data fuel fd p ch off); [exact Hc|done|done|done|done|done|done|]. intros input' Hi'.
  rewrite Hd, <- Hrest. eapply (IH k).
  - cbn [conns set_conns]. apply lookup_insert_eq.
  - intros Hne'. rewrite Hrest. replace (off + j + (size data - j) - 1) with (off + size data - 1) by lia.
    apply blocks_left; [done|done|by apply Hk|]. fold j. destruct (drop (Z.to_nat j) data); [done|]. rewrite size_cons in Hrest.
    pose proof (size_nonneg l). lia.
  - lia.
  - lia.
  - lia.
  - done.
  - done.
  - rewrite set_conns_twice. cbn [conns set_conns]. by rewrite insert_insert_eq, <- app_assoc, take_drop.
Qed.

Lemma ReadBlock_wp fuel cs l ch srv off data Q s n :
  idle n (socket_ cs) l -> (1100 < fuel)%nat ->
  0 <= off -> off + size data <= M64 -> 0 <= chunk_id ch < 2 ^ 64 ->
  serve l (servers n) CUTOCS_READ
    (be 8 (chunk_id ch) ++ be 4 (chunk_version ch) ++ be 4 off ++ be 4 (size data)) =
    (srv, concat (map (data_packet crc32 (chunk_id ch)) (blocks off data)) ++
          read_status (chunk_id ch) 0) ->
  Q (0, data) s (set_servers srv n) ->
  wpV Sp (ReadBlock fuel crc32 cs ch off (size data)) Q s n.
Proof.
  intros Hi Hf Ho Hm Hid Hs HQ. unfold ReadBlock, M64 in *. pose proof (size_nonneg data).
  set (args := be 8 (chunk_id ch) ++ be 4 (chunk_version ch) ++ be 4 off ++ be 4 (size data)) in *.
  assert (size args = 20) as Ha by (unfold args; sizes).
  assert (read_request ch off (size data) = packet CUTOCS_READ args) as ->.
  { unfold read_request, packet. rewrite Ha. unfold args.
    rewrite !put32bit_be, put64bit_be. by rewrite app_nil_l, <- !app_assoc. }
  vstep. eapply wpV_write; [exact Hi|apply packets_one; [unfold CUTOCS_READ; lia|lia]|
    cbn [serve_all]; by rewrite Hs|].
  rewrite app_nil_r. cbn [app]. rewrite size_packet, Ha. cbn [Z.add Pos.add Pos.add_carry Z.eqb Pos.eqb negb Pos.succ].
  vstep. apply Alloca_wp; [lia|]. intros mem Hmem _. unfold blocks.
  eapply (ReadBlock_loop_wp (Z.to_nat (size data / K64 + 2))).
  - cbn [conns]. apply lookup_insert_eq.
  - intros _. unfold K64. pose proof (Z.div_pos (size data) (64 * 1024) ltac:(lia) ltac:(lia)).
    rewrite Z2Nat.id by lia.
    Z.to_euclidean_division_equations; lia.
  - unfold K64. assert (size data / (64 * 1024) <= 1024) by (apply Z.div_le_upper_bound; lia). lia.
  - done.
  - unfold M64. lia.
  - done.
  - cbn [ptr]. lia.
  - cbn [conns app]. rewrite idle_again by done. exact HQ.
Qed.
End Transfers.

(** ** ReadBlock on any network *)

(** A failed assertion of a debug build, or a server that never ends its
    reply: no undefined behaviour. *)
Definition defined_stop (e : nstop) : Prop := e = Trap \/ e = Fuel.

Section AnyNetwork.
Context {W : Type} `{Network W} `{Build}.
Context (crc32 : bytes -> Z).
Implicit Types (s : client) (w : W).

Lemma tcptoread_loop_any Sp fuel fd leng buff (Q : Z * bytes -> client -> W -> Prop) s w :
  size buff <= leng -> leng < 2 ^ 31 -> leng - size buff <= Z.of_nat fuel ->
  (forall r d s w, size d <= leng -> (-1 <= r <= 0 /\ r <> leng \/ r = leng /\ size d = leng) -> Q (r, d) s w) ->
  wpN Sp (tcptoread_loop fuel fd leng buff) Q s w.
Proof.
  revert buff s w. induction fuel as [|fuel IH]; intros buff s w Hb Hl Hf HQ;
    cbn [tcptoread_loop]; pose proof (size_nonneg buff).
  - destruct (Z.ltb_spec (size buff) leng); [lia|]. nstep. rewrite i32_small by lia.
    apply HQ; lia.
  - destruct (Z.ltb_spec (size buff) leng).
    + nstep. apply wpN_read; [lia|]. intros r d w' Hr. pose proof (size_nonneg d).
      destruct (Z.leb_spec r 0); [nstep; apply HQ; lia|].
      destruct Hr as [[-> _]|[-> Hd]]; [lia|]. apply IH; rewrite ?size_app; try lia. exact HQ.
    + nstep. rewrite i32_small by lia. apply HQ; lia.
Qed.

(** All that was asked for, or a result that says otherwise; never more. *)
Lemma tcptoread_any Sp fd k (Q : Z * bytes -> client -> W -> Prop) s w :
  0 <= k < 2 ^ 31 ->
  (forall r d s w, size d <= k -> (-1 <= r <= 0 /\ r <> k \/ r = k /\ size d = k) -> Q (r, d) s w) ->
  wpN Sp (tcptoread fd k) Q s w.
Proof.
  intros Hk HQ. unfold tcptoread.
  apply tcptoread_loop_any; change (size []) with 0; [lia|lia|lia|exact HQ].
Qed.

Lemma ASSERT_any (x : bool) Q s w : Q tt s w -> wpN defined_stop (W := W) (ASSERT x) Q s w.
Proof. intros HQ. unfold ASSERT. destruct (asserts && negb x); [by left|done]. Qed.

(** There is a word where there are bytes enough. *)
Lemma get32bit_enough b : 4 <= size b -> exists v r, get32bit b = Some (v, r) /\ size r = size b - 4 /\ 0 <= v < 2 ^ 32.
Proof.
  destruct b as [|b0 [|b1 [|b2 [|b3 b]]]]; try (intros E; exfalso; revert E; unfold size; cbn; lia).
  intros _. do 2 eexists. split; [reflexivity|]. split; [unfold size; cbn [length]; lia|].
  apply wrap_range. lia.
Qed.

Lemma get16bit_enough b : 2 <= size b -> exists v r, get16bit b = Some (v, r) /\ size r = size b - 2 /\ 0 <= v < 2 ^ 16.
Proof.
  destruct b as [|b0 [|b1 b]]; try (intros E; exfalso; revert E; unfold size; cbn; lia).
  intros _. do 2 eexists. split; [reflexivity|]. split; [unfold size; cbn [length]; lia|].
  apply wrap_range. lia.
Qed.

Lemma get8bit_enough b : 1 <= size b -> exists v r, get8bit b = Some (v, r) /\ size r = size b - 1.
Proof.
  destruct b as [|b0 b]; [intros E; exfalso; revert E; unfold size; cbn; lia|].
  intros _. do 2 eexists. split; [reflexivity|]. unfold size. cbn [length]. lia.
Qed.

Lemma get64bit_enough b : 8 <= size b -> exists v r, get64bit b = Some (v, r) /\ size r = size b - 8.
Proof.
  destruct b as [|b0 [|b1 [|b2 [|b3 [|b4 [|b5 [|b6 [|b7 b]]]]]]]];
    try (intros E; exfalso; revert E; unfold size; cbn; lia).
  intros _. do 2 eexists. split; [reflexivity|]. unfold size. cbn [length]. lia.
Qed.

(** [take_word L Hsz]: read a word off a pointer with bytes enough. *)
Ltac take_word L v r :=
  let E := fresh in let Hr := fresh in let Hv := fresh in
  match goal with |- context [ptr_get (?g ?b)] =>
    destruct (L b) as (v & r & E & Hr); [lia|rewrite E; do 2 nstep] end.

(** The data of a block: as much as announced and with the announced checksum,
    or the read fails. *)
Lemma block_data_any {A} (next : bytes -> N client W (Z * A)) (stop : bytes -> A) fd bsz bcrc Q s w :
  0 < bsz <= 65536 ->
  (forall r d s w, size d <= bsz -> r <> 0 -> Q (r, stop d) s w) ->
  (forall d s w, size d = bsz -> wpN defined_stop (next d) Q s w) ->
  wpN defined_stop
    ('(ret, data) ← tcptoread fd bsz;
     if negb (u32 ret =? bsz) then mret (-1, stop data)
     else if negb (bcrc =? crc32 data) then mret (-1, stop data)
     else next data) Q s w.
Proof.
  intros Hb Hbad Hnext. nstep. apply tcptoread_any; [lia|]. intros rb db sb wb Hdb Hrb.
  destruct (Z.eqb_spec (u32 rb) bsz) as [Er|]; cbn [negb]; [|nstep; by apply Hbad].
  assert (rb = bsz /\ size db = bsz) as [-> Edb].
  { destruct Hrb as [[? ?]|]; [|done]. exfalso. assert (rb = -1 \/ rb = 0) as [-> | ->] by lia; cbv in Er; lia. }
  destruct (bcrc =? crc32 db); cbn [negb]; [by apply Hnext|nstep; by apply Hbad].
Qed.

Lemma ReadBlock_loop_any fuel fd ch off sz input buff (Q : Z * bytes -> client -> W -> Prop) s w :
  0 <= sz < 2 ^ 32 -> 20 <= size (ptr input) ->
  (forall r d s w, size buff <= size d <= size buff + sz ->
     (r = 0 -> size d = size buff + sz) -> Q (r, d) s w) ->
  wpN defined_stop (ReadBlock_loop crc32 fuel fd ch off sz input buff) Q s w.
Proof.
  revert off sz input buff s w.
  induction fuel as [|fuel IH]; intros off sz input buff s w Hs Hi HQ; [by right|].
  cbn [ReadBlock_loop]. nstep. apply tcptoread_any; [lia|]. intros r8 d8 s8 w8 Hd8 Hr8.
  pose proof (size_nonneg d8).
  assert (size (ptr (fill input 0 d8)) = size (ptr input)) as Hi8 by (apply size_fill; lia).
  nstep. apply ASSERT_any. destruct (Z.eqb_spec r8 8) as [->|]; cbn [negb].
  2: { nstep. unfold ERROR_IO. apply HQ; lia. }
  take_word get32bit_enough cmd r1. take_word get32bit_enough ln r2.
  destruct (Z.eqb_spec cmd CSTOCU_READ_STATUS).
  - destruct (Z.eqb_spec ln 9); cbn [negb]; [|nstep; apply HQ; lia].
    nstep. apply tcptoread_any; [lia|]. intros r9 d9 s9 w9 Hd9 Hr9. pose proof (size_nonneg d9).
    destruct (Z.eqb_spec r9 9) as [->|]; cbn [negb]; [|nstep; apply HQ; lia].
    assert (size (ptr (fill (fill input 0 d8) 0 d9)) = size (ptr input)) as Hi9
      by (rewrite size_fill; lia).
    take_word get64bit_enough t64 r3. take_word get8bit_enough st r4.
    destruct (st =? 0); cbn [negb]; [|nstep; apply HQ; lia].
    destruct (t64 =? chunk_id ch); cbn [negb]; [|nstep; apply HQ; lia].
    destruct (Z.eqb_spec sz 0); cbn [negb]; nstep; apply HQ; lia.
  - destruct (Z.eqb_spec cmd CSTOCU_READ_DATA).
    2: { apply IH; [done|lia|exact HQ]. }
    nstep. apply ASSERT_any. destruct (Z.ltb_spec ln 20); [nstep; apply HQ; lia|].
    nstep. unfold Alloca. destruct (Z.ltb_spec (size (ptr (fill input 0 d8))) 20); [lia|]. nstep.
    nstep. apply tcptoread_any; [lia|]. intros r20 d20 s20 w20 Hd20 Hr20. pose proof (size_nonneg d20).
    destruct (Z.eqb_spec 20 r20) as [<-|]; cbn [negb]; [|nstep; apply HQ; lia].
    assert (size (ptr (fill (fill input 0 d8) 0 d20)) = size (ptr input)) as Hi20
      by (rewrite size_fill; lia).
    take_word get64bit_enough t64 r3. destruct (t64 =? chunk_id ch); cbn [negb]; [|nstep; apply HQ; lia].
    take_word get16bit_enough bno r4. take_word get16bit_enough boff r5.
    take_word get32bit_enough bsz r6. take_word get32bit_enough bcrc r7.
    destruct (ln =? u32 (20 + bsz)); cbn [negb]; [|nstep; apply HQ; lia].
    destruct (Z.eqb_spec 0 bsz); [nstep; apply HQ; lia|].
    destruct (bno =? Z.shiftr off 16); cbn [negb]; [|nstep; apply HQ; lia].
    destruct (boff =? Z.land off 0xFFFF); cbn [negb]; [|nstep; apply HQ; lia].
    rewrite (wrap_small 32 (65536 - boff)) by lia.
    destruct (Z.eqb_spec bsz (if sz <? 65536 - boff then sz else 65536 - boff)) as [Eb|];
      cbn [negb]; [|nstep; apply HQ; lia].
    assert (0 < bsz <= sz /\ bsz <= 65536) as Hb by (destruct (Z.ltb_spec sz (65536 - boff)); lia).
    apply (block_data_any (fun data => ReadBlock_loop crc32 fuel fd ch (u32 (off + bsz)) (u32 (sz - bsz))
      (fill (fill input 0 d8) 0 d20) (buff ++ data)) (app buff)); [lia|..].
    + intros r d s' w' Hd Hr. apply HQ; [rewrite size_app; pose proof (size_nonneg d); lia|done].
    + intros d s' w' Hd. rewrite (wrap_small 32 (sz - bsz)) by lia. apply IH; [lia|lia|].
      intros r d' s'' w'' Hd' Hr. rewrite size_app in *. apply HQ; [lia|]. intros E. specialize (Hr E). lia.
Qed.

(** C19: Whatever a chunk server sends, [ReadBlock] has no undefined behaviour
    (it can only trip an assertion of a debug build, or be kept waiting for
    ever), never stores more than was asked for in the caller's buffer, and
    when it reports success has stored exactly that much. *)
Theorem ReadBlock_any (fuel : nat) (cs : ChunkServer) (ch : Chunk) (off sz : Z) (s : client) (w : W) :
  0 <= sz < 2 ^ 32 ->
  match ReadBlock fuel crc32 cs ch off sz s w with
  | (inl e, _) => defined_stop e
  | (inr (r, d), _) => size d <= sz /\ (r = 0 -> size d = sz)
  end.
Proof.
  intros Hs. pose proof (size_nonneg []).
  assert (wpN defined_stop (ReadBlock fuel crc32 cs ch off sz)
    (fun '(r, d) _ _ => size d <= sz /\ (r = 0 -> size d = sz)) s w) as Hwp.
  { unfold ReadBlock. nstep. apply wpN_call. destruct (negb _).
    { nstep. split; [change (size []) with 0; lia|done]. }
    nstep. unfold Alloca. change (size (ptr Buffer_new) <? 20) with true. cbv iota.
    nstep. apply wpN_new; [lia|]. intros mem w' Hm. nstep.
    apply ReadBlock_loop_any; [done|cbn [ptr]; lia|]. intros r d s' w'' Hd Hr.
    change (size []) with 0 in *. split; [lia|]. intros E. specialize (Hr E). lia. }
  unfold wpN in Hwp. destruct (ReadBlock _ _ _ _ _ _ s w) as [[e|[r d]] [s' w']]; exact Hwp.
Qed.
End AnyNetwork.
