(* ===== verification/FilesSpec.v ===== *)
(** * The MooseFS client: what looking up, writing and reading do

    [Lookup_path] against [Directory], [File::Write] and [File::Read] against
    [Storage]: a path leads where the directories say, what is written is
    spliced into the content of the file, and what is read is a range of it. *)

From S2P Require Import Prelude CString Posix Datapack Net Servers Protocol Exchange Master MasterSpec Chunks Files Storage ChunksSpec.

Lemma set_servers_id {S} (n : net S) : set_servers (servers n) n = n.
Proof. by destruct n. Qed.

(** ** Paths *)

(** A segment of a C string is a C string. *)
Lemma c_str_segment seg name : In seg (split (bs "/") (c_str name)) -> c_str seg = seg.
Proof.
  intros Hin. apply c_str_id. pose proof (c_str_no_nul name) as Hn. revert Hin Hn.
  generalize (c_str name). intros p. unfold split.
  assert (forall p cur, In seg (split_aux (bs "/") p cur) -> x00 ∈ seg -> x00 ∈ p \/ x00 ∈ cur) as Haux.
  { clear. induction p as [|c p IH]; intros cur Hin Hz; cbn in Hin.
    - destruct Hin as [<-|[]]. by right.
    - case_bool_decide.
      + destruct Hin as [<-|Hin]; [by right|].
        destruct (IH _ Hin Hz) as [?|Hc]; [left; by apply elem_of_cons; right|by apply elem_of_nil in Hc].
      + destruct (IH _ Hin Hz) as [?|Hc]; [left; by apply elem_of_cons; right|].
        apply elem_of_app in Hc as [?|Hc]; [by right|].
        apply elem_of_cons in Hc as [<-|Hc]; [left; by apply elem_of_cons; left|by apply elem_of_nil in Hc]. }
  intros Hin Hn Hz. destruct (Haux _ _ Hin Hz) as [?|Hc]; [done|by apply elem_of_nil in Hc].
Qed.

Section Paths.
Context {S : Type} `{Service S} `{Build} {a : sockaddr} {fuel : nat} `{!Directory S a fuel}.

Definition lookup_result (r : Z + Z * FileAttribute) : Z * option (Z * FileAttribute) :=
  match r with inl st => (st, None) | inr e => (STATUS_OK, Some e) end.

Lemma Lookup_loop_wp Sp segs ino at' Q (s : client) (n : net S) :
  session a s n -> 0 <= ino < 2 ^ 32 ->
  (forall seg, In seg segs -> c_str seg = seg /\ size seg < 256) ->
  Q (lookup_result (resolve (servers n) (uid_ (master s)) (gid_ (master s)) (ino, at')
       (filter (.≠ []) segs))) s n ->
  wpV Sp (Lookup_loop fuel segs ino at') Q s n.
Proof.
  intros Hses. revert ino at' Q. induction segs as [|seg segs IH]; intros ino at' Q Hino Hsegs HQ.
  { cbn [Lookup_loop]. by vstep. }
  cbn [Lookup_loop]. case_bool_decide as Hseg.
  - rewrite filter_cons_False in HQ by (by intros []). apply IH; [done| |done].
    intros x Hx. apply Hsegs. by right.
  - rewrite filter_cons_True in HQ by done. cbn [resolve fst] in HQ.
    destruct (Hsegs seg) as [Hstr Hlen]; [by left|].
    assert (0 < size seg) by (destruct seg; [done|rewrite size_cons; pose proof (size_nonneg seg); lia]).
    destruct Hses as (Hm & Hi & Hsid).
    destruct (lookup_law (servers n) (session_id_ (master s)) ino seg (master s))
      as (nops & Hok & Hs); [done|done|lia|].
    pose proof (entry_result (servers n) (uid_ (master s)) (gid_ (master s)) ino seg) as He.
    vstep. eapply Lookup_wp; [done|done|lia|exact Hs|exact Hok|done|]. rewrite set_servers_id.
    destruct (entry _ _ _ _ _) as [st|[i at'']]; cbn [entry_ok] in He.
    + destruct (Z.eqb_spec st STATUS_OK); [unfold STATUS_OK in *; lia|]. by vstep.
    + cbv iota. cbn [Z.eqb STATUS_OK negb default from_option id]. apply IH; [by destruct He| |done].
      intros x Hx. apply Hsegs. by right.
Qed.

(** Looking up a path follows the server's directories from the root,
    name by name, empty names skipped: it returns the last entry, or the
    status of the first name that is refused, and leaves session and servers
    as they were, however the replies are cut and whatever NOPs precede them. *)
Theorem Lookup_path_resolves (name : bytes) (s : client) (n : net S) (cs : list nat) (js : list bytes) :
  session a s n -> Forall (fun c => size c < 256) (components (c_str name)) ->
  exists w', Lookup_path fuel name s (mkWorld n cs js) =
    (inr (lookup_result (resolve (servers n) (uid_ (master s)) (gid_ (master s))
            (MFS_ROOT_ID, FileAttribute_new) (components (c_str name)))), (s, w')) /\ the_net w' = n.
Proof.
  intros Hses Hc.
  destruct (wpV_result (Lookup_path fuel name)
    (fun r s' n' => r = lookup_result (resolve (servers n) (uid_ (master s)) (gid_ (master s))
       (MFS_ROOT_ID, FileAttribute_new) (components (c_str name))) /\ s' = s /\ n' = n) s n cs js)
    as (r & s' & w' & E & -> & -> & Hn); [|by exists w'].
  unfold Lookup_path. apply Lookup_loop_wp; [done|by unfold MFS_ROOT_ID| |done].
  intros seg Hin. split; [by eapply c_str_segment|].
  destruct (decide (seg = [])) as [->|Hne]; [done|].
  rewrite Forall_forall in Hc. apply Hc. unfold components. apply list_elem_of_filter.
  split; [done|by apply list_elem_of_In].
Qed.
End Paths.

(** ** Contents *)

Lemma length_bytes_at b o n : length (bytes_at b o n) = Z.to_nat n.
Proof. unfold bytes_at. by rewrite length_map, length_seq. Qed.

Lemma size_bytes_at b o n : 0 <= n -> size (bytes_at b o n) = n.
Proof. intros. unfold size. rewrite length_bytes_at. lia. Qed.

Lemma lookup_bytes_at b o n k :
  (k < Z.to_nat n)%nat -> bytes_at b o n !! k = Some (b (o + Z.of_nat k)).
Proof.
  intros Hk. unfold bytes_at. change (map ?f ?l) with (f <$> l).
  by rewrite list_lookup_fmap, lookup_seq_lt by done.
Qed.

Lemma bytes_at_ext b c o n :
  (forall i, o <= i < o + n -> b i = c i) -> bytes_at b o n = bytes_at c o n.
Proof.
  intros Hbc. apply map_ext_in. intros k Hk. apply in_seq in Hk. apply Hbc. lia.
Qed.

(** A range of what [bytes_at] lists. *)
Lemma range_bytes_at b o n p m :
  0 <= p -> 0 <= m -> p + m <= n -> range (bytes_at b o n) p m = bytes_at b (o + p) m.
Proof.
  intros Hp Hm Hn. apply list_eq. intros k. unfold range. rewrite lookup_take.
  case_decide as Hk.
  - rewrite lookup_drop, !lookup_bytes_at by lia. do 2 f_equal. lia.
  - symmetry. apply lookup_ge_None. rewrite length_bytes_at. lia.
Qed.

Lemma bytes_at_app b o n m :
  0 <= n -> 0 <= m -> bytes_at b o n ++ bytes_at b (o + n) m = bytes_at b o (n + m).
Proof.
  intros Hn Hm. rewrite <- (range_bytes_at b o (n + m) n m) by lia.
  assert (bytes_at b o n = range (bytes_at b o (n + m)) 0 n) as ->
    by (rewrite range_bytes_at by lia; by rewrite Z.add_0_r).
  unfold range. cbn [Z.to_nat drop]. rewrite drop_0.
  rewrite (take_ge (drop _ _)) by (rewrite length_drop, length_bytes_at; lia). apply take_drop.
Qed.

(** A byte inside a list, by position. *)
Lemma lookup_nth (data : bytes) k : (k < length data)%nat -> data !! k = Some (nth k data x00).
Proof.
  intros Hk. destruct (lookup_lt_is_Some_2 data k Hk) as [c Hc]. rewrite Hc. f_equal.
  symmetry. by apply nth_lookup_Some.
Qed.

(** Writing into the list is patching the function. *)
Lemma bytes_at_patch b len pos data :
  0 <= pos <= len ->
  bytes_at (patch b pos data) 0 (Z.max len (pos + size data)) = splice (bytes_at b 0 len) pos data.
Proof.
  intros Hp. pose proof (size_nonneg data). unfold splice, size in *.
  replace (Z.to_nat pos - length (bytes_at b 0 len))%nat with 0%nat by (rewrite length_bytes_at; lia).
  cbn [replicate app].
  assert (length (take (Z.to_nat pos) (bytes_at b 0 len)) = Z.to_nat pos) as Ht
    by (rewrite length_take, length_bytes_at; lia).
  apply list_eq_same_length with (n := Z.to_nat (Z.max len (pos + Z.of_nat (length data)))).
  - rewrite !length_app, Ht, length_drop, length_bytes_at. lia.
  - by rewrite length_bytes_at.
  - intros k x y Hk Hx Hy. rewrite lookup_bytes_at in Hx by done. injection Hx as <-.
    rewrite Z.add_0_l. unfold patch, size. destruct (Z.leb_spec pos (Z.of_nat k)); cbn [andb].
    + rewrite lookup_app_r in Hy by lia. rewrite Ht in Hy.
      destruct (Z.ltb_spec (Z.of_nat k) (pos + Z.of_nat (length data))).
      * rewrite lookup_app_l, lookup_nth in Hy by lia. injection Hy as <-. f_equal. lia.
      * rewrite lookup_app_r, lookup_drop, lookup_bytes_at in Hy by lia. injection Hy as <-.
        f_equal. lia.
    + rewrite lookup_app_l, lookup_take in Hy by lia. rewrite decide_True in Hy by lia.
      rewrite lookup_bytes_at in Hy by lia. injection Hy as <-. f_equal.
Qed.

(** Patching twice, end to end. *)
Lemma patch_patch b pos d1 d2 o :
  patch (patch b pos d1) (pos + size d1) d2 o = patch b pos (d1 ++ d2) o.
Proof.
  unfold patch. rewrite size_app. pose proof (size_nonneg d1). pose proof (size_nonneg d2).
  destruct (Z.leb_spec pos o); cbn [andb].
  - destruct (Z.ltb_spec o (pos + (size d1 + size d2))); cbn [andb].
    + destruct (Z.leb_spec (pos + size d1) o); cbn [andb].
      * destruct (Z.ltb_spec o (pos + size d1 + size d2)); [|lia].
        rewrite app_nth2 by (unfold size in *; lia). f_equal. unfold size in *. lia.
      * destruct (Z.ltb_spec o (pos + size d1)); [|lia].
        by rewrite app_nth1 by (unfold size in *; lia).
    + destruct (Z.leb_spec (pos + size d1) o); cbn [andb].
      * destruct (Z.ltb_spec o (pos + size d1 + size d2)); [lia|].
        by destruct (Z.ltb_spec o (pos + size d1)); [lia|].
      * by destruct (Z.ltb_spec o (pos + size d1)); [lia|].
  - destruct (Z.leb_spec (pos + size d1) o); cbn [andb]; [lia|]. done.
Qed.

Lemma patch_nil b pos o : patch b pos [] o = b o.
Proof. unfold patch. change (size []) with 0. by destruct (Z.leb_spec pos o), (Z.ltb_spec o (pos + 0)); try lia. Qed.

(** ** Writing *)

(** Socket numbers still to come are not in use. *)
Definition net_ok {S} (n : net S) : Prop :=
  0 < next_sock n /\ forall fd c, conns n !! fd = Some c -> fd < next_sock n.

Section Storing.
Context {S : Type} `{Service S} `{Build} {a : sockaddr} {fuel : nat} {crc32 : bytes -> Z}.
Context `{!Storage S a fuel crc32}.
Hypothesis crc32_range : forall b, 0 <= crc32 b < 2 ^ 32.
Implicit Types (srv : S) (s : client) (n : net S).

(** The content of a file. *)
Definition content (srv : S) (i : Z) : bytes := bytes_at (vbyte srv i) 0 (vlen srv i).

Lemma after_trans srv srv1 srv2 l1 b1 l2 b2 l b :
  after srv srv1 l1 b1 -> after srv1 srv2 l2 b2 ->
  (forall i, l2 i = l i) -> (forall i o, b2 i o = b i o) -> after srv srv2 l b.
Proof.
  intros (Hh1 & Hf1 & Hl1 & Hb1 & Ho1) (Hh2 & Hf2 & Hl2 & Hb2 & Ho2) Hl Hb.
  split; [done|]. split; [auto|]. split; [intros i; by rewrite Hl2|].
  split; [intros i o; by rewrite Hb2|]. auto.
Qed.

Lemma after_refl srv : healthy srv -> after srv srv (vlen srv) (vbyte srv).
Proof. intros Hh. unfold after. by split_and!. Qed.

Definition patched (srv : S) (i base : Z) (data : bytes) (j : Z) : Z -> Init.Byte.byte :=
  if j =? i then patch (vbyte srv i) base data else vbyte srv j.

(** Two writes end to end are one. *)
Lemma after_write srv srv1 srv2 l2 i base d1 d2 l :
  after srv srv1 (vlen srv) (patched srv i base d1) ->
  after srv1 srv2 l2 (patched srv1 i (base + size d1) d2) ->
  (forall j, l2 j = l j) ->
  after srv srv2 l (patched srv i base (d1 ++ d2)).
Proof.
  intros H1 H2 Hl. eapply after_trans; [exact H1|exact H2|exact Hl|].
  intros j o. destruct H1 as (_ & _ & _ & Hb & _). unfold patched in *.
  destruct (Z.eqb_spec j i) as [->|Hj].
  - rewrite <- patch_patch. unfold patch.
    pose proof (Hb i o) as E. rewrite Z.eqb_refl in E. rewrite E. unfold patch. done.
  - rewrite Hb. by destruct (Z.eqb_spec j i).
Qed.

(** Requests that change nothing, before a write. *)
Lemma after_keep srv srv1 srv2 i base d :
  after srv srv1 (vlen srv) (vbyte srv) ->
  after srv1 srv2 (vlen srv1) (patched srv1 i base d) ->
  after srv srv2 (vlen srv) (patched srv i base d).
Proof.
  intros H1 H2. pose proof H1 as (_ & _ & Hl & Hb & _).
  eapply after_trans; [exact H1|exact H2|exact Hl|].
  intros j o. unfold patched, patch. by destruct (j =? i); [destruct (_ && _)|].
Qed.

Definition longer (srv : S) (i end_ j : Z) : Z :=
  if j =? i then Z.max (vlen srv i) end_ else vlen srv j.

(** A write, and the new length. *)
Lemma after_end srv srv1 srv2 i base d e :
  after srv srv1 (vlen srv) (patched srv i base d) ->
  after srv1 srv2 (longer srv1 i e) (vbyte srv1) ->
  after srv srv2 (longer srv i e) (patched srv i base d).
Proof.
  intros H1 H2. pose proof H1 as (_ & _ & Hl & Hb & _).
  eapply after_trans; [exact H1|exact H2| |exact Hb].
  intros j. unfold longer. by rewrite !Hl.
Qed.

(** Two writes with their lengths, end to end. *)
Lemma after_two srv srv1 srv2 i base d1 d2 e1 e2 :
  after srv srv1 (longer srv i e1) (patched srv i base d1) ->
  after srv1 srv2 (longer srv1 i e2) (patched srv1 i (base + size d1) d2) -> e1 <= e2 ->
  after srv srv2 (longer srv i e2) (patched srv i base (d1 ++ d2)).
Proof.
  intros H1 H2 He. pose proof H1 as (_ & _ & Hl & Hb & _).
  eapply after_trans; [exact H1|exact H2| |].
  - intros j. unfold longer in *. rewrite !Hl. destruct (Z.eqb_spec j i); [|done].
    rewrite Z.eqb_refl. lia.
  - intros j o. unfold patched in *. destruct (Z.eqb_spec j i) as [->|Hj].
    + rewrite <- patch_patch. unfold patch at 1 2. pose proof (Hb i o) as E.
      rewrite Z.eqb_refl in E. by rewrite E.
    + rewrite Hb. by destruct (Z.eqb_spec j i).
Qed.

(** One block: where it is, how long it is. *)
Lemma block_of cp cend :
  0 <= cp < cend -> cend <= M64 ->
  let j := Z.min cend ((cp / K64 + 1) * K64) - cp in
  block_offset_of cp (cp / K64) = cp mod K64 /\ block_size_of cp (cp / K64) cend = j /\
  0 < j <= K64 - cp mod K64 /\ 0 <= cp / K64 < 1024 /\ 0 <= cp mod K64 < K64.
Proof.
  unfold M64, K64. intros Hc Hm. cbv zeta.
  pose proof (Z.div_mod cp (64 * 1024) ltac:(lia)) as Hd.
  pose proof (Z.mod_pos_bound cp (64 * 1024) ltac:(lia)) as Hmod.
  assert (0 <= cp / (64 * 1024) < 1024) as Hq.
  { split; [apply Z.div_pos; lia|]. apply Z.div_lt_upper_bound; lia. }
  unfold block_offset_of, block_size_of, K64.
  rewrite (wrap_small 64 (cp / (64 * 1024) * (64 * 1024))) by lia.
  rewrite (wrap_small 64 ((cp / (64 * 1024) + 1) * (64 * 1024))) by lia.
  rewrite !(wrap_small 32) by lia. lia.
Qed.

(** A piece that stops before the end stops at a multiple of the unit. *)
Lemma next_unit K p e :
  0 < K -> let j := Z.min e ((p / K + 1) * K) - p in
  p + j < e -> p + j = (p / K + 1) * K /\ (p + j) / K = p / K + 1.
Proof.
  intros HK j Hj. assert (p + j = (p / K + 1) * K) as E by (unfold j in *; lia).
  split; [done|]. rewrite E. by apply Z.div_mul; lia.
Qed.

Lemma take_step (j m : Z) (buf : bytes) : 0 <= j <= m ->
  take (Z.to_nat m) buf = take (Z.to_nat j) buf ++ take (Z.to_nat (m - j)) (drop (Z.to_nat j) buf).
Proof.
  intros Hj. rewrite <- (take_drop (Z.to_nat j) (take (Z.to_nat m) buf)).
  rewrite take_take, skipn_firstn_comm. f_equal; f_equal; lia.
Qed.

Lemma drop_step (j m : Z) (buf : bytes) : 0 <= j <= m ->
  drop (Z.to_nat (m - j)) (drop (Z.to_nat j) buf) = drop (Z.to_nat m) buf.
Proof. intros Hj. rewrite drop_drop. f_equal. lia. Qed.

(** One block is written and the loop ends or goes on behind it. *)
Lemma write_blocks_step k cs l ch i x wid cp cend buf Q s n :
  idle n (socket_ cs) (address l) -> healthy (servers n) -> holds (servers n) ch l i x ->
  0 <= wid < 2 ^ 32 -> 0 <= cp < cend -> cend <= M64 -> cend - cp <= size buf ->
  let j := Z.min cend ((cp / K64 + 1) * K64) - cp in
  (forall srv', after (servers n) srv' (vlen (servers n))
       (patched (servers n) i (x * M64 + cp) (take (Z.to_nat j) buf)) ->
     wpV nnever (if cend <=? cp + j then mret (true, drop (Z.to_nat j) buf)
       else write_blocks crc32 k cs ch (u32 (wid + 1)) (cp + j) (cp / K64 + 1) cend (drop (Z.to_nat j) buf))
       Q s (set_servers srv' n)) ->
  wpV nnever (write_blocks crc32 (Datatypes.S k) cs ch wid cp (cp / K64) cend buf) Q s n.
Proof.
  intros Hi Hh Ho Hw Hc Hm Hsz j HQ.
  cbn [write_blocks]. destruct (block_of cp cend Hc Hm) as (-> & -> & Hj & Hb & Hmod). fold j in Hj |- *.
  pose proof (Z.div_mod cp K64 ltac:(done)) as Hdm.
  assert (K64 = 65536 /\ M64 = 67108864) as [HK HM] by done. assert (j <= cend - cp) as Hjc by (unfold j; lia).
  destruct (Z.ltb_spec (size buf) j); [lia|].
  set (d := take (Z.to_nat j) buf) in *. assert (size d = j) as Hd by (unfold d, size in *; len).
  destruct (holds_chunk (servers n) ch l i x Hh Ho) as (Hid & _ & _ & _).
  destruct (write_data_law (servers n) ch l i x wid (cp / K64) (cp mod K64) d)
    as (srv1 & Hs & Ha); [done|done|done|done|lia|lia|lia|].
  rewrite (wrap_small 16 (cp / K64)), (wrap_small 16 (cp mod K64)) by lia.
  vstep. eapply WriteBlock_wp; [exact Hi|done|done|lia|exact Hs|lia|].
  vstep. rewrite (wrap_small 64 (cp + j)), (wrap_small 64 (cp / K64 + 1)) by lia.
  replace (x * M64 + cp / K64 * K64 + cp mod K64) with (x * M64 + cp) in Ha by lia.
  by apply HQ.
Qed.

Lemma write_blocks_wp k cs l ch i x wid cp cend buf Q s n :
  idle n (socket_ cs) (address l) -> healthy (servers n) -> holds (servers n) ch l i x ->
  0 <= wid < 2 ^ 32 -> 0 <= cp < cend -> cend <= M64 -> cend - cp <= size buf ->
  (cend - 1) / K64 - cp / K64 < Z.of_nat k ->
  (forall srv', after (servers n) srv' (vlen (servers n))
       (patched (servers n) i (x * M64 + cp) (take (Z.to_nat (cend - cp)) buf)) ->
     Q (true, drop (Z.to_nat (cend - cp)) buf) s (set_servers srv' n)) ->
  wpV nnever (write_blocks crc32 k cs ch wid cp (cp / K64) cend buf) Q s n.
Proof.
  revert wid cp buf n. induction k as [|k IH]; intros wid cp buf n Hi Hh Ho Hw Hc Hm Hsz Hk HQ.
  { exfalso. pose proof (Z.div_le_mono cp (cend - 1) K64 ltac:(done) ltac:(lia)). lia. }
  eapply write_blocks_step; [exact Hi|done|exact Ho|done..|].
  destruct (block_of cp cend Hc Hm) as (_ & _ & Hj & _ & _).
  pose proof (next_unit K64 cp cend ltac:(done)) as Hnext. cbv zeta in Hj, Hnext |- *.
  set (j := Z.min cend ((cp / K64 + 1) * K64) - cp) in *. assert (j <= cend - cp) as Hjc by (unfold j; lia).
  intros srv1 Ha. destruct (Z.leb_spec cend (cp + j)).
  - assert (j = cend - cp) as Ej by lia. vstep. rewrite Ej. apply HQ. by rewrite <- Ej.
  - destruct (Hnext ltac:(lia)) as [Ecp <-].
    pose proof Ha as (Hh1 & Hf1 & Hl1 & Hb1 & Ho1).
    eapply IH; cbn [servers set_servers];
      [exact Hi|done|by apply Ho1|apply wrap_range; lia|lia|lia|unfold size in *; len|lia|].
    intros srv2 Ha2. rewrite set_servers_twice.
    replace (cend - (cp + j)) with (cend - cp - j) in * by lia. rewrite drop_step by lia.
    apply HQ. rewrite (take_step j (cend - cp)) by lia.
    assert (size (take (Z.to_nat j) buf) = j) as Hd by (unfold size in *; len).
    replace (x * M64 + (cp + j)) with (x * M64 + cp + size (take (Z.to_nat j) buf)) in Ha2 by lia.
    by eapply after_write.
Qed.
(** A new connection, and what is left when it is closed again. *)
Lemma Cached_connect_wp Sp l Q s n :
  net_ok n -> accepts (address l) = true ->
  (Q (Some (mkChunkServer (next_sock n) (loc_ip l) (loc_port l))) s
     (mkNet (servers n) (<[next_sock n := mkConn (Some (address l)) [] []]> (conns n))
        (next_sock n + 1) (clock n))) ->
  wpV Sp (Cached_connect (loc_ip l) (loc_port l)) Q s n.
Proof.
  intros [Hn _] Hacc HQ. unfold Cached_connect, ChunkServer_Connect, ChunkServer_new.
  cbn [socket_ ip_ port_]. vstep. vstep. apply ASSERT_wp; [done|]. vstep. apply wpV_socket.
  destruct (Z.ltb_spec (next_sock n) 0); [lia|]. vstep.
  eapply wpV_connect; [cbn [conns]; apply lookup_insert_eq|exact Hacc|].
  vstep. apply ASSERT_wp; [done|]. vstep. vstep.
  unfold set_conns. cbn [servers conns next_sock clock]. rewrite insert_insert_eq. exact HQ.
Qed.

Lemma net_ok_fresh n : net_ok n -> conns n !! next_sock n = None.
Proof.
  intros [_ Hn]. destruct (conns n !! next_sock n) eqn:E; [|done]. specialize (Hn _ _ E). lia.
Qed.

(** The connection opened last. *)
Definition opened_net (n : net S) (srv : S) (addr : sockaddr) : net S :=
  mkNet srv (<[next_sock n := mkConn (Some addr) [] []]> (conns n)) (next_sock n + 1) (clock n).

Lemma opened_idle n srv addr : idle (opened_net n srv addr) (next_sock n) addr.
Proof. apply lookup_insert_eq. Qed.

Lemma opened_session s n srv addr :
  net_ok n -> session a s n -> session a s (opened_net n srv addr).
Proof.
  intros Hn (Hm & Hi & Hs). split; [done|]. split; [|done]. unfold idle, opened_net in *. cbn [conns].
  rewrite lookup_insert_ne; [done|]. intros E. rewrite <- E, net_ok_fresh in Hi by done. done.
Qed.

Lemma opened_ok n srv addr : net_ok n -> net_ok (opened_net n srv addr).
Proof.
  intros [Hp Hn]. unfold net_ok, opened_net. cbn [next_sock conns]. split; [lia|].
  intros fd c. destruct (decide (fd = next_sock n)) as [->|]; [lia|].
  rewrite lookup_insert_ne by done. intros E. specialize (Hn _ _ E). lia.
Qed.

(** The net once the connection is closed again. *)
Definition used_net (n : net S) (srv : S) : net S :=
  mkNet srv (conns n) (next_sock n + 1) (clock n).

Lemma used_ok n srv : net_ok n -> net_ok (used_net n srv).
Proof.
  intros [Hp Hn]. split; cbn; [lia|]. intros fd c E. specialize (Hn _ _ E). lia.
Qed.

Lemma ChunkServer_delete_wp n srv l Q s :
  net_ok n -> Q tt s (used_net n srv) ->
  wpV nnever (ChunkServer_delete (mkChunkServer (next_sock n) (loc_ip l) (loc_port l))) Q s
    (opened_net n srv (address l)).
Proof.
  intros Hn HQ. unfold ChunkServer_delete. cbn [socket_].
  destruct (Z.eqb_spec (next_sock n) 0) as [E|_]; [destruct Hn; lia|]. cbn [negb].
  vstep. apply wpV_shutdown. vstep. apply wpV_close. vstep.
  unfold opened_net, set_conns. cbn [servers conns next_sock clock].
  rewrite delete_insert_id by (by apply net_ok_fresh). exact HQ.
Qed.

(** One chunk: which, where in it, and how much of it. *)
Lemma chunk_of pos end_ :
  0 <= pos < end_ -> end_ <= MFS_MAX_FILE_SIZE ->
  let x := pos / M64 in
  let sz := Z.min end_ ((x + 1) * M64) - pos in
  chunk_index_of pos = x /\ chunk_offset_of pos x = pos mod M64 /\ chunk_size_of pos x end_ = sz /\
  0 < sz <= M64 - pos mod M64 /\ 0 <= x < 2 ^ 31 /\ 0 <= pos mod M64 < M64 /\
  pos = x * M64 + pos mod M64.
Proof.
  change MFS_MAX_FILE_SIZE with (2 ^ 57). intros Hp He. cbv zeta.
  assert (M64 = 67108864) as HM by done.
  pose proof (Z.div_mod pos M64 ltac:(lia)) as Hd.
  pose proof (Z.mod_pos_bound pos M64 ltac:(lia)) as Hmod.
  assert (0 <= pos / M64 < 2 ^ 31) as Hq.
  { split; [apply Z.div_pos; lia|]. apply Z.div_lt_upper_bound; lia. }
  unfold chunk_index_of, chunk_offset_of, chunk_size_of.
  rewrite Z.shiftr_div_pow2 by lia. change (2 ^ 26) with M64. rewrite i32_small by lia.
  rewrite (wrap_small 64 (pos / M64 * M64)) by lia.
  rewrite (wrap_small 64 ((pos / M64 + 1) * M64)) by lia.
  rewrite !(wrap_small 64) by lia. lia.
Qed.

Definition chunks_of (pos end_ : Z) : Z := (end_ - 1) / M64 - pos / M64 + 1.

Hypothesis fuel_ok : (1100 < fuel)%nat.

(** The blocks of a chunk, on a new connection that is closed afterwards. *)
Lemma write_one_chunk_wp l ls ch i x o sz buf srv (F : bytes -> N client (world S) (option Z)) Q s n :
  net_ok n -> healthy srv -> holds srv ch l i x -> location ch = l :: ls ->
  Z.of_nat (length (location ch)) < 2 ^ 16 ->
  0 <= o -> 0 < sz <= M64 - o -> sz <= size buf ->
  (forall srv', after srv srv' (vlen srv) (patched srv i (x * M64 + o) (take (Z.to_nat sz) buf)) ->
     wpV nnever (F (drop (Z.to_nat sz) buf)) Q s (used_net n srv')) ->
  wpV nnever (
      let cs := mkChunkServer (next_sock n) (loc_ip l) (loc_port l) in
      '(ret, writeid) ← WriteBlockInit cs ch;
      match writeid with
      | None => mret None
      | Some writeid =>
          '(ok, buf) ← write_blocks crc32 fuel cs ch writeid o (Z.shiftr o 16) (u64 (o + sz)) buf;
          if negb (ok : bool) then mret None
          else Cached_Return cs false;; F buf
      end) Q s (opened_net n srv (address l)).
Proof.
  assert (M64 = 67108864 /\ K64 = 65536) as [HM HK] by done.
  intros Hok Hh Hl El Hlen Ho Hsz Hbuf HQ. cbv zeta.
  destruct (holds_chunk srv ch l i x Hh Hl) as (Hid & _ & _ & Hacc).
  destruct (write_init_law srv ch l i x) as (srv2 & wid & Hs2 & Hw & Ha2); [done|done|].
  vstep. eapply WriteBlockInit_wp; [apply opened_idle|by rewrite El|done|done|exact Hw|exact Hs2|].
  change (set_servers srv2 (opened_net n srv (address l))) with (opened_net n srv2 (address l)).
  pose proof Ha2 as (Hh2 & Hf2 & Hl2 & Hb2 & Ho2).
  vstep. rewrite (wrap_small 64 (o + sz)) by lia.
  rewrite Z.shiftr_div_pow2 by lia. change (2 ^ 16) with K64.
  assert (o + sz - o = sz) as Esz by lia.
  eapply (write_blocks_wp fuel _ l ch i x); cbn [servers opened_net].
  { apply opened_idle. } { done. } { auto. } { done. } { lia. } { lia. } { lia. }
  { assert ((o + sz - 1) / K64 <= 1024) by (apply Z.div_le_upper_bound; lia).
    pose proof (Z.div_pos o K64 ltac:(lia) ltac:(lia)). lia. }
  intros srv3 Ha3. rewrite Esz in *. vstep.
  change (set_servers srv3 (opened_net n srv2 (address l))) with (opened_net n srv3 (address l)).
  unfold Cached_Return at 1. apply ChunkServer_delete_wp; [done|].
  apply HQ. by eapply after_keep.
Qed.

(** One chunk is written and the loop ends or goes on behind it. *)
Lemma write_chunks_step k i pos end_ buf Q s n :
  session a s n -> net_ok n -> healthy (servers n) -> vfile (servers n) i ->
  0 <= i < 2 ^ 32 -> 0 <= pos < end_ -> end_ <= MFS_MAX_FILE_SIZE -> size buf = end_ - pos ->
  let sz := Z.min end_ ((pos / M64 + 1) * M64) - pos in
  (forall n', session a s n' -> net_ok n' -> conns n' = conns n ->
     after (servers n) (servers n') (longer (servers n) i (pos + sz))
       (patched (servers n) i pos (take (Z.to_nat sz) buf)) ->
     wpV nnever (if end_ <=? pos + sz then mret (Some (pos + sz))
       else write_chunks fuel crc32 k i (pos + sz) (pos / M64 + 1) end_ (drop (Z.to_nat sz) buf)) Q s n') ->
  wpV nnever (write_chunks fuel crc32 (Datatypes.S k) i pos (pos / M64) end_ buf) Q s n.
Proof.
  assert (M64 = 67108864 /\ K64 = 65536) as [HM HK] by done.
  intros Hses Hok Hh Hf Hi Hp He Hsz sz HQ.
  cbn [write_chunks]. destruct (chunk_of pos end_ Hp He) as (_ & -> & -> & Hc & Hx & Hmod & Hpos).
  fold sz in Hc |- *. set (x := pos / M64) in *.
  assert (sz <= end_ - pos) as Hsz' by (unfold sz; lia).
  destruct (write_chunk_law (servers n) (session_id_ (master s)) i x)
    as (srv1 & nops & len & ch & Hs1 & Hok1 & Hch & Hne & Hholds & Ha1); [done|done|by destruct Hses as (_&_&?)|done|done|].
  rewrite (wrap_small 32 x) by lia.
  vstep. eapply (WriteChunk_wp _ _ _ _ _ _ _ (inr (len, ch))); [exact Hses|exact Hs1|exact Hok1|done|].
  destruct (location ch) as [|l ls] eqn:El; [done|]. vstep. cbn [head]. vstep. vstep.
  pose proof (Forall_inv Hholds) as Hl.
  pose proof Ha1 as (Hh1 & Hf1 & Hl1 & Hb1 & Ho1).
  destruct (holds_chunk srv1 ch l i x Hh1 Hl) as (_ & _ & _ & Hacc).
  set (n1 := set_servers srv1 n). assert (net_ok n1) as Hok1' by exact Hok.
  unfold Cached_Create at 1. apply Cached_connect_wp; [done|done|]. vstep. vstep.
  change (mkNet _ _ _ _) with (opened_net n srv1 (address l)). change (next_sock n1) with (next_sock n).
  destruct Hch as (_ & _ & _ & _ & Hlen). cbn [snd] in Hlen.
  eapply write_one_chunk_wp; [done|done|exact Hl|done|done|lia|lia|lia|].
  intros srv3 Ha3. pose proof Ha3 as (Hh3 & Hf3 & Hl3 & Hb3 & Ho3).
  rewrite (wrap_small 64 (pos + sz)) by (change MFS_MAX_FILE_SIZE with (2 ^ 57) in He; lia).
  assert (session a s (used_net n srv3)) as Hses3 by exact Hses.
  destruct (write_end_law srv3 (session_id_ (master s)) ch l i x (pos + sz))
    as (srv4 & nops' & Hs4 & Hok4 & Ha4); [done|auto|auto|by destruct Hses as (_&_&?)|done|lia|].
  vstep. eapply WriteChunkEnd_wp; [exact Hses3|exact Hs4|exact Hok4|lia|].
  change (set_servers srv4 (used_net n srv3)) with (used_net n srv4). cbn [Z.eqb STATUS_OK negb].
  replace (x * M64 + pos mod M64) with pos in Ha3 by lia.
  apply HQ; [exact Hses|by apply used_ok|done|].
  eapply after_end; [|exact Ha4]. eapply after_keep; [exact Ha1|exact Ha3].
Qed.

Lemma write_chunks_wp k i pos end_ buf Q s n :
  session a s n -> net_ok n -> healthy (servers n) -> vfile (servers n) i ->
  0 <= i < 2 ^ 32 -> 0 <= pos < end_ -> end_ <= MFS_MAX_FILE_SIZE -> size buf = end_ - pos ->
  chunks_of pos end_ <= Z.of_nat k ->
  (forall n', session a s n' -> net_ok n' -> conns n' = conns n ->
     after (servers n) (servers n') (longer (servers n) i end_) (patched (servers n) i pos buf) ->
     Q (Some end_) s n') ->
  wpV nnever (write_chunks fuel crc32 k i pos (pos / M64) end_ buf) Q s n.
Proof.
  revert pos buf n. induction k as [|k IH]; intros pos buf n Hses Hok Hh Hf Hi Hp He Hsz Hk HQ.
  { exfalso. unfold chunks_of in Hk. pose proof (Z.div_le_mono pos (end_ - 1) M64 ltac:(done) ltac:(lia)). lia. }
  apply write_chunks_step; try done. destruct (chunk_of pos end_ Hp He) as (_ & _ & _ & Hc & _).
  pose proof (next_unit M64 pos end_ ltac:(done)) as Hnext. cbv zeta in Hc, Hnext |- *.
  set (sz := Z.min end_ ((pos / M64 + 1) * M64) - pos) in *. assert (sz <= end_ - pos) as Hsz' by (unfold sz; lia).
  intros n1 Hses1 Hok1 Hc1 Hafter. destruct (Z.leb_spec end_ (pos + sz)).
  - assert (pos + sz = end_) as Ee by lia. vstep. rewrite Ee. apply HQ; [done..|].
    rewrite take_ge in Hafter by (unfold size in *; lia). by rewrite Ee in Hafter.
  - destruct (Hnext ltac:(lia)) as [Epos Ex].
    assert (size (drop (Z.to_nat sz) buf) = end_ - (pos + sz)) as Hrest by (unfold size in *; len).
    rewrite <- Ex. pose proof Hafter as (Hh4 & Hf4 & _). apply IH; [done|done|done|auto|done|lia|done|done| |].
    + unfold chunks_of in *. rewrite Ex. lia.
    + intros n' Hses' Hok' Hconns Ha'. apply HQ; [done|done|congruence|].
      rewrite <- (take_drop (Z.to_nat sz) buf). eapply after_two; [exact Hafter| |lia].
      replace (size (take (Z.to_nat sz) buf)) with sz by (unfold size in *; len). exact Ha'.
Qed.
(** When [Write] is called on a file of a healthy cluster. *)
Definition writable (f : File) (buf : bytes) (s : client) (n : net S) : Prop :=
  session a s n /\ net_ok n /\ healthy (servers n) /\ vfile (servers n) (inode_ f) /\
  0 < inode_ f < 2 ^ 32 /\ 0 <= position_ f /\ 0 < size buf < 2 ^ 32 /\
  position_ f + size buf <= MFS_MAX_FILE_SIZE /\
  chunks_of (position_ f) (position_ f + size buf) <= Z.of_nat fuel.

Lemma Write_wp f buf Q s n :
  writable f buf s n ->
  (forall n', session a s n' -> net_ok n' -> conns n' = conns n ->
     after (servers n) (servers n') (longer (servers n) (inode_ f) (position_ f + size buf))
       (patched (servers n) (inode_ f) (position_ f) buf) ->
     Q (size buf, set_position (position_ f + size buf) f) s n') ->
  wpV nnever (Write fuel crc32 f buf (size buf)) Q s n.
Proof.
  intros (Hses & Hok & Hh & Hf & Hi & Hp & Hb & He & Hk) HQ. set (pos := position_ f) in *.
  assert (size buf < 2 ^ 57) as Hb57 by (change (2 ^ 32) with 4294967296 in Hb; lia).
  pose proof He as He57. change MFS_MAX_FILE_SIZE with (2 ^ 57) in He57.
  unfold Write. vstep. apply ASSERT_wp; [destruct (Z.eqb_spec (inode_ f) 0); [lia|done]|].
  destruct (chunk_of pos (pos + size buf)) as (Ex & _); [lia|done|]. fold pos. rewrite Ex.
  rewrite (wrap_small 64 (pos + size buf)) by lia. vstep.
  apply write_chunks_wp; try done; try lia.
  intros n' Hs' Hok' Hconns Ha. vstep. rewrite wrap_small by lia. auto.
Qed.

(** The contents after a write. *)
Lemma content_patched srv srv' i pos buf :
  0 <= pos <= vlen srv i -> after srv srv' (longer srv i (pos + size buf)) (patched srv i pos buf) ->
  content srv' i = splice (content srv i) pos buf /\
  (forall j, j <> i -> content srv' j = content srv j).
Proof.
  intros Hp (Hh' & Hf' & Hl & Hby & Ho). unfold content. split.
  - rewrite Hl. unfold longer. rewrite Z.eqb_refl.
    rewrite (bytes_at_ext _ (patch (vbyte srv i) pos buf)).
    + by apply bytes_at_patch.
    + intros o _. rewrite Hby. unfold patched. by rewrite Z.eqb_refl.
  - intros j Hj. rewrite Hl. unfold longer. destruct (Z.eqb_spec j i); [done|].
    apply bytes_at_ext. intros o _. rewrite Hby. unfold patched. by destruct (Z.eqb_spec j i).
Qed.

(** C6: [File::Write] on a healthy cluster stores the whole buffer: the new
    content of the file is the old one with the buffer written at the file's
    position (at most its length), no other file changes, the position
    advances, and every connection opened on the way is closed again; for any
    size, however many chunks and blocks it spans. *)
Theorem Write_stores (f : File) (buf : bytes) (s : client) (n : net S) (cs : list nat) (js : list bytes) :
  writable f buf s n -> position_ f <= vlen (servers n) (inode_ f) ->
  exists w', Write fuel crc32 f buf (size buf) s (mkWorld n cs js) =
      (inr (size buf, set_position (position_ f + size buf) f), (s, w')) /\
    content (servers (the_net w')) (inode_ f) =
      splice (content (servers n) (inode_ f)) (position_ f) buf /\
    (forall j, j <> inode_ f -> content (servers (the_net w')) j = content (servers n) j) /\
    healthy (servers (the_net w')) /\ session a s (the_net w') /\ conns (the_net w') = conns n.
Proof.
  intros Hw Hlen.
  destruct (wpV_result (Write fuel crc32 f buf (size buf))
    (fun r s' n' => r = (size buf, set_position (position_ f + size buf) f) /\ s' = s /\
       session a s n' /\ conns n' = conns n /\
       after (servers n) (servers n') (longer (servers n) (inode_ f) (position_ f + size buf))
         (patched (servers n) (inode_ f) (position_ f) buf)) s n cs js)
    as (r & s' & w' & E & -> & -> & Hses' & Hc & Ha).
  { apply Write_wp; [done|]. auto. }
  destruct Hw as (_ & _ & _ & _ & _ & Hp & _).
  destruct (content_patched _ _ _ _ _ (conj Hp Hlen) Ha) as [Hci Hcj].
  exists w'. by destruct Ha.
Qed.

(** ** Reading *)

(** Every cached connection is filed under its own key, and idle. *)
Definition cache_ok (s : client) (n : net S) : Prop :=
  forall key cs, map_ s !! key = Some cs ->
    exists l, location_ok l /\ cs = mkChunkServer (socket_ cs) (loc_ip l) (loc_port l) /\
      key = Key (loc_ip l) (loc_port l) true /\ idle n (socket_ cs) (address l).

(** Between two requests of a read: the session, the sockets, the cache. *)
Definition read_inv (s : client) (n : net S) : Prop :=
  session a s n /\ net_ok n /\ cache_ok s n.

Lemma read_inv_servers s n srv : read_inv s n -> read_inv s (set_servers srv n).
Proof. done. Qed.

Lemma idle_opened n srv addr fd b :
  net_ok n -> idle n fd b -> idle (opened_net n srv addr) fd b.
Proof.
  intros Hn Hi. unfold idle, opened_net in *. cbn [conns]. rewrite lookup_insert_ne; [done|].
  intros E. by rewrite <- E, net_ok_fresh in Hi.
Qed.

(** How reading may stop: at the entry that [Cached::Create] reads when it has
    erased it, in a build where that cannot be read.  [reuse]: a connection may
    have to be taken from the cache. *)
Definition after_erase (reuse : Prop) (e : nstop) : Prop := e = Undef /\ erased_readable = false /\ reuse.

(** A connection to a location, from the cache or new, with the cache entry
    taken out. *)
Lemma Cached_Create_read_wp (reuse : Prop) l Q s n :
  (map_ s <> ∅ -> reuse) -> read_inv s n -> location_ok l -> accepts (address l) = true ->
  (forall cs s' n', ip_ cs = loc_ip l -> port_ cs = loc_port l -> idle n' (socket_ cs) (address l) ->
     master s' = master s -> read_inv s' n' -> servers n' = servers n ->
     map_ s' !! Key (loc_ip l) (loc_port l) true = None -> Q (Some cs) s' n') ->
  wpV (after_erase reuse) (Cached_Create (loc_ip l) (loc_port l) true) Q s n.
Proof.
  intros Hre (Hses & Hok & Hc) Hl Hacc HQ. unfold Cached_Create. vstep. vstep.
  destruct (map_ s !! _) as [cs|] eqn:E.
  - destruct (Hc _ _ E) as (l' & Hl' & Ecs & Ekey & Hidle).
    destruct Hl as [Hi Hp], Hl' as [Hi' Hp'].
    destruct (Key_inj _ _ _ _ _ _ Hi Hp Hi' Hp' Ekey) as (Ei & Ep & _).
    vstep. unfold set_map. vstep. vstep. vstep. destruct erased_readable eqn:Er.
    2:{ apply wpV_halt. split; [done|split; [done|]]. apply Hre. intros Em. by rewrite Em, lookup_empty in E. }
    vstep. apply HQ.
    + by rewrite Ecs. + by rewrite Ecs. + unfold address in *. by rewrite Ei, Ep. + done.
    + split; [exact Hses|split; [done|]]. intros key cs' Hk. cbn [map_] in Hk.
      apply lookup_delete_Some in Hk as [_ Hk]. by apply Hc.
    + done.
    + cbn [map_]. apply lookup_delete_eq.
  - apply Cached_connect_wp; [done|done|].
    change (mkNet _ _ _ _) with (opened_net n (servers n) (address l)). apply HQ; try done.
    + apply opened_idle.
    + split; [by apply opened_session|split; [by apply opened_ok|]].
      intros key cs' Hk. destruct (Hc _ _ Hk) as (l' & Hl' & Ecs & Ekey & Hidle).
      exists l'. split_and!; try done; try by apply Hl'. by apply idle_opened.
Qed.

(** Handing the connection back files it. *)
Lemma Cached_Return_read_wp Sp cs l Q s n :
  read_inv s n -> location_ok l -> ip_ cs = loc_ip l -> port_ cs = loc_port l ->
  idle n (socket_ cs) (address l) -> map_ s !! Key (loc_ip l) (loc_port l) true = None ->
  (forall s', master s' = master s -> read_inv s' n -> Q tt s' n) ->
  wpV Sp (Cached_Return cs true) Q s n.
Proof.
  intros (Hses & Hok & Hc) Hl Ei Ep Hidle Hnone HQ. unfold Cached_Return. vstep. vstep.
  rewrite Ei, Ep, Hnone. unfold set_map. vstep. vstep. vstep. apply HQ; [done|].
  split; [exact Hses|split; [done|]]. intros key cs' Hk. cbn [map_] in Hk.
  apply lookup_insert_Some in Hk as [[<- <-]|[_ Hk]]; [|by apply Hc].
  exists l. split_and!; try done; try apply Hl. destruct cs. cbn in *. by subst.
Qed.

Lemma splice_splice mem o d1 d2 :
  0 <= o -> o + size d1 <= size mem ->
  splice (splice mem o d1) (o + size d1) d2 = splice mem o (d1 ++ d2).
Proof.
  intros Ho Hm. unfold splice, size in *.
  assert (length (take (Z.to_nat o) mem) = Z.to_nat o) as Ht by (rewrite length_take; lia).
  replace (Z.to_nat o - length mem)%nat with 0%nat by lia. cbn [replicate app].
  replace (Z.to_nat (o + Z.of_nat (length d1)) - _)%nat with 0%nat by len. cbn [replicate app].
  replace (Z.to_nat (o + Z.of_nat (length d1))) with (Z.to_nat o + length d1)%nat by lia.
  rewrite <- !app_assoc.
  rewrite (app_assoc (take (Z.to_nat o) mem) d1) at 1.
  rewrite take_app_length' by (rewrite length_app; lia). rewrite <- !app_assoc. do 3 f_equal.
  rewrite (app_assoc (take _ mem) d1), drop_app_ge by (rewrite length_app; lia).
  rewrite drop_drop. f_equal. rewrite !length_app. lia.
Qed.

(** The bytes of a chunk, read and stored; the connection is kept. *)
Lemma read_one_chunk_wp (reuse : Prop) l ls ch i x o sz mem at_ srv (F : bytes -> N client (world S) (option Z * bytes))
    (E : bytes -> N client (world S) (option Z * bytes)) Q s n :
  (map_ s <> ∅ -> reuse) ->
  read_inv s (set_servers srv n) -> healthy srv -> holds srv ch l i x -> location ch = l :: ls ->
  0 <= x -> 0 <= o -> 0 < sz <= M64 - o -> x * M64 + o + sz <= vlen srv i ->
  0 <= at_ -> at_ + sz <= size mem ->
  let data := bytes_at (vbyte srv i) (x * M64 + o) sz in
  (forall s' srv' n', master s' = master s -> read_inv s' n' -> servers n' = srv' ->
     after srv srv' (vlen srv) (vbyte srv) ->
     wpV (after_erase reuse) (F (splice mem at_ data)) Q s' n') ->
  wpV (after_erase reuse) (
      cs ← connect_any (location ch);
      match cs with
      | None => mret (None, mem)
      | Some cs =>
          '(ret, data) ← ReadBlock fuel crc32 cs ch (u32 o) (u32 sz);
          mem ← store mem at_ data;
          if negb (ret =? STATUS_OK) then ChunkServer_delete cs;; E mem
          else Cached_Return cs true;; F mem
      end) Q s (set_servers srv n).
Proof.
  assert (M64 = 67108864 /\ K64 = 65536) as [HM HK] by done.
  intros Hre Hinv Hh Hl El Hx Ho Hsz Hlen Hat Hmem data HQ. rewrite El.
  destruct (holds_chunk srv ch l i x Hh Hl) as (Hid & _ & Hlok & Hacc).
  vstep. cbn [connect_any]. vstep. apply Cached_Create_read_wp; [done|done|done|done|].
  intros cs s1 n1 Eip Eport Hidle Hm1 Hinv1 Hn1 Hnone. vstep. vstep.
  rewrite (wrap_small 32 o), (wrap_small 32 sz) by lia.
  assert (size data = sz) as Hdata by (apply size_bytes_at; lia). rewrite <- Hdata.
  destruct (read_block_law srv ch l i x o sz) as (srv2 & Hs2 & Ha2); try done; try lia.
  fold data in Hs2. cbn [servers set_servers] in Hn1.
  eapply ReadBlock_wp; [exact crc32_range|exact Hidle|done|lia|lia|done|by rewrite Hn1, Hdata|].
  vstep. unfold store. rewrite Hdata. destruct (Z.ltb_spec (size mem) (at_ + sz)); [lia|].
  vstep. vstep. eapply (Cached_Return_read_wp _ cs l);
    [by apply read_inv_servers|done|done|done|exact Hidle|done|].
  intros s2 Hm2 Hinv2. eapply HQ; [congruence|exact Hinv2|done|exact Ha2].
Qed.

(** One chunk is read and the loop ends or goes on behind it. *)
Lemma read_chunks_step (reuse : Prop) k i old pos end_ mem Q s n :
  let e := Z.min end_ (vlen (servers n) i) in
  let sz := Z.min e ((pos / M64 + 1) * M64) - pos in
  (map_ s <> ∅ -> reuse) -> read_inv s n -> healthy (servers n) -> vfile (servers n) i -> 0 <= i < 2 ^ 32 ->
  0 <= old <= pos -> pos < e -> e <= MFS_MAX_FILE_SIZE -> e - old <= size mem ->
  (forall s' n', master s' = master s -> read_inv s' n' ->
     after (servers n) (servers n') (vlen (servers n)) (vbyte (servers n)) ->
     let mem := splice mem (pos - old) (bytes_at (vbyte (servers n) i) pos sz) in
     wpV (after_erase reuse) (if e <=? pos + sz then mret (Some (pos + sz), mem)
       else read_chunks fuel crc32 k i old (pos + sz) (pos / M64 + 1) e mem) Q s' n') ->
  wpV (after_erase reuse) (read_chunks fuel crc32 (Datatypes.S k) i old pos (pos / M64) end_ mem) Q s n.
Proof.
  assert (M64 = 67108864 /\ K64 = 65536) as [HM HK] by done.
  intros e sz Hre Hinv Hh Hf Hi Hold Hp He Hmem HQ.
  cbn [read_chunks]. destruct (chunk_of pos e) as (_ & Eoff & Esz & Hc & Hx & Hmod & Hpos); [lia|done|].
  fold sz in Esz, Hc. set (x := pos / M64) in *.
  assert (sz <= e - pos) as Hsz' by (unfold sz; lia).
  pose proof Hinv as (Hses & _ & _). pose proof (vlen_range (servers n) i Hh) as Hlen.
  destruct (read_chunk_law (servers n) (session_id_ (master s)) i x)
    as (srv1 & nops & ch & Hs1 & Hok1 & Hch & Hne & Hholds & Ha1); [done|done|by destruct Hses as (_&_&?)|done|done|].
  rewrite (wrap_small 32 x) by lia.
  vstep. eapply (ReadChunk_wp _ _ _ _ _ _ _ (inr (vlen (servers n) i, ch))); [exact Hses|exact Hs1|exact Hok1|done|].
  vstep. vstep.
  assert ((if vlen (servers n) i <? end_ then vlen (servers n) i else end_) = e) as ->
    by (unfold e; destruct (Z.ltb_spec (vlen (servers n) i) end_); lia).
  destruct (Z.ltb_spec (vlen (servers n) i) old); [unfold e in *; lia|].
  rewrite Eoff, Esz. destruct (location ch) as [|l ls] eqn:El; [exfalso; apply Hne; [unfold e in *; lia|done]|].
  cbn [length]. destruct (Z.ltb_spec (Z.of_nat (Datatypes.S (length ls))) 1); [lia|].
  pose proof (Forall_inv Hholds) as Hl.
  pose proof Ha1 as (Hh1 & Hf1 & Hl1 & Hb1 & Ho1). rewrite <- El.
  apply (read_one_chunk_wp reuse l ls ch i x _ _ mem (pos - old) srv1); try done; try lia.
  { rewrite Hl1. unfold e in *. lia. }
  intros s' srv' n' Hm' Hinv' <- Ha'.
  rewrite (wrap_small 64 (pos + sz)) by (change MFS_MAX_FILE_SIZE with (2 ^ 57) in He; lia).
  rewrite <- Hpos, (bytes_at_ext (vbyte srv1 i) (vbyte (servers n) i)) by (intros; apply Hb1).
  apply HQ; [done|done|]. eapply after_trans; [exact Ha1|exact Ha'|exact Hl1|exact Hb1].
Qed.

Lemma read_chunks_wp (reuse : Prop) k i old pos end_ mem Q s n :
  let e := Z.min end_ (vlen (servers n) i) in
  (map_ s <> ∅ -> reuse) -> (1 < chunks_of pos e -> reuse) -> read_inv s n -> healthy (servers n) -> vfile (servers n) i -> 0 <= i < 2 ^ 32 ->
  0 <= old <= pos -> pos < e -> e <= MFS_MAX_FILE_SIZE -> e - old <= size mem ->
  chunks_of pos e <= Z.of_nat k ->
  (forall s' n', master s' = master s -> read_inv s' n' ->
     after (servers n) (servers n') (vlen (servers n)) (vbyte (servers n)) ->
     Q (Some e, splice mem (pos - old) (bytes_at (vbyte (servers n) i) pos (e - pos))) s' n') ->
  wpV (after_erase reuse) (read_chunks fuel crc32 k i old pos (pos / M64) end_ mem) Q s n.
Proof.
  cbv zeta. revert pos end_ mem s n.
  induction k as [|k IH]; intros pos end_ mem s n Hre Hmore Hinv Hh Hf Hi Hold Hp He Hmem Hk HQ.
  { exfalso. unfold chunks_of in Hk.
    pose proof (Z.div_le_mono pos (Z.min end_ (vlen (servers n) i) - 1) M64 ltac:(done) ltac:(lia)). lia. }
  apply read_chunks_step; try done.
  set (e := Z.min end_ (vlen (servers n) i)) in *.
  destruct (chunk_of pos e) as (_ & _ & _ & Hc & _); [lia|done|].
  pose proof (next_unit M64 pos e ltac:(done)) as Hnext. cbv zeta in Hc, Hnext |- *.
  set (sz := Z.min e ((pos / M64 + 1) * M64) - pos) in *. assert (sz <= e - pos) as Hsz' by (unfold sz; lia).
  set (data := bytes_at (vbyte (servers n) i) pos sz).
  assert (size data = sz) as Hdata by (apply size_bytes_at; lia).
  intros s1 n1 Hm1 Hinv1 Hafter. pose proof Hafter as (Hh1 & Hf1 & Hl1 & Hb1 & _).
  destruct (Z.leb_spec e (pos + sz)).
  - assert (pos + sz = e) as Ee by lia. vstep. rewrite Ee. replace (e - pos) with sz in HQ by lia.
    by apply HQ.
  - destruct (Hnext ltac:(lia)) as [Epos Ex]. rewrite <- Ex.
    assert (Z.min e (vlen (servers n1) i) = e) as Emin by (rewrite Hl1; unfold e; lia).
    assert reuse as Hreuse.
    { apply Hmore. unfold chunks_of. assert (pos / M64 + 1 <= (e - 1) / M64); [|lia].
      rewrite <- Ex. apply Z.div_le_mono; [done|lia]. }
    apply IH; rewrite ?Emin; try done; try lia; [by apply Hf1|..].
    + rewrite length_splice by lia. lia.
    + unfold chunks_of in *. rewrite Ex. lia.
    + intros s' n' Hm' Hinv' Ha'.
      replace (pos + sz - old) with (pos - old + size data) by lia.
      rewrite splice_splice by lia.
      rewrite (bytes_at_ext (vbyte (servers n1) i) (vbyte (servers n) i)) by (intros; apply Hb1).
      unfold data. rewrite bytes_at_app by lia. replace (sz + (e - (pos + sz))) with (e - pos) by lia.
      apply HQ; [congruence|done|]. eapply after_trans; [exact Hafter|exact Ha'|exact Hl1|exact Hb1].
Qed.
(** When [Read] is called on one. *)
Definition readable (f : File) (mem : bytes) (count : Z) (s : client) (n : net S) : Prop :=
  read_inv s n /\ healthy (servers n) /\ vfile (servers n) (inode_ f) /\
  0 < inode_ f < 2 ^ 32 /\ 0 <= position_ f < vlen (servers n) (inode_ f) /\
  vlen (servers n) (inode_ f) <= MFS_MAX_FILE_SIZE /\
  0 < count < 2 ^ 32 /\ count <= size mem /\
  chunks_of (position_ f) (position_ f + count) <= Z.of_nat fuel.

(** How much is read. *)
Definition read_length (f : File) (count : Z) (srv : S) : Z :=
  Z.min count (vlen srv (inode_ f) - position_ f).

(** A read may have to take a connection from the cache: there is one, or there
    will be, because the range is in more than one chunk. *)
Definition may_reuse (s : client) (pos end_ : Z) : Prop := map_ s <> ∅ \/ 1 < chunks_of pos end_.

Lemma Read_wp f mem count Q s n :
  let r := read_length f count (servers n) in
  readable f mem count s n ->
  (forall s' n', master s' = master s -> read_inv s' n' ->
     after (servers n) (servers n') (vlen (servers n)) (vbyte (servers n)) ->
     Q (r, range (content (servers n) (inode_ f)) (position_ f) r ++ drop (Z.to_nat r) mem,
        set_position (position_ f + r) f) s' n') ->
  wpV (after_erase (may_reuse s (position_ f) (position_ f + r))) (Read fuel crc32 f mem count) Q s n.
Proof.
  cbv zeta. intros (Hinv & Hh & Hf & Hi & Hp & Hl & Hc & Hm & Hk) HQ.
  set (pos := position_ f) in *. set (i := inode_ f) in *.
  set (r := read_length f count (servers n)) in *.
  assert (0 < r <= count /\ r <= vlen (servers n) i - pos) as Hr by (unfold r, read_length; fold pos i; lia).
  pose proof Hl as He57. change MFS_MAX_FILE_SIZE with (2 ^ 57) in He57.
  unfold Read. fold pos i. vstep. apply ASSERT_wp; [destruct (Z.eqb_spec i 0); [lia|done]|].
  destruct (Z.leb_spec MFS_MAX_FILE_SIZE pos); [lia|].
  assert (Z.min (pos + count) (vlen (servers n) i) = pos + r) as Ee by (unfold r, read_length; fold pos i; lia).
  destruct (chunk_of pos (pos + r)) as (Ex & _); [lia|lia|]. rewrite Ex.
  rewrite (wrap_small 64 (pos + count)) by lia. vstep.
  apply read_chunks_wp; rewrite ?Ee; try done; try lia; [by left|by right|..].
  { unfold chunks_of in *. assert ((pos + r - 1) / M64 <= (pos + count - 1) / M64); [|lia].
    apply Z.div_le_mono; [done|lia]. }
  intros s' n' Hm' Hinv' Ha. vstep. replace (pos + r - pos) with r by lia.
  rewrite wrap_small by lia. replace (pos - pos) with 0 by lia.
  assert (splice mem 0 (bytes_at (vbyte (servers n) i) pos r) =
          range (content (servers n) i) pos r ++ drop (Z.to_nat r) mem) as ->; [|by apply HQ].
  unfold content. rewrite range_bytes_at by lia. unfold splice. rewrite length_bytes_at.
  change (Z.to_nat 0) with 0%nat. by rewrite take_0.
Qed.

(** C7: [File::Read] on a healthy cluster, with the cached connections idle and
    the position inside the file, fills the buffer with the bytes of the file
    from its position on, up to the end of the file; the rest of the
    buffer and every file stay as they were, and the position advances by what
    was read.  It does unless it is undefined, which it can only be where a hash
    map entry that was just erased cannot be read, and a connection has to be
    taken from the cache: the cache was not empty, or the range lies in more
    than one chunk. *)
Theorem Read_fetches (f : File) (mem : bytes) (count : Z) (s : client) (n : net S)
    (cs : list nat) (js : list bytes) :
  readable f mem count s n ->
  let r := read_length f count (servers n) in
  match Read fuel crc32 f mem count s (mkWorld n cs js) with
  | (inr o, (s', w')) =>
      o = (r, range (content (servers n) (inode_ f)) (position_ f) r ++ drop (Z.to_nat r) mem,
           set_position (position_ f + r) f) /\
      (forall j, content (servers (the_net w')) j = content (servers n) j) /\
      healthy (servers (the_net w')) /\ read_inv s' (the_net w')
  | (inl e, _) =>
      e = Undef /\ erased_readable = false /\ (map_ s <> ∅ \/ 1 < chunks_of (position_ f) (position_ f + r))
  end.
Proof.
  intros Hr r.
  assert (wpV (after_erase (may_reuse s (position_ f) (position_ f + r))) (Read fuel crc32 f mem count)
    (fun o s' n' => o = (r, range (content (servers n) (inode_ f)) (position_ f) r ++
         drop (Z.to_nat r) mem, set_position (position_ f + r) f) /\ read_inv s' n' /\
       after (servers n) (servers n') (vlen (servers n)) (vbyte (servers n))) s n) as Hwp
    by (apply Read_wp; auto).
  apply (wpV_run _ _ _ _ _ cs js) in Hwp. destruct (Read _ _ _ _ _ _ _) as [[e|o] [s' w']]; [exact Hwp|].
  destruct Hwp as (-> & Hinv & Hh' & _ & Hl & Hb & _). split; [done|]. split; [|done].
  intros j. unfold content. rewrite Hl. apply bytes_at_ext. intros o _. apply Hb.
Qed.

(** C5: On a healthy cluster, with the cached connections idle, what [Write]
    stores at a position of a file (at most its length), [Pread] at the same
    position returns, all of it; unless [Pread] is undefined, which it can only be
    where a hash map entry that was just erased cannot be read, and the cache of
    connections was not empty or the range lies in more than one chunk. *)
Theorem write_then_pread (f : File) (buf mem : bytes) (s : client) (n : net S)
    (cs : list nat) (js : list bytes) :
  writable f buf s n -> cache_ok s n -> position_ f <= vlen (servers n) (inode_ f) ->
  vlen (servers n) (inode_ f) <= MFS_MAX_FILE_SIZE -> size mem = size buf ->
  match (
    '(_, f') ← Write fuel crc32 f buf (size buf);
    '(r, mem, _) ← Pread fuel crc32 f' mem (size buf) (position_ f);
    mret (r, mem)) s (mkWorld n cs js) with
  | (inr o, _) => o = (size buf, buf)
  | (inl e, _) =>
      e = Undef /\ erased_readable = false /\
      (map_ s <> ∅ \/ 1 < chunks_of (position_ f) (position_ f + size buf))
  end.
Proof.
  intros Hw Hcache Hlen Hmax Hmem. pose proof Hw as (Hses & Hok & Hh & Hf & Hi & Hp & Hb & He & Hk).
  assert (wpV (after_erase (may_reuse s (position_ f) (position_ f + size buf))) (
    '(_, f') ← Write fuel crc32 f buf (size buf);
    '(r, mem, _) ← Pread fuel crc32 f' mem (size buf) (position_ f);
    mret (r, mem)) (fun o _ _ => o = (size buf, buf)) s n) as Hwp.
  { vstep. apply (wpV_weaken nnever); [done|]. apply Write_wp; [done|]. intros n' Hses' Hok' Hconns Ha. vstep. unfold Pread.
    destruct (content_patched _ _ _ _ _ (conj Hp Hlen) Ha) as [Hci _].
    pose proof Ha as (Hh' & Hf' & Hl' & _). specialize (Hl' (inode_ f)).
    unfold longer in Hl'. rewrite Z.eqb_refl in Hl'.
    assert (0 <= position_ f < 2 ^ 57) as Hp57
      by (change MFS_MAX_FILE_SIZE with (2 ^ 57) in He; lia).
    rewrite wrap_small by lia. set (f' := set_position (position_ f) _).
    assert (read_length f' (size buf) (servers n') = size buf) as Hr
      by (unfold read_length, f'; cbn [inode_ position_ set_position]; lia).
    eapply wpV_weaken; [|apply Read_wp; rewrite ?Hr].
    - by rewrite Hr.
    - unfold readable, f'. cbn [inode_ position_ set_position]. split_and!; try done; try lia.
      + split; [done|split; [done|]]. intros key c Hkey. destruct (Hcache key c Hkey) as (l & Hl & Ec & Ek & Hid).
        exists l. split_and!; try done; try apply Hl. unfold idle in *. by rewrite Hconns.
      + auto.
    - intros s2 n2 _ _ _. vstep. unfold f'. cbn [inode_ position_ set_position].
      rewrite Hci, range_splice_same by done. rewrite drop_ge, app_nil_r by (unfold size in *; lia). done. }
  apply (wpV_run _ _ _ _ _ cs js) in Hwp.
  by destruct ((Write _ _ _ _ _ ≫= _) s _) as [[e|o] [s' w']].
Qed.
End Storing.
