(* ===== verification/Cluster.v ===== *)
(** * Servers that keep the client's interfaces

    A small master and chunk server in one, at every address: names in a map,
    the content of each file in one string, chunk [x] of inode [i] numbered
    [i * 2 ^ 31 + x], one NOP before every answer of the master.  It keeps
    [Directory] and [Storage], so the theorems about files are about
    something; their witnesses run on it. *)

From S2P Require Import Prelude CString Posix Datapack Net Servers Protocol Exchange Master MasterSpec Chunks Files Storage ChunksSpec FilesSpec.

Record cluster := mkCluster {
  cl_names : gmap (Z * bytes) Z;
  cl_len : gmap Z Z;
  cl_data : gmap Z bytes }.

Definition cluster_len (c : cluster) (i : Z) : Z := default 0 (cl_len c !! i).
Definition cluster_data (c : cluster) (i : Z) : bytes := default [] (cl_data c !! i).
Definition cluster_byte (c : cluster) (i o : Z) : Init.Byte.byte :=
  if o <? 0 then x00 else nth (Z.to_nat o) (cluster_data c i) x00.

(** The attribute of a regular file with mode 644. *)
Definition file_attr (len : Z) : FileAttribute :=
  be 1 (bval "f") ++ be 2 420 ++ concat (repeat (be 4 0) 5) ++ be 4 1 ++ be 8 len.

Definition cluster_entry (c : cluster) (uid gid parent : Z) (name : bytes) : Z + Z * FileAttribute :=
  match cl_names c !! (parent, name) with
  | Some i => inr (u32 i, file_attr (cluster_len c i))
  | None => inl ERROR_ENOENT
  end.

Definition cluster_chunk (i x : Z) : Chunk := mkChunk (i * 2 ^ 31 + x) 1 [mkLocation 0x7F000001 9422].

Definition one_nop : list bytes := [be 4 0].

(** A sum in place of the CRC. *)
Definition check_sum (b : bytes) : Z := fold_left (fun a c => u32 (31 * a + bval c)) b 0.

Definition answer_lookup (c : cluster) (data : bytes) : option (cluster * bytes) :=
  '(sid, r) ← get32bit data;
  '(parent, r) ← get32bit r;
  '(n, r) ← get8bit r;
  let name := take (Z.to_nat n) r in
  Some (c, answer one_nop MATOCU_FUSE_LOOKUP sid (reply_payload entry_bytes (cluster_entry c 0 0 parent name))).

Definition answer_chunk (c : cluster) (cmd : Z) (data : bytes) : option (cluster * bytes) :=
  '(sid, r) ← get32bit data;
  '(i, r) ← get32bit r;
  '(x, _) ← get32bit r;
  Some (c, answer one_nop cmd sid (chunk_bytes (cluster_len c i, cluster_chunk i x))).

Definition answer_end (c : cluster) (data : bytes) : option (cluster * bytes) :=
  '(sid, r) ← get32bit data;
  '(_, r) ← get64bit r;
  '(i, r) ← get32bit r;
  '(len, _) ← get64bit r;
  Some (mkCluster (cl_names c) (<[i := Z.max (cluster_len c i) len]> (cl_len c)) (cl_data c),
        answer one_nop MATOCU_FUSE_WRITE_CHUNK_END sid (be 1 0)).

Definition answer_write (c : cluster) (data : bytes) : option (cluster * bytes) :=
  '(id, _) ← get64bit data; Some (c, write_status_packet id 7 0).

Definition answer_data (c : cluster) (data : bytes) : option (cluster * bytes) :=
  '(id, r) ← get64bit data;
  '(wid, r) ← get32bit r;
  '(blockno, r) ← get16bit r;
  '(off, r) ← get16bit r;
  '(_, r) ← get32bit r;
  '(_, r) ← get32bit r;
  let i := id / 2 ^ 31 in
  let o := id mod 2 ^ 31 * M64 + blockno * K64 + off in
  Some (mkCluster (cl_names c) (cl_len c) (<[i := splice (cluster_data c i) o r]> (cl_data c)),
        write_status_packet id wid 0).

Definition answer_read (c : cluster) (data : bytes) : option (cluster * bytes) :=
  '(id, r) ← get64bit data;
  '(_, r) ← get32bit r;
  '(off, r) ← get32bit r;
  '(sz, _) ← get32bit r;
  let d := bytes_at (cluster_byte c (id / 2 ^ 31)) (id mod 2 ^ 31 * M64 + off) sz in
  Some (c, concat (map (data_packet check_sum id) (blocks off d)) ++ read_status id 0).

Definition cluster_serve (a : sockaddr) (c : cluster) (cmd : Z) (data : bytes) : cluster * bytes :=
  default (c, [])
    (if cmd =? CUTOMA_FUSE_LOOKUP then answer_lookup c data
     else if cmd =? CUTOMA_FUSE_WRITE_CHUNK then answer_chunk c MATOCU_FUSE_WRITE_CHUNK data
     else if cmd =? CUTOMA_FUSE_READ_CHUNK then answer_chunk c MATOCU_FUSE_READ_CHUNK data
     else if cmd =? CUTOMA_FUSE_WRITE_CHUNK_END then answer_end c data
     else if cmd =? CUTOCS_WRITE then answer_write c data
     else if cmd =? CUTOCS_WRITE_DATA then answer_data c data
     else if cmd =? CUTOCS_READ then answer_read c data
     else None).

#[export] Instance cluster_service : Service cluster :=
  {| accepts := fun _ => true; serve := cluster_serve |}.

(** ** The interfaces *)

Definition cluster_fuel : nat := 2000.

Lemma size_file_attr len : size (file_attr len) = 35.
Proof. reflexivity. Qed.

Lemma one_nop_ok cmd payload :
  cmd <> ANTOAN_NOP -> 0 <= cmd < 2 ^ 32 -> size payload < 1000 ->
  answer_ok cluster_fuel one_nop cmd payload.
Proof.
  intros Hc Hr Hp. split; [by repeat constructor|]. split; [cbn; unfold cluster_fuel; lia|].
  split; [done|]. split; [done|lia].
Qed.

(** Read the fields of a request. *)
Ltac fields :=
  repeat (rewrite ?get32bit_be, ?get64bit_be, ?get16bit_be, ?get8bit_be; cbn [mbind option_bind]).

#[export] Program Instance cluster_directory (a : sockaddr) : Directory cluster a cluster_fuel :=
  {| entry := cluster_entry |}.
Next Obligation.
  intros _ c uid gid parent name. unfold cluster_entry. destruct (_ !! _) as [i|]; cbn.
  - split; [apply wrap_range; lia|apply size_file_attr].
  - unfold ERROR_ENOENT. lia.
Qed.
Next Obligation.
  intros a c sid parent name m Hs Hp Hn. exists one_nop. split.
  - apply one_nop_ok; [done|unfold MATOCU_FUSE_LOOKUP; lia|]. unfold cluster_entry, reply_payload, entry_bytes.
    destruct (_ !! _) as [i|]; cbn [fst snd]; rewrite ?size_app, ?size_be, ?size_file_attr; lia.
  - unfold serve, cluster_service, cluster_serve. rewrite Z.eqb_refl.
    unfold answer_lookup, lookup_args. fields. rewrite !wrap_small by lia.
    unfold size at 1. rewrite Nat2Z.id, take_app_length. done.
Qed.

Definition cluster_holds (c : cluster) (ch : Chunk) (l : Location) (i x : Z) : Prop :=
  chunk_id ch = i * 2 ^ 31 + x /\ chunk_version ch = 1 /\ 0 <= i < 2 ^ 32 /\ 0 <= x < 2 ^ 31 /\
  location_ok l.

Lemma chunk_number i x : 0 <= x < 2 ^ 31 -> (i * 2 ^ 31 + x) / 2 ^ 31 = i /\ (i * 2 ^ 31 + x) mod 2 ^ 31 = x.
Proof.
  intros Hx. rewrite Z.add_comm, Z.div_add, Z.mod_add, Z.div_small, Z.mod_small by lia. lia.
Qed.

Lemma cluster_chunk_ok c i x :
  0 <= cluster_len c i < 2 ^ 63 -> 0 <= i < 2 ^ 32 -> 0 <= x < 2 ^ 31 ->
  chunk_ok (cluster_len c i, cluster_chunk i x) /\
  size (chunk_bytes (cluster_len c i, cluster_chunk i x)) < 1000 /\
  Forall (fun l => cluster_holds c (cluster_chunk i x) l i x) (location (cluster_chunk i x)).
Proof.
  intros Hl Hi Hx. rewrite size_chunk_bytes. cbn [snd cluster_chunk location length].
  assert (location_ok (mkLocation 0x7F000001 9422)) as Hlok by (split; cbn; lia).
  split; [|split; [lia|]].
  - unfold chunk_ok. cbn [fst snd cluster_chunk chunk_id chunk_version location length].
    split_and!; try lia. by repeat constructor; try lia.
  - by repeat constructor; try lia.
Qed.

Lemma nth_replicate {A} (x : A) n k : nth k (replicate n x) x = x.
Proof. revert k. induction n as [|n IH]; intros [|k]; try done. apply IH. Qed.

(** Writing into the string is patching its bytes. *)
Lemma nth_splice c o d k :
  0 <= o -> nth k (splice c o d) x00 =
  if (o <=? Z.of_nat k) && (Z.of_nat k <? o + size d) then nth (k - Z.to_nat o) d x00 else nth k c x00.
Proof.
  intros Ho. unfold splice, size. destruct (Z.leb_spec o (Z.of_nat k)); cbn [andb].
  - rewrite app_nth2 by len. rewrite app_nth2 by len.
    replace (k - _ - _)%nat with (k - Z.to_nat o)%nat by len.
    destruct (Z.ltb_spec (Z.of_nat k) (o + Z.of_nat (length d))).
    + by rewrite app_nth1 by lia.
    + rewrite app_nth2, nth_skipn by lia. f_equal. lia.
  - destruct (Nat.lt_ge_cases k (length c)).
    + rewrite app_nth1 by len. rewrite nth_firstn. destruct (Nat.ltb_spec k (Z.to_nat o)); [done|lia].
    + rewrite (nth_overflow c) by done. rewrite app_nth2 by len.
      rewrite app_nth1 by len. apply nth_replicate.
Qed.

#[export] Program Instance cluster_storage (a : sockaddr) : Storage cluster a cluster_fuel check_sum :=
  {| healthy := fun c => forall i, 0 <= cluster_len c i < 2 ^ 63;
     vfile := fun _ _ => True; vlen := cluster_len; vbyte := cluster_byte; holds := cluster_holds |}.
Next Obligation. intros _ c i Hh. apply Hh. Qed.
Next Obligation. intros _ c ch l i x Hh (-> & -> & Hi & Hx & Hl). split; [lia|]. split; [lia|]. by split. Qed.
Next Obligation.
  intros a c sid i x Hh _ Hs Hi Hx. destruct (cluster_chunk_ok c i x (Hh i) Hi Hx) as (Hok & Hsz & Hholds).
  exists c, one_nop, (cluster_len c i), (cluster_chunk i x). split.
  { unfold serve, cluster_service, cluster_serve, answer_chunk. cbn [Z.eqb Pos.eqb].
    rewrite <- (app_nil_r (be 4 x)). fields. by rewrite !wrap_small by lia. }
  split; [by apply one_nop_ok|]. split; [done|]. split; [done|]. split; [exact Hholds|]. by split_and!.
Qed.
Next Obligation.
  intros a c ch l i x Hh (Hid & Hv & Hi & Hx & Hl). exists c, 7. split.
  { unfold serve, cluster_service, cluster_serve, answer_write. cbn [Z.eqb Pos.eqb].
    fields. by rewrite wrap_small by lia. }
  split; [lia|]. by split_and!.
Qed.
Next Obligation.
  intros a c ch l i x wid blockno off data Hh (Hid & Hv & Hi & Hx & Hl) Hw Hb Ho Hd Hod.
  assert (K64 = 65536 /\ M64 = 67108864) as [HK HM] by done.
  eexists. split.
  { unfold serve, cluster_service, cluster_serve, answer_data. cbn [Z.eqb Pos.eqb].
    fields. rewrite Hid, !wrap_small by lia. destruct (chunk_number i x Hx) as [-> ->]. reflexivity. }
  split; [exact Hh|]. split; [done|]. split; [done|]. split; [|done].
  intros j o. unfold cluster_byte at 1. unfold cluster_data at 1. cbn [cl_data].
  destruct (Z.eqb_spec j i) as [->|Hj].
  - rewrite lookup_insert_eq. cbn [default from_option id]. unfold patch.
    destruct (Z.ltb_spec o 0).
    + destruct (Z.leb_spec (x * M64 + blockno * K64 + off) o); [lia|]. cbn [andb].
      unfold cluster_byte. by destruct (Z.ltb_spec o 0); [|lia].
    + rewrite nth_splice by lia. rewrite Z2Nat.id by lia. unfold cluster_byte.
      destruct (Z.ltb_spec o 0); [lia|]. destruct (_ && _); [|done]. f_equal. lia.
  - rewrite lookup_insert_ne by done. done.
Qed.
Next Obligation.
  intros a c sid ch l i x len Hh _ (Hid & Hv & _ & Hx & Hl) Hs Hi Hlen.
  change MFS_MAX_FILE_SIZE with (2 ^ 57) in Hlen. eexists _, one_nop. split.
  { unfold serve, cluster_service, cluster_serve, answer_end. cbn [Z.eqb Pos.eqb].
    rewrite <- (app_nil_r (be 8 len)). fields. rewrite !wrap_small by lia. reflexivity. }
  split; [by apply one_nop_ok|].
  assert (forall j, cluster_len (mkCluster (cl_names c) (<[i := Z.max (cluster_len c i) len]> (cl_len c)) (cl_data c)) j =
    if j =? i then Z.max (cluster_len c i) len else cluster_len c j) as El.
  { intros j. unfold cluster_len at 1. cbn [cl_len]. destruct (Z.eqb_spec j i) as [->|].
    - by rewrite lookup_insert_eq. - by rewrite lookup_insert_ne. }
  split; [|split; [done|split; [exact El|done]]].
  intros j. rewrite El. pose proof (Hh i). pose proof (Hh j). destruct (j =? i); lia.
Qed.
Next Obligation.
  intros a c sid i x Hh _ Hs Hi Hx. destruct (cluster_chunk_ok c i x (Hh i) Hi Hx) as (Hok & Hsz & Hholds).
  exists c, one_nop, (cluster_chunk i x). split.
  { unfold serve, cluster_service, cluster_serve, answer_chunk. cbn [Z.eqb Pos.eqb].
    rewrite <- (app_nil_r (be 4 x)). fields. by rewrite !wrap_small by lia. }
  split; [by apply one_nop_ok|]. split; [done|]. split; [done|]. split; [exact Hholds|]. by split_and!.
Qed.
Next Obligation.
  intros a c ch l i x off sz Hh (Hid & Hv & Hi & Hx & Hl) Ho Hsz Hm Hlen.
  assert (M64 = 67108864) as HM by done. exists c. split; [|by split_and!].
  unfold serve, cluster_service, cluster_serve, answer_read. cbn [Z.eqb Pos.eqb].
  rewrite <- (app_nil_r (be 4 sz)). fields. rewrite Hid, !wrap_small by lia.
  destruct (chunk_number i x Hx) as [-> ->]. done.
Qed.

(** ** A small cluster *)

(** A build as strict as the language allows, and one whose hash map leaves what
    it erases where it was. *)
Definition a_build : Build := {| asserts := true; erased_readable := false |}.
Definition lax_build : Build := {| asserts := true; erased_readable := true |}.

Definition at_master : sockaddr := SockAddr 0x7F000001 9421.

(** [/a/b] is inode 3, with seven bytes in it; the client is connected. *)
Definition a_cluster : cluster :=
  mkCluster {[ (1, bs "a") := 2; (2, bs "b") := 3 ]} {[ 3 := 7 ]} {[ 3 := bs "renren!" ]}.
Definition a_client : client :=
  mkClient (mkMasterServer 4 77 0 0 true (Some at_master)) 0 ∅.
Definition a_net : net cluster := mkNet a_cluster {[ 4 := mkConn (Some at_master) [] [] ]} 5 1000.

(** Reads that return a byte, three bytes, two bytes, then all there is. *)
Definition a_script : list nat := [0; 2; 1]%nat.

Lemma a_session : session at_master a_client a_net.
Proof. split; [done|]. split; [done|]. cbn. lia. Qed.

Lemma a_net_ok : net_ok a_net.
Proof.
  split; [done|]. intros fd c Hc. cbn in Hc. apply lookup_singleton_Some in Hc as [<- _]. cbn. lia.
Qed.

Lemma a_healthy : healthy (Storage := cluster_storage at_master) (servers a_net).
Proof.
  intros i. cbn. unfold cluster_len. cbn. destruct (decide (i = 3)) as [->|].
  - rewrite lookup_singleton_eq. cbn. lia.
  - rewrite lookup_singleton_ne by done. cbn. lia.
Qed.

Lemma check_sum_range b : 0 <= check_sum b < 2 ^ 32.
Proof.
  unfold check_sum.
  enough (forall a, 0 <= a < 2 ^ 32 ->
    0 <= fold_left (fun a c => u32 (31 * a + bval c)) b a < 2 ^ 32) as E by (apply E; lia).
  induction b as [|c b IH]; intros a Ha; [exact Ha|]. cbn. apply IH, wrap_range. lia.
Qed.

(** The file of inode 3, at byte 4. *)
Definition a_file : File := mkFile 4 3 false.

Lemma a_writable : writable (a := at_master) (fuel := cluster_fuel) (crc32 := check_sum) a_file (bs "moose") a_client a_net.
Proof.
  split_and!; try done; try apply a_session; try apply a_net_ok; try apply a_healthy.
Qed.

Lemma a_cache_ok : cache_ok a_client a_net.
Proof. intros key c Hc. destruct (lookup_empty_Some key c Hc). Qed.

Lemma a_readable : readable (a := at_master) (fuel := cluster_fuel) (crc32 := check_sum) a_file (bs "??????") 6 a_client a_net.
Proof.
  split_and!; try done; try apply a_healthy.
  split; [apply a_session|split; [apply a_net_ok|apply a_cache_ok]].
Qed.

Lemma Lookup_path_resolves_witness : exists w',
  @Lookup_path (world cluster) _ a_build cluster_fuel (bs "//a/b") a_client (mkWorld a_net a_script []) =
    (inr (STATUS_OK, Some (3, file_attr 7)), (a_client, w')) /\ the_net w' = a_net.
Proof.
  destruct (@Lookup_path_resolves cluster _ a_build at_master cluster_fuel _ (bs "//a/b") a_client a_net a_script [])
    as (w' & E & Hw); [apply a_session|by repeat constructor|].
  exists w'. split; [exact E|exact Hw].
Defined.

Lemma Write_stores_witness : exists w',
  @Write (world cluster) _ a_build cluster_fuel check_sum a_file (bs "moose") 5 a_client (mkWorld a_net a_script []) =
    (inr (5, mkFile 9 3 false), (a_client, w')) /\
  content (Storage0 := cluster_storage at_master) (servers (the_net w')) 3 = bs "renrmoose".
Proof.
  destruct (@Write_stores cluster _ a_build at_master cluster_fuel check_sum _
    ltac:(unfold cluster_fuel; lia) a_file (bs "moose") a_client a_net a_script [])
    as (w' & E & Hc & _); [apply a_writable|done|].
  exists w'. split; [exact E|exact Hc].
Defined.

Lemma Read_fetches_witness : exists s' w',
  @Read (world cluster) _ a_build cluster_fuel check_sum a_file (bs "??????") 6 a_client (mkWorld a_net a_script []) =
    (inr (3, bs "en!???", mkFile 7 3 false), (s', w')).
Proof.
  pose proof (@Read_fetches cluster _ a_build at_master cluster_fuel check_sum _ check_sum_range
    ltac:(unfold cluster_fuel; lia) a_file (bs "??????") 6 a_client a_net a_script [] a_readable) as Hr.
  cbv zeta in Hr. destruct (Read _ _ _ _ _ _ _) as [[e|o] [s' w']].
  - destruct Hr as (_ & _ & [?|Hm]); [done|]. by vm_compute in Hm.
  - destruct Hr as [-> _]. by exists s', w'.
Defined.

Lemma write_then_pread_witness : exists s' w',
  ('(_, f') ← @Write (world cluster) _ a_build cluster_fuel check_sum a_file (bs "moose") 5;
   '(r, mem, _) ← @Pread (world cluster) _ a_build cluster_fuel check_sum f' (bs "12345") 5 4;
   mret (r, mem)) a_client (mkWorld a_net a_script []) = (inr (5, bs "moose"), (s', w')).
Proof.
  pose proof (@write_then_pread cluster _ a_build at_master cluster_fuel check_sum _ check_sum_range
    ltac:(unfold cluster_fuel; lia) a_file (bs "moose") (bs "12345") a_client a_net a_script []
    a_writable a_cache_ok ltac:(done) ltac:(done) ltac:(done)) as Hr.
  change (size (bs "moose")) with 5 in Hr. change (position_ a_file) with 4 in Hr.
  destruct ((Write _ _ _ _ _ ≫= _) _ _) as [[e|o] [s' w']].
  - destruct Hr as (_ & _ & [?|Hm]); [done|]. by vm_compute in Hm.
  - rewrite Hr. by exists s', w'.
Defined.

(** The second read of a file takes its connection from the cache. *)
Definition read_twice (b : Build) : nstop + bytes :=
  (('(_, _, f) ← @Read (world cluster) _ b cluster_fuel check_sum a_file (bs "???") 1;
    '(_, mem, _) ← @Read (world cluster) _ b cluster_fuel check_sum f (bs "???") 2;
    mret mem) a_client (mkWorld a_net a_script [])).1.

Example read_after_erase : read_twice lax_build = inr (bs "n!?") /\ read_twice a_build = inl Undef.
Proof. split; vm_compute; reflexivity. Qed.

Lemma ReadBlock_any_witness :
  match @ReadBlock (world cluster) _ a_build 10 check_sum (mkChunkServer 4 0 0) Chunk_new 0 3 a_client
          (mkWorld a_net a_script []) with
  | (inl e, _) => defined_stop e
  | (inr (r, d), _) => size d <= 3 /\ (r = 0 -> size d = 3)
  end.
Proof.
  apply (@ReadBlock_any (world cluster) _ a_build check_sum 10 (mkChunkServer 4 0 0) Chunk_new 0 3).
  lia.
Defined.
