(* ===== verification/Sockutil.v ===== *)
(** * The MooseFS client: addresses as text (src/mooseclient/sockutil.cc)

    [parse_sockaddr_port], the build for Unix.  [inet_pton] is libc's, for
    [AF_INET]: a parameter, which gives the address in host order.  Texts are
    shorter than [2 ^ 31]. *)

From S2P Require Import Prelude CString Net.

Definition sizeof_sockaddr_in : Z := 16.

(** How the text is taken apart: the address and what follows its colon. *)
Definition address_parts (ip_as_string : bytes) : option (bytes * option bytes) :=
  let s := c_str ip_as_string in
  let cp := find ":" s in
  if Byte.eqb (nth 0 s x00) "[" then
    let cp := find "]" s in
    if cp =? npos then None
    else
      let len := cp - 1 in
      if 127 <? len then None
      else
        Some (substr s 1 len,
              if Byte.eqb (nth (Z.to_nat (cp + 1)) s x00) ":"
              then Some (drop (Z.to_nat (cp + 2)) s) else None)
  else if negb (cp =? npos) && negb (find ":" (drop (Z.to_nat (cp + 1)) s) =? npos) then
    Some (s, None)
  else if negb (cp =? npos) then
    if 127 <? cp then None
    else Some (substr s 0 cp, Some (drop (Z.to_nat (cp + 1)) s))
  else Some (s, None).

(** The port: 0 when there is none. *)
Definition port_of (port_part : option bytes) : option Z :=
  match port_part with
  | None => Some 0
  | Some p => let port := atoi p in if (port <=? 0) || (65535 <? port) then None else Some port
  end.

(** The address stored at [out], or nothing (-1). *)
Definition parse_sockaddr_port (inet_pton : bytes -> option Z) (ip_as_string : bytes) (outlen : Z)
    : option sockaddr :=
  '(addr_part, port_part) ← address_parts ip_as_string;
  port ← port_of port_part;
  ip ← inet_pton addr_part;
  if outlen <? sizeof_sockaddr_in then None else Some (SockAddr ip port).

(** ** What is recognised *)

Lemma drop_past a c b : drop (Z.to_nat (size a + 1)) (a ++ c :: b) = b.
Proof. unfold size. rewrite drop_app_ge by lia. by replace (_ - _)%nat with 1%nat by lia. Qed.

Lemma size_npos a n : 0 <= n -> size a <= n -> n < 2 ^ 64 - 1 -> (size a =? npos) = false.
Proof. intros. pose proof (size_nonneg a). apply Z.eqb_neq. change npos with (2 ^ 64 - 1). lia. Qed.

(** A number is read back as the port it is, or refused. *)
Lemma port_of_dec port :
  - 2 ^ 31 <= port < 2 ^ 31 ->
  port_of (Some (dec port)) = if (port <=? 0) || (65535 <? port) then None else Some port.
Proof. intros Hp. unfold port_of, atoi. by rewrite atol_dec, i32_small by lia. Qed.

(** The host part of an address as it may be written. *)
Definition host_ok (host : bytes) : bool :=
  bool_decide (x00 ∉ host) && bool_decide (":"%byte ∉ host) && bool_decide ("]"%byte ∉ host) &&
  negb (bool_decide (head host = Some "["%byte)) && (size host <=? 127).

Lemma host_ok_inv host :
  host_ok host = true ->
  (x00 ∉ host) /\ (":"%byte ∉ host) /\ ("]"%byte ∉ host) /\ head host <> Some "["%byte /\ size host <= 127.
Proof.
  unfold host_ok. rewrite !andb_true_iff, negb_true_iff, !bool_decide_eq_true, bool_decide_eq_false.
  intros [[[[? ?] ?] ?] ?%Z.leb_le]. done.
Qed.

Lemma dec_no c port : isdigit c = false -> c <> "-"%byte -> c ∉ dec port.
Proof.
  intros Hc Hm Hin. pose proof (dec_digits port) as Hd. rewrite Forall_forall in Hd.
  destruct (Hd c Hin); congruence.
Qed.

(** The two spellings come apart into the same parts. *)
Lemma address_parts_colon host rest :
  host_ok host = true -> x00 ∉ rest -> ":"%byte ∉ rest ->
  address_parts (host ++ ":"%byte :: rest) = Some (host, Some rest).
Proof.
  intros (Hz & Hc & Hb & Hh & Hl)%host_ok_inv Hrz Hrc. unfold address_parts. cbv zeta.
  rewrite c_str_id by (rewrite elem_of_app, elem_of_cons; intros [?|[?|?]]; done).
  destruct (eqb_byte_spec (nth 0 (host ++ ":"%byte :: rest) x00) "[") as [E|_].
  { by destruct host as [|c host]; [|cbn in E; subst c]. }
  rewrite find_first, (size_npos host 127), drop_past, find_none by done. cbn [negb andb Z.eqb].
  destruct (Z.ltb_spec 127 (size host)); [lia|]. by rewrite substr_prefix.
Qed.

Lemma address_parts_bracket host rest :
  host_ok host = true -> x00 ∉ rest ->
  address_parts ("["%byte :: host ++ "]"%byte :: ":"%byte :: rest) = Some (host, Some rest).
Proof.
  intros (Hz & Hc & Hb & Hh & Hl)%host_ok_inv Hrz. unfold address_parts. cbv zeta.
  rewrite c_str_id by (rewrite elem_of_cons, elem_of_app, !elem_of_cons; intros [?|[?|[?|[?|?]]]]; done).
  change (Byte.eqb (nth 0 _ x00) "[") with true. cbv iota.
  set (s := "["%byte :: _). assert (s = ("["%byte :: host) ++ "]"%byte :: ":"%byte :: rest) as Es by done.
  assert (find "]" s = 1 + size host) as ->.
  { rewrite Es, find_first, size_cons by (by apply not_elem_of_cons). done. }
  rewrite <- size_cons with (c := "["%byte), (size_npos _ 128) by (rewrite ?size_cons; lia).
  rewrite size_cons. replace (1 + size host - 1) with (size host) by lia.
  destruct (Z.ltb_spec 127 (size host)); [lia|]. rewrite Es.
  change (("["%byte :: host) ++ ?r) with (["["%byte] ++ host ++ r) at 1.
  rewrite substr_middle by done.
  assert (nth (Z.to_nat (1 + size host + 1)) (("["%byte :: host) ++ "]"%byte :: ":"%byte :: rest) x00 = ":"%byte) as ->.
  { rewrite app_nth2 by (cbn [length]; unfold size; lia). cbn [length]. unfold size.
    by replace (_ - _)%nat with 1%nat by lia. }
  rewrite drop_app_ge by (cbn [length]; unfold size; lia). cbn [length]. unfold size.
  by replace (_ - _)%nat with 2%nat by lia.
Qed.

Lemma address_parts_alone host : host_ok host = true -> address_parts host = Some (host, None).
Proof.
  intros (Hz & Hc & Hb & Hh & Hl)%host_ok_inv. unfold address_parts. cbv zeta.
  rewrite c_str_id, (find_none ":"%byte) by done.
  destruct (eqb_byte_spec (nth 0 host x00) "[") as [E|_]; [|done].
  by destruct host as [|c host]; [|cbn in E; subst c].
Qed.

(** The two IPv4 spellings, [host:port] and [host]:[port] in brackets,
    mean the same address: the one [inet_pton] reads in the host part, with
    the port, which is refused unless it is between 1 and 65535; a host alone
    has port 0. *)
Theorem parse_sockaddr_port_host (inet_pton : bytes -> option Z) (host : bytes) (port : Z) :
  host_ok host = true -> - 2 ^ 31 <= port < 2 ^ 31 ->
  let parse s := parse_sockaddr_port inet_pton s sizeof_sockaddr_in in
  parse (host ++ ":"%byte :: dec port) =
    (if (port <=? 0) || (65535 <? port) then None
     else ip ← inet_pton host; Some (SockAddr ip port)) /\
  parse ("["%byte :: host ++ "]"%byte :: ":"%byte :: dec port) = parse (host ++ ":"%byte :: dec port) /\
  parse host = (ip ← inet_pton host; Some (SockAddr ip 0)).
Proof.
  intros Hh Hp parse. pose proof (host_ok_inv host Hh) as (Hz & Hc & _ & Hb & _).
  unfold parse, parse_sockaddr_port.
  rewrite address_parts_colon, address_parts_bracket, address_parts_alone by (done || by apply dec_no).
  cbn [mbind option_bind]. rewrite port_of_dec by done.
  split; [|split; [done|by destruct (inet_pton host)]].
  destruct (_ || _); [done|]. cbn. by destruct (inet_pton host).
Qed.

Lemma parse_sockaddr_port_host_witness :
  parse_sockaddr_port (fun _ => Some 0x0A000001) (bs "10.0.0.1:9421") 16 = Some (SockAddr 0x0A000001 9421).
Proof.
  destruct (parse_sockaddr_port_host (fun _ => Some 0x0A000001) (bs "10.0.0.1") 9421) as [E _];
    [reflexivity|lia|].
  exact E.
Defined.
