(* ===== verification/MooseC.v ===== *)
(** * The MooseFS client: the C interface (src/mooseclient/moose_c.cc)

    [mfs_open] and its relatives: one static [MasterServer], and the open
    files by number, which is the inode. *)

From S2P Require Import Prelude CString PathOps Posix MkDirs Datapack Net Protocol Master Chunks Files Sockutil.

(** The statics of the file, with [errno] as the functions here set it. *)
Record mfs := mkMfs {
  mfs_client : client;
  has_master : bool;             (* [master_] is not null *)
  files : gmap Z File;           (* [map_] *)
  mfs_errno : Z }.

Section MooseC.
Context {W : Type} `{Network W} `{Build}.
Abbreviation F := (N mfs W).
Context (fuel : nat).
Context (crc32 : bytes -> Z).
(** libc's, for [AF_INET]. *)
Context (inet_pton : bytes -> option Z).

(** A method of the client objects. *)
Definition lift {A} (m : N client W A) : F A := fun s w =>
  let '(r, (c, w)) := m (mfs_client s) w in
  (r, (mkMfs c (has_master s) (files s) (mfs_errno s), w)).

Definition set_files (m : gmap Z File) : F unit :=
  s ← get_state; put_state (mkMfs (mfs_client s) (has_master s) m (mfs_errno s)).
Definition put_errno (e : Z) : F unit :=
  s ← get_state; put_state (mkMfs (mfs_client s) (has_master s) (files s) e).

(** [MasterServer::Connect] of an address as text. *)
Definition Connect_host (host_ip : bytes) : N client W bool :=
  match parse_sockaddr_port inet_pton host_ip sizeof_sockaddr_in with
  | Some addr => Connect fuel addr true
  | None => mret false
  end.

Definition mfs_connect (host_ip : bytes) : F bool :=
  s ← get_state;
  (if has_master s then mret tt
   else put_state (mkMfs (mkClient MasterServer_new (last_registered_ (mfs_client s))
                            (map_ (mfs_client s))) true (files s) (mfs_errno s)));;
  lift (Connect_host host_ip).

Definition GetFile (fd : Z) : F (option File) := s ← get_state; mret (files s !! fd).

(** A file operation through a null [master_]. *)
Definition need_master : F unit :=
  s ← get_state;
  if has_master s then mret tt else nhalt (if asserts then Trap else Undef).

Definition mfs_stat (path : bytes) (old : stat) : F (Z * option stat) :=
  s ← get_state;
  if negb (has_master s) then mret (-1, None)
  else
    '(ret, out) ← lift (Lookup_path fuel path);
    if negb (ret =? 0) then
      put_errno (if ret =? ERROR_ENOENT then ENOENT else ret);;
      mret (-1, None)
    else
      let '(inode, attr) := default (0, FileAttribute_new) out in
      st ← ptr_get (to_stat attr inode old);
      mret (0, Some st).

(** The result as [int]: an inode from [2^31] on is negative. *)
Definition mfs_open (pathname : bytes) (flags mode : Z) : F Z :=
  need_master;;
  '(ret, f) ← lift (Files.Open fuel File_new pathname flags mode);
  if 0 =? ret then
    s ← get_state;
    set_files (<[i32 (inode_ f) := f]> (files s));;
    mret (i32 (inode_ f))
  else mret (-1).

Definition mfs_creat (pathname : bytes) (mode : Z) : F Z :=
  need_master;;
  '(ret, f) ← lift (Create fuel File_new pathname mode);
  if 0 =? ret then
    let fd := i32 (inode_ f) in
    s ← get_state;
    set_files (<[fd := f]> (files s));;
    mret fd
  else mret (-1).

(** An operation on an open file, which it updates. *)
Definition with_file {A} (fd : Z) (missing : A) (op : File -> N client W (A * File)) : F A :=
  f ← GetFile fd;
  match f with
  | Some f =>
      '(a, f) ← lift (op f);
      s ← get_state;
      set_files (<[fd := f]> (files s));;
      mret a
  | None => mret missing
  end.

Definition mfs_read (fd : Z) (buf : bytes) (count : Z) : F (Z * bytes) :=
  with_file fd (-1, buf) (fun f => '(r, mem, f) ← Read fuel crc32 f buf count; mret ((r, mem), f)).

Definition mfs_write (fd : Z) (buf : bytes) (count : Z) : F Z :=
  with_file fd (-1) (fun f => Write fuel crc32 f buf count).

Definition mfs_pread (fd : Z) (buf : bytes) (count offset : Z) : F (Z * bytes) :=
  with_file fd (-1, buf)
    (fun f => '(r, mem, f) ← Pread fuel crc32 f buf count offset; mret ((r, mem), f)).

Definition mfs_pwrite (fd : Z) (buf : bytes) (count offset : Z) : F Z :=
  with_file fd (-1) (fun f => Pwrite fuel crc32 f buf count offset).

(** What [Close] returns is not looked at. *)
Definition mfs_close (fd : Z) : F Z :=
  f ← GetFile fd;
  match f with
  | None => mret (-1)
  | Some f =>
      lift (Close fuel f);;
      s ← get_state;
      set_files (delete fd (files s));;
      mret 0
  end.

Definition mfs_lseek (fd offset whence : Z) : F Z :=
  with_file fd (-1) (fun f => '(r, f) ← Seek fuel f (u64 offset) whence; mret (i64 r, f)).

(** The mode is not looked at. *)
Definition mfs_access (pathname : bytes) (mode : Z) : F Z :=
  s ← get_state;
  if negb (has_master s) then mret (-1)
  else
    '(ret, _) ← lift (Lookup_path fuel pathname);
    if negb (ret =? 0) then put_errno ret;; mret (-1) else mret 0.

(** [extract]: the inode of the directory, when there is one. *)
Definition extract (pathname : bytes) : F (Z * Z * bytes) :=
  let dir := Dirname (c_str pathname) in
  let basename := Basename (c_str pathname) in
  if bool_decide (dir = []) then mret (0, MFS_ROOT_ID, basename)
  else
    need_master;;
    '(ret, out) ← lift (Lookup_path fuel dir);
    mret (ret, match out with Some (i, _) => i | None => 0 end, basename).

Definition mfs_unlink (pathname : bytes) : F Z :=
  s ← get_state;
  if negb (has_master s) then mret (-1)
  else
    '(ret, parent, basename) ← extract pathname;
    if 0 =? ret then lift (Unlink fuel parent basename) else mret ret.

Definition mfs_mkdir (pathname : bytes) (mode : Z) : F Z :=
  s ← get_state;
  if negb (has_master s) then mret (-1)
  else
    '(ret, parent, basename) ← extract pathname;
    if negb (0 =? ret) then put_errno ret;; mret (-1)
    else
      '(ret, _) ← lift (Mkdir fuel parent basename (u16 mode) false);
      if negb (ret =? 0) then
        put_errno (if ERROR_EEXIST =? ret then EEXIST else ret);;
        mret (-1)
      else mret 0.

Definition mfs_rmdir (pathname : bytes) : F Z :=
  s ← get_state;
  if negb (has_master s) then mret (-1)
  else
    '(ret, parent, basename) ← extract pathname;
    if 0 =? ret then lift (Rmdir fuel parent basename) else mret ret.

(** The loop of [mfs_mkdirs], over the segments as in [MkDirs]. *)
Fixpoint mfs_mkdirs_loop (segs : list bytes) (subpath : bytes) (mode : Z) : F Z :=
  match segs with
  | [] => mret 0
  | seg :: rest =>
      let subpath := subpath ++ seg in
      retval ← mfs_mkdir subpath mode;
      s ← get_state;
      match rest with
      | [] =>
          if negb (retval =? 0) then
            if EEXIST =? mfs_errno s then mret 0 else mret retval
          else mret 0
      | _ =>
          if negb (retval =? 0) then
            if EEXIST =? mfs_errno s then mfs_mkdirs_loop rest (subpath ++ bs "/") mode
            else mret retval
          else mfs_mkdirs_loop rest (subpath ++ bs "/") mode
      end
  end.

Definition mfs_mkdirs (pathname : bytes) (mode : Z) : F Z :=
  let '(subpath, pa) := mkdirs_start (mkdirs_path pathname) in
  mfs_mkdirs_loop (split (bs "/") pa) subpath mode.

End MooseC.
