(* ===== verification/Keeps.v ===== *)
(** * Invariants of the MooseFS client

    What holds of the client's state between the calls of its C interface,
    whatever the network does.  [Keeps I m P]: the program [m] keeps the state
    predicate [I], and returns only values in [P]; a call that does not return
    leaves no state behind. *)

From S2P Require Import Prelude CString Posix Datapack Net Protocol Master Chunks Files Sockutil MooseC.

Definition Keeps {St W A} (I : St -> Prop) (m : N St W A) (P : A -> Prop) : Prop :=
  forall s w, I s -> wpN nany m (fun a s' _ => I s' /\ P a) s w.

Section Rules.
Context {St W : Type} (I : St -> Prop).

Lemma Keeps_ret {A} (a : A) (P : A -> Prop) : P a -> Keeps I (mret a : N St W A) P.
Proof. by intros HP s w Hs. Qed.

Lemma Keeps_bind {A B} (m : N St W A) (k : A -> N St W B) (P : A -> Prop) (Q : B -> Prop) :
  Keeps I m P -> (forall a, P a -> Keeps I (k a) Q) -> Keeps I (m ≫= k) Q.
Proof.
  intros Hm Hk s w Hs. apply wpN_bind. eapply wpN_mono; [by apply Hm|].
  intros a s' w' [Hs' Ha]. by apply Hk.
Qed.

Lemma Keeps_mono {A} (m : N St W A) (P Q : A -> Prop) :
  Keeps I m P -> (forall a, P a -> Q a) -> Keeps I m Q.
Proof.
  intros Hm HPQ s w Hs. eapply wpN_mono; [by apply Hm|]. intros a s' w' [? ?]. auto.
Qed.

Lemma Keeps_halt {A} e (P : A -> Prop) : Keeps I (nhalt e : N St W A) P.
Proof. by intros s w Hs. Qed.

Lemma Keeps_get : Keeps I (get_state : N St W St) I.
Proof. by intros s w Hs. Qed.

Lemma Keeps_put s' : I s' -> Keeps I (put_state s' : N St W unit) (fun _ => True).
Proof. by intros Hs' s w Hs. Qed.

Lemma Keeps_call `{Network W} {X} (c : nsys X) : Keeps I (ncall c : N St W X) (fun _ => True).
Proof. intros s w Hs. by apply wpN_call. Qed.

Lemma Keeps_new `{Network W} n : 0 <= n -> Keeps I (ncall (NNew n) : N St W bytes) (fun d => size d = n).
Proof. intros Hn s w Hs. by apply wpN_new. Qed.

Lemma Keeps_ptr_get {A} (o : option A) :
  Keeps I (ptr_get o : N St W A) (fun a => o = Some a).
Proof. destruct o; [by apply Keeps_ret|apply Keeps_halt]. Qed.
End Rules.

Create HintDb keeps.
#[export] Hint Resolve Keeps_get Keeps_call Keeps_ptr_get Z.le_refl : keeps.

(** Take a program apart; what is left are the values it returns. *)
Ltac keeps_step :=
  cbv beta zeta iota; lazymatch goal with
  | |- Keeps _ (_ ≫= _) _ =>
      first
        [ eapply Keeps_bind; [solve [eauto with keeps]|intros ? ?]
        | apply (Keeps_bind _ _ _ (fun _ => True)); [|intros ? _] ]
  | |- Keeps _ (mret _) _ => apply Keeps_ret
  | |- Keeps _ (nhalt _) _ => apply Keeps_halt
  | |- Keeps _ (put_state _) _ => eapply Keeps_mono; [apply Keeps_put|done]
  | |- Keeps _ (if ?b then _ else _) _ => destruct b eqn:?
  | |- Keeps _ (match ?x with _ => _ end) _ => destruct x eqn:?
  | |- Keeps _ _ (fun _ => True) => eapply Keeps_mono; [solve [eauto with keeps]|done]
  end.
Ltac keeps := repeat keeps_step; try done.

(** ** The client *)

(** Sockets are descriptors, the session is 32 bits wide, and a cached
    connection is filed under its address. *)
Definition client_ok (s : client) : Prop :=
  0 <= master_socket_ (master s) /\ 0 <= session_id_ (master s) < 2 ^ 32 /\
  map_Forall (fun key cs => key = Key (ip_ cs) (port_ cs) true /\ 0 <= socket_ cs) (map_ s).

Lemma get32bit_range r v r' : get32bit r = Some (v, r') -> 0 <= v < 2 ^ 32.
Proof.
  destruct r as [|? [|? [|? [|? ?]]]]; cbn -[Z.mul]; try done. intros [= <- _].
  apply wrap_range. lia.
Qed.

Section Client.
Context {W : Type} `{Network W} `{Build}.
Abbreviation M := (N client W).
Abbreviation keeps_client := (Keeps (W := W) client_ok).

Lemma ASSERT_keeps x : keeps_client (ASSERT x) (fun _ => True).
Proof. unfold ASSERT. keeps. Qed.
#[local] Hint Resolve ASSERT_keeps : keeps.

Lemma get_master_keeps :
  keeps_client get_master (fun m => 0 <= master_socket_ m /\ 0 <= session_id_ m < 2 ^ 32).
Proof.
  unfold get_master. eapply Keeps_bind; [apply Keeps_get|]. intros s (? & ? & _). by apply Keeps_ret.
Qed.
#[local] Hint Resolve get_master_keeps : keeps.

Lemma set_master_keeps m :
  0 <= master_socket_ m -> 0 <= session_id_ m < 2 ^ 32 -> keeps_client (set_master m) (fun _ => True).
Proof.
  intros Hm Hs. unfold set_master. eapply Keeps_bind; [apply Keeps_get|]. intros s (_ & _ & Hc).
  by apply Keeps_put.
Qed.

Lemma set_map_keeps c :
  map_Forall (fun key cs => key = Key (ip_ cs) (port_ cs) true /\ 0 <= socket_ cs) c ->
  keeps_client (set_map c) (fun _ => True).
Proof.
  intros Hc. unfold set_map. eapply Keeps_bind; [apply Keeps_get|]. intros s (? & ? & _).
  by apply Keeps_put.
Qed.

(** ** Messages *)

Lemma Alloca_keeps b n : keeps_client (Alloca b n) (fun _ => True).
Proof. unfold Alloca. keeps. Qed.
Lemma written_keeps b w : keeps_client (written b w) (fun _ => True).
Proof. unfold written. keeps. Qed.
#[local] Hint Resolve Alloca_keeps written_keeps : keeps.

Lemma tcptoread_keeps sock n : keeps_client (tcptoread sock n) (fun _ => True).
Proof.
  unfold tcptoread. generalize (@nil Init.Byte.byte). 
  induction (Z.to_nat n) as [|k IH]; intros b; cbn [tcptoread_loop]; keeps.
Qed.
#[local] Hint Resolve tcptoread_keeps : keeps.

Lemma ReadCommand_keeps fuel fd b : keeps_client (ReadCommand fuel fd b) (fun _ => True).
Proof.
  assert (forall b, keeps_client (ReadCommand_loop fuel fd b) (fun _ => True)) as Hl.
  { clear b. induction fuel as [|fuel IH]; intros b; cbn [ReadCommand_loop]; keeps. }
  unfold ReadCommand. keeps.
Qed.
#[local] Hint Resolve ReadCommand_keeps : keeps.

Lemma BuildCommand_keeps b cmd n sid : keeps_client (BuildCommand b cmd n sid) (fun _ => True).
Proof. unfold BuildCommand. keeps. Qed.
#[local] Hint Resolve BuildCommand_keeps : keeps.

(** ** The connection to the master *)

Lemma set_hostaddr_keeps a : keeps_client (set_hostaddr a) (fun _ => True).
Proof.
  unfold set_hostaddr. eapply Keeps_bind; [apply get_master_keeps|]. intros m (? & ?).
  by apply set_master_keeps.
Qed.

Lemma set_master_socket_keeps fd : 0 <= fd -> keeps_client (set_master_socket fd) (fun _ => True).
Proof.
  intros Hfd. unfold set_master_socket. eapply Keeps_bind; [apply get_master_keeps|].
  intros m (? & ?). by apply set_master_keeps.
Qed.
#[local] Hint Resolve set_hostaddr_keeps set_master_socket_keeps : keeps.

Lemma GotRegister_keeps p : keeps_client (GotRegister p) (fun _ => True).
Proof.
  unfold GotRegister. eapply Keeps_bind; [apply Keeps_ptr_get|]. intros [sid r] Hsid.
  eapply Keeps_bind; [apply get_master_keeps|]. intros m (Hm & _).
  destruct (_ =? _); [|apply ASSERT_keeps]. unfold set_session_id.
  eapply Keeps_bind; [apply get_master_keeps|]. intros m' (? & _).
  apply set_master_keeps; [done|]. by eapply get32bit_range.
Qed.

Lemma BuildRegister_keeps b : keeps_client (BuildRegister b) (fun _ => True).
Proof. unfold BuildRegister. keeps. Qed.
#[local] Hint Resolve GotRegister_keeps BuildRegister_keeps : keeps.

Lemma Connect_keeps fuel addr r : keeps_client (Connect fuel addr r) (fun _ => True).
Proof. unfold Connect. keeps. apply set_master_socket_keeps. lia. Qed.
#[local] Hint Resolve Connect_keeps : keeps.

Lemma EnsureConnect_keeps fuel : keeps_client (EnsureConnect fuel) (fun _ => True).
Proof.
  assert (forall addr k, keeps_client (reconnect_loop fuel addr k) (fun _ => True)) as Hl.
  { intros addr k. induction k as [|k IH]; cbn [reconnect_loop]; keeps. }
  unfold EnsureConnect. keeps.
Qed.

Lemma Disconnect_keeps : keeps_client Disconnect (fun _ => True).
Proof. unfold Disconnect. keeps. Qed.
#[local] Hint Resolve EnsureConnect_keeps Disconnect_keeps : keeps.

Lemma SendAndReceive_keeps fuel b cmd : keeps_client (SendAndReceive fuel b cmd) (fun _ => True).
Proof.
  assert (forall k b, keeps_client (exchange_loop fuel b k) (fun _ => True)) as Hl.
  { intros k. induction k as [|k IH]; intros b'; cbn [exchange_loop]; keeps. }
  unfold SendAndReceive. keeps.
Qed.
#[local] Hint Resolve SendAndReceive_keeps : keeps.

(** ** Requests to the master *)

Lemma send_keeps fuel b w cmd : keeps_client (send fuel b w cmd) (fun _ => True).
Proof. unfold send. keeps. Qed.
Lemma status_of_keeps r : keeps_client (status_of r) (fun _ => True).
Proof. unfold status_of. keeps. Qed.
Lemma copy_out_keeps r n : keeps_client (copy_out r n) (fun _ => True).
Proof. unfold copy_out. keeps. Qed.
#[local] Hint Resolve send_keeps status_of_keeps copy_out_keeps : keeps.

(** An inode that comes with an entry is 32 bits wide. *)
Definition inode_out {A} (r : Z * option (Z * A)) : Prop :=
  match snd r with Some (i, _) => 0 <= i < 2 ^ 32 | None => True end.

Lemma Lookup_keeps fuel parent name : keeps_client (Lookup fuel parent name) inode_out.
Proof. unfold Lookup. keeps. by eapply get32bit_range. Qed.

Lemma Lookup_path_keeps fuel name : keeps_client (Lookup_path fuel name) inode_out.
Proof.
  assert (forall segs i a, 0 <= i < 2 ^ 32 -> keeps_client (Lookup_loop fuel segs i a) inode_out) as Hl.
  { intros segs. induction segs as [|seg segs IH]; intros i a Hi; cbn [Lookup_loop]; [by apply Keeps_ret|].
    destruct (bool_decide _); [auto|]. eapply Keeps_bind; [apply Lookup_keeps|]. intros [ret out] Ho.
    destruct (negb _); [by apply Keeps_ret|]. destruct out as [[j b]|]; cbn; auto. }
  apply Hl. unfold MFS_ROOT_ID. lia.
Qed.

Lemma Mknod_keeps fuel parent name type mode rdev a :
  keeps_client (Mknod fuel parent name type mode rdev a) inode_out.
Proof. unfold Mknod, entry_out. keeps; by eapply get32bit_range. Qed.

Lemma Create_node_keeps fuel parent name mode : keeps_client (Create_node fuel parent name mode) inode_out.
Proof. apply Mknod_keeps. Qed.

Lemma GetAttr_keeps fuel i : keeps_client (GetAttr fuel i) (fun _ => True).
Proof. unfold GetAttr. keeps. Qed.
Lemma Truncate_keeps fuel i o n a : keeps_client (Truncate fuel i o n a) (fun _ => True).
Proof. unfold Truncate. keeps. Qed.
Lemma Open_keeps fuel i fl a : keeps_client (Master.Open fuel i fl a) (fun _ => True).
Proof. unfold Master.Open. keeps. Qed.
Lemma Mkdir_keeps fuel i name mode a : keeps_client (Mkdir fuel i name mode a) (fun _ => True).
Proof. unfold Mkdir, entry_out. keeps. Qed.
Lemma Rmdir_keeps fuel i name : keeps_client (Rmdir fuel i name) (fun _ => True).
Proof. unfold Rmdir. keeps. Qed.
Lemma Unlink_keeps fuel i name : keeps_client (Unlink fuel i name) (fun _ => True).
Proof. unfold Unlink. keeps. Qed.

Lemma read_chunk_reply_keeps r n : keeps_client (read_chunk_reply r n) (fun _ => True).
Proof.
  assert (forall k left r, keeps_client (read_locations k left r) (fun _ => True)) as Hl.
  { intros k. induction k as [|k IH]; intros left r'; cbn [read_locations]; keeps. }
  unfold read_chunk_reply. keeps.
Qed.
#[local] Hint Resolve read_chunk_reply_keeps : keeps.

Lemma ReadChunk_keeps fuel i x : keeps_client (ReadChunk fuel i x) (fun _ => True).
Proof. unfold ReadChunk. keeps. Qed.
Lemma WriteChunk_keeps fuel i x : keeps_client (WriteChunk fuel i x) (fun _ => True).
Proof. unfold WriteChunk. keeps. Qed.
Lemma WriteChunkEnd_keeps fuel c i n : keeps_client (WriteChunkEnd fuel c i n) (fun _ => True).
Proof. unfold WriteChunkEnd. keeps. Qed.
#[local] Hint Resolve Lookup_keeps Lookup_path_keeps Mknod_keeps Create_node_keeps GetAttr_keeps
  Truncate_keeps Open_keeps Mkdir_keeps Rmdir_keeps Unlink_keeps ReadChunk_keeps WriteChunk_keeps
  WriteChunkEnd_keeps : keeps.

(** ** Chunk servers *)

Lemma ChunkServer_delete_keeps cs : keeps_client (ChunkServer_delete cs) (fun _ => True).
Proof. unfold ChunkServer_delete. keeps. Qed.
#[local] Hint Resolve ChunkServer_delete_keeps : keeps.

(** A connection that is handed out has a descriptor. *)
Definition connected (o : option ChunkServer) : Prop :=
  match o with Some cs => 0 <= socket_ cs | None => True end.

Lemma Cached_connect_keeps ip port : keeps_client (Cached_connect ip port) connected.
Proof.
  unfold Cached_connect.
  eapply Keeps_bind with (P := fun r : bool * ChunkServer => fst r = true -> 0 <= socket_ (snd r)).
  - unfold ChunkServer_Connect. keeps. intros _. cbn. lia.
  - intros [ok cs] Hcs. destruct ok; keeps. by apply Hcs.
Qed.
#[local] Hint Resolve Cached_connect_keeps : keeps.

Lemma Cached_Create_keeps ip port r : keeps_client (Cached_Create ip port r) connected.
Proof.
  unfold Cached_Create. destruct r; [|apply Cached_connect_keeps].
  eapply Keeps_bind; [apply Keeps_get|]. intros s (_ & _ & Hc).
  destruct (map_ s !! _) as [cs|] eqn:Hcs; [|apply Cached_connect_keeps].
  eapply Keeps_bind; [by apply set_map_keeps, map_Forall_delete|]. intros _ _.
  destruct erased_readable; [|apply Keeps_halt]. apply Keeps_ret. by apply (Hc _ _ Hcs).
Qed.

Lemma Cached_Return_keeps cs r : 0 <= socket_ cs -> keeps_client (Cached_Return cs r) (fun _ => True).
Proof.
  intros Hs. unfold Cached_Return. destruct r; [|apply ChunkServer_delete_keeps].
  eapply Keeps_bind; [apply Keeps_get|]. intros s (_ & _ & Hc).
  destruct (map_ s !! _) as [?|]; [apply ChunkServer_delete_keeps|].
  by apply set_map_keeps, map_Forall_insert_2.
Qed.
#[local] Hint Resolve Cached_Create_keeps : keeps.

Context (crc32 : bytes -> Z).

Lemma write_status_keeps cs b : keeps_client (write_status cs b) (fun _ => True).
Proof. unfold write_status. keeps. Qed.
#[local] Hint Resolve write_status_keeps : keeps.

Lemma WriteBlockInit_keeps cs ch : keeps_client (WriteBlockInit cs ch) (fun _ => True).
Proof. unfold WriteBlockInit. keeps. Qed.
Lemma WriteBlock_keeps cs ch wid b o d : keeps_client (WriteBlock crc32 cs ch wid b o d) (fun _ => True).
Proof. unfold WriteBlock. keeps. Qed.

Lemma ReadBlock_keeps fuel cs ch o n : keeps_client (ReadBlock fuel crc32 cs ch o n) (fun _ => True).
Proof.
  assert (forall k fd o n b r, keeps_client (ReadBlock_loop crc32 k fd ch o n b r) (fun _ => True)) as Hl.
  { intros k. induction k as [|k IH]; intros fd o' n' b r; cbn [ReadBlock_loop]; keeps. }
  unfold ReadBlock. keeps.
Qed.
#[local] Hint Resolve WriteBlockInit_keeps WriteBlock_keeps ReadBlock_keeps : keeps.

(** ** Files *)

(** The fields of a file are of their widths. *)
Definition file_ok (f : File) : Prop := 0 <= position_ f < 2 ^ 64 /\ 0 <= inode_ f < 2 ^ 32.

(** An operation on [f] that leaves it a file, with the same inode. *)
Definition same_file {A} (f : File) (r : A * File) : Prop :=
  (file_ok f -> file_ok (snd r)) /\ inode_ (snd r) = inode_ f.

Lemma same_file_moved {A} (a : A) f p : same_file f (a, set_position (u64 p) f).
Proof. split; [|done]. intros (_ & ?). split; [cbn; apply wrap_range; lia|done]. Qed.

Lemma attribute_size_keeps a : keeps_client (attribute_size a) (fun z => 0 <= z < 2 ^ 64).
Proof.
  unfold attribute_size. apply (Keeps_bind _ _ _ (fun _ => True)); [unfold uninit_stat; keeps|].
  intros old _. eapply Keeps_mono; [apply Keeps_ptr_get|]. unfold attr_size. intros z Hz.
  destruct (to_stat a 0 old); [|done]. cbn in Hz. injection Hz as <-. apply wrap_range. lia.
Qed.

Lemma write_blocks_keeps k cs ch wid p b e d :
  keeps_client (write_blocks crc32 k cs ch wid p b e d) (fun _ => True).
Proof. revert wid p b d. induction k as [|k IH]; intros wid p b d; cbn [write_blocks]; keeps. Qed.
#[local] Hint Resolve attribute_size_keeps write_blocks_keeps : keeps.

(** Where a chunk loop ends is a 64-bit position. *)
Definition position_out (o : option Z) : Prop := match o with Some p => exists q, p = u64 q | None => True end.

Lemma write_chunks_keeps fuel k i p x e d :
  keeps_client (write_chunks fuel crc32 k i p x e d) position_out.
Proof.
  revert p x d. induction k as [|k IH]; intros p x d; cbn [write_chunks]; [apply Keeps_halt|].
  eapply Keeps_bind; [apply WriteChunk_keeps|]. intros [ret out] _. destruct (negb _); [by apply Keeps_ret|].
  eapply Keeps_bind; [apply Keeps_ptr_get|]. intros loc _.
  eapply Keeps_bind; [apply Cached_Create_keeps|]. intros cs Hcs.
  eapply Keeps_bind with (P := connected); [destruct cs; [by apply Keeps_ret|apply Cached_Create_keeps]|].
  clear cs Hcs. intros [cs|] Hcs; [|by apply Keeps_ret]. cbn in Hcs.
  eapply Keeps_bind; [apply WriteBlockInit_keeps|]. intros [ret' [wid|]] _; [|by apply Keeps_ret].
  eapply Keeps_bind; [apply write_blocks_keeps|]. intros [ok buf] _. destruct (negb _); [by apply Keeps_ret|].
  eapply Keeps_bind; [by apply Cached_Return_keeps|]. intros _ _.
  eapply Keeps_bind; [apply WriteChunkEnd_keeps|]. intros ret'' _. destruct (negb _); [by apply Keeps_ret|].
  destruct (_ <=? _); [|apply IH]. apply Keeps_ret. by eexists.
Qed.

Lemma Write_keeps fuel f b n : keeps_client (Write fuel crc32 f b n) (same_file f).
Proof.
  unfold Write. eapply Keeps_bind; [apply ASSERT_keeps|]. intros _ _.
  eapply Keeps_bind; [apply write_chunks_keeps|]. intros [p|] Hp; apply Keeps_ret; [|done].
  destruct Hp as [q ->]. apply same_file_moved.
Qed.

Lemma connect_any_keeps locs : keeps_client (connect_any locs) connected.
Proof.
  induction locs as [|l locs IH]; cbn [connect_any]; [by apply Keeps_ret|].
  eapply Keeps_bind; [apply Cached_Create_keeps|]. intros [cs|] Hcs; [by apply Keeps_ret|exact IH].
Qed.

Lemma just_registered_keeps : keeps_client just_registered (fun _ => True).
Proof. unfold just_registered. keeps. Qed.
Lemma store_keeps mem p d : keeps_client (store mem p d) (fun _ => True).
Proof. unfold store. keeps. Qed.
#[local] Hint Resolve just_registered_keeps store_keeps : keeps.

Lemma read_chunks_keeps fuel k i o p x e mem :
  keeps_client (read_chunks fuel crc32 k i o p x e mem) (fun r => position_out (fst r)).
Proof.
  revert p x e mem. induction k as [|k IH]; intros p x e mem; cbn [read_chunks]; [apply Keeps_halt|].
  eapply Keeps_bind; [apply ReadChunk_keeps|]. intros [ret out] _. destruct (negb _); [by apply Keeps_ret|].
  apply (Keeps_bind _ _ _ (fun _ => True)); [keeps|]. intros [len ch] _. cbv zeta.
  destruct (_ <? _); [by apply Keeps_ret|]. destruct (_ <? 1).
  { eapply Keeps_bind; [apply just_registered_keeps|]. intros [] _; [apply IH|by apply Keeps_ret]. }
  eapply Keeps_bind; [apply connect_any_keeps|]. intros [cs|] Hcs; [|by apply Keeps_ret]. cbn in Hcs.
  eapply Keeps_bind; [apply ReadBlock_keeps|]. intros [ret' d] _.
  eapply Keeps_bind; [apply store_keeps|]. intros mem' _. destruct (negb _).
  { eapply Keeps_bind; [apply ChunkServer_delete_keeps|]. intros _ _.
    eapply Keeps_bind; [apply just_registered_keeps|]. intros [] _; [apply IH|apply Keeps_halt]. }
  eapply Keeps_bind; [by apply Cached_Return_keeps|]. intros _ _.
  destruct (_ <=? _); [|apply IH]. apply Keeps_ret. by eexists.
Qed.

Lemma Read_keeps fuel f mem n : keeps_client (Read fuel crc32 f mem n) (same_file f).
Proof.
  unfold Read. eapply Keeps_bind; [apply ASSERT_keeps|]. intros _ _.
  destruct (_ <=? _); [by apply Keeps_ret|].
  eapply Keeps_bind; [apply read_chunks_keeps|]. intros [[p|] mem'] Hp; apply Keeps_ret; [|done].
  destruct Hp as [q ->]. apply same_file_moved.
Qed.

Lemma Pwrite_keeps fuel f b n o : keeps_client (Pwrite fuel crc32 f b n o) (same_file f).
Proof.
  eapply Keeps_mono; [apply Write_keeps|]. intros r [Hr Hi]. split; [|done].
  intros Hf. apply Hr, (same_file_moved tt f o), Hf.
Qed.

Lemma Pread_keeps fuel f mem n o : keeps_client (Pread fuel crc32 f mem n o) (same_file f).
Proof.
  eapply Keeps_mono; [apply Read_keeps|]. intros r [Hr Hi]. split; [|done].
  intros Hf. apply Hr, (same_file_moved tt f o), Hf.
Qed.

Lemma Seek_keeps fuel f o whence : keeps_client (Seek fuel f (u64 o) whence) (same_file f).
Proof.
  unfold Seek. eapply Keeps_bind; [apply GetAttr_keeps|]. intros [ret a] _.
  destruct (_ =? _); [|by apply Keeps_ret]. eapply Keeps_bind; [apply attribute_size_keeps|]. intros z _.
  destruct (_ && _); [apply Keeps_ret, same_file_moved|].
  destruct (_ && _); [apply Keeps_ret, same_file_moved|by apply Keeps_ret].
Qed.

(** A file that was opened or made, when the result is 0. *)
Definition opened (r : Z * File) : Prop := fst r = 0 -> file_ok (snd r).

Lemma Create_keeps fuel f name mode : keeps_client (Create fuel f name mode) opened.
Proof.
  unfold Create. eapply Keeps_bind; [apply ASSERT_keeps|]. intros _ _. cbv zeta.
  apply (Keeps_bind _ _ _ (fun _ => True)); [keeps|]. intros [[ret parent] nm] _.
  destruct (ret =? STATUS_OK) eqn:E; cbn [negb]; [|apply Keeps_ret; intros Hr; by apply Z.eqb_neq in E].
  eapply Keeps_bind; [apply Create_node_keeps|]. intros [ret' out] Ho.
  destruct (ret' =? STATUS_OK) eqn:E'; cbn [negb];
    [|apply Keeps_ret; intros Hr; by apply Z.eqb_neq in E'].
  apply Keeps_ret. intros _. split; cbn; [lia|]. destruct out as [[i ?]|]; [exact Ho|lia].
Qed.

Lemma Open_file_keeps fuel f name flags mode : keeps_client (Files.Open fuel f name flags mode) opened.
Proof.
  unfold Files.Open. eapply Keeps_bind; [apply ASSERT_keeps|]. intros _ _.
  eapply Keeps_bind; [apply Lookup_path_keeps|]. intros [ret out] Ho.
  destruct (_ && _); [apply Create_keeps|]. destruct (_ && _); [by apply Keeps_ret|].
  cbv zeta. destruct (if _ =? O_RDONLY then _ else _) as [oflags f1].
  eapply Keeps_bind with (P := fun i => 0 <= i < 2 ^ 32).
  { destruct out as [[i ?]|]; [by apply Keeps_ret|].
    eapply Keeps_bind; [by apply Keeps_new|]. intros b Hb. apply Keeps_ret.
    pose proof (le_combine_range b) as Hr. unfold size in Hb. by rewrite Hb in Hr. }
  intros i Hi. eapply Keeps_bind; [apply Open_keeps|]. intros [ret' att] _.
  destruct (ret' =? STATUS_OK) eqn:E; cbn [negb]; [|apply Keeps_ret; intros Hr; by apply Z.eqb_neq in E].
  eapply Keeps_bind with (P := fun f => 0 <= position_ f < 2 ^ 64).
  { destruct (_ =? O_APPEND); [|by apply Keeps_ret].
    eapply Keeps_bind; [apply attribute_size_keeps|]. intros z Hz. by apply Keeps_ret. }
  intros f2 Hf. by apply Keeps_ret.
Qed.

Lemma Close_keeps fuel f : keeps_client (Close fuel f) (fun _ => True).
Proof. unfold Close. keeps. Qed.

Lemma Connect_host_keeps inet_pton fuel host : keeps_client (Connect_host fuel inet_pton host) (fun _ => True).
Proof. unfold Connect_host. keeps. Qed.
End Client.

(** ** The C interface *)

(** The client, and every open file under its number. *)
Definition mfs_ok (s : mfs) : Prop :=
  client_ok (mfs_client s) /\ map_Forall (fun fd f => fd = i32 (inode_ f) /\ file_ok f) (files s).

Section Interface.
Context {W : Type} `{Network W} `{Build}.
Context (fuel : nat) (crc32 : bytes -> Z) (inet_pton : bytes -> option Z).
Abbreviation keeps_mfs := (Keeps (W := W) mfs_ok).

Lemma lift_keeps {A} (m : N client W A) P : Keeps client_ok m P -> keeps_mfs (lift m) P.
Proof.
  intros Hm s w [Hc Hf]. specialize (Hm (mfs_client s) w Hc). unfold wpN, lift in *.
  by destruct (m (mfs_client s) w) as [[e|a] [c w']]; destruct Hm.
Qed.

Lemma set_files_keeps m :
  map_Forall (fun fd f => fd = i32 (inode_ f) /\ file_ok f) m -> keeps_mfs (set_files m) (fun _ => True).
Proof.
  intros Hm. unfold set_files. eapply Keeps_bind; [apply Keeps_get|]. intros s [Hc _]. by apply Keeps_put.
Qed.

Lemma put_errno_keeps e : keeps_mfs (put_errno e) (fun _ => True).
Proof. unfold put_errno. eapply Keeps_bind; [apply Keeps_get|]. intros s Hs. by apply Keeps_put. Qed.

Lemma need_master_keeps : keeps_mfs need_master (fun _ => True).
Proof. unfold need_master. keeps. Qed.
#[local] Hint Resolve put_errno_keeps need_master_keeps : keeps.

(** The new file goes under its inode. *)
Lemma opened_keeps (m : N client W (Z * File)) :
  Keeps client_ok m opened ->
  keeps_mfs ('(ret, f) ← lift m;
    if 0 =? ret then
      s ← get_state;
      set_files (<[i32 (inode_ f) := f]> (files s));;
      mret (i32 (inode_ f))
    else mret (-1)) (fun _ => True).
Proof.
  intros Hm. eapply Keeps_bind; [by apply lift_keeps|]. intros [ret f] Hf.
  destruct (Z.eqb_spec 0 ret) as [Er|]; [|by apply Keeps_ret].
  eapply Keeps_bind; [apply Keeps_get|]. intros s [_ Hs].
  eapply Keeps_bind; [|intros _ _; by apply Keeps_ret].
  apply set_files_keeps, map_Forall_insert_2; [|done]. split; [done|]. by apply Hf.
Qed.

Lemma with_file_keeps {A} fd (missing : A) op :
  (forall f, Keeps client_ok (op f) (same_file f)) -> keeps_mfs (with_file fd missing op) (fun _ => True).
Proof.
  intros Hop. unfold with_file, GetFile.
  eapply Keeps_bind with (P := fun o => match o with Some f => fd = i32 (inode_ f) /\ file_ok f | None => True end).
  { eapply Keeps_bind; [apply Keeps_get|]. intros s [_ Hs]. apply Keeps_ret.
    destruct (files s !! fd) as [f|] eqn:Hf; [by apply Hs|done]. }
  intros [f|] Hf; [|by apply Keeps_ret]. destruct Hf as [Hfd Hf].
  eapply Keeps_bind; [apply lift_keeps, Hop|]. intros [a f'] [Ho Hi]. cbn [snd] in *.
  eapply Keeps_bind; [apply Keeps_get|]. intros s [_ Hs].
  eapply Keeps_bind; [|intros _ _; by apply Keeps_ret].
  apply set_files_keeps, map_Forall_insert_2; [|done]. split; [by rewrite Hi|auto].
Qed.

(** ** Any sequence of calls *)

Inductive mfs_call :=
| CallConnect (host : bytes)
| CallStat (path : bytes) (old : stat)
| CallOpen (path : bytes) (flags mode : Z)
| CallCreat (path : bytes) (mode : Z)
| CallRead (fd : Z) (buf : bytes) (count : Z)
| CallWrite (fd : Z) (buf : bytes) (count : Z)
| CallPread (fd : Z) (buf : bytes) (count offset : Z)
| CallPwrite (fd : Z) (buf : bytes) (count offset : Z)
| CallClose (fd : Z)
| CallLseek (fd offset whence : Z)
| CallAccess (path : bytes) (mode : Z)
| CallUnlink (path : bytes)
| CallMkdir (path : bytes) (mode : Z)
| CallRmdir (path : bytes)
| CallMkdirs (path : bytes) (mode : Z).

Definition run_call (c : mfs_call) : N mfs W unit :=
  match c with
  | CallConnect host => mfs_connect fuel inet_pton host;; mret tt
  | CallStat path old => mfs_stat fuel path old;; mret tt
  | CallOpen path flags mode => mfs_open fuel path flags mode;; mret tt
  | CallCreat path mode => mfs_creat fuel path mode;; mret tt
  | CallRead fd buf count => mfs_read fuel crc32 fd buf count;; mret tt
  | CallWrite fd buf count => mfs_write fuel crc32 fd buf count;; mret tt
  | CallPread fd buf count offset => mfs_pread fuel crc32 fd buf count offset;; mret tt
  | CallPwrite fd buf count offset => mfs_pwrite fuel crc32 fd buf count offset;; mret tt
  | CallClose fd => mfs_close fuel fd;; mret tt
  | CallLseek fd offset whence => mfs_lseek fuel fd offset whence;; mret tt
  | CallAccess path mode => mfs_access fuel path mode;; mret tt
  | CallUnlink path => mfs_unlink fuel path;; mret tt
  | CallMkdir path mode => mfs_mkdir fuel path mode;; mret tt
  | CallRmdir path => mfs_rmdir fuel path;; mret tt
  | CallMkdirs path mode => mfs_mkdirs fuel path mode;; mret tt
  end.

Fixpoint run_calls (cs : list mfs_call) : N mfs W unit :=
  match cs with [] => mret tt | c :: cs => run_call c;; run_calls cs end.

Definition mfs_init : mfs := mkMfs (mkClient MasterServer_new 0 ∅) false ∅ 0.

Lemma mfs_connect_keeps host : keeps_mfs (mfs_connect fuel inet_pton host) (fun _ => True).
Proof.
  unfold mfs_connect. eapply Keeps_bind; [apply Keeps_get|]. intros s [(_ & _ & Hc) Hs].
  apply (Keeps_bind _ _ _ (fun _ => True)); [|intros _ _; apply lift_keeps, Connect_host_keeps].
  destruct (has_master s); [by apply Keeps_ret|]. by apply Keeps_put.
Qed.

Lemma extract_keeps path : keeps_mfs (extract fuel path) (fun _ => True).
Proof.
  unfold extract. cbv zeta. destruct (bool_decide _); [by apply Keeps_ret|].
  eapply Keeps_bind; [apply need_master_keeps|]. intros _ _.
  eapply Keeps_bind; [apply lift_keeps, Lookup_path_keeps|]. intros [ret out] _. by apply Keeps_ret.
Qed.

Lemma mfs_close_keeps fd : keeps_mfs (mfs_close fuel fd) (fun _ => True).
Proof.
  unfold mfs_close, GetFile. apply (Keeps_bind _ _ _ (fun _ => True)); [keeps|].
  intros [f|] _; [|by apply Keeps_ret]. eapply Keeps_bind; [apply lift_keeps, Close_keeps|]. intros _ _.
  eapply Keeps_bind; [apply Keeps_get|]. intros s [_ Hs].
  eapply Keeps_bind; [by apply set_files_keeps, map_Forall_delete|]. intros _ _. by apply Keeps_ret.
Qed.

Lemma mfs_mkdir_keeps path mode : keeps_mfs (mfs_mkdir fuel path mode) (fun _ => True).
Proof.
  unfold mfs_mkdir. eapply Keeps_bind; [apply Keeps_get|]. intros s Hs.
  destruct (negb _); [by apply Keeps_ret|]. eapply Keeps_bind; [apply extract_keeps|].
  intros [[ret parent] name] _. destruct (negb _); [keeps|].
  eapply Keeps_bind; [apply lift_keeps, Mkdir_keeps|]. intros [ret' out] _. keeps.
Qed.
#[local] Hint Resolve mfs_connect_keeps extract_keeps mfs_close_keeps mfs_mkdir_keeps : keeps.

Lemma mfs_mkdirs_keeps path mode : keeps_mfs (mfs_mkdirs fuel path mode) (fun _ => True).
Proof.
  unfold mfs_mkdirs. destruct (MkDirs.mkdirs_start _) as [sub pa].
  generalize (split (bs "/") pa) as segs. intros segs. revert sub.
  induction segs as [|seg segs IH]; intros sub; cbn [mfs_mkdirs_loop]; [by apply Keeps_ret|].
  eapply Keeps_bind; [apply mfs_mkdir_keeps|]. intros r _.
  eapply Keeps_bind; [apply Keeps_get|]. intros s _.
  destruct segs; destruct (negb _); try destruct (_ =? _); try (by apply Keeps_ret); apply IH.
Qed.
#[local] Hint Resolve mfs_mkdirs_keeps : keeps.

Lemma run_call_keeps c : keeps_mfs (run_call c) (fun _ => True).
Proof.
  destruct c; cbn [run_call]; (apply (Keeps_bind _ _ _ (fun _ => True)); [|intros ? _; by apply Keeps_ret]);
    try (solve [eauto with keeps]).
  - unfold mfs_stat. eapply Keeps_bind; [apply Keeps_get|]. intros s _.
    destruct (negb _); [by apply Keeps_ret|].
    eapply Keeps_bind; [apply lift_keeps, Lookup_path_keeps|]. intros [ret out] _. keeps.
  - unfold mfs_open. eapply Keeps_bind; [apply need_master_keeps|]. intros _ _.
    apply opened_keeps, Open_file_keeps.
  - unfold mfs_creat. eapply Keeps_bind; [apply need_master_keeps|]. intros _ _.
    apply opened_keeps, Create_keeps.
  - apply with_file_keeps. intros f. eapply Keeps_bind; [apply Read_keeps|].
    intros [[r mem] f'] Hf. by apply Keeps_ret.
  - apply with_file_keeps. intros f. apply Write_keeps.
  - apply with_file_keeps. intros f. eapply Keeps_bind; [apply Pread_keeps|].
    intros [[r mem] f'] Hf. by apply Keeps_ret.
  - apply with_file_keeps. intros f. apply Pwrite_keeps.
  - apply with_file_keeps. intros f. eapply Keeps_bind; [apply Seek_keeps|].
    intros [r f'] Hf. by apply Keeps_ret.
  - unfold mfs_access. eapply Keeps_bind; [apply Keeps_get|]. intros s _.
    destruct (negb _); [by apply Keeps_ret|].
    eapply Keeps_bind; [apply lift_keeps, Lookup_path_keeps|]. intros [ret out] _. keeps.
  - unfold mfs_unlink. eapply Keeps_bind; [apply Keeps_get|]. intros s _.
    destruct (negb _); [by apply Keeps_ret|]. eapply Keeps_bind; [apply extract_keeps|].
    intros [[ret parent] name] _. destruct (_ =? _); [|by apply Keeps_ret]. apply lift_keeps, Unlink_keeps.
  - unfold mfs_rmdir. eapply Keeps_bind; [apply Keeps_get|]. intros s _.
    destruct (negb _); [by apply Keeps_ret|]. eapply Keeps_bind; [apply extract_keeps|].
    intros [[ret parent] name] _. destruct (_ =? _); [|by apply Keeps_ret]. apply lift_keeps, Rmdir_keeps.
Qed.

Lemma mfs_init_ok : mfs_ok mfs_init.
Proof. split; [|done]. split; [done|]. split; [cbn; lia|done]. Qed.

(** C18: Whatever calls are made of the C interface, in whatever order, on
    whatever network: as long as they return, every open file is kept under
    the descriptor made of its own inode, with a position and an inode of
    their widths, every cached connection under its own address with a
    descriptor to close, and the master's socket and session are in range. *)
Theorem mfs_invariant (calls : list mfs_call) (w : W) :
  match run_calls calls mfs_init w with
  | (inr _, (s, _)) => mfs_ok s
  | (inl _, _) => True
  end.
Proof.
  assert (keeps_mfs (run_calls calls) (fun _ => True)) as Hk.
  { induction calls as [|c calls IH]; cbn [run_calls]; [by apply Keeps_ret|].
    eapply Keeps_bind; [apply run_call_keeps|]. intros _ _. exact IH. }
  specialize (Hk mfs_init w mfs_init_ok). unfold wpN in Hk.
  destruct (run_calls calls mfs_init w) as [[e|a] [s' w']]; [done|]. by destruct Hk.
Qed.
End Interface.
