(* ===== verification/Preload.v ===== *)
(** * The MooseFS client: the preloaded library (src/mooseclient/preload.cc)

    Replacements for [open], [read] and the rest that serve the files below
    the mount point and hand everything else to the C library, whose functions
    are parameters.  Of the state of [MooseC] it has its own copy, and the
    mount point. *)

From S2P Require Import Prelude CString PathOps Posix Net Protocol Master Chunks Files MooseC.

(** ** Paths *)

(** [std::string::find] of a string. *)
Fixpoint find_string_at (needle s : bytes) (i : Z) : Z :=
  if bool_decide (take (length needle) s = needle) then i
  else match s with [] => npos | _ :: s => find_string_at needle s (i + 1) end.
Definition find_string (needle s : bytes) : Z := find_string_at needle s 0.

(** [cwd] is what [getcwd] stores, [None] the null pointer. *)
Definition ToAbspath (cwd : bytes) (pathname : option bytes) : bytes :=
  match pathname with
  | None => []
  | Some p =>
      let b := c_str p in
      if IsAbspath b then b else PathJoin (c_str cwd) b
  end.

(** [substr] throws when the path is shorter than the mount point. *)
Definition ToInterpath (mount_point_ abspath : bytes) : option bytes :=
  if size abspath <? size mount_point_ then None
  else Some (substr abspath (size mount_point_) npos).

(** The last character of an empty path is undefined. *)
Definition IsTrappedFile (mount_point_ pathname : bytes) : option bool :=
  match last pathname with
  | None => None
  | Some c =>
      let a := if negb (Byte.eqb c "/") then pathname ++ bs "/" else pathname in
      let pos := find_string mount_point_ a in
      Some (if negb (pos =? 0) then false
            else if size a =? pos then true
            else (pos <? size a) && Byte.eqb (nth (Z.to_nat pos) a x00) "/")
  end.

(** [SetMountPoint]; a null pointer changes nothing. *)
Definition SetMountPoint (mount_point_ : bytes) (pathname : option bytes) : option bytes :=
  match pathname with
  | None => Some mount_point_
  | Some p =>
      let m := c_str p in
      match last m with
      | None => None
      | Some c => Some (if negb (Byte.eqb c "/") then m ++ bs "/" else m)
      end
  end.

Section Preload.
Context {W : Type} `{Network W} `{Build}.
Abbreviation F := (N mfs W).
Context (fuel : nat).
Context (crc32 : bytes -> Z).
Context (inet_pton : bytes -> option Z).
Context (mount_point_ cwd : bytes).

(** The functions of the C library. *)
Context (real_open : bytes -> Z -> F Z) (real_creat : bytes -> Z -> F Z).
Context (real_read : Z -> bytes -> Z -> F (Z * bytes)) (real_write : Z -> bytes -> Z -> F Z).
Context (real_pread : Z -> bytes -> Z -> Z -> F (Z * bytes)).
Context (real_pwrite : Z -> bytes -> Z -> Z -> F Z).
Context (real_close : Z -> F Z) (real_lseek : Z -> Z -> Z -> F Z).

Definition ConnectReady : F bool :=
  s ← get_state;
  mret (negb (bool_decide (mount_point_ = [])) && has_master s &&
        negb (session_id_ (master (mfs_client s)) =? 0)).

(** Is the path ours, and what it is below the mount point?  An exception
    leaves the function, and the process. *)
Definition trapped (pathname : bytes) : F bool :=
  let abspath := ToAbspath cwd (Some pathname) in
  t ← ptr_get (IsTrappedFile mount_point_ abspath);
  if (t : bool) then
    ready ← ConnectReady;
    if (ready : bool) then
      match ToInterpath mount_point_ abspath with
      | Some _ => mret true
      | None => nhalt Exn
      end
    else mret false
  else mret false.

(** The file is opened by the path the caller gave, not by the one below the
    mount point. *)
Definition open (pathname : bytes) (flags : Z) : F Z :=
  t ← trapped pathname;
  if (t : bool) then mfs_open fuel pathname flags 0 else real_open pathname flags.

Definition creat (pathname : bytes) (mode : Z) : F Z :=
  t ← trapped pathname;
  if (t : bool) then mfs_creat fuel pathname mode else real_creat pathname mode.

(** Is [fd] one of ours? *)
Definition ours (fd : Z) : F bool := f ← GetFile fd; mret (bool_decide (is_Some f)).
Definition ours_ready (fd : Z) : F bool :=
  o ← ours fd; r ← ConnectReady; mret (o && r).

Definition read (fd : Z) (buf : bytes) (count : Z) : F (Z * bytes) :=
  o ← ours_ready fd;
  if (o : bool) then mfs_read fuel crc32 fd buf count else real_read fd buf count.

Definition write (fd : Z) (buf : bytes) (count : Z) : F Z :=
  o ← ours_ready fd;
  if (o : bool) then mfs_write fuel crc32 fd buf count else real_write fd buf count.

Definition pread (fd : Z) (buf : bytes) (count offset : Z) : F (Z * bytes) :=
  o ← ours_ready fd;
  if (o : bool) then mfs_pread fuel crc32 fd buf count offset else real_pread fd buf count offset.

Definition pwrite (fd : Z) (buf : bytes) (count offset : Z) : F Z :=
  o ← ours_ready fd;
  if (o : bool) then mfs_pwrite fuel crc32 fd buf count offset else real_pwrite fd buf count offset.

Definition close (fd : Z) : F Z :=
  o ← ours fd;
  if (o : bool) then mfs_close fuel fd else real_close fd.

(** The fallback is [real_close]. *)
Definition lseek (fd offset whence : Z) : F Z :=
  o ← ours fd;
  if (o : bool) then mfs_lseek fuel fd offset whence else real_close fd.

Definition SetMaster (host_ip : bytes) : F bool := mfs_connect fuel inet_pton host_ip.

End Preload.

(** ** Which paths are taken *)

Lemma find_string_at_prefix n s i :
  take (length n) s = n -> find_string_at n s i = i.
Proof. intros E. destruct s; cbn [find_string_at]; by rewrite bool_decide_true. Qed.

Lemma find_string_at_later n s i :
  take (length n) s <> n -> find_string_at n s i = npos \/ i < find_string_at n s i.
Proof.
  revert i. induction s as [|c s IH]; intros i E; cbn [find_string_at]; rewrite bool_decide_false by done.
  { by left. }
  destruct (decide (take (length n) s = n)) as [E'|E'].
  - right. rewrite find_string_at_prefix by done. lia.
  - destruct (IH (i + 1) E'); [by left|right; lia].
Qed.

Lemma find_string_zero n s : find_string n s = 0 <-> take (length n) s = n.
Proof.
  unfold find_string. destruct (decide (take (length n) s = n)) as [E|E].
  - by rewrite find_string_at_prefix.
  - split; [|done]. intros E0. destruct (find_string_at_later n s 0 E) as [En|]; [|lia].
    rewrite E0 in En. discriminate.
Qed.

(** A directory an absolute path below which is mounted at. *)
Definition mountable (d : bytes) : bool :=
  bool_decide (head d = Some "/"%byte) && negb (bool_decide (last d = Some "/"%byte)) &&
  bool_decide (x00 ∉ d).

Lemma mountable_inv d :
  mountable d = true -> (exists d', d = "/"%byte :: d') /\ last d <> Some "/"%byte /\ (x00 ∉ d).
Proof.
  unfold mountable. rewrite !andb_true_iff, negb_true_iff, !bool_decide_eq_true, bool_decide_eq_false.
  intros [[Hh Hl] Hz]. split; [|done]. destruct d as [|c d']; [done|]. exists d'. cbn in Hh. congruence.
Qed.

Lemma SetMountPoint_mountable old d :
  mountable d = true -> SetMountPoint old (Some d) = Some (d ++ bs "/").
Proof.
  intros ([d' E] & Hl & Hz)%mountable_inv. unfold SetMountPoint. rewrite c_str_id by done.
  destruct (last d) as [c|] eqn:Hc; [|by rewrite E, last_None in Hc].
  destruct (eqb_byte_spec c "/") as [->|]; [done|]. done.
Qed.

(** The paths [IsTrappedFile] takes, which end in a slash or are given one. *)
Lemma IsTrappedFile_prefix d p :
  mountable d = true -> p <> [] ->
  let a := if bool_decide (last p = Some "/"%byte) then p else p ++ bs "/" in
  IsTrappedFile (d ++ bs "/") p =
    Some (bool_decide (take (length (d ++ bs "/")) a = d ++ bs "/")).
Proof.
  intros ([d' E] & Hl & Hz)%mountable_inv Hp a. unfold IsTrappedFile.
  destruct (last p) as [c|] eqn:Hc; [|by apply last_None in Hc].
  assert ((if negb (Byte.eqb c "/") then p ++ bs "/" else p) = a) as ->.
  { unfold a. destruct (eqb_byte_spec c "/") as [->|Hn]; cbn [negb].
    - by rewrite bool_decide_true.
    - rewrite bool_decide_false by congruence. done. }
  cbv zeta. f_equal. case_bool_decide as Ht.
  - pose proof Ht as ->%find_string_zero. cbn [negb Z.eqb].
    assert (exists t, a = "/"%byte :: t) as [t ->].
    { destruct a as [|x t]; [by rewrite take_nil, E in Ht|]. rewrite E in Ht. cbn in Ht.
      exists t. congruence. }
    cbn [Z.to_nat nth]. change (Byte.eqb "/" "/") with true. rewrite andb_true_r.
    rewrite size_cons. pose proof (size_nonneg t).
    destruct (Z.eqb_spec (1 + size t) 0); [done|]. apply Z.ltb_lt. lia.
  - destruct (Z.eqb_spec (find_string (d ++ bs "/") a) 0) as [E0|]; [|done].
    by apply find_string_zero in E0.
Qed.

Lemma take_prefix (a b : bytes) : take (length a) b = a <-> exists r, b = a ++ r.
Proof.
  split; [|intros [r ->]; apply take_app_length].
  intros E. exists (drop (length a) b). by rewrite <- E at 1; rewrite take_drop.
Qed.

Lemma below_mount d p :
  last d <> Some "/"%byte ->
  (exists r, (if bool_decide (last p = Some "/"%byte) then p else p ++ bs "/") = (d ++ bs "/") ++ r) <->
  p = d \/ exists r, p = d ++ "/"%byte :: r.
Proof.
  intros Hl.
  assert (forall r, (d ++ bs "/") ++ r = d ++ "/"%byte :: r) as Eb by (intros r; by rewrite <- app_assoc).
  case_bool_decide as Hp.
  - split; [intros [r E]; right; exists r; by rewrite E, Eb|].
    intros [->|[r ->]]; [done|]. exists r. by rewrite Eb.
  - split.
    + intros [r E]. rewrite Eb in E. destruct r as [|x r' _] using rev_ind.
      * left. by apply app_inj_tail in E as [-> _].
      * right. exists r'. change (d ++ "/"%byte :: r' ++ [x]) with (d ++ ("/"%byte :: r') ++ [x]) in E.
        rewrite app_assoc in E. by apply app_inj_tail in E as [-> _].
    + intros [->|[r ->]]; [exists []; by rewrite app_nil_r|]. exists (r ++ bs "/"). rewrite Eb.
      by rewrite <- app_assoc.
Qed.

(** After [SetMountPoint] of an absolute directory without a slash at its
    end, exactly the directory itself and the paths below it are taken: a
    sibling whose name only begins the same is not.  What [ToInterpath] makes
    of a path below is what follows the mount point; for the directory itself
    it throws. *)
Theorem IsTrappedFile_spec (old d p : bytes) :
  mountable d = true -> p <> [] -> size p < 2 ^ 64 ->
  exists m b, SetMountPoint old (Some d) = Some m /\ IsTrappedFile m p = Some b /\
    (b = true <-> p = d \/ exists r, p = d ++ "/"%byte :: r) /\
    (p = d -> ToInterpath m p = None) /\
    (forall r, p = d ++ "/"%byte :: r -> ToInterpath m p = Some r).
Proof.
  intros Hd Hp Hsz. exists (d ++ bs "/"), (bool_decide (take (length (d ++ bs "/"))
    (if bool_decide (last p = Some "/"%byte) then p else p ++ bs "/") = d ++ bs "/")).
  rewrite SetMountPoint_mountable, IsTrappedFile_prefix by done. split; [done|]. split; [done|].
  pose proof (size_app d (bs "/")) as Hs. change (size (bs "/")) with 1 in Hs.
  split; [|split].
  - apply mountable_inv in Hd as (_ & Hl & _). by rewrite bool_decide_eq_true, take_prefix, below_mount.
  - intros ->. unfold ToInterpath. rewrite Hs. destruct (Z.ltb_spec (size d) (size d + 1)); [done|lia].
  - intros r Er. unfold ToInterpath. pose proof (size_nonneg r).
    assert (p = (d ++ bs "/") ++ r) as -> by (by rewrite <- app_assoc).
    rewrite (size_app (d ++ bs "/") r) in *. pose proof (size_nonneg d).
    destruct (Z.ltb_spec (size (d ++ bs "/") + size r) (size (d ++ bs "/"))); [lia|].
    f_equal. apply substr_suffix; [done|]. change npos with (2 ^ 64 - 1). lia.
Qed.

Lemma IsTrappedFile_spec_witness :
  exists m, SetMountPoint [] (Some (bs "/mnt/mfs")) = Some m /\
    IsTrappedFile m (bs "/mnt/mfs/a") = Some true /\ ToInterpath m (bs "/mnt/mfs/a") = Some (bs "a").
Proof.
  destruct (IsTrappedFile_spec [] (bs "/mnt/mfs") (bs "/mnt/mfs/a")) as (m & b & Hm & Hb & Hiff & _ & Hr);
    [reflexivity|done|done|].
  exists m. split; [exact Hm|]. split; [|apply Hr; reflexivity].
  rewrite Hb. f_equal. apply Hiff. right. exists (bs "a"). reflexivity.
Defined.
