(* ===== verification/StringEncode.v ===== *)
(** * Encodings of text (src/base3/stringencode.cc)

    The functions fill a buffer of [buflen] bytes and return how many bytes
    they put before the final NUL: here, from [buflen] and the source, those
    bytes.  [room] is what is left of the buffer, the place of the NUL
    included.  The assertions of src/base3/common.h only write to the log.  A
    source is followed by a NUL, as the data of a [std::string] is. *)

From S2P Require Import Prelude CString.

Definition HEX : bytes := bs "0123456789abcdef".

Definition hex_encode_digit (val : Z) : Init.Byte.byte :=
  if val <? 16 then nth (Z.to_nat val) HEX x00 else "!"%byte.

Definition tolower (c : Z) : Z := if (65 <=? c) && (c <=? 90) then c + 32 else c.

(** Letters past [f] are not refused, nor is anything else. *)
Definition hex_decode_digit (ch : Init.Byte.byte) : Z :=
  let ch := swrap 8 (bval ch) in
  u8 (if ch <=? 57 then ch - 48 else tolower ch - 97 + 10).

(** [::strchr(s, c)]: the final NUL is found too. *)
Definition strchr (s : bytes) (c : Init.Byte.byte) : bool :=
  bool_decide (c ∈ c_str s) || Byte.eqb c x00.

(** ** Escaping *)

Fixpoint escape_loop (illegal : bytes) (esc : Init.Byte.byte) (room : Z) (source : bytes) : bytes :=
  match source with
  | [] => []
  | ch :: source =>
      if room <=? 1 then []
      else if Byte.eqb ch esc || strchr illegal ch then
        if room <=? 2 then [] else esc :: ch :: escape_loop illegal esc (room - 2) source
      else ch :: escape_loop illegal esc (room - 1) source
  end.

Definition escape (buflen : Z) (source illegal : bytes) (esc : Init.Byte.byte) : bytes :=
  if buflen <=? 0 then [] else escape_loop illegal esc buflen source.

Fixpoint unescape_loop (esc : Init.Byte.byte) (room : Z) (source : bytes) : bytes :=
  match source with
  | [] => []
  | ch :: source =>
      if room <=? 1 then []
      else
        match source with
        | ch' :: source' =>
            if Byte.eqb ch esc then ch' :: unescape_loop esc (room - 1) source'
            else ch :: unescape_loop esc (room - 1) source
        | [] => ch :: unescape_loop esc (room - 1) source
        end
  end.

Definition unescape (buflen : Z) (source : bytes) (esc : Init.Byte.byte) : bytes :=
  if buflen <=? 0 then [] else unescape_loop esc buflen source.

(** [escape], and the two digits of the byte. *)
Definition hex_escape (esc ch : Init.Byte.byte) : bytes :=
  [esc; hex_encode_digit (Z.land (Z.shiftr (bval ch) 4) 0xF); hex_encode_digit (Z.land (bval ch) 0xF)].

Definition hex_pair (a b : Init.Byte.byte) : Init.Byte.byte :=
  byt (Z.lor (Z.shiftl (hex_decode_digit a) 4) (hex_decode_digit b)).

Fixpoint encode_loop (illegal : bytes) (esc : Init.Byte.byte) (room : Z) (source : bytes) : bytes :=
  match source with
  | [] => []
  | ch :: source =>
      if room <=? 1 then []
      else if negb (Byte.eqb ch esc) && negb (strchr illegal ch) then
        ch :: encode_loop illegal esc (room - 1) source
      else if room <=? 3 then []
      else hex_escape esc ch ++ encode_loop illegal esc (room - 3) source
  end.

Definition encode (buflen : Z) (source illegal : bytes) (esc : Init.Byte.byte) : bytes :=
  if buflen <=? 0 then [] else encode_loop illegal esc buflen source.

Fixpoint decode_loop (esc : Init.Byte.byte) (room : Z) (source : bytes) : bytes :=
  match source with
  | [] => []
  | ch :: source =>
      if room <=? 1 then []
      else
        match source with
        | a :: b :: source' =>
            if Byte.eqb ch esc then hex_pair a b :: decode_loop esc (room - 1) source'
            else ch :: decode_loop esc (room - 1) source
        | _ => ch :: decode_loop esc (room - 1) source
        end
  end.

Definition decode (buflen : Z) (source : bytes) (esc : Init.Byte.byte) : bytes :=
  if buflen <=? 0 then [] else decode_loop esc buflen source.

Definition unsafe_filename_characters : bytes := bs "\/:*?" ++ [x22] ++ bs "<>|".

(** ** Urls *)

Definition URL_UNSAFE : Z := 1.
Definition XML_UNSAFE : Z := 2.
Definition HTML_UNSAFE : Z := 2.

Definition ASCII_CLASS : list Z :=
  [1;1;1;1;1;1;1;1;1;1;1;1;1;1;1;1;1;1;1;1;1;1;1;1;1;1;1;1;1;1;1;1;
   1;0;3;1;1;1;3;2;0;0;0;1;1;0;0;1;0;0;0;0;0;0;0;0;0;0;1;1;3;1;3;1;
   1;0;0;0;0;0;0;0;0;0;0;0;0;0;0;0;0;0;0;0;0;0;0;0;0;0;0;1;1;1;1;0;
   1;0;0;0;0;0;0;0;0;0;0;0;0;0;0;0;0;0;0;0;0;0;0;0;0;0;0;1;1;1;0;1].

Definition unsafe (class : Z) (ch : Init.Byte.byte) : bool :=
  (bval ch <? 128) && negb (Z.land (nth (Z.to_nat (bval ch)) ASCII_CLASS 0) class =? 0).

Fixpoint url_encode_loop (room : Z) (source : bytes) : bytes :=
  match source with
  | [] => []
  | ch :: source =>
      if room <=? 1 then []
      else if unsafe URL_UNSAFE ch then
        if room <=? 3 then [] else hex_escape "%" ch ++ url_encode_loop (room - 3) source
      else ch :: url_encode_loop (room - 1) source
  end.

Definition url_encode (buflen : Z) (source : bytes) : bytes :=
  if buflen <=? 0 then [] else url_encode_loop buflen source.

(** The size asked for with a null buffer. *)
Definition url_encode_room (source : bytes) : Z := size source * 3 + 1.

Fixpoint url_decode_loop (room : Z) (source : bytes) : bytes :=
  match source with
  | [] => []
  | ch :: source =>
      if room <=? 1 then []
      else if Byte.eqb ch "+" then " "%byte :: url_decode_loop (room - 1) source
      else
        match source with
        | a :: b :: source' =>
            if Byte.eqb ch "%" then hex_pair a b :: url_decode_loop (room - 1) source'
            else ch :: url_decode_loop (room - 1) source
        | _ => ch :: url_decode_loop (room - 1) source
        end
  end.

Definition url_decode (buflen : Z) (source : bytes) : bytes :=
  if buflen <=? 0 then [] else url_decode_loop buflen source.

Definition url_decode_room (source : bytes) : Z := size source + 1.

Definition s_url_encode (source : bytes) : bytes := url_encode (url_encode_room source) source.
Definition s_url_decode (source : bytes) : bytes := url_decode (url_decode_room source) source.

(** ** UTF-8 *)

(** How many bytes were used and the value; 0 when they are not valid. *)
Definition utf8_decode (source : bytes) : option (nat * Z) :=
  let s i := bval (nth i source x00) in
  let srclen := size source in
  let bad i := negb (Z.land (s i) 0xC0 =? 0x80) in
  if Z.land (s 0%nat) 0x80 =? 0 then Some (1%nat, s 0%nat)
  else if (srclen <? 2) || bad 1%nat then None
  else
    let value16 := Z.land (s 1%nat) 0x3F in
    if Z.land (s 0%nat) 0xE0 =? 0xC0 then
      Some (2%nat, Z.lor (Z.shiftl (Z.land (s 0%nat) 0x1F) 6) value16)
    else if (srclen <? 3) || bad 2%nat then None
    else
      let value16 := Z.lor (Z.shiftl value16 6) (Z.land (s 2%nat) 0x3F) in
      if Z.land (s 0%nat) 0xF0 =? 0xE0 then
        Some (3%nat, Z.lor (Z.shiftl (Z.land (s 0%nat) 0x0F) 12) value16)
      else if (srclen <? 4) || bad 3%nat then None
      else
        let value16 := Z.lor (Z.shiftl value16 6) (Z.land (s 3%nat) 0x3F) in
        if Z.land (s 0%nat) 0xF8 =? 0xF0 then
          Some (4%nat, Z.lor (Z.shiftl (Z.land (s 0%nat) 0x07) 18) value16)
        else None.

(** No bytes when there is no room or the value is too large. *)
Definition utf8_encode (buflen value : Z) : bytes :=
  let tail k := byt (Z.lor 0x80 (Z.land (Z.shiftr value k) 0x3F)) in
  if (value <=? 0x7F) && (1 <=? buflen) then [byt value]
  else if (value <=? 0x7FF) && (2 <=? buflen) then
    [byt (Z.lor 0xC0 (u8 (Z.shiftr value 6))); tail 0]
  else if (value <=? 0xFFFF) && (3 <=? buflen) then
    [byt (Z.lor 0xE0 (u8 (Z.shiftr value 12))); tail 6; tail 0]
  else if (value <=? 0x1FFFFF) && (4 <=? buflen) then
    [byt (Z.lor 0xF0 (u8 (Z.shiftr value 18))); tail 12; tail 6; tail 0]
  else [].

(** ** HTML and XML *)

(** The entity of a character the table marks. *)
Definition entity (apos : bytes) (ch : Init.Byte.byte) : bytes :=
  if Byte.eqb ch "<" then bs "&lt;"
  else if Byte.eqb ch ">" then bs "&gt;"
  else if Byte.eqb ch "'" then apos
  else if Byte.eqb ch x22 then bs "&quot;"
  else if Byte.eqb ch "&" then bs "&amp;"
  else [].

(** Every step takes at least one byte of the source. *)
Fixpoint html_encode_loop (fuel : nat) (room : Z) (source : bytes) : bytes :=
  match fuel, source with
  | S fuel, ch :: rest =>
      if room <=? 1 then []
      else if bval ch <? 128 then
        if unsafe HTML_UNSAFE ch then
          let escseq := entity (bs "&#39;") ch in
          if room <=? size escseq then []
          else escseq ++ html_encode_loop fuel (room - size escseq) rest
        else ch :: html_encode_loop fuel (room - 1) rest
      else
        let '(val, rest) :=
          match utf8_decode source with
          | Some (vallen, val) => (val, drop vallen source)
          | None => (bval ch, rest)
          end in
        let escseq := bs "&#" ++ dec_nonneg val ++ bs ";" in
        if room <=? size escseq then []
        else escseq ++ html_encode_loop fuel (room - size escseq) rest
  | _, _ => []
  end.

Definition html_encode (buflen : Z) (source : bytes) : bytes :=
  if buflen <=? 0 then [] else html_encode_loop (length source) buflen source.

Fixpoint xml_encode_loop (room : Z) (source : bytes) : bytes :=
  match source with
  | [] => []
  | ch :: source =>
      if room <=? 1 then []
      else if unsafe XML_UNSAFE ch then
        let escseq := entity (bs "&apos;") ch in
        if room <=? size escseq then []
        else escseq ++ xml_encode_loop (room - size escseq) source
      else ch :: xml_encode_loop (room - 1) source
  end.

Definition xml_encode (buflen : Z) (source : bytes) : bytes :=
  if buflen <=? 0 then [] else xml_encode_loop buflen source.

(** [strtoul]: the value, and what follows the number; without a digit that
    is the whole text. *)
Definition digit_value (base : Z) (c : Init.Byte.byte) : option Z :=
  let v := bval c in
  let d := if (48 <=? v) && (v <=? 57) then v - 48
           else if (97 <=? tolower v) && (tolower v <=? 122) then tolower v - 87 else 99 in
  if d <? base then Some d else None.

Fixpoint strtoul_digits (base : Z) (s : bytes) (acc : Z) : Z * bytes :=
  match s with
  | c :: s' =>
      match digit_value base c with
      | Some d => strtoul_digits base s' (acc * base + d)
      | None => (acc, s)
      end
  | [] => (acc, s)
  end.

Definition strtoul (s : bytes) (base : Z) : Z * bytes :=
  let t := skip_space s in
  let '(neg, t) :=
    match t with
    | c :: r => if Byte.eqb c "-" then (true, r) else if Byte.eqb c "+" then (false, r) else (false, t)
    | [] => (false, t)
    end in
  let t := match t with
           | z :: x :: d :: r =>
               if (base =? 16) && Byte.eqb z "0" && (Byte.eqb x "x" || Byte.eqb x "X") &&
                  match digit_value 16 d with Some _ => true | None => false end
               then d :: r else t
           | _ => t
           end in
  match t with
  | c :: _ =>
      match digit_value base c with
      | Some _ =>
          let '(v, r) := strtoul_digits base t 0 in
          (if 2 ^ 64 <=? v then 2 ^ 64 - 1 else if neg : bool then u64 (- v) else v, r)
      | None => (0, s)
      end
  | [] => (0, s)
  end.

(** Does a text begin so? *)
Definition starts_with (s p : bytes) : bool := bool_decide (take (length p) s = p).

(** [source] is what follows the ampersand; a number may be read up to the
    NUL behind the source, but not accepted there. *)
Fixpoint xml_decode_loop (fuel : nat) (room : Z) (source : bytes) : bytes :=
  match fuel, source with
  | S fuel, ch :: source =>
      if room <=? 1 then []
      else if negb (Byte.eqb ch "&") then ch :: xml_decode_loop fuel (room - 1) source
      else if starts_with source (bs "lt;") then
        "<"%byte :: xml_decode_loop fuel (room - 1) (drop 3 source)
      else if starts_with source (bs "gt;") then
        ">"%byte :: xml_decode_loop fuel (room - 1) (drop 3 source)
      else if starts_with source (bs "apos;") then
        "'"%byte :: xml_decode_loop fuel (room - 1) (drop 5 source)
      else if starts_with source (bs "quot;") then
        x22 :: xml_decode_loop fuel (room - 1) (drop 5 source)
      else if starts_with source (bs "amp;") then
        "&"%byte :: xml_decode_loop fuel (room - 1) (drop 4 source)
      else if starts_with source (bs "#") then
        let '(int_base, digits) :=
          if starts_with source (bs "#x") then (16, drop 2 source) else (10, drop 1 source) in
        let '(val, ptr) := strtoul (c_str digits) int_base in
        let ptr := drop (length (c_str digits) - length ptr) digits in
        match ptr with
        | c :: ptr =>
            if Byte.eqb c ";" then
              match utf8_encode room val with
              | [] => []
              | esc => esc ++ xml_decode_loop fuel (room - size esc) ptr
              end
            else []
        | [] => []
        end
      else []
  | _, _ => []
  end.

(** The last character decoded from a number may take the place of the NUL:
    then the result has [buflen] bytes, and the NUL goes behind the buffer. *)
Definition xml_decode (buflen : Z) (source : bytes) : bytes :=
  if buflen <=? 0 then [] else xml_decode_loop (length source) buflen source.

Definition html_decode (buflen : Z) (source : bytes) : bytes := xml_decode buflen source.

(** ** Hexadecimal *)

Definition hex_encode (buflen : Z) (csource : bytes) : bytes :=
  if buflen <=? 0 then []
  else
    let srclen := Z.min (size csource) ((buflen - 1) / 2) in
    concat (map (fun ch => [hex_encode_digit (Z.land (Z.shiftr (bval ch) 4) 0xF);
                            hex_encode_digit (Z.land (bval ch) 0xF)])
              (take (Z.to_nat srclen) csource)).

Fixpoint hex_decode_loop (room : Z) (source : bytes) : bytes :=
  match source with
  | a :: b :: source =>
      if room <=? 1 then []
      else
        let v1 := u8 (Z.shiftl (hex_decode_digit a) 4) in
        let v2 := hex_decode_digit b in
        byt (Z.lor v1 v2) :: hex_decode_loop (room - 1) source
  | _ => []
  end.

Definition hex_decode (buflen : Z) (source : bytes) : bytes :=
  if buflen <=? 0 then [] else hex_decode_loop buflen source.

Definition make_char_safe_for_filename (c : Init.Byte.byte) : Init.Byte.byte :=
  if swrap 8 (bval c) <? 32 then "_"%byte
  else if bool_decide (c ∈ bs "<>:/\|*?" ++ [x22]) then "_"%byte
  else c.

(** ** Small inputs *)

Example url_examples :
  s_url_encode (bs "a b&c%") = bs "a%20b%26c%25" /\ s_url_decode (bs "a+b%26c%25%4") = bs "a b&c%%4" /\
  url_encode 5 (bs "a b&c%") = bs "a%20".
Proof. vm_compute. auto. Qed.

Example xml_examples :
  xml_encode 40 (bs "a<b&'c'>") = bs "a&lt;b&amp;&apos;c&apos;&gt;" /\
  xml_decode 40 (bs "a&lt;b&#65;&#x20ac;&apos;") = bs "a<bA" ++ [xe2; x82; xac] ++ bs "'" /\
  xml_decode 3 (bs "&#x20ac;") = [xe2; x82; xac] /\
  html_encode 40 (bs "<" ++ [xe2; x82; xac]) = bs "&lt;&#8364;".
Proof. vm_compute. auto. Qed.

(** ** Round trips *)

Lemma byte_eqb_refl c : Byte.eqb c c = true.
Proof. by destruct (eqb_byte_spec c c). Qed.

Lemma hex_pair_digits ch :
  hex_pair (hex_encode_digit (Z.land (Z.shiftr (bval ch) 4) 0xF)) (hex_encode_digit (Z.land (bval ch) 0xF)) = ch.
Proof. by destruct ch. Qed.

(** A buffer that holds the longest encoding of every byte. *)
Ltac room_left := repeat match goal with |- context[?r <=? ?k] => destruct (Z.leb_spec r k); [lia|] end.

Lemma decode_encode_loop illegal esc s r r' :
  size s * 3 < r -> size s < r' -> decode_loop esc r' (encode_loop illegal esc r s) = s.
Proof.
  revert r r'. induction s as [|ch s IH]; intros r r' Hr Hr'; [done|].
  rewrite size_cons in Hr, Hr'. pose proof (size_nonneg s). cbn [encode_loop]. room_left.
  destruct (eqb_byte_spec ch esc) as [->|Hc]; cbn [negb andb].
  { room_left. cbn [hex_escape app decode_loop]. room_left.
    rewrite byte_eqb_refl, hex_pair_digits. f_equal. apply IH; lia. }
  destruct (strchr illegal ch); cbn [negb].
  { room_left. cbn [hex_escape app decode_loop]. room_left.
    rewrite byte_eqb_refl, hex_pair_digits. f_equal. apply IH; lia. }
  cbn [decode_loop]. room_left. specialize (IH (r - 1) (r' - 1) ltac:(lia) ltac:(lia)).
  destruct (encode_loop illegal esc (r - 1) s) as [|a [|b t]]; try (by rewrite IH).
  destruct (eqb_byte_spec ch esc); [done|]. by rewrite IH.
Qed.

Lemma url_decode_encode_loop s r r' :
  size s * 3 < r -> size s < r' -> url_decode_loop r' (url_encode_loop r s) = s.
Proof.
  revert r r'. induction s as [|ch s IH]; intros r r' Hr Hr'; [done|].
  rewrite size_cons in Hr, Hr'. pose proof (size_nonneg s). cbn [url_encode_loop]. room_left.
  destruct (unsafe URL_UNSAFE ch) eqn:Hu.
  { room_left. cbn [hex_escape app url_decode_loop]. room_left.
    change (Byte.eqb "%" "+") with false. change (Byte.eqb "%" "%") with true. cbv iota.
    rewrite hex_pair_digits. f_equal. apply IH; lia. }
  cbn [url_decode_loop]. room_left. specialize (IH (r - 1) (r' - 1) ltac:(lia) ltac:(lia)).
  destruct (eqb_byte_spec ch "+") as [->|_]; [done|].
  destruct (url_encode_loop (r - 1) s) as [|a [|b t]]; try (by rewrite IH).
  destruct (eqb_byte_spec ch "%") as [->|_]; [done|]. by rewrite IH.
Qed.

Lemma unescape_escape_loop illegal esc s r r' :
  size s * 2 < r -> size s < r' -> unescape_loop esc r' (escape_loop illegal esc r s) = s.
Proof.
  revert r r'. induction s as [|ch s IH]; intros r r' Hr Hr'; [done|].
  rewrite size_cons in Hr, Hr'. pose proof (size_nonneg s). cbn [escape_loop]. room_left.
  destruct (Byte.eqb ch esc || strchr illegal ch) eqn:E.
  { room_left. cbn [unescape_loop]. room_left. rewrite byte_eqb_refl. f_equal. apply IH; lia. }
  apply orb_false_iff in E as [E _]. cbn [unescape_loop]. room_left.
  specialize (IH (r - 1) (r' - 1) ltac:(lia) ltac:(lia)).
  destruct (escape_loop illegal esc (r - 1) s) as [|a t]; [by rewrite IH|]. rewrite E. by rewrite IH.
Qed.

Lemma hex_decode_encode_loop s r :
  size s < r ->
  hex_decode_loop r (concat (map (fun ch => [hex_encode_digit (Z.land (Z.shiftr (bval ch) 4) 0xF);
                            hex_encode_digit (Z.land (bval ch) 0xF)]) s)) = s.
Proof.
  revert r. induction s as [|ch s IH]; intros r Hr; [done|].
  rewrite size_cons in Hr. pose proof (size_nonneg s). cbn [map concat app hex_decode_loop]. room_left.
  f_equal; [by destruct ch|apply IH; lia].
Qed.

Lemma unsafe_xml ch :
  unsafe XML_UNSAFE ch =
  (Byte.eqb ch "<" || Byte.eqb ch ">" || Byte.eqb ch "'" || Byte.eqb ch x22 || Byte.eqb ch "&").
Proof. by destruct ch. Qed.

Lemma starts_with_app p t : starts_with (p ++ t) p = true.
Proof. unfold starts_with. by rewrite take_app_length, bool_decide_true. Qed.

(** An entity is taken back to its character, one of room. *)
Lemma xml_decode_entity fuel r ch t :
  1 < r -> unsafe XML_UNSAFE ch = true ->
  xml_decode_loop (S fuel) r (entity (bs "&apos;") ch ++ t) = ch :: xml_decode_loop fuel (r - 1) t.
Proof.
  intros Hr Hu. rewrite unsafe_xml in Hu.
  assert (ch = "<"%byte \/ ch = ">"%byte \/ ch = "'"%byte \/ ch = x22 \/ ch = "&"%byte) as Hch.
  { rewrite !orb_true_iff in Hu. destruct Hu as [[[[H|H]|H]|H]|H];
      apply Byte.byte_dec_bl in H; auto 10. }
  assert ((r <=? 1) = false) as El by (apply Z.leb_gt; lia).
  destruct Hch as [->|[->|[->|[->| ->]]]]; cbn [entity Byte.eqb];
    (match goal with |- xml_decode_loop _ _ (?e ++ t) = _ =>
       let l := eval vm_compute in e in change e with l end);
    cbn [app xml_decode_loop]; rewrite El; cbn [Byte.eqb negb];
    unfold starts_with; cbn [length bs String.list_byte_of_string take drop];
    repeat (rewrite bool_decide_true by done || rewrite bool_decide_false by congruence); done.
Qed.

Lemma xml_decode_plain fuel r ch t :
  1 < r -> unsafe XML_UNSAFE ch = false ->
  xml_decode_loop (S fuel) r (ch :: t) = ch :: xml_decode_loop fuel (r - 1) t.
Proof.
  intros Hr Hu. rewrite unsafe_xml, !orb_false_iff in Hu. destruct Hu as [_ Hu].
  cbn [xml_decode_loop]. destruct (Z.leb_spec r 1); [lia|]. by rewrite Hu.
Qed.

Lemma size_entity apos ch : size apos <= 6 -> size (entity apos ch) <= 6.
Proof.
  intros Ha. unfold entity. repeat (destruct (Byte.eqb _ _); [done|]). done.
Qed.

Lemma xml_decode_encode_loop s r r' fuel :
  size s * 6 < r -> size s < r' -> (length s <= fuel)%nat ->
  xml_decode_loop fuel r' (xml_encode_loop r s) = s.
Proof.
  revert r r' fuel. induction s as [|ch s IH]; intros r r' fuel Hr Hr' Hf; [by destruct fuel|].
  destruct fuel as [|fuel]; [cbn in Hf; lia|]. cbn [length] in Hf.
  rewrite size_cons in Hr, Hr'. pose proof (size_nonneg s). cbn [xml_encode_loop]. room_left.
  destruct (unsafe XML_UNSAFE ch) eqn:E.
  - pose proof (size_entity (bs "&apos;") ch ltac:(done)). room_left.
    rewrite xml_decode_entity by (done || lia). f_equal. apply IH; lia.
  - rewrite xml_decode_plain by (done || lia). f_equal. apply IH; lia.
Qed.

Lemma length_xml_encode_loop s r :
  size s * 6 < r -> (length s <= length (xml_encode_loop r s))%nat.
Proof.
  revert r. induction s as [|ch s IH]; intros r Hr; [done|].
  rewrite size_cons in Hr. pose proof (size_nonneg s). cbn [xml_encode_loop]. room_left.
  destruct (unsafe XML_UNSAFE ch) eqn:E.
  - pose proof (size_entity (bs "&apos;") ch ltac:(done)). room_left.
    rewrite length_app. specialize (IH (r - size (entity (bs "&apos;") ch)) ltac:(lia)).
    assert (0 < length (entity (bs "&apos;") ch))%nat; [|cbn [length]; lia].
    rewrite unsafe_xml in E. unfold entity.
    repeat (destruct (Byte.eqb _ _); [cbn; lia|]). done.
  - specialize (IH (r - 1) ltac:(lia)). cbn [length]. lia.
Qed.

(** Facts about bytes, byte by byte. *)
Lemma bytes_in_range (P : Z -> bool) lo hi :
  0 <= lo -> forallb P (map (fun k => lo + Z.of_nat k) (seq 0 (Z.to_nat (hi - lo)))) = true ->
  forall b, lo <= b < hi -> P b = true.
Proof.
  intros Hlo HP b Hb. rewrite forallb_forall in HP. apply HP, in_map_iff.
  exists (Z.to_nat (b - lo)). split; [lia|]. apply in_seq. lia.
Qed.

Lemma continuation_byte b : 128 <= b < 192 -> Z.land b 0xC0 = 0x80 /\ Z.land b 0x3F = b - 128.
Proof.
  intros Hb. assert ((Z.land b 0xC0 =? 0x80) && (Z.land b 0x3F =? b - 128) = true) as E.
  { revert b Hb. apply bytes_in_range; [lia|]. vm_compute. reflexivity. }
  apply andb_true_iff in E as [?%Z.eqb_eq ?%Z.eqb_eq]. done.
Qed.

(** The leading byte of a sequence of two, three and four. *)
Lemma leading_byte2 b : 192 <= b < 224 ->
  Z.land b 0x80 <> 0 /\ Z.land b 0xE0 = 0xC0 /\ Z.land b 0x1F = b - 192.
Proof.
  intros Hb. assert (negb (Z.land b 0x80 =? 0) && (Z.land b 0xE0 =? 0xC0) && (Z.land b 0x1F =? b - 192) = true) as E.
  { revert b Hb. apply bytes_in_range; [lia|]. vm_compute. reflexivity. }
  apply andb_true_iff in E as [[?%negb_true_iff%Z.eqb_neq ?%Z.eqb_eq]%andb_true_iff ?%Z.eqb_eq]. done.
Qed.
Lemma leading_byte3 b : 224 <= b < 240 ->
  Z.land b 0x80 <> 0 /\ Z.land b 0xE0 <> 0xC0 /\ Z.land b 0xF0 = 0xE0 /\ Z.land b 0x0F = b - 224.
Proof.
  intros Hb. assert (negb (Z.land b 0x80 =? 0) && negb (Z.land b 0xE0 =? 0xC0) &&
    (Z.land b 0xF0 =? 0xE0) && (Z.land b 0x0F =? b - 224) = true) as E.
  { revert b Hb. apply bytes_in_range; [lia|]. vm_compute. reflexivity. }
  rewrite !andb_true_iff, !negb_true_iff, !Z.eqb_neq, !Z.eqb_eq in E. by destruct E as [[[? ?] ?] ?].
Qed.
Lemma leading_byte4 b : 240 <= b < 248 ->
  Z.land b 0x80 <> 0 /\ Z.land b 0xE0 <> 0xC0 /\ Z.land b 0xF0 <> 0xE0 /\ Z.land b 0xF8 = 0xF0 /\
  Z.land b 0x07 = b - 240.
Proof.
  intros Hb. assert (negb (Z.land b 0x80 =? 0) && negb (Z.land b 0xE0 =? 0xC0) &&
    negb (Z.land b 0xF0 =? 0xE0) && (Z.land b 0xF8 =? 0xF0) && (Z.land b 0x07 =? b - 240) = true) as E.
  { revert b Hb. apply bytes_in_range; [lia|]. vm_compute. reflexivity. }
  rewrite !andb_true_iff, !negb_true_iff, !Z.eqb_neq, !Z.eqb_eq in E. by destruct E as [[[[? ?] ?] ?] ?].
Qed.

Lemma lor_high p k x : 0 <= k -> 0 <= x < 2 ^ k -> Z.lor (Z.shiftl p k) x = p * 2 ^ k + x.
Proof. intros Hk Hx. rewrite Z.lor_comm, lor_shiftl_add by done. lia. Qed.

(** Six bits at [k] of a value, as a continuation byte. *)
Lemma tail_byte v k :
  bval (byt (Z.lor 0x80 (Z.land (Z.shiftr v k) 0x3F))) = 128 + Z.shiftr v k mod 64.
Proof.
  change 0x3F with (Z.ones 6). rewrite Z.land_ones by lia. change (2 ^ 6) with 64.
  pose proof (Z.mod_pos_bound (Z.shiftr v k) 64 ltac:(lia)).
  change (Z.lor 0x80 ?x) with (Z.lor (Z.shiftl 2 6) x). rewrite lor_high, bval_byt by lia. lia.
Qed.

Lemma lead_byte p k x : 0 <= k -> 0 <= x < 2 ^ k -> p * 2 ^ k + x < 256 -> 0 <= p ->
  bval (byt (Z.lor (Z.shiftl p k) (u8 x))) = p * 2 ^ k + x.
Proof.
  intros Hk Hx Hp Hp0. assert (0 <= p * 2 ^ k) by nia. rewrite (wrap_small 8 x) by (change (2 ^ 8) with 256; lia).
  rewrite lor_high by lia. apply bval_byt. lia.
Qed.

Lemma lead2 x : 0 <= x < 32 -> bval (byt (Z.lor 0xC0 (u8 x))) = 192 + x.
Proof. intros Hx. apply (lead_byte 6 5 x); lia. Qed.
Lemma lead3 x : 0 <= x < 16 -> bval (byt (Z.lor 0xE0 (u8 x))) = 224 + x.
Proof. intros Hx. apply (lead_byte 14 4 x); lia. Qed.
Lemma lead4 x : 0 <= x < 8 -> bval (byt (Z.lor 0xF0 (u8 x))) = 240 + x.
Proof. intros Hx. apply (lead_byte 30 3 x); lia. Qed.

Lemma eqb_neq_false a b : a <> b -> (a =? b) = false.
Proof. by intros ?%Z.eqb_neq. Qed.

(** Decoding by the number of bytes the leading one announces. *)
Lemma utf8_decode1 b rest : 0 <= bval b < 128 -> utf8_decode (b :: rest) = Some (1%nat, bval b).
Proof.
  intros Hb. unfold utf8_decode. cbn [nth].
  assert ((Z.land (bval b) 0x80 =? 0) = true) as ->; [|done].
  apply (bytes_in_range (fun b => Z.land b 0x80 =? 0) 0 128); [lia|vm_compute; reflexivity|lia].
Qed.

Lemma utf8_decode2 b0 b1 x y1 rest :
  bval b0 = 192 + x -> bval b1 = 128 + y1 -> 0 <= x < 32 -> 0 <= y1 < 64 ->
  utf8_decode (b0 :: b1 :: rest) = Some (2%nat, x * 64 + y1).
Proof.
  intros E0 E1 Hx Hy. pose proof (size_nonneg rest). unfold utf8_decode. cbn [nth]. rewrite !size_cons, E0, E1.
  destruct (leading_byte2 (192 + x)) as (N & E & E'); [lia|].
  destruct (continuation_byte (128 + y1)) as [C C']; [lia|].
  rewrite (eqb_neq_false _ _ N), E, E', C, C'. cbn [Z.eqb Pos.eqb negb orb].
  destruct (Z.ltb_spec (1 + (1 + size rest)) 2); [lia|]. cbn [orb].
  rewrite lor_high by (change (2 ^ 6) with 64; lia). do 2 f_equal. change (2 ^ 6) with 64. lia.
Qed.

Lemma utf8_decode3 b0 b1 b2 x y1 y2 rest :
  bval b0 = 224 + x -> bval b1 = 128 + y1 -> bval b2 = 128 + y2 ->
  0 <= x < 16 -> 0 <= y1 < 64 -> 0 <= y2 < 64 ->
  utf8_decode (b0 :: b1 :: b2 :: rest) = Some (3%nat, x * 4096 + y1 * 64 + y2).
Proof.
  intros E0 E1 E2 Hx Hy1 Hy2. pose proof (size_nonneg rest).
  unfold utf8_decode. cbn [nth]. rewrite !size_cons, E0, E1, E2.
  destruct (leading_byte3 (224 + x)) as (N & N' & E & E'); [lia|].
  destruct (continuation_byte (128 + y1)) as [C1 C1']; [lia|].
  destruct (continuation_byte (128 + y2)) as [C2 C2']; [lia|].
  rewrite (eqb_neq_false _ _ N), (eqb_neq_false _ _ N'), E, E', C1, C1', C2, C2'.
  cbn [Z.eqb Pos.eqb negb orb].
  destruct (Z.ltb_spec (1 + (1 + (1 + size rest))) 2); [lia|].
  destruct (Z.ltb_spec (1 + (1 + (1 + size rest))) 3); [lia|]. cbn [orb].
  rewrite !(lor_high _ 6) by (change (2 ^ 6) with 64; lia).
  rewrite (lor_high _ 12) by (change (2 ^ 6) with 64; change (2 ^ 12) with 4096; lia). do 2 f_equal.
  change (2 ^ 6) with 64. change (2 ^ 12) with 4096. lia.
Qed.

Lemma utf8_decode4 b0 b1 b2 b3 x y1 y2 y3 rest :
  bval b0 = 240 + x -> bval b1 = 128 + y1 -> bval b2 = 128 + y2 -> bval b3 = 128 + y3 ->
  0 <= x < 8 -> 0 <= y1 < 64 -> 0 <= y2 < 64 -> 0 <= y3 < 64 ->
  utf8_decode (b0 :: b1 :: b2 :: b3 :: rest) = Some (4%nat, x * 262144 + y1 * 4096 + y2 * 64 + y3).
Proof.
  intros E0 E1 E2 E3 Hx Hy1 Hy2 Hy3. pose proof (size_nonneg rest).
  unfold utf8_decode. cbn [nth]. rewrite !size_cons, E0, E1, E2, E3.
  destruct (leading_byte4 (240 + x)) as (N & N' & N'' & E & E'); [lia|].
  destruct (continuation_byte (128 + y1)) as [C1 C1']; [lia|].
  destruct (continuation_byte (128 + y2)) as [C2 C2']; [lia|].
  destruct (continuation_byte (128 + y3)) as [C3 C3']; [lia|].
  rewrite (eqb_neq_false _ _ N), (eqb_neq_false _ _ N'), (eqb_neq_false _ _ N''), E, E', C1, C1', C2, C2', C3, C3'.
  cbn [Z.eqb Pos.eqb negb orb].
  destruct (Z.ltb_spec (1 + (1 + (1 + (1 + size rest)))) 2); [lia|].
  destruct (Z.ltb_spec (1 + (1 + (1 + (1 + size rest)))) 3); [lia|].
  destruct (Z.ltb_spec (1 + (1 + (1 + (1 + size rest)))) 4); [lia|]. cbn [orb].
  rewrite !(lor_high _ 6) by (change (2 ^ 6) with 64; lia).
  rewrite (lor_high _ 18) by (change (2 ^ 6) with 64; change (2 ^ 18) with 262144; lia). do 2 f_equal.
  change (2 ^ 6) with 64. change (2 ^ 12) with 4096. change (2 ^ 18) with 262144. lia.
Qed.

Lemma utf8_decode_encode n v rest :
  0 <= v < 2 ^ 21 -> 4 <= n ->
  utf8_decode (utf8_encode n v ++ rest) = Some (length (utf8_encode n v), v).
Proof.
  intros Hv Hn. unfold utf8_encode. cbv zeta.
  repeat match goal with |- context[?a <=? n] => destruct (Z.leb_spec a n); [|lia] end.
  rewrite !andb_true_r. destruct (Z.leb_spec v 0x7F).
  { cbn [app length]. rewrite utf8_decode1; rewrite bval_byt; done || lia. }
  pose proof (tail_byte v) as T.
  assert (forall k, 0 <= k -> 0 <= Z.shiftr v k mod 64 < 64 /\ Z.shiftr v k = v / 2 ^ k) as Hm
    by (intros; split; [apply Z.mod_pos_bound; lia|by apply Z.shiftr_div_pow2]).
  pose proof (Hm 0 ltac:(lia)) as [M0 D0]. pose proof (Hm 6 ltac:(lia)) as [M6 D6].
  pose proof (Hm 12 ltac:(lia)) as [M12 D12]. pose proof (Hm 18 ltac:(lia)) as [M18 D18].
  change (2 ^ 0) with 1 in D0. change (2 ^ 6) with 64 in D6. change (2 ^ 12) with 4096 in D12.
  change (2 ^ 18) with 262144 in D18.
  destruct (Z.leb_spec v 0x7FF); [|destruct (Z.leb_spec v 0xFFFF); [|destruct (Z.leb_spec v 0x1FFFFF); [|lia]]];
    cbn [app length].
  - assert (0 <= Z.shiftr v 6 < 32) as H6 by (rewrite D6; Z.to_euclidean_division_equations; lia).
    rewrite (utf8_decode2 _ _ _ _ rest (lead2 _ H6) (T 0)) by done. do 2 f_equal.
    rewrite D6, D0. Z.to_euclidean_division_equations. lia.
  - assert (0 <= Z.shiftr v 12 < 16) as H12 by (rewrite D12; Z.to_euclidean_division_equations; lia).
    rewrite (utf8_decode3 _ _ _ _ _ _ rest (lead3 _ H12) (T 6) (T 0)) by done. do 2 f_equal.
    rewrite D12, D6, D0. Z.to_euclidean_division_equations. lia.
  - assert (0 <= Z.shiftr v 18 < 8) as H18 by (rewrite D18; Z.to_euclidean_division_equations; lia).
    rewrite (utf8_decode4 _ _ _ _ _ _ _ _ rest (lead4 _ H18) (T 12) (T 6) (T 0)) by done. do 2 f_equal.
    rewrite D18, D12, D6, D0. Z.to_euclidean_division_equations. lia.
Qed.

Lemma size_url_encode_loop s r : size s * 3 < r -> size s <= size (url_encode_loop r s).
Proof.
  revert r. induction s as [|ch s IH]; intros r Hr; [done|].
  rewrite size_cons in Hr. pose proof (size_nonneg s). cbn [url_encode_loop]. room_left.
  destruct (unsafe URL_UNSAFE ch); [room_left|].
  - specialize (IH (r - 3) ltac:(lia)). rewrite size_app, !size_cons.
    change (size (hex_escape "%" ch)) with 3. lia.
  - specialize (IH (r - 1) ltac:(lia)). rewrite !size_cons. lia.
Qed.


