(* ===== verification/Http.v ===== *)
(** * HTTP names and header attributes (src/cwf/http.h, src/cwf/http.cc)

    The enumerations with their texts, the classes of status codes and
    headers, attribute lists, and dates.  [mktime] and [timezone] are libc's;
    the [sscanf] of the date format is written out as a small interpreter of
    the directives it uses. *)

From S2P Require Import Prelude CString.

Inductive HttpStatusCode :=
| HC_CONTINUE | HC_SWITCHING_PROTOCOLS | HC_PROCESSING
| HC_OK | HC_CREATED | HC_ACCEPTED | HC_NON_AUTHORATIVE_INFORMATION | HC_NO_CONTENT
| HC_RESET_CONTENT | HC_PARTIAL_CONTENT | HC_MULTI_STATUS
| HC_MULTIPLE_CHOICES | HC_MOVED_PERMANENTLY | HC_FOUND | HC_SEE_OTHER | HC_NOT_MODIFIED
| HC_USE_PROXY | HC_SWITCH_PROXY | HC_TEMPORARY_REDIRECT
| HC_BAD_REQUEST | HC_UNAUTHORIZED | HC_PAYMENT_REQUIRED | HC_FORBIDDEN | HC_NOT_FOUND
| HC_METHOD_NOT_ALLOWED | HC_NOT_ACCEPTABLE | HC_PROXY_AUTHENTICATION_REQUIRED
| HC_REQUEST_TIMEOUT | HC_CONFLICT | HC_GONE | HC_LENGTH_REQUIRED | HC_PRECONDITION_FAILED
| HC_REQUEST_ENTITY_TOO_LARGE | HC_REQUEST_URI_TOO_LONG | HC_UNSUPPORTED_MEDIA_TYPE
| HC_REQUEST_RANGE_NOT_SATISFIABLE | HC_EXPECTATION_FAILED
| HC_UNPROCESSABLE_ENTITY | HC_LOCKED | HC_FAILED_DEPENDENCY | HC_UNORDERED_COLLECTION
| HC_UPGRADE_REQUIRED | HC_RETRY_WITH
| HC_INTERNAL_SERVER_ERROR | HC_NOT_IMPLEMENTED | HC_BAD_GATEWAY | HC_SERVICE_UNAVAILABLE
| HC_GATEWAY_TIMEOUT | HC_HTTP_VERSION_NOT_SUPPORTED | HC_INSUFFICIENT_STORAGE
| HC_BANDWIDTH_LIMIT_EXCEEDED.

(** The number an enumerator stands for. *)
Definition code_value (c : HttpStatusCode) : Z :=
  match c with
  | HC_CONTINUE => 100 | HC_SWITCHING_PROTOCOLS => 101 | HC_PROCESSING => 102
  | HC_OK => 200 | HC_CREATED => 201 | HC_ACCEPTED => 202 | HC_NON_AUTHORATIVE_INFORMATION => 203
  | HC_NO_CONTENT => 204 | HC_RESET_CONTENT => 205 | HC_PARTIAL_CONTENT => 206 | HC_MULTI_STATUS => 207
  | HC_MULTIPLE_CHOICES => 300 | HC_MOVED_PERMANENTLY => 301 | HC_FOUND => 302 | HC_SEE_OTHER => 303
  | HC_NOT_MODIFIED => 304 | HC_USE_PROXY => 305 | HC_SWITCH_PROXY => 306 | HC_TEMPORARY_REDIRECT => 307
  | HC_BAD_REQUEST => 400 | HC_UNAUTHORIZED => 401 | HC_PAYMENT_REQUIRED => 402 | HC_FORBIDDEN => 403
  | HC_NOT_FOUND => 404 | HC_METHOD_NOT_ALLOWED => 405 | HC_NOT_ACCEPTABLE => 406
  | HC_PROXY_AUTHENTICATION_REQUIRED => 407 | HC_REQUEST_TIMEOUT => 408 | HC_CONFLICT => 409
  | HC_GONE => 410 | HC_LENGTH_REQUIRED => 411 | HC_PRECONDITION_FAILED => 412
  | HC_REQUEST_ENTITY_TOO_LARGE => 413 | HC_REQUEST_URI_TOO_LONG => 414
  | HC_UNSUPPORTED_MEDIA_TYPE => 415 | HC_REQUEST_RANGE_NOT_SATISFIABLE => 416
  | HC_EXPECTATION_FAILED => 417 | HC_UNPROCESSABLE_ENTITY => 422 | HC_LOCKED => 423
  | HC_FAILED_DEPENDENCY => 424 | HC_UNORDERED_COLLECTION => 425 | HC_UPGRADE_REQUIRED => 426
  | HC_RETRY_WITH => 449
  | HC_INTERNAL_SERVER_ERROR => 500 | HC_NOT_IMPLEMENTED => 501 | HC_BAD_GATEWAY => 502
  | HC_SERVICE_UNAVAILABLE => 503 | HC_GATEWAY_TIMEOUT => 504 | HC_HTTP_VERSION_NOT_SUPPORTED => 505
  | HC_INSUFFICIENT_STORAGE => 506 | HC_BANDWIDTH_LIMIT_EXCEEDED => 509
  end.

#[export] Instance HttpStatusCode_eq_decision : EqDecision HttpStatusCode.
Proof. solve_decision. Defined.

Inductive HttpVersion := HVER_1_0 | HVER_1_1 | HVER_X.

Inductive HttpVerb := HV_GET | HV_POST | HV_PUT | HV_DELETE | HV_CONNECT | HV_HEAD.

#[export] Instance HttpVerb_eq_decision : EqDecision HttpVerb.
Proof. solve_decision. Defined.

Inductive HttpHeader :=
| HH_ACCEPT | HH_ACCEPT_CHARSET | HH_ACCEPT_ENCODING | HH_ACCEPT_LANGUAGE | HH_AGE
| HH_CACHE_CONTROL | HH_CONNECTION | HH_CONTENT_LENGTH | HH_CONTENT_RANGE | HH_CONTENT_TYPE
| HH_COOKIE | HH_DATE | HH_ETAG | HH_EXPIRES | HH_HOST | HH_IF_MODIFIED_SINCE | HH_IF_NONE_MATCH
| HH_KEEP_ALIVE | HH_LAST_MODIFIED | HH_LOCATION | HH_PROXY_AUTHENTICATE | HH_PROXY_AUTHORIZATION
| HH_PROXY_CONNECTION | HH_RANGE | HH_SERVER | HH_SET_COOKIE | HH_TE | HH_TRAILERS
| HH_TRANSFER_ENCODING | HH_UPGRADE | HH_USER_AGENT | HH_WWW_AUTHENTICATE.

#[export] Instance HttpHeader_eq_decision : EqDecision HttpHeader.
Proof. solve_decision. Defined.

(** ** Names *)

(** [strcasecmp] of two C strings, as an equality. *)
Definition lower (c : Init.Byte.byte) : Init.Byte.byte :=
  let v := bval c in if (65 <=? v) && (v <=? 90) then byt (v + 32) else c.
Definition same_name (a b : bytes) : bool :=
  bool_decide (map lower (c_str a) = map lower (c_str b)).

(** The index of the first name that is the same. *)
Fixpoint find_string (needle : bytes) (haystack : list bytes) : option nat :=
  match haystack with
  | [] => None
  | h :: haystack => if same_name needle h then Some O else S <$> find_string needle haystack
  end.

(** An enumeration with its table of names, in the order of its values. *)
Class Enum (E : Type) := { Values : list E; Names : list bytes; index : E -> nat }.

Definition Name `{Enum E} (val : E) : bytes := nth (index val) Names [].
Definition Parse `{Enum E} (name : bytes) : option E :=
  i ← find_string name Names; Values !! i.

#[export] Instance HttpVersion_enum : Enum HttpVersion := {|
  Values := [HVER_1_0; HVER_1_1; HVER_X];
  Names := [bs "1.0"; bs "1.1"; bs "1.x"];
  index v := match v with HVER_1_0 => 0 | HVER_1_1 => 1 | HVER_X => 2 end%nat |}.

#[export] Instance HttpVerb_enum : Enum HttpVerb := {|
  Values := [HV_GET; HV_POST; HV_PUT; HV_DELETE; HV_CONNECT; HV_HEAD];
  Names := [bs "GET"; bs "POST"; bs "PUT"; bs "DELETE"; bs "CONNECT"; bs "HEAD"];
  index v := match v with HV_GET => 0 | HV_POST => 1 | HV_PUT => 2 | HV_DELETE => 3 | HV_CONNECT => 4
             | HV_HEAD => 5 end%nat |}.

Definition kHttpHeaders : list bytes :=
  [bs "Accept"; bs "Accept-Charset"; bs "Accept-Encoding"; bs "Accept-Language"; bs "Age";
   bs "Cache-Control"; bs "Connection"; bs "Content-Length"; bs "Content-Range"; bs "Content-Type";
   bs "Cookie"; bs "Date"; bs "ETag"; bs "Expires"; bs "Host"; bs "If-Modified-Since";
   bs "If-None-Match"; bs "Keep-Alive"; bs "Last-Modified"; bs "Location"; bs "Proxy-Authenticate";
   bs "Proxy-Authorization"; bs "Proxy-Connection"; bs "Range"; bs "Server"; bs "Set-Cookie"; bs "TE";
   bs "Trailers"; bs "Transfer-Encoding"; bs "Upgrade"; bs "User-Agent"; bs "WWW-Authenticate"].

#[export] Instance HttpHeader_enum : Enum HttpHeader := {|
  Values := [HH_ACCEPT; HH_ACCEPT_CHARSET; HH_ACCEPT_ENCODING; HH_ACCEPT_LANGUAGE; HH_AGE;
    HH_CACHE_CONTROL; HH_CONNECTION; HH_CONTENT_LENGTH; HH_CONTENT_RANGE; HH_CONTENT_TYPE;
    HH_COOKIE; HH_DATE; HH_ETAG; HH_EXPIRES; HH_HOST; HH_IF_MODIFIED_SINCE; HH_IF_NONE_MATCH;
    HH_KEEP_ALIVE; HH_LAST_MODIFIED; HH_LOCATION; HH_PROXY_AUTHENTICATE; HH_PROXY_AUTHORIZATION;
    HH_PROXY_CONNECTION; HH_RANGE; HH_SERVER; HH_SET_COOKIE; HH_TE; HH_TRAILERS;
    HH_TRANSFER_ENCODING; HH_UPGRADE; HH_USER_AGENT; HH_WWW_AUTHENTICATE];
  Names := kHttpHeaders;
  index h := match h with
    | HH_ACCEPT => 0 | HH_ACCEPT_CHARSET => 1 | HH_ACCEPT_ENCODING => 2 | HH_ACCEPT_LANGUAGE => 3
    | HH_AGE => 4 | HH_CACHE_CONTROL => 5 | HH_CONNECTION => 6 | HH_CONTENT_LENGTH => 7
    | HH_CONTENT_RANGE => 8 | HH_CONTENT_TYPE => 9 | HH_COOKIE => 10 | HH_DATE => 11 | HH_ETAG => 12
    | HH_EXPIRES => 13 | HH_HOST => 14 | HH_IF_MODIFIED_SINCE => 15 | HH_IF_NONE_MATCH => 16
    | HH_KEEP_ALIVE => 17 | HH_LAST_MODIFIED => 18 | HH_LOCATION => 19 | HH_PROXY_AUTHENTICATE => 20
    | HH_PROXY_AUTHORIZATION => 21 | HH_PROXY_CONNECTION => 22 | HH_RANGE => 23 | HH_SERVER => 24
    | HH_SET_COOKIE => 25 | HH_TE => 26 | HH_TRAILERS => 27 | HH_TRANSFER_ENCODING => 28
    | HH_UPGRADE => 29 | HH_USER_AGENT => 30 | HH_WWW_AUTHENTICATE => 31 end%nat |}.

(** ** Classes of codes and headers *)

Definition HttpCodeIsInformational (code : Z) : bool := u32 code / 100 =? 1.
Definition HttpCodeIsSuccessful (code : Z) : bool := u32 code / 100 =? 2.
Definition HttpCodeIsRedirection (code : Z) : bool := u32 code / 100 =? 3.
Definition HttpCodeIsClientError (code : Z) : bool := u32 code / 100 =? 4.
Definition HttpCodeIsServerError (code : Z) : bool := u32 code / 100 =? 5.

Definition HttpCodeHasBody (code : Z) : bool :=
  negb (HttpCodeIsInformational code) && negb (u32 code =? 204) && negb (u32 code =? 304).

Definition HttpCodeIsCacheable (code : Z) : bool :=
  let code := u32 code in
  (code =? 200) || (code =? 401) || (code =? 206) || (code =? 300) || (code =? 301) || (code =? 410).

Definition HttpHeaderIsEndToEnd (header : HttpHeader) : bool :=
  match header with
  | HH_CONNECTION | HH_KEEP_ALIVE | HH_PROXY_AUTHENTICATE | HH_PROXY_AUTHORIZATION | HH_TE
  | HH_TRAILERS | HH_TRANSFER_ENCODING | HH_UPGRADE => false
  | _ => true
  end.

Definition HttpHeaderIsCollapsible (header : HttpHeader) : bool :=
  match header with
  | HH_SET_COOKIE | HH_PROXY_AUTHENTICATE | HH_WWW_AUTHENTICATE => false
  | _ => true
  end.

(** ** Attribute lists: [name], [name=value] or [name="quoted value"], separated by blanks and commas *)

Definition quote_mark : Init.Byte.byte := x22.

(** [data] is the text from the current position on. *)
Definition IsEndOfAttributeName (data : bytes) : bool :=
  match data with
  | [] => true
  | c :: rest => isspace c
      || match rest with
         | d :: _ => Byte.eqb c "=" && negb (isspace d) && negb (Byte.eqb d "=")
         | [] => false
         end
  end.

Fixpoint attribute_name (data : bytes) : bytes * bytes :=
  match data with
  | [] => ([], [])
  | c :: rest =>
      if IsEndOfAttributeName data then ([], data)
      else let '(name, rest) := attribute_name rest in (c :: name, rest)
  end.

(** The text after the opening quote: a backslash stands for the character that follows it. *)
Fixpoint quoted_value (data : bytes) : bytes * bytes :=
  match data with
  | [] => ([], [])
  | c :: rest =>
      if Byte.eqb c quote_mark then ([], rest)
      else match rest with
           | d :: rest' =>
               if Byte.eqb c "\" then let '(v, r) := quoted_value rest' in (d :: v, r)
               else let '(v, r) := quoted_value rest in (c :: v, r)
           | [] => ([c], [])
           end
  end.

Fixpoint plain_value (data : bytes) : bytes * bytes :=
  match data with
  | [] => ([], [])
  | c :: rest =>
      if isspace c || Byte.eqb c "," then ([], data)
      else let '(v, r) := plain_value rest in (c :: v, r)
  end.

Definition HttpAttribute : Type := bytes * bytes.

Definition attribute_value (data : bytes) : bytes * bytes :=
  match data with
  | c :: rest =>
      if Byte.eqb c "=" then
        match rest with
        | q :: rest' => if Byte.eqb q quote_mark then quoted_value rest' else plain_value rest
        | [] => ([], [])
        end
      else ([], data)
  | [] => ([], [])
  end.

(** One turn per attribute; [None] when the turns run out. *)
Fixpoint attributes_loop (fuel : nat) (data : bytes) : option (list HttpAttribute) :=
  match skip_space data with
  | [] => Some []
  | data =>
      match fuel with
      | O => None
      | S fuel =>
          let '(name, data) := attribute_name data in
          let '(value, data) := attribute_value data in
          let data := match data with
                      | c :: rest => if Byte.eqb c "," then rest else data
                      | [] => []
                      end in
          cons (name, value) <$> attributes_loop fuel data
      end
  end.

Definition HttpParseAttributes (data : bytes) : option (list HttpAttribute) :=
  attributes_loop (length data) data.

Definition HttpHasAttribute (attributes : list HttpAttribute) (name : bytes) : option bytes :=
  snd <$> List.find (fun a => bool_decide (a.1 = name)) attributes.

Definition HttpHasNthAttribute (attributes : list HttpAttribute) (index : Z) : option HttpAttribute :=
  if Z.of_nat (length attributes) <=? index then None else attributes !! Z.to_nat index.

(** ** Dates *)

(** The directives of [sscanf] the date format uses: a literal character (a
    blank stands for any run of blanks), [%*ns], [%ns], [%d] and [%nc]. *)
Inductive directive := DLit (c : Init.Byte.byte) | DSkip (n : nat) | DStr (n : nat) | DInt | DChars (n : nat).

Inductive scanned := SInt (z : Z) | SText (s : bytes).

(** At most [n] characters that are not blanks. *)
Fixpoint scan_word (n : nat) (s : bytes) : bytes * bytes :=
  match n, s with
  | S n, c :: s' => if isspace c then ([], s) else let '(w, r) := scan_word n s' in (c :: w, r)
  | _, _ => ([], s)
  end.

Fixpoint scan_number (s : bytes) (acc : Z) : Z * bytes :=
  match s with
  | c :: s' => if isdigit c then scan_number s' (acc * 10 + (bval c - 48)) else (acc, s)
  | [] => (acc, [])
  end.

Definition scan_int (s : bytes) : option (Z * bytes) :=
  let s := skip_space s in
  let '(negative, s) :=
    match s with
    | c :: s' => if Byte.eqb c "-" then (true, s') else if Byte.eqb c "+" then (false, s') else (false, s)
    | [] => (false, [])
    end in
  match s with
  | c :: _ =>
      if isdigit c
      then let '(n, s) := scan_number s 0 in
           Some (i32 (clamp (- 2 ^ 63) (2 ^ 63 - 1) (if negative then - n else n)), s)
      else None
  | [] => None
  end.

(** The values assigned before the first directive that does not match. *)
Fixpoint sscanf (format : list directive) (s : bytes) : list scanned :=
  match format with
  | [] => []
  | DLit c :: format =>
      if isspace c then sscanf format (skip_space s)
      else match s with
           | d :: s => if Byte.eqb c d then sscanf format s else []
           | [] => []
           end
  | DSkip n :: format =>
      match scan_word n (skip_space s) with ([], _) => [] | (_, s) => sscanf format s end
  | DStr n :: format =>
      match scan_word n (skip_space s) with ([], _) => [] | (w, s) => SText w :: sscanf format s end
  | DInt :: format =>
      match scan_int s with None => [] | Some (z, s) => SInt z :: sscanf format s end
  | DChars n :: format =>
      match s with [] => [] | _ => SText (take n s) :: sscanf format (drop n s) end
  end.

Definition date_format : list directive :=
  [DSkip 3; DLit ","; DLit " "; DInt; DLit " "; DStr 3; DLit " "; DInt; DLit " ";
   DInt; DLit ":"; DInt; DLit ":"; DInt; DLit " "; DChars 5].

Record tm := Tm { tm_sec : Z; tm_min : Z; tm_hour : Z; tm_mday : Z; tm_mon : Z; tm_year : Z }.

Definition toupper (c : Init.Byte.byte) : Init.Byte.byte :=
  let v := bval c in if (97 <=? v) && (v <=? 122) then byt (v - 32) else c.

Definition kTimeZones : list bytes :=
  map bs ["UT"; "GMT"; "EST"; "EDT"; "CST"; "CDT"; "MST"; "MDT"; "PST"; "PDT";
          "A"; "B"; "C"; "D"; "E"; "F"; "G"; "H"; "I"; "K"; "L"; "M";
          "N"; "O"; "P"; "Q"; "R"; "S"; "T"; "U"; "V"; "W"; "X"; "Y"]%string.
Definition kTimeZoneOffsets : list Z :=
  [0; 0; -5; -4; -6; -5; -7; -6; -8; -7;
   -1; -2; -3; -4; -5; -6; -7; -8; -9; -10; -11; -12;
   1; 2; 3; 4; 5; 6; 7; 8; 9; 10; 11; 12].

(** A local array of [n] bytes, zero where nothing was stored. *)
Definition array (n : nat) (s : bytes) : bytes := take n (s ++ replicate n x00).

Definition month_of (month : bytes) : Z :=
  let m k := nth k month x00 in
  match toupper (m 2%nat) with
  | "N"%byte => if Byte.eqb (m 1%nat) "A" then 0 else 5
  | "B"%byte => 1
  | "R"%byte => if Byte.eqb (m 0%nat) "M" then 2 else 3
  | "Y"%byte => 4
  | "L"%byte => 6
  | "G"%byte => 7
  | "P"%byte => 8
  | "T"%byte => 9
  | "V"%byte => 10
  | "C"%byte => 11
  | _ => 0
  end.

(** [mktime] and the global [timezone] are libc's. *)
Definition HttpDateToSeconds (mktime : tm -> Z) (timezone : Z) (date : bytes) : option Z :=
  match sscanf date_format (c_str date) with
  | [SInt mday; SText month; SInt year; SInt hour; SInt min; SInt sec; SText zone] =>
      let month := array 4 month in
      let zone := array 6 zone in
      let z k := nth k zone x00 in
      let digit k := bval (z k) - 48 in
      let non_gmt := u64 (mktime (Tm sec min hour mday (month_of month) (i32 (year - 1900)))) in
      gmt ← (if Byte.eqb (z 0%nat) "+" || Byte.eqb (z 0%nat) "-" then
               if negb (isdigit (z 1%nat)) || negb (isdigit (z 2%nat))
                  || negb (isdigit (z 3%nat)) || negb (isdigit (z 4%nat))
               then None
               else
                 let hours := digit 1%nat * 10 + digit 2%nat in
                 let minutes := digit 3%nat * 10 + digit 4%nat in
                 let offset := (hours * 60 + minutes) * 60 in
                 Some (u64 (if negb (u64 (non_gmt + (if Byte.eqb (z 0%nat) "+" then 1 else 0)) =? 0)
                            then offset else - offset))
             else
               zindex ← find_string zone kTimeZones;
               Some (u64 (non_gmt + nth zindex kTimeZoneOffsets 0 * 60 * 60)));
      Some (u64 (gmt - timezone))
  | _ => None
  end.

(** ** Names, attributes and dates read back *)

(** An enumerator's name is parsed to the enumerator. *)
Lemma Parse_Name_version (v : HttpVersion) : Parse (Name v) = Some v.
Proof. by destruct v. Qed.
Lemma Parse_Name_verb (v : HttpVerb) : Parse (Name v) = Some v.
Proof. by destruct v. Qed.
Lemma Parse_Name_header (h : HttpHeader) : Parse (Name h) = Some h.
Proof. by destruct h; vm_compute. Qed.

(** A position only moves forward. *)
Lemma length_skip_space s : (length (skip_space s) <= length s)%nat.
Proof. induction s as [|c s IH]; simpl; [done|]. destruct (isspace c); simpl; lia. Qed.

Lemma length_attribute_name data : (length (attribute_name data).2 <= length data)%nat.
Proof.
  induction data as [|c rest IH]; [done|]. cbn [attribute_name].
  destruct (IsEndOfAttributeName _); [done|]. destruct (attribute_name rest). simpl in *. lia.
Qed.

Lemma length_quoted_value data : (length (quoted_value data).2 <= length data)%nat.
Proof.
  remember (length data) as n eqn:E. revert data E.
  induction n as [n IH] using (well_founded_induction lt_wf); intros [|c [|d rest]] ->; [done| |].
  - cbn. by destruct (Byte.eqb c quote_mark); cbn; lia.
  - cbn [quoted_value]. destruct (Byte.eqb c quote_mark); [cbn; lia|].
    destruct (Byte.eqb c "\").
    + pose proof (IH (length rest) ltac:(simpl; lia) rest eq_refl) as L. fold quoted_value.
      destruct (quoted_value rest). simpl in *. lia.
    + pose proof (IH (length (d :: rest)) ltac:(simpl; lia) _ eq_refl) as L.
      change (length (let '(v, r) := quoted_value (d :: rest) in (c :: v, r)).2 <= length (c :: d :: rest))%nat.
      destruct (quoted_value (d :: rest)). simpl in *. lia.
Qed.

Lemma length_plain_value data : (length (plain_value data).2 <= length data)%nat.
Proof.
  induction data as [|c rest IH]; [done|]. cbn [plain_value].
  destruct (_ || _); [done|]. destruct (plain_value rest). simpl in *. lia.
Qed.

Lemma length_attribute_value c rest : Byte.eqb c "=" = true ->
  (length (attribute_value (c :: rest)).2 <= length rest)%nat.
Proof.
  intros E. cbn [attribute_value]. rewrite E. destruct rest as [|q rest']; [done|].
  destruct (Byte.eqb q quote_mark).
  - pose proof (length_quoted_value rest'). simpl in *. lia.
  - apply length_plain_value.
Qed.

(** An attribute takes at least one character. *)
Lemma attribute_progress c rest : isspace c = false ->
  let '(name, data) := attribute_name (c :: rest) in
  (length (attribute_value data).2 <= length rest)%nat.
Proof.
  intros Hc. cbn [attribute_name]. destruct (IsEndOfAttributeName (c :: rest)) eqn:E.
  - cbn [IsEndOfAttributeName] in E. rewrite Hc in E. simpl in E.
    apply length_attribute_value. destruct rest as [|d rest]; [done|].
    by apply andb_prop in E as [[E _]%andb_prop _].
  - pose proof (length_attribute_name rest) as L. destruct (attribute_name rest) as [name data].
    simpl in L. destruct data as [|e data]; [simpl; lia|].
    destruct (Byte.eqb e "=") eqn:Q.
    + pose proof (length_attribute_value e data Q). simpl in *. lia.
    + cbn [attribute_value]. rewrite Q. simpl in *. lia.
Qed.

Lemma skip_space_head s c rest : skip_space s = c :: rest -> isspace c = false.
Proof. induction s as [|d s IH]; simpl; [done|]. destruct (isspace d) eqn:E; [done|]. by intros [= -> _]. Qed.

(** The parser ends on every text. *)
Lemma HttpParseAttributes_total (data : bytes) : exists l, HttpParseAttributes data = Some l.
Proof.
  unfold HttpParseAttributes. generalize (le_n (length data)).
  generalize (length data) at 2 3 as fuel. intros fuel. revert data.
  induction fuel as [|fuel IH]; intros data L.
  - destruct data; [by exists []|simpl in L; lia].
  - cbn [attributes_loop]. pose proof (length_skip_space data) as L1.
    destruct (skip_space data) as [|c rest] eqn:E; [by exists []|].
    pose proof (attribute_progress c rest (skip_space_head _ _ _ E)) as Pr.
    destruct (attribute_name (c :: rest)) as [name d]. destruct (attribute_value d) as [value d2].
    simpl in Pr, L1.
    edestruct (IH (match d2 with
                   | c :: rest => if Byte.eqb c "," then rest else d2
                   | [] => []
                   end)) as [l ->]; [|by eexists].
    destruct d2 as [|e d2]; [simpl; lia|]. destruct (Byte.eqb e ","); simpl in *; lia.
Qed.

(** A value between quotes, with the quotes and backslashes in it escaped. *)
Definition quoted (v : bytes) : bytes :=
  quote_mark :: flat_map (fun c => if Byte.eqb c quote_mark || Byte.eqb c "\" then ["\"%byte; c] else [c]) v
  ++ [quote_mark].

(** An attribute list as a header shows it. *)
Definition show_attribute (a : HttpAttribute) : bytes := a.1 ++ "="%byte :: quoted a.2.
Fixpoint show_attributes (l : list HttpAttribute) : bytes :=
  match l with
  | [] => []
  | a :: l => show_attribute a ++ bs ", " ++ show_attributes l
  end.

Definition attribute_ok (a : HttpAttribute) : bool :=
  forallb (fun c => negb (isspace c) && negb (Byte.eqb c "=")) a.1.

Lemma quoted_value_read v rest : quoted_value (tail (quoted v) ++ rest) = (v, rest).
Proof.
  cbn [tail quoted]. induction v as [|c v IH]; [done|]. cbn [flat_map].
  destruct (Byte.eqb c quote_mark) eqn:Q; [|destruct (Byte.eqb c "\") eqn:B]; cbn [orb app quoted_value].
  - change (Byte.eqb "\" quote_mark) with false. change (Byte.eqb "\" "\") with true. cbn iota.
    by rewrite IH.
  - change (Byte.eqb "\" quote_mark) with false. change (Byte.eqb "\" "\") with true. cbn iota.
    by rewrite IH.
  - rewrite Q, B.
    destruct (flat_map _ v ++ [quote_mark]) as [|d l] eqn:E; [by destruct (flat_map _ v)|].
    cbn [app] in *. change (d :: l ++ rest) with ((d :: l) ++ rest) in *.
    by rewrite IH.
Qed.

Lemma attribute_name_read n v rest :
  forallb (fun c => negb (isspace c) && negb (Byte.eqb c "=")) n = true ->
  attribute_name (n ++ "="%byte :: quoted v ++ rest) = (n, "="%byte :: quoted v ++ rest).
Proof.
  induction n as [|c n IH]; [done|]. cbn [forallb app]. intros [Hc Hn]%andb_prop.
  apply andb_prop in Hc as [H1%negb_true_iff H2%negb_true_iff].
  cbn [attribute_name IsEndOfAttributeName]. rewrite H1, H2, (IH Hn).
  by destruct (n ++ _).
Qed.

(** What is shown between quotes is read back. *)
Lemma attributes_loop_read l fuel : Forall (fun a => attribute_ok a = true) l -> (length l <= fuel)%nat ->
  attributes_loop fuel (show_attributes l) = Some l.
Proof.
  revert fuel. induction l as [|[n v] l IH]; intros fuel Hl L; [by destruct fuel|].
  destruct fuel as [|fuel]; [simpl in L; lia|]. inv Hl.
  cbn [show_attributes attributes_loop show_attribute fst snd].
  assert (Hs : forall rest, skip_space (n ++ "="%byte :: rest) = n ++ "="%byte :: rest).
  { intros. destruct n as [|c n]; [done|]. unfold attribute_ok in *. cbn [fst forallb] in *.
    apply andb_prop in H1 as [[H1%negb_true_iff _]%andb_prop _]. cbn. by rewrite H1. }
  unfold show_attribute. cbn [fst snd]. rewrite <- app_assoc, <- app_comm_cons, Hs.
  destruct (n ++ _) as [|c0 d0] eqn:E; [by destruct n|]. rewrite <- E. clear E c0 d0.
  rewrite attribute_name_read by done. cbn [attribute_value].
  change (quoted v ++ ?r) with (quote_mark :: tail (quoted v) ++ r). cbn iota.
  change (Byte.eqb quote_mark quote_mark) with true. change (Byte.eqb "=" "=") with true. cbn iota.
  rewrite quoted_value_read. change (bs ", " ++ show_attributes l) with (","%byte :: " "%byte :: show_attributes l).
  assert (Hsp : attributes_loop fuel (" "%byte :: show_attributes l) = attributes_loop fuel (show_attributes l))
    by by destruct fuel.
  etransitivity; [exact (f_equal (fmap (cons (n, v))) Hsp)|].
  rewrite IH; [done|done|simpl in L; lia].
Qed.

Lemma length_show_attributes l : (length l <= length (show_attributes l))%nat.
Proof.
  induction l as [|a l IH]; [done|]. cbn [show_attributes]. unfold show_attribute.
  rewrite !length_app. simpl. lia.
Qed.

(** The attribute parser ends on every text, and reads back every list of
    attributes whose values are shown between quotes, whatever the values
    hold; an enumerator's name is parsed to that enumerator, in the three
    enumerations of names. *)
Theorem http_names_and_attributes :
  (forall v : HttpVersion, Parse (Name v) = Some v)
  /\ (forall v : HttpVerb, Parse (Name v) = Some v)
  /\ (forall h : HttpHeader, Parse (Name h) = Some h)
  /\ (forall data, exists l, HttpParseAttributes data = Some l)
  /\ (forall l, forallb attribute_ok l = true -> HttpParseAttributes (show_attributes l) = Some l).
Proof.
  split_and!; eauto using Parse_Name_version, Parse_Name_verb, Parse_Name_header, HttpParseAttributes_total.
  intros l Hl. apply attributes_loop_read; [|apply length_show_attributes].
  by apply List.Forall_forall, List.forallb_forall.
Qed.

Definition sample_attributes : list HttpAttribute :=
  [(bs "realm", bs "a " ++ [quote_mark] ++ bs "b"); (bs "qop", bs "c\,d"); (bs "nc", [])].

Lemma http_names_and_attributes_witness :
  forallb attribute_ok sample_attributes = true
  /\ HttpParseAttributes (show_attributes sample_attributes) = Some sample_attributes.
Proof.
  destruct http_names_and_attributes as (_ & _ & _ & _ & H).
  split; [by vm_compute|]. apply H. by vm_compute.
Defined.

(** A date of January is passed to [mktime] as one of June: only the first
    letter of a month's name is a capital. *)
Example January_is_June mktime timezone :
  HttpDateToSeconds mktime timezone (bs "Tue, 01 Jan 2013 10:00:00 GMT")
  = HttpDateToSeconds mktime timezone (bs "Sat, 01 Jun 2013 10:00:00 GMT").
Proof. reflexivity. Qed.

(** With a numeric zone the date is lost: the conditional expression takes
    the sum for its condition, and the offset alone is the result. *)
Lemma numeric_zone_loses_date mktime timezone date mday month year hour min sec zone :
  sscanf date_format (c_str date)
    = [SInt mday; SText month; SInt year; SInt hour; SInt min; SInt sec; SText zone] ->
  zone = bs "+0100" -> (forall t, 0 <= mktime t < 2 ^ 63) ->
  HttpDateToSeconds mktime timezone date = Some (u64 (3600 - timezone)).
Proof.
  intros E -> Hm. unfold HttpDateToSeconds. rewrite E.
  set (t := Tm _ _ _ _ _ _). specialize (Hm t).
  cbn -[wrap]. rewrite (wrap_small 64 (mktime t)) by lia.
  rewrite (wrap_small 64 (mktime t + 1)) by lia.
  destruct (mktime t + 1 =? 0) eqn:E0; [lia|]. simpl. f_equal.
Qed.
