(* ===== verification/Stl.v ===== *)
(** * Parts of the C++ library the web framework uses

    [std::string::find] of a string, and [std::map] with string keys as the
    list of its entries in the order an iterator meets them. *)

From S2P Require Import Prelude CString StringEncode.

Lemma forallb_Forall {A} (f : A -> bool) l : forallb f l = true -> Forall (fun a => f a = true) l.
Proof. intros H. by apply List.Forall_forall, List.forallb_forall. Qed.

(** ** [std::string::find(pattern, pos)] *)

Fixpoint str_find_at (p s : bytes) (i : Z) : Z :=
  if starts_with s p then i
  else match s with
       | [] => npos
       | _ :: s => str_find_at p s (i + 1)
       end.

Definition str_find (p s : bytes) (pos : Z) : Z :=
  if size s <? pos then npos else str_find_at p (drop (Z.to_nat pos) s) pos.

(** [p] starts at no position of [a] in [a ++ rest]. *)
Fixpoint avoids (p a rest : bytes) : bool :=
  match a with
  | [] => true
  | _ :: a' => negb (starts_with (a ++ rest) p) && avoids p a' rest
  end.

Lemma str_find_at_first p a rest i : avoids p a (p ++ rest) = true ->
  str_find_at p (a ++ p ++ rest) i = i + size a.
Proof.
  revert i. induction a as [|c a IH]; intros i.
  - intros _. cbn [app]. replace (i + size []) with i by (unfold size; simpl; lia).
    destruct (p ++ rest) as [|d l] eqn:E; cbn [str_find_at]; by rewrite <- E, starts_with_app.
  - cbn [avoids app str_find_at]. intros [->%negb_true_iff Ha]%andb_prop.
    rewrite IH by done. autorewrite with len. lia.
Qed.

(** Where [find] finds [p] first: [skip] characters lie before the place the search starts. *)
Lemma str_find_first p s skip a rest pos :
  s = skip ++ a ++ p ++ rest -> pos = size skip -> avoids p a (p ++ rest) = true ->
  str_find p s pos = size skip + size a.
Proof.
  intros -> -> Ha. unfold str_find.
  pose proof (size_app skip (a ++ p ++ rest)) as E. pose proof (size_nonneg (a ++ p ++ rest)).
  destruct (Z.ltb_spec (size (skip ++ a ++ p ++ rest)) (size skip)); [lia|].
  unfold size at 1. rewrite Nat2Z.id, drop_app_length. by apply str_find_at_first.
Qed.

Lemma starts_with_cons c s d p : starts_with (c :: s) (d :: p) = Byte.eqb c d && starts_with s p.
Proof.
  unfold starts_with. cbn [length take].
  destruct (eqb_byte_spec c d) as [->|N]; cbn [andb].
  - destruct (decide (take (length p) s = p)) as [E|N];
      [rewrite !bool_decide_true by congruence|rewrite !bool_decide_false by congruence]; done.
  - rewrite bool_decide_false by congruence. done.
Qed.

(** A text without the first character of the pattern avoids it. *)
Lemma avoids_char c p a rest : c ∉ a -> avoids (c :: p) a rest = true.
Proof.
  induction a as [|d a IH]; [done|]. intros [N Ha]%not_elem_of_cons.
  cbn [avoids app]. rewrite starts_with_cons, IH by done.
  by destruct (eqb_byte_spec d c); [congruence|].
Qed.

Lemma avoids_app p a b rest : avoids p (a ++ b) rest = avoids p a (b ++ rest) && avoids p b rest.
Proof. induction a as [|c a IH]; [done|]. cbn [app avoids]. by rewrite IH, <- app_assoc, andb_assoc. Qed.

Lemma str_find_at_range p s i : 0 <= i -> i + size s < npos ->
  str_find_at p s i = npos \/ i <= str_find_at p s i <= i + size s.
Proof.
  revert i. induction s as [|c s IH]; intros i Hi L; cbn [str_find_at]; destruct (starts_with _ p).
  - right. unfold size. simpl. lia.
  - by left.
  - right. pose proof (size_nonneg (c :: s)). lia.
  - rewrite size_cons in L. destruct (IH (i + 1)) as [->|H]; [lia|lia|by left|right]. rewrite size_cons. lia.
Qed.

Lemma str_find_range p s pos : 0 <= pos -> size s < npos ->
  str_find p s pos = npos \/ pos <= str_find p s pos <= size s.
Proof.
  intros Hp L. unfold str_find. destruct (Z.ltb_spec (size s) pos); [by left|].
  assert (pos + size (drop (Z.to_nat pos) s) = size s) as E
    by (unfold size in *; rewrite length_drop; lia).
  destruct (str_find_at_range p (drop (Z.to_nat pos) s) pos) as [->|R]; [lia|lia|by left|right; lia].
Qed.

(** A pattern with a character the text lacks is not found. *)
Lemma str_find_at_absent c p s i : c ∈ p -> c ∉ s -> str_find_at p s i = npos.
Proof.
  intros Hp. revert i. induction s as [|d s IH]; intros i Hs; cbn [str_find_at].
  - destruct p; [by apply not_elem_of_nil in Hp|done].
  - unfold starts_with. rewrite bool_decide_false.
    + apply IH. by apply not_elem_of_cons in Hs as [_ ?].
    + intros E. rewrite <- E in Hp. apply elem_of_take in Hp as (i' & Hi & _).
      by apply Hs, (list_elem_of_lookup_2 _ i').
Qed.

Lemma str_find_absent c p s pos : c ∈ p -> c ∉ s -> str_find p s pos = npos.
Proof.
  intros Hp Hs. unfold str_find. destruct (_ <? _); [done|].
  eapply str_find_at_absent; [exact Hp|]. intros Hd%list_elem_of_lookup. apply Hs.
  destruct Hd as [i Hi]. rewrite lookup_drop in Hi. by eapply list_elem_of_lookup_2.
Qed.

(** What is found is there, at or after the place the search starts. *)
Lemma starts_with_size s p : starts_with s p = true -> size p <= size s.
Proof.
  unfold starts_with, size. intros E%bool_decide_eq_true. rewrite <- E, length_take. lia.
Qed.

Lemma starts_with_prefix s p q : starts_with s (p ++ q) = true -> starts_with s p = true.
Proof.
  unfold starts_with. rewrite !bool_decide_eq_true, length_app. intros E.
  rewrite <- (take_app_length p q) at 2. rewrite <- E, take_take. f_equal. lia.
Qed.

Lemma str_find_at_found p s i : 0 <= i -> i + size s < npos -> str_find_at p s i <> npos ->
  i <= str_find_at p s i /\
  starts_with (drop (Z.to_nat (str_find_at p s i - i)) s) p = true.
Proof.
  revert i. induction s as [|c s IH]; intros i Hi L; cbn [str_find_at]; destruct (starts_with _ p) eqn:E.
  - intros _. by rewrite Z.sub_diag.
  - done.
  - intros _. by rewrite Z.sub_diag.
  - intros N. rewrite size_cons in L. destruct (IH (i + 1)) as [H1 H2]; [lia|lia|done|]. split; [lia|].
    replace (Z.to_nat _) with (S (Z.to_nat (str_find_at p s (i + 1) - (i + 1)))) by lia. done.
Qed.

Lemma str_find_found p s pos : 0 <= pos -> size s < npos -> str_find p s pos <> npos ->
  pos <= str_find p s pos /\ str_find p s pos + size p <= size s /\
  starts_with (drop (Z.to_nat (str_find p s pos)) s) p = true.
Proof.
  intros Hp L. unfold str_find. destruct (Z.ltb_spec (size s) pos); [done|]. intros N.
  assert (pos + size (drop (Z.to_nat pos) s) = size s) as E
    by (unfold size in *; rewrite length_drop; lia).
  destruct (str_find_at_found p (drop (Z.to_nat pos) s) pos) as [H1 H2]; [lia|lia|done|].
  rewrite drop_drop in H2. set (r := str_find_at _ _ _) in *.
  replace (Z.to_nat pos + Z.to_nat (r - pos))%nat with (Z.to_nat r) in H2 by lia.
  split_and!; [done| |done]. pose proof (starts_with_size _ _ H2) as H3.
  destruct (str_find_at_range p (drop (Z.to_nat pos) s) pos) as [|R]; [lia|lia|done|].
  fold r in R. unfold size in *. rewrite length_drop in H3. lia.
Qed.

Lemma str_find_at_least p s i k : 0 <= i -> i + size s < npos ->
  starts_with (drop k s) p = true -> (k <= length s)%nat -> str_find_at p s i <= i + Z.of_nat k.
Proof.
  revert i k. induction s as [|c s IH]; intros i k Hi L Hk Hl; cbn [str_find_at].
  - destruct k; [|cbn in Hl; lia]. cbn in Hk. rewrite Hk. lia.
  - destruct (starts_with (c :: s) p) eqn:E; [lia|].
    destruct k as [|k]; [cbn in Hk; congruence|]. rewrite size_cons in L. cbn in Hk, Hl.
    specialize (IH (i + 1) k ltac:(lia) ltac:(lia) Hk ltac:(lia)). lia.
Qed.

Lemma str_find_least p s pos k : 0 <= pos <= k -> size s < npos -> k <= size s ->
  starts_with (drop (Z.to_nat k) s) p = true -> str_find p s pos <= k.
Proof.
  intros Hp L Hk Hs. unfold str_find. destruct (Z.ltb_spec (size s) pos); [lia|].
  transitivity (pos + Z.of_nat (Z.to_nat (k - pos))); [|lia].
  unfold size in *. apply str_find_at_least; [lia| | |].
  - unfold size. rewrite length_drop. lia.
  - rewrite drop_drop. by replace (Z.to_nat pos + Z.to_nat (k - pos))%nat with (Z.to_nat k) by lia.
  - rewrite length_drop. lia.
Qed.

(** A text occurs in another. *)
Definition occurs (p s : bytes) : Prop := exists u v, s = u ++ p ++ v.

Lemma str_find_at_occurs p s i : str_find_at p s i <> npos -> occurs p s.
Proof.
  assert (forall t, starts_with t p = true -> occurs p t) as G.
  { intros t E%bool_decide_eq_true. exists [], (drop (length p) t). cbn [app]. rewrite <- (take_drop (length p) t) at 1. by rewrite E. }
  revert i. induction s as [|c s IH]; intros i; cbn [str_find_at]; destruct (starts_with _ p) eqn:E; auto.
  intros (u & v & ->)%IH. by exists (c :: u), v.
Qed.

Lemma str_find_occurs p s pos : str_find p s pos <> npos -> occurs p s.
Proof.
  unfold str_find. destruct (_ <? _); [done|]. intros (u & v & E)%str_find_at_occurs.
  exists (take (Z.to_nat pos) s ++ u), v. by rewrite <- app_assoc, <- E, take_drop.
Qed.

(** It occurs on one side of a character it does not hold. *)
Lemma occurs_split p c a b : c ∉ p -> p <> [] -> occurs p (a ++ c :: b) -> occurs p a \/ occurs p b.
Proof.
  intros Hc Hp (u & v & E). revert u E. induction a as [|d a IH]; intros [|e u] E; cbn in E.
  - destruct p as [|f p]; [done|]. injection E as -> _. by destruct Hc; left.
  - injection E as -> ->. right. by exists u, v.
  - clear IH. left.
    assert (length p <= S (length a))%nat as L.
    { destruct (Nat.le_gt_cases (length p) (S (length a))); [done|]. exfalso. apply Hc.
      apply (f_equal (lookup (S (length a)))) in E. rewrite lookup_app_l in E by lia.
      apply (list_elem_of_lookup_2 _ (S (length a))). rewrite <- E.
      by apply (list_lookup_middle a b c). }
    apply (f_equal (take (length p))) in E. rewrite take_app_length in E.
    change (d :: a ++ c :: b) with ((d :: a) ++ c :: b) in E. rewrite take_app_le in E by (cbn; lia).
    exists [], (drop (length p) (d :: a)). cbn [app].
    rewrite <- (take_drop (length p) (d :: a)) at 1. by rewrite E.
  - injection E as -> E. destruct (IH u E) as [(u' & v' & ->)|]; [left; by exists (e :: u'), v'|by right].
Qed.

Lemma occurs_free c p s : c ∈ p -> c ∉ s -> ~ occurs p s.
Proof. intros Hc Hs (u & v & ->). apply Hs. rewrite !elem_of_app. by right; left. Qed.

(** Or it is only found past a text that avoids it. *)
Lemma str_find_past p s skip a rest pos :
  s = skip ++ a ++ rest -> pos = size skip -> avoids p a rest = true -> size s < npos ->
  size skip + size a <= str_find p s pos.
Proof.
  intros -> -> Ha. rewrite !size_app. pose proof (size_nonneg skip). pose proof (size_nonneg rest). intros L.
  unfold str_find. rewrite !size_app. destruct (Z.ltb_spec (size skip + (size a + size rest)) (size skip)).
  { pose proof (size_nonneg a). lia. }
  assert (Z.to_nat (size skip) = length skip) as -> by (unfold size; lia). rewrite drop_app_length.
  assert (forall i, 0 <= i -> i + size a + size rest < npos -> i + size a <= str_find_at p (a ++ rest) i) as G;
    [|apply G; lia].
  clear -Ha. induction a as [|c a IH]; intros i Hi L.
  - change (size []) with 0 in *. cbn [app]. pose proof (size_nonneg rest).
    destruct (str_find_at_range p rest i) as [E|E]; lia.
  - cbn [avoids app str_find_at] in *. apply andb_prop in Ha as [E%negb_true_iff Ha]. rewrite E.
    rewrite size_cons in *. specialize (IH Ha (i + 1)). lia.
Qed.

(** What comes after the pattern that ends the text does not matter. *)
Lemma avoids_end p a rest : avoids p a p = true -> avoids p a (p ++ rest) = true.
Proof.
  induction a as [|c a IH]; [done|]. cbn [avoids]. intros [H1 H2]%andb_prop.
  rewrite IH by done. rewrite andb_true_r. revert H1. unfold starts_with.
  rewrite app_assoc, (take_app_le ((c :: a) ++ p)) by (rewrite length_app; lia). done.
Qed.

(** ** [std::map<std::string, V>] *)

(** [std::string]'s order compares unsigned characters. *)
Fixpoint str_lt (a b : bytes) : bool :=
  match a, b with
  | _, [] => false
  | [], _ :: _ => true
  | c :: a, d :: b => (bval c <? bval d) || ((bval c =? bval d) && str_lt a b)
  end.

Section Map.
Context {V : Type}.

Definition smap : Type := list (bytes * V).

Fixpoint map_find (k : bytes) (m : smap) : option V :=
  match m with
  | [] => None
  | (k', v) :: m => if bool_decide (k = k') then Some v else map_find k m
  end.

(** The entry of [k] becomes [f] of what it was, at its place in the order. *)
Fixpoint map_upd (k : bytes) (f : option V -> V) (m : smap) : smap :=
  match m with
  | [] => [(k, f None)]
  | (k', v) :: m' =>
      if bool_decide (k = k') then (k, f (Some v)) :: m'
      else if str_lt k k' then (k, f None) :: m
      else (k', v) :: map_upd k f m'
  end.

(** [m.insert(std::make_pair(k, v))] keeps an entry that is there. *)
Definition map_insert (k : bytes) (v : V) : smap -> smap := map_upd k (default v).
(** [m[k] = v] *)
Definition map_set (k : bytes) (v : V) : smap -> smap := map_upd k (fun _ => v).

Fixpoint ordered (m : smap) : bool :=
  match m with
  | [] => true
  | (k, _) :: m => forallb (fun e => str_lt k e.1) m && ordered m
  end.
End Map.
Arguments smap V : clear implicits.

Lemma str_lt_irrefl a : str_lt a a = false.
Proof. induction a as [|c a IH]; [done|]. cbn. rewrite Z.ltb_irrefl, Z.eqb_refl. exact IH. Qed.

Lemma str_lt_trans a b c : str_lt a b = true -> str_lt b c = true -> str_lt a c = true.
Proof.
  revert b c. induction a as [|x a IH]; intros [|y b] [|z c]; cbn; try done.
  intros [H1|[H1 H1']%andb_prop]%orb_prop [H2|[H2 H2']%andb_prop]%orb_prop; apply orb_true_iff.
  1-3: left; lia.
  right. apply andb_true_iff. split; [lia|by eapply IH].
Qed.

Lemma bval_inj c d : bval c = bval d -> c = d.
Proof. intros E. rewrite <- (byt_bval c), <- (byt_bval d). by f_equal. Qed.

Lemma str_lt_total a b : a <> b -> str_lt a b = false -> str_lt b a = true.
Proof.
  revert b. induction a as [|x a IH]; intros [|y b]; cbn; try done.
  intros N [H1 H2]%orb_false_iff. apply orb_true_iff. apply Z.ltb_ge in H1.
  destruct (Z.eq_dec (bval x) (bval y)) as [E|]; [|left; lia]. right.
  apply bval_inj in E as ->. rewrite Z.eqb_refl in *. cbn in *. apply IH; congruence.
Qed.

Section MapLaws.
Context {V : Type}.
Implicit Types (m : smap V) (f : option V -> V).

Lemma ordered_above k m : ordered m = true -> forallb (fun e => str_lt k e.1) m = true ->
  map_find k m = None.
Proof.
  induction m as [|[k' v] m IH]; [done|]. cbn. intros [_ Hm]%andb_prop [H1 H2]%andb_prop.
  rewrite bool_decide_false; [by apply IH|]. intros ->. by rewrite str_lt_irrefl in H1.
Qed.

Lemma map_upd_forallb (P : bytes -> bool) k f m :
  P k = true -> forallb (fun e => P e.1) m = true -> forallb (fun e => P e.1) (map_upd k f m) = true.
Proof.
  intros Hk. induction m as [|[k' v] m IH]; cbn; [by rewrite Hk|]. intros [H1 H2]%andb_prop.
  case_bool_decide; [by cbn; rewrite Hk, H2|]. destruct (str_lt k k'); cbn; rewrite ?Hk, ?H1, ?H2, ?IH; done.
Qed.

Lemma map_upd_ordered k f m : ordered m = true -> ordered (map_upd k f m) = true.
Proof.
  induction m as [|[k' v] m IH]; [done|]. cbn. intros [H1 H2]%andb_prop.
  case_bool_decide as E; [subst; by cbn; rewrite H1, H2|].
  destruct (str_lt k k') eqn:L; cbn.
  - rewrite H1, H2, L. rewrite andb_true_r. apply List.forallb_forall. intros e He.
    rewrite List.forallb_forall in H1. eapply str_lt_trans; [exact L|by apply H1].
  - rewrite IH by done. rewrite andb_true_r. apply (map_upd_forallb (str_lt k')); [|done].
    by apply str_lt_total.
Qed.

Lemma map_find_upd k f m : ordered m = true -> map_find k (map_upd k f m) = Some (f (map_find k m)).
Proof.
  induction m as [|[k' v] m IH]; cbn; [by rewrite bool_decide_true|]. intros [H1 H2]%andb_prop.
  case_bool_decide as E; [by cbn; rewrite bool_decide_true|].
  destruct (str_lt k k') eqn:L; cbn.
  - rewrite bool_decide_true by done. do 2 f_equal. symmetry. apply ordered_above; [done|].
    apply List.forallb_forall. intros e He. rewrite List.forallb_forall in H1.
    eapply str_lt_trans; [exact L|by apply H1].
  - rewrite bool_decide_false by done. by apply IH.
Qed.

Lemma map_find_upd_ne k k' f m : k <> k' -> map_find k (map_upd k' f m) = map_find k m.
Proof.
  intros N. induction m as [|[j v] m IH]; cbn; [by rewrite bool_decide_false|].
  destruct (decide (k' = j)) as [->|N'].
  - rewrite bool_decide_true by done. cbn. by rewrite !bool_decide_false.
  - rewrite bool_decide_false by done. destruct (str_lt k' j); cbn.
    + by rewrite bool_decide_false.
    + case_bool_decide; [done|apply IH].
Qed.
End MapLaws.
