(* ===== verification/Cookie.v ===== *)
(** * Cookies (src/cwf/cookie.h, src/cwf/cookie.cc) *)

From S2P Require Import Prelude CString StringEncode Stl.

Record Item := MkItem {
  item_name : bytes; item_value : bytes; item_domain : bytes; item_path : bytes;
  item_expires : bytes; item_maxage : Z; item_secure : Z; item_version : bytes }.

Definition Item_init : Item := MkItem [] [] [] [] [] 0 0 [].

Definition set_value (v : bytes) (i : Item) : Item :=
  MkItem (item_name i) v (item_domain i) (item_path i) (item_expires i) (item_maxage i) (item_secure i)
    (item_version i).

Definition Item_text (i : Item) : bytes :=
  let attribute label v := if bool_decide (v = []) then [] else label ++ v in
  item_name i ++ bs "=" ++ item_value i
  ++ attribute (bs ";Domain=") (item_domain i)
  ++ attribute (bs ";Path=") (item_path i)
  ++ attribute (bs ";Expires=") (item_expires i).

(** [cookie_] *)
Definition Cookie : Type := smap Item.

(** [Add(name, val)] *)
Definition Add_value (name val : bytes) (c : Cookie) : Cookie :=
  map_upd name (fun o => set_value val (default Item_init o)) c.

(** [Add(name)]: the map with the item, which the caller then changes in place. *)
Definition Add (name : bytes) (c : Cookie) : Cookie := map_insert name Item_init c.

(** The two halves of a token around its first [=]. *)
Definition cut_equal (token : bytes) : option (bytes * bytes) :=
  let pos_equal := find "=" token in
  if pos_equal =? npos then None
  else Some (substr token 0 pos_equal, substr token (pos_equal + 1) npos).

Definition Cookie_Parse (text : bytes) (c : Cookie) : Cookie :=
  let pre := bs "Cookie: " in
  let t := if starts_with text pre then drop (length pre) text else text in
  fold_left (fun c token => match cut_equal token with
                            | Some (name, val) => Add_value name val c
                            | None => c
                            end) (split (bs "; *") t) c.

Definition Get (name : bytes) (c : Cookie) : bytes :=
  match map_find (c_str name) c with Some i => item_value i | None => [] end.

Definition Cookie_text (c : Cookie) : bytes := flat_map (fun e => Item_text e.2) c.

Definition DateFormat (hour day month : Z) : bytes := bs "Tue, 03-Sep-2019 11:25:23 GMT".

(** ** What a browser sends is what [Get] returns *)

Definition show_cookie (nv : bytes * bytes) : bytes := nv.1 ++ "="%byte :: nv.2.

(** [a=b; c=d] *)
Fixpoint show_cookies (l : list (bytes * bytes)) : bytes :=
  match l with
  | [] => []
  | [nv] => show_cookie nv
  | nv :: l => show_cookie nv ++ bs "; " ++ show_cookies l
  end.

Definition cookie_ok (nv : bytes * bytes) : bool :=
  forallb (fun c => negb (bool_decide (c ∈ "="%byte :: x00 :: bs "; *"))) nv.1
  && forallb (fun c => negb (bool_decide (c ∈ bs "; *"))) nv.2.

(** The last value a name is given. *)
Fixpoint last_value (name : bytes) (l : list (bytes * bytes)) (d : bytes) : bytes :=
  match l with
  | [] => d
  | nv :: l => last_value name l (if bool_decide (nv.1 = name) then nv.2 else d)
  end.

Lemma cut_equal_show n v : "="%byte ∉ n -> size (show_cookie (n, v)) < npos ->
  cut_equal (show_cookie (n, v)) = Some (n, v).
Proof.
  intros Hn L. unfold cut_equal, show_cookie in *. cbn [fst snd] in *. rewrite find_first by done.
  rewrite size_app, size_cons in L. pose proof (size_nonneg v). pose proof (size_nonneg n).
  destruct (Z.eqb_spec (size n) npos); [lia|]. f_equal. f_equal.
  - by apply substr_prefix.
  - change (n ++ "="%byte :: v) with (n ++ ["="%byte] ++ v). rewrite app_assoc.
    apply substr_suffix; [by rewrite size_app|lia].
Qed.

Definition parse_token (c : Cookie) (token : bytes) : Cookie :=
  match cut_equal token with Some (name, val) => Add_value name val c | None => c end.

Lemma cookie_ok_inv nv : cookie_ok nv = true ->
  ("="%byte ∉ nv.1) /\ (x00 ∉ nv.1) /\ Forall (.∉ bs "; *") (show_cookie nv).
Proof.
  unfold cookie_ok. intros [H1 H2]%andb_prop. rewrite List.forallb_forall in H1, H2.
  assert (forall c, c ∈ nv.1 -> c ∉ "="%byte :: x00 :: bs "; *") as A.
  { intros c Hc%list_elem_of_In. apply H1 in Hc. by apply negb_true_iff, bool_decide_eq_false_1 in Hc. }
  split_and!.
  - intros Hc%A. apply Hc. by left.
  - intros Hc%A. apply Hc. right. by left.
  - unfold show_cookie. apply Forall_app. split; [|constructor].
    + apply Forall_forall. intros c Hc%A Hs. apply Hc. by do 2 right.
    + by apply (bool_decide_eq_false_1 _).
    + apply Forall_forall. intros c Hc%list_elem_of_In. apply H2 in Hc.
      by apply negb_true_iff, bool_decide_eq_false_1 in Hc.
Qed.

Lemma parse_shown l c : Forall (fun nv => cookie_ok nv = true) l -> size (show_cookies l) < npos ->
  fold_left parse_token (split (bs "; *") (show_cookies l)) c
  = fold_left (fun c nv => Add_value nv.1 nv.2 c) l c.
Proof.
  revert c. induction l as [|nv l IH]; intros c Hl L; [done|]. inv Hl.
  destruct (cookie_ok_inv nv) as (He & _ & Hs); [done|].
  assert (Hcut : size (show_cookie nv) < npos -> cut_equal (show_cookie nv) = Some nv).
  { destruct nv as [n v]. intros. by apply cut_equal_show. }
  destruct l as [|nv' l].
  - cbn [show_cookies fold_left] in *. rewrite split_token by done.
    cbn [fold_left]. unfold parse_token. rewrite Hcut by done. by destruct nv.
  - change (show_cookies (nv :: nv' :: l)) with (show_cookie nv ++ bs "; " ++ show_cookies (nv' :: l)) in *.
    autorewrite with len in L. change (size (bs "; ")) with 2 in L. 
    pose proof (size_nonneg (show_cookies (nv' :: l))). pose proof (size_nonneg (show_cookie nv)).
    change (bs "; " ++ ?r) with (";"%byte :: [] ++ " "%byte :: r).
    rewrite (split_cons _ (show_cookie nv)) by (done || by apply (bool_decide_eq_true_1 _)).
    rewrite (split_cons _ []) by (apply Forall_nil_2 || by apply (bool_decide_eq_true_1 _)).
    set (ls := nv' :: l) in *. cbn [fold_left].
    change (parse_token (parse_token c (show_cookie nv)) []) with (parse_token c (show_cookie nv)).
    unfold parse_token at 2. rewrite Hcut by lia. rewrite IH by (done || lia). by destruct nv.
Qed.

Lemma Add_values_find name l c d : ordered c = true ->
  match map_find name c with Some i => item_value i | None => [] end = d ->
  match map_find name (fold_left (fun c nv => Add_value nv.1 nv.2 c) l c) with
  | Some i => item_value i
  | None => []
  end = last_value name l d.
Proof.
  revert c d. induction l as [|[n v] l IH]; intros c d Hc Hd; [done|]. cbn [fold_left last_value fst snd].
  apply IH; [by apply map_upd_ordered|]. unfold Add_value. case_bool_decide as E.
  - subst. by rewrite map_find_upd.
  - by rewrite map_find_upd_ne.
Qed.

Lemma show_not_prefixed l : Forall (fun nv => cookie_ok nv = true) l ->
  starts_with (show_cookies l) (bs "Cookie: ") = false.
Proof.
  intros Hl. destruct Hl as [|nv l Hnv Hl]; [done|].
  destruct (cookie_ok_inv nv Hnv) as (_ & _ & Hs).
  assert (exists r, show_cookies (nv :: l) = show_cookie nv ++ r) as [r ->].
  { destruct l; [exists []; by rewrite app_nil_r|by eexists]. }
  unfold show_cookie, starts_with in *. rewrite Forall_app in Hs. destruct Hs as [Hs _].
  apply bool_decide_eq_false. intros E. rewrite <- app_assoc in E.
  destruct (decide (length (bs "Cookie: ") <= length nv.1)%nat) as [Hle|Hlt].
  - rewrite take_app_le in E by done.
    assert (" "%byte ∈ take (length (bs "Cookie: ")) nv.1) as Hin.
    { rewrite E. by apply (bool_decide_eq_true_1 _). }
    apply elem_of_take in Hin as (i & Hi & _).
    eapply Forall_lookup_1 in Hs; [|exact Hi]. apply Hs. by apply (bool_decide_eq_true_1 _).
  - rewrite take_app_ge in E by lia. 
    destruct (length (bs "Cookie: ") - length nv.1)%nat as [|k] eqn:Ek; [lia|].
    assert ("="%byte ∈ bs "Cookie: ") as Hin by (rewrite <- E; set_solver).
    revert Hin. by apply (bool_decide_eq_false_1 _).
Qed.

(** The cookies a browser sends, with or without the header's name before
    them, are the cookies [Get] finds: the last value given to a name, or the
    empty string. *)
Theorem Cookie_Parse_Get (l : list (bytes * bytes)) (name : bytes) (labelled : bool) :
  forallb cookie_ok l = true -> size (show_cookies l) < npos -> x00 ∉ name ->
  Get name (Cookie_Parse ((if labelled then bs "Cookie: " else []) ++ show_cookies l) [])
  = last_value name l [].
Proof.
  intros Hl L Hn. apply forallb_Forall in Hl.
  assert (Cookie_Parse ((if labelled then bs "Cookie: " else []) ++ show_cookies l) []
          = fold_left parse_token (split (bs "; *") (show_cookies l)) []) as ->.
  { unfold Cookie_Parse. destruct labelled.
    - by rewrite starts_with_app, drop_app_length.
    - cbn [app]. by rewrite show_not_prefixed. }
  rewrite parse_shown by done. unfold Get. rewrite c_str_id by done.
  by apply Add_values_find.
Qed.

Definition sample_cookies : list (bytes * bytes) :=
  [(bs "GRLD", bs "en:052"); (bs "PREF", bs "ID=52:U=5"); (bs "GRLD", bs "zh")].

Lemma Cookie_Parse_Get_witness :
  Get (bs "GRLD") (Cookie_Parse (bs "Cookie: GRLD=en:052; PREF=ID=52:U=5; GRLD=zh") []) = bs "zh".
Proof.
  apply (Cookie_Parse_Get sample_cookies (bs "GRLD") true).
  - by vm_compute.
  - by vm_compute.
  - by apply (bool_decide_eq_false_1 _).
Defined.

(** A cookie added with its value has no name in the text sent back. *)
Example Add_value_text : Cookie_text (Add_value (bs "SID") (bs "1") []) = bs "=1".
Proof. reflexivity. Qed.

(** An asterisk ends a value. *)
Example asterisk_separates : Get (bs "a") (Cookie_Parse (bs "a=1*2") []) = bs "1".
Proof. reflexivity. Qed.
