(* ===== verification/Stream.v ===== *)
(** * Requests and responses (src/cwf/stream.h, src/cwf/stream.cc)

    A FastCGI request - its environment and its input stream - parsed into
    cookies, query, form fields and uploaded files; and the response written
    to its output stream.  The two streams are those of the FastCGI library;
    [ASSERT] of this part only logs ([base::Break] does nothing). *)

From S2P Require Import Prelude CString StringEncode Http Stl Cookie.

(** [FCGX_GetStr]: up to [n] bytes; fewer only at the end of the input. *)
Class FcgxIn (I : Type) := {
  GetStr : Z -> I -> bytes * I;
  unread : I -> bytes;
  GetStr_reads n i : 0 <= n ->
    (GetStr n i).1 = take (Z.to_nat n) (unread i) /\ unread (GetStr n i).2 = drop (Z.to_nat n) (unread i) }.

(** [FCGX_PutStr]: [n] bytes more on the output. *)
Class FcgxOut (O : Type) := {
  PutStr : bytes -> Z -> O -> O;
  sent : O -> bytes;
  PutStr_sends s n o : 0 <= n <= size s -> sent (PutStr s n o) = sent o ++ take (Z.to_nat n) s }.

#[export] Program Instance bytes_in : FcgxIn bytes := {
  GetStr n i := (take (Z.to_nat n) i, drop (Z.to_nat n) i); unread i := i }.
Next Obligation. done. Qed.

#[export] Program Instance bytes_out : FcgxOut bytes := {
  PutStr s n o := o ++ take (Z.to_nat n) s; sent o := o }.
Next Obligation. done. Qed.

(** ** Request *)

Definition StringMap : Type := smap bytes.

Record FormDisposition := MkDisposition {
  afd_name : bytes; afd_filename : bytes; afd_content_type : bytes; afd_data : bytes }.

Definition FormDisposition_init : FormDisposition := MkDisposition [] [] [] [].
Definition set_afd_name (v : bytes) (d : FormDisposition) : FormDisposition :=
  MkDisposition v (afd_filename d) (afd_content_type d) (afd_data d).
Definition set_afd_filename (v : bytes) (d : FormDisposition) : FormDisposition :=
  MkDisposition (afd_name d) v (afd_content_type d) (afd_data d).
Definition set_afd_content_type (v : bytes) (d : FormDisposition) : FormDisposition :=
  MkDisposition (afd_name d) (afd_filename d) v (afd_data d).
Definition set_afd_data (v : bytes) (d : FormDisposition) : FormDisposition :=
  MkDisposition (afd_name d) (afd_filename d) (afd_content_type d) v.

(** [user_] is set by nobody here. *)
Record Request := MkRequest {
  host_ : bytes; url_ : bytes; cookie_ : Cookie; query_ : StringMap; header_ : StringMap;
  query_string_ : bytes; form_ : StringMap; file_array_ : list FormDisposition; method_ : HttpVerb }.

Definition Request_new : Request := MkRequest [] [] [] [] [] [] [] [] HV_GET.

Definition lookup_empty (key : bytes) (m : StringMap) : bytes := default [] (map_find key m).
Definition query (key : bytes) (q : Request) : bytes := lookup_empty (c_str key) (query_ q).
Definition form (key : bytes) (q : Request) : bytes := lookup_empty (c_str key) (form_ q).
Definition header (key : bytes) (q : Request) : bytes := lookup_empty (c_str key) (header_ q).
Definition get (key : bytes) (q : Request) : bytes :=
  let ret := query key q in if bool_decide (ret = []) then form key q else ret.

(** The overloads with a default; [lexical_cast] is boost's, [None] when it throws. *)
Section Numbers.
Context (lexical_cast : bytes -> option Z).
Definition query_int (key : bytes) (default_value : Z) (q : Request) : Z :=
  let s := query key q in if bool_decide (s = []) then default_value else default default_value (lexical_cast s).
Definition form_int (key : bytes) (default_value : Z) (q : Request) : Z :=
  let s := form key q in if bool_decide (s = []) then default_value else default default_value (lexical_cast s).
Definition get_int (key : bytes) (default_value : Z) (q : Request) : Z :=
  let s := query key q in
  if bool_decide (s = []) then
    let s := form key q in if bool_decide (s = []) then default_value else default default_value (lexical_cast s)
  else default default_value (lexical_cast s).
End Numbers.

(** *** Queries *)

(** The file's own [url_decode]: the text up to the first NUL of the result. *)
Definition url_decode_text (source : bytes) : bytes := c_str (url_decode (size source + 1) source).

Definition ParseQuery (text : bytes) : StringMap :=
  fold_left (fun ret part => match cut_equal part with
                             | Some (key, value) => map_insert key (url_decode_text value) ret
                             | None => ret
                             end) (split (bs "&") text) [].

(** *** Multipart forms *)

Definition CRLF : bytes := [x0d; x0a].

Definition RemoveQuote (text : bytes) : bytes :=
  if (2 <=? size text) && Byte.eqb (nth 0 text x00) quote_mark
     && Byte.eqb (nth (Z.to_nat (size text - 1)) text x00) quote_mark
  then substr text 1 (size text - 2) else text.

(** The parameters of a [Content-Disposition] line that ends at [cr]. *)
Fixpoint parameters_loop (fuel : nat) (text : bytes) (cr par_pos : Z) (afd : FormDisposition)
    : option FormDisposition :=
  match fuel with
  | O => None
  | S fuel =>
      let par_start := str_find (bs "; ") text par_pos in
      if u64 (cr - 5) <? par_start then Some afd
      else
        let par_end := str_find (bs "=") text par_start in
        if u64 (cr - 2) <? par_end then Some afd
        else
          let value_end := str_find (bs "; ") text par_end in
          let value_end := if cr <? value_end then cr else value_end in
          let par_name := RemoveQuote (substr text (par_start + 2) (u64 (par_end - (par_start + 2)))) in
          let par_value := RemoveQuote (substr text (par_end + 1) (u64 (value_end - (par_end + 1)))) in
          let afd := if bool_decide (par_name = bs "name") then set_afd_name par_value afd
                     else if bool_decide (par_name = bs "filename") then set_afd_filename par_value afd
                     else afd in
          if value_end <? cr then parameters_loop fuel text cr value_end afd else Some afd
  end.

(** One line of a part's header, from [p] to [cr]. *)
Definition disposition_line (text : bytes) (p cr : Z) (afd : FormDisposition)
    : option FormDisposition :=
  let name_end := str_find (bs ": ") text p in
  if negb (npos =? name_end) && (name_end <? cr) then
    let name := substr text p (name_end - p) in
    if bool_decide (name = bs "Content-Type") then
      Some (set_afd_content_type (substr text (name_end + 2) (u64 (cr - (name_end + 2)))) afd)
    else if bool_decide (name = bs "Content-Disposition") then parameters_loop (S (length text)) text cr name_end afd
    else Some afd
  else Some afd.

Fixpoint lines_loop (fuel : nat) (text : bytes) (header_end p : Z) (afd : FormDisposition)
    : option FormDisposition :=
  match fuel with
  | O => None
  | S fuel =>
      let cr := str_find CRLF text p in
      afd ← disposition_line text p cr afd;
      let p := u64 (cr + 2) in
      if p <? header_end then lines_loop fuel text header_end p afd else Some afd
  end.

(** [None] when the turns run out, which they never do. *)
Definition ParseDisposition (text : bytes) (start end_ : Z) : option FormDisposition :=
  let header_start := str_find (bs "Content-Disposition") text start in
  if negb (header_start =? start) then Some FormDisposition_init
  else
    let header_end := str_find (CRLF ++ CRLF) text start in
    if (npos =? header_end) || (end_ <? header_end) then Some FormDisposition_init
    else
      afd ← lines_loop (S (length text)) text header_end header_start FormDisposition_init;
      Some (set_afd_data (substr text (header_end + 4) (u64 (end_ - (header_end + 4) - 2))) afd).

Definition multipart_boundary (content_type : bytes) : bytes :=
  let pos := str_find (bs "boundary=") content_type 0 in
  if negb (npos =? pos) then
    if Byte.eqb (nth (Z.to_nat (pos + 1)) content_type x00) quote_mark then bs "--"
    else bs "--" ++ substr content_type (pos + 9) npos
  else bs "--".

Fixpoint parts_loop (fuel : nat) (boundary text : bytes) (pos : Z) : option (list FormDisposition) :=
  match fuel with
  | O => None
  | S fuel =>
      let boundary_start := str_find boundary text pos in
      if npos =? boundary_start then Some []
      else
        let boundary_start := boundary_start + size boundary in
        let char k := nth (Z.to_nat k) text x00 in
        if (size text <? boundary_start + 2)
           && (negb (Byte.eqb (char boundary_start) x0d) || negb (Byte.eqb (char (boundary_start + 1)) x0a))
        then Some []
        else
          let boundary_start := boundary_start + 2 in
          let boundary_end := str_find boundary text boundary_start in
          if npos =? boundary_end then Some []
          else
            afd ← ParseDisposition text boundary_start boundary_end;
            cons afd <$> parts_loop fuel boundary text boundary_end
  end.

Definition ParseMultipartForm (content_type text : bytes) : option (list FormDisposition) :=
  parts_loop (S (length text)) (multipart_boundary content_type) text 0.

Definition ParseOctetStream (text : bytes) : FormDisposition := FormDisposition_init.

(** *** Init *)

Definition set_header (key value : bytes) (q : Request) : Request :=
  MkRequest (host_ q) (url_ q) (cookie_ q) (query_ q) (map_set key value (header_ q)) (query_string_ q)
    (form_ q) (file_array_ q) (method_ q).
Definition set_query_string (value : bytes) (q : Request) : Request :=
  MkRequest (host_ q) (url_ q) (cookie_ q) (query_ q) (header_ q) value (form_ q) (file_array_ q) (method_ q).
Definition set_method (m : HttpVerb) (q : Request) : Request :=
  MkRequest (host_ q) (url_ q) (cookie_ q) (query_ q) (header_ q) (query_string_ q) (form_ q) (file_array_ q) m.
Definition set_url (u : bytes) (q : Request) : Request :=
  MkRequest (host_ q) u (cookie_ q) (query_ q) (header_ q) (query_string_ q) (form_ q) (file_array_ q)
    (method_ q).
Definition set_parsed (host : bytes) (c : Cookie) (qs : StringMap) (q : Request) : Request :=
  MkRequest host (url_ q) c qs (header_ q) (query_string_ q) (form_ q) (file_array_ q) (method_ q).
Definition set_forms (f : StringMap) (files : list FormDisposition) (q : Request) : Request :=
  MkRequest (host_ q) (url_ q) (cookie_ q) (query_ q) (header_ q) (query_string_ q) f files (method_ q).

(** One string of the environment. *)
Definition Init_env (q : Request) (p : bytes) : Request :=
  match cut_equal (c_str p) with
  | None => q
  | Some (key, value) =>
      if bool_decide (value = []) then q
      else if starts_with key (bs "HTTP_") then set_header (drop 5 key) value q
      else if bool_decide (key = bs "QUERY_STRING") then set_query_string value q
      else if bool_decide (key = bs "REQUEST_METHOD") then
        match Parse value with Some m => set_method m q | None => q end
      else if bool_decide (key = bs "REQUEST_URI") then set_url value q
      else set_header key value q
  end.

(** The body, in pieces of 2048 bytes. *)
Fixpoint read_body {I} `{FcgxIn I} (fuel : nat) (i : I) : option (bytes * I) :=
  match fuel with
  | O => None
  | S fuel =>
      let '(buf, i) := GetStr 2048 i in
      if size buf =? 2048 then '(data, i) ← read_body fuel i; Some (buf ++ data, i)
      else Some (buf, i)
  end.

(** What is before the first semicolon of a content type. *)
Definition part_type (type : bytes) : bytes :=
  let pos := find ";" type in
  if negb (npos =? pos) then substr type 0 pos else type.

(** A part without a file name is a field of the form. *)
Definition add_part (q : Request) (afd : FormDisposition) : Request :=
  if bool_decide (afd_filename afd = [])
  then set_forms (map_insert (afd_name afd) (afd_data afd) (form_ q)) (file_array_ q) q
  else set_forms (form_ q) (file_array_ q ++ [afd]) q.

Definition Init_body (data : bytes) (q : Request) : option Request :=
  if bool_decide (data = []) then Some q
  else
    let type := header (bs "CONTENT_TYPE") q in
    let part_type := part_type type in
    if bool_decide (part_type = bs "application/x-www-form-urlencoded")
    then Some (set_forms (ParseQuery data) (file_array_ q) q)
    else if bool_decide (part_type = bs "multipart/form-data")
    then arr ← ParseMultipartForm type data; Some (fold_left add_part arr q)
    else if bool_decide (part_type = bs "application/octet-stream")
    then
      let fd := ParseOctetStream data in
      if bool_decide (afd_data fd = []) then Some q
      else Some (set_forms (form_ q) (file_array_ q ++ [set_afd_name (bs "noname") fd]) q)
    else Some q.

Definition Init_head (envp : list bytes) (q : Request) : Request :=
  let q := fold_left Init_env envp q in
  let host := header (bs "HOST") q in
  let c := Cookie_Parse (header (bs "COOKIE") q) (cookie_ q) in
  set_parsed host c
    (if bool_decide (query_string_ q = []) then query_ q else ParseQuery (query_string_ q)) q.

(** [fuel] bounds the reads of the body. *)
Definition Init {I} `{FcgxIn I} (fuel : nat) (input : I) (envp : list bytes) (q : Request)
    : option (bool * Request * I) :=
  let q := Init_head envp q in
  '(q, input) ← (if decide (method_ q = HV_POST) then
                   '(data, input) ← read_body fuel input;
                   q ← Init_body data q;
                   Some (q, input)
                 else Some (q, input));
  let refused := bool_decide (url_ q = []) || bool_decide (host_ q = []) || bool_decide (header_ q = []) in
  Some (negb refused, q, input).

(** ** Response *)

Record Header := MkHeader { list_ : list (HttpHeader * bytes); hc_ : Z; message_ : bytes }.

Definition Header_Add (hh : HttpHeader) (value : bytes) (h : Header) : Header :=
  MkHeader (list_ h ++ [(hh, value)]) (hc_ h) (message_ h).
Definition set_status_code (hc : HttpStatusCode) (message : bytes) (h : Header) : Header :=
  MkHeader (list_ h) (code_value hc) message.
Definition status_code (h : Header) : Z := hc_ h.

Definition Header_Write (h : Header) : bytes :=
  bs "HTTP/" ++ Name HVER_X ++ bs " " ++ dec (hc_ h) ++ bs " " ++ message_ h ++ CRLF
  ++ flat_map (fun i => Name i.1 ++ bs ": " ++ i.2 ++ CRLF) (list_ h)
  ++ CRLF.

Section Response.
Context {O : Type} `{FcgxOut O}.

Record Response := MkResponse { stem_ : bytes; head_ : Header; out_ : O }.

(** [garbage] is what the status holds before one is set. *)
Definition Response_new (garbage : Z) (out : O) : Response := MkResponse [] (MkHeader [] garbage []) out.

Definition on_header (f : Header -> Header) (r : Response) : Response :=
  MkResponse (stem_ r) (f (head_ r)) (out_ r).

(** The four [Emit]s; [str] gives what they collected. *)
Definition Emit (s : bytes) (r : Response) : Response := MkResponse (stem_ r ++ s) (head_ r) (out_ r).
Definition str (r : Response) : bytes := stem_ r.

Definition WriteRaw (text : bytes) (r : Response) : Response :=
  MkResponse (stem_ r) (head_ r) (PutStr text (i32 (size text)) (out_ r)).
Definition OutputHeader (r : Response) : Response := WriteRaw (Header_Write (head_ r)) r.
Definition WriteRawWithHeader (buf : bytes) (r : Response) : Response :=
  WriteRaw (Header_Write (head_ r) ++ buf) r.
End Response.
Arguments Response O : clear implicits.
