(* ===== verification/StreamSpec.v ===== *)
(** * What the parsers of requests promise

    The form parser ends on every body and reads back what a browser sends;
    [Init] accepts the requests of an upload and of a download. *)

From S2P Require Import Prelude CString StringEncode Http Stl Cookie Stream.

(** ** The parser of forms ends on every text *)

Lemma size_substr s pos n : 0 <= n -> size (substr s pos n) <= n.
Proof. intros. unfold substr, size in *. rewrite length_take. lia. Qed.

Lemma starts_with_head s c p : starts_with s (c :: p) = true -> exists t, s = c :: t.
Proof.
  destruct s as [|d s]; [done|]. rewrite starts_with_cons. intros [E _]%andb_prop.
  destruct (eqb_byte_spec d c) as [->|]; [by eexists|done].
Qed.

(** The bound under which positions are far from [npos]. *)
Definition short (text : bytes) : Prop := size text < 2 ^ 63.

Lemma parameters_loop_total fuel text cr par_pos afd :
  short text -> 5 <= cr -> cr <= size text -> 0 <= par_pos < cr -> cr - par_pos < Z.of_nat fuel ->
  exists d, parameters_loop fuel text cr par_pos afd = Some d.
Proof.
  unfold short. revert par_pos afd. induction fuel as [|fuel IH]; intros par_pos afd Hs Hc5 Hc Hp Hf; [lia|].
  cbn [parameters_loop]. set (ps := str_find (bs "; ") text par_pos).
  rewrite (wrap_small 64 (cr - 5)), (wrap_small 64 (cr - 2)) by lia.
  destruct (Z.ltb_spec (cr - 5) ps) as [|Hps]; [by eexists|].
  destruct (str_find_found (bs "; ") text par_pos) as (F1 & _ & F2); [lia|unfold npos; lia|fold ps; unfold npos; lia|].
  fold ps in F1, F2. set (pe := str_find (bs "=") text ps).
  destruct (Z.ltb_spec (cr - 2) pe) as [|Hpe]; [by eexists|].
  destruct (str_find_found (bs "=") text ps) as (G1 & _ & G2); [lia|unfold npos; lia|fold pe; unfold npos; lia|].
  fold pe in G1, G2.
  assert (ps <> pe) as Hne.
  { intros E. rewrite <- E in G2. apply starts_with_head in F2 as [t F2]. rewrite F2 in G2.
    apply starts_with_head in G2 as [? ?]. discriminate. }
  set (ve := str_find (bs "; ") text pe).
  assert (par_pos < (if cr <? ve then cr else ve)) as Hve.
  { destruct (Z.ltb_spec cr ve); [lia|].
    destruct (str_find_found (bs "; ") text pe) as (V1 & _); [lia|unfold npos; lia|fold ve; unfold npos; lia|].
    fold ve in V1. lia. }
  set (ve' := if cr <? ve then cr else ve) in *. cbv zeta.
  destruct (Z.ltb_spec ve' cr); [|by eexists]. apply IH; lia.
Qed.

Lemma disposition_line_total text p cr afd : short text -> 0 <= p -> cr <= size text ->
  exists d, disposition_line text p cr afd = Some d.
Proof.
  intros Hs Hp Hc. pose proof Hs as Hs'. unfold short in Hs'. unfold disposition_line.
  set (ne := str_find (bs ": ") text p).
  destruct (Z.eqb_spec npos ne) as [|N]; [by eexists|]. destruct (Z.ltb_spec ne cr) as [Hlt|]; [|by eexists].
  cbn [negb andb]. case_bool_decide; [by eexists|]. case_bool_decide as E; [|by eexists].
  destruct (str_find_found (bs ": ") text p) as (F1 & _); [lia|unfold npos; lia|fold ne; lia|]. fold ne in F1.
  pose proof (size_substr text p (ne - p) ltac:(lia)) as L. rewrite E in L. change (size _) with 19 in L.
  apply parameters_loop_total; [done|lia|lia|lia|]. unfold size in *. lia.
Qed.

Lemma lines_loop_total fuel text he p afd : short text -> 0 <= p <= he -> he <= size text ->
  starts_with (drop (Z.to_nat he) text) CRLF = true -> he - p < Z.of_nat fuel ->
  exists d, lines_loop fuel text he p afd = Some d.
Proof.
  unfold short. revert p afd. induction fuel as [|fuel IH]; intros p afd Hs Hp Hhe Hcr Hf; [lia|].
  cbn [lines_loop]. set (cr := str_find CRLF text p).
  assert (cr <= he) as L1 by (apply str_find_least; unfold npos; lia || done).
  assert (p <= cr) as L2.
  { destruct (str_find_found CRLF text p) as (F1 & _); [lia|unfold npos; lia|fold cr; unfold npos; lia|].
    done. }
  destruct (disposition_line_total text p cr afd) as [d ->]; [done|lia|lia|]. cbn.
  rewrite wrap_small by lia. destruct (Z.ltb_spec (cr + 2) he); [|by eexists].
  apply IH; done || lia.
Qed.

Lemma ParseDisposition_total text start end_ : short text -> 0 <= start ->
  exists d, ParseDisposition text start end_ = Some d.
Proof.
  intros Hs H0. pose proof Hs as Hs'. unfold short in Hs'. unfold ParseDisposition.
  destruct (Z.eqb_spec (str_find (bs "Content-Disposition") text start) start) as [E|]; [|by eexists].
  rewrite E. cbn [negb]. set (he := str_find (CRLF ++ CRLF) text start).
  destruct (Z.eqb_spec npos he) as [|N]; [by eexists|]. cbn [orb].
  destruct (Z.ltb_spec end_ he); [by eexists|].
  destruct (str_find_found (CRLF ++ CRLF) text start) as (F1 & F2 & F3); [lia|unfold npos; lia|fold he; lia|].
  fold he in F1, F2, F3. change (size (CRLF ++ CRLF)) with 4 in F2.
  destruct (lines_loop_total (S (length text)) text he start FormDisposition_init) as [d ->];
    [done|lia|lia|by apply (starts_with_prefix _ CRLF CRLF)|unfold size in *; lia|].
  by eexists.
Qed.

Lemma parts_loop_total fuel b text pos : short text -> 0 <= pos <= size text -> size text - pos < Z.of_nat fuel ->
  exists l, parts_loop fuel b text pos = Some l.
Proof.
  unfold short. revert pos. induction fuel as [|fuel IH]; intros pos Hs Hp Hf.
  - lia.
  - cbn [parts_loop]. set (bst := str_find b text pos).
    destruct (Z.eqb_spec npos bst) as [|N]; [by eexists|].
    destruct (str_find_found b text pos) as (F1 & _); [lia|unfold npos; lia|fold bst; lia|]. fold bst in F1.
    destruct (_ && _); [by eexists|]. pose proof (size_nonneg b).
    set (be := str_find b text (bst + size b + 2)).
    destruct (Z.eqb_spec npos be) as [|N2]; [by eexists|].
    destruct (str_find_found b text (bst + size b + 2)) as (G1 & G2 & _); [lia|unfold npos; lia|fold be; lia|].
    fold be in G1, G2. destruct (ParseDisposition_total text (bst + size b + 2) be) as [d ->]; [done|lia|].
    cbn. destruct (IH be) as [l ->]; [done|lia|lia|]. by eexists.
Qed.

Lemma ParseMultipartForm_total content_type text : short text ->
  exists l, ParseMultipartForm content_type text = Some l.
Proof.
  intros Hs. apply parts_loop_total; unfold size; done || lia.
Qed.

(** ** A form is read back part by part *)

Definition quote (v : bytes) : bytes := quote_mark :: v ++ [quote_mark].

(** The file name's parameter, when there is one. *)
Definition show_filename (filename : bytes) : bytes :=
  if bool_decide (filename = []) then [] else bs "; filename=" ++ quote filename.

(** The first line of a part's header. *)
Definition show_disposition (name filename : bytes) : bytes :=
  bs "Content-Disposition: form-data; name=" ++ quote name ++ show_filename filename.

Definition show_type (content_type : bytes) : bytes :=
  if bool_decide (content_type = []) then [] else CRLF ++ bs "Content-Type: " ++ content_type.

Definition show_part (d : FormDisposition) : bytes :=
  show_disposition (afd_name d) (afd_filename d) ++ show_type (afd_content_type d)
  ++ CRLF ++ CRLF ++ afd_data d ++ CRLF.

(** What a browser sends for a form. *)
Definition show_form (boundary : bytes) (parts : list FormDisposition) : bytes :=
  flat_map (fun d => (bs "--" ++ boundary) ++ CRLF ++ show_part d) parts
  ++ (bs "--" ++ boundary) ++ bs "--" ++ CRLF.

Definition no_char (c : Init.Byte.byte) (s : bytes) : bool := bool_decide (c ∉ s).

Definition part_ok (boundary : bytes) (d : FormDisposition) : bool :=
  no_char ";" (afd_name d) && no_char x0d (afd_name d)
  && no_char ";" (afd_filename d) && no_char x0d (afd_filename d)
  && no_char x0d (afd_content_type d)
  && avoids (bs "--" ++ boundary) (show_part d) (bs "--" ++ boundary).

Lemma RemoveQuote_quote v : RemoveQuote (quote v) = v.
Proof.
  unfold RemoveQuote, quote. rewrite size_cons, size_app. change (size [quote_mark]) with 1.
  pose proof (size_nonneg v). destruct (Z.leb_spec 2 (1 + (size v + 1))); [|lia].
  replace (Z.to_nat (1 + (size v + 1) - 1)) with (S (length v)) by (unfold size; lia).
  cbn [nth]. rewrite nth_middle. change (Byte.eqb quote_mark quote_mark) with true. cbn [andb].
  apply (substr_middle [quote_mark] v [quote_mark]); [done|unfold size; lia].
Qed.

Lemma size_quote v : size (quote v) = 2 + size v.
Proof. unfold quote. rewrite size_cons, size_app. change (size [quote_mark]) with 1. lia. Qed.

(** What a parameter does to the part. *)
Definition set_parameter (name value : bytes) (afd : FormDisposition) : FormDisposition :=
  if bool_decide (name = bs "name") then set_afd_name value afd
  else if bool_decide (name = bs "filename") then set_afd_filename value afd
  else afd.

Lemma RemoveQuote_plain c s : c <> quote_mark -> RemoveQuote (c :: s) = c :: s.
Proof.
  intros N. unfold RemoveQuote. cbn [nth]. destruct (eqb_byte_spec c quote_mark); [done|].
  by rewrite andb_false_r.
Qed.

Lemma substr_at text a b c pos n : text = a ++ b ++ c -> pos = size a -> n = size b -> substr text pos n = b.
Proof. intros ->. apply substr_middle. Qed.

Ltac segments := rewrite <- ?app_assoc; reflexivity.
Ltac sizes := rewrite ?size_app, ?size_quote; change (size (bs "; ")) with 2; change (size (bs "=")) with 1;
  change (size [x0d]) with 1; lia.

(** A value that starts after [skip] ends at [cr], or where the next parameter starts. *)
Lemma value_end text skip v tail cr :
  text = skip ++ bs "=" ++ quote v ++ tail -> short text -> (";"%byte ∉ v) ->
  let ve := size skip + 1 + (2 + size v) in
  ((exists rest, tail = x0d :: rest) /\ cr = ve) \/ ((exists rest, tail = bs "; " ++ rest) /\ ve < cr) ->
  (if cr <? str_find (bs "; ") text (size skip) then cr else str_find (bs "; ") text (size skip)) = ve.
Proof.
  intros Et Hs Hv ve Htail. unfold short in Hs. pose proof (size_nonneg skip).
  assert (";"%byte ∉ bs "=" ++ quote v) as Hqv.
  { unfold quote. rewrite not_elem_of_app, not_elem_of_cons, not_elem_of_app.
    split_and!; [by apply (bool_decide_eq_false_1 _)|done|done|by apply (bool_decide_eq_false_1 _)]. }
  destruct Htail as [[[r ->] ->] | [[r ->] Hc]].
  - pose proof (str_find_past (bs "; ") text skip ((bs "=" ++ quote v) ++ [x0d]) r (size skip)) as L.
    assert (ve + 1 <= str_find (bs "; ") text (size skip)).
    { etransitivity; [|apply L]; [unfold ve; sizes|rewrite Et; segments|done| |unfold npos; lia].
      apply avoids_char. rewrite not_elem_of_app. split; [done|by apply (bool_decide_eq_false_1 _)]. }
    destruct (Z.ltb_spec ve (str_find (bs "; ") text (size skip))); lia.
  - rewrite (str_find_first (bs "; ") text skip (bs "=" ++ quote v) r);
      [|rewrite Et; segments|done|by apply avoids_char].
    assert (size (bs "=" ++ quote v) = 1 + (2 + size v)) as -> by sizes.
    unfold ve in *. destruct (Z.ltb_spec cr (size skip + (1 + (2 + size v)))); lia.
Qed.

(** One turn over [; name="value"]: it ends the line, or another parameter follows. *)
Lemma parameters_loop_step fuel text skip a c name' v tail cr afd :
  let name := c :: name' in
  text = skip ++ a ++ bs "; " ++ name ++ bs "=" ++ quote v ++ tail -> short text ->
  (";"%byte ∉ a) -> ("="%byte ∉ name) -> (";"%byte ∉ v) -> c <> quote_mark ->
  let ve := size skip + size a + 2 + size name + 1 + (2 + size v) in
  ((exists rest, tail = x0d :: rest) /\ cr = ve) \/ ((exists rest, tail = bs "; " ++ rest) /\ ve < cr) ->
  cr <= size text ->
  parameters_loop (S fuel) text cr (size skip) afd =
    if ve <? cr then parameters_loop fuel text cr ve (set_parameter name v afd)
    else Some (set_parameter name v afd).
Proof.
  intros name Et Hs Ha Hn Hv Hq ve Htail Hc. pose proof Hs as Hs'. unfold short in Hs'.
  pose proof (size_nonneg skip). pose proof (size_nonneg a). pose proof (size_nonneg v).
  assert (0 < size name) as Hname by (unfold name; rewrite size_cons; pose proof (size_nonneg name'); lia).
  assert (ve <= cr) as Hve by (destruct Htail as [[_ ->]|[_ ?]]; lia). unfold ve in Hve.
  set (skip' := skip ++ a ++ bs "; " ++ name).
  assert (size skip' = size skip + size a + 2 + size name) as Esk by (unfold skip'; sizes).
  cbn [parameters_loop].
  rewrite (str_find_first (bs "; ") text skip a (name ++ bs "=" ++ quote v ++ tail)) by
    (exact Et || done || by apply avoids_char).
  rewrite (wrap_small 64 (cr - 5)), (wrap_small 64 (cr - 2)) by lia.
  destruct (Z.ltb_spec (cr - 5) (size skip + size a)); [lia|].
  rewrite (str_find_first (bs "=") text (skip ++ a) (bs "; " ++ name) (quote v ++ tail)).
  2: rewrite Et; segments. 2: sizes.
  2: apply avoids_char; rewrite not_elem_of_app; split; [by apply (bool_decide_eq_false_1 _)|done].
  assert (size (skip ++ a) + size (bs "; " ++ name) = size skip') as -> by (unfold skip'; sizes).
  destruct (Z.ltb_spec (cr - 2) (size skip')); [lia|].
  rewrite (value_end text skip' v tail) by (rewrite ?Esk; first [rewrite Et; unfold skip'; segments|done]).
  rewrite (substr_at text (skip ++ a ++ bs "; ") name (bs "=" ++ quote v ++ tail));
    [|rewrite Et; segments|sizes|rewrite wrap_small; lia].
  rewrite (substr_at text (skip' ++ bs "=") (quote v) tail);
    [|rewrite Et; unfold skip'; segments|sizes|rewrite wrap_small, size_quote; lia].
  assert (RemoveQuote name = name) as -> by by apply RemoveQuote_plain.
  by rewrite RemoveQuote_quote, Esk.
Qed.

Lemma quote_free c v : c <> quote_mark -> c ∉ v -> c ∉ quote v.
Proof. intros. unfold quote. rewrite not_elem_of_cons, not_elem_of_app, not_elem_of_cons. by pose proof not_elem_of_nil c. Qed.

Lemma show_disposition_free name filename :
  x0d ∉ name -> x0d ∉ filename -> x0d ∉ show_disposition name filename.
Proof.
  intros Hn Hf. unfold show_disposition, show_filename.
  case_bool_decide; rewrite !not_elem_of_app; split_and!; try (by apply quote_free);
    try (by apply (bool_decide_eq_false_1 _)); apply not_elem_of_nil.
Qed.

Lemma size_show_filename filename : filename <> [] -> size (show_filename filename) = 13 + size filename.
Proof.
  intros. unfold show_filename. rewrite bool_decide_false, size_app, size_quote by done.
  change (size (bs "; filename=")) with 11. lia.
Qed.

Ltac literals :=
  change (size (bs "Content-Disposition: form-data; name=")) with 37 in *;
  change (size (bs "Content-Disposition")) with 19 in *; change (size (bs ": form-data")) with 11 in *;
  change (size (bs "name")) with 4 in *; change (size (bs "filename")) with 8 in *;
  change (size (bs "Content-Type: ")) with 14 in *; change (size (bs "Content-Type")) with 12 in *;
  change (size CRLF) with 2 in *; change (size (@nil Init.Byte.byte)) with 0 in *.

(** The parameters of the first line of a part's header. *)
Lemma disposition_parameters f text skip name filename rest :
  let line := bs ": form-data" ++ bs "; " ++ bs "name" ++ bs "=" ++ quote name ++ show_filename filename in
  text = skip ++ line ++ x0d :: rest -> short text -> (";"%byte ∉ name) -> (";"%byte ∉ filename) ->
  parameters_loop (S (S f)) text (size skip + size line) (size skip) FormDisposition_init
  = Some (MkDisposition name filename [] []).
Proof.
  intros line Et Hs Hn Hf. set (cr := size skip + size line).
  assert (cr <= size text) as Hcr.
  { rewrite Et, !size_app. unfold cr. pose proof (size_nonneg (x0d :: rest)). lia. }
  set (ve := size skip + size (bs ": form-data") + 2 + size (bs "name") + 1 + (2 + size name)).
  assert (cr = ve + size (show_filename filename)) as Ecr
    by (unfold cr, line, ve; rewrite !size_app, size_quote;
        change (size (bs "; ")) with 2; change (size (bs "=")) with 1; lia).
  rewrite (parameters_loop_step (S f) text skip (bs ": form-data") "n" (bs "ame") name
             (show_filename filename ++ x0d :: rest) cr);
    [|rewrite Et; unfold line; rewrite <- !app_assoc; reflexivity|done|by apply (bool_decide_eq_false_1 _)
     |by apply (bool_decide_eq_false_1 _)|done|done| |done].
  all: change ("n"%byte :: bs "ame") with (bs "name"); fold ve;
    destruct (decide (filename = [])) as [->|Nf];
    [|pose proof (size_show_filename filename Nf); pose proof (size_nonneg filename)].
  - change (size (show_filename [])) with 0 in Ecr. by destruct (Z.ltb_spec ve cr); [lia|].
  - destruct (Z.ltb_spec ve cr); [|lia].
    set (skip2 := skip ++ bs ": form-data" ++ bs "; " ++ bs "name" ++ bs "=" ++ quote name).
    assert (size skip2 = ve) as <- by (unfold skip2, ve; sizes).
    rewrite (parameters_loop_step f text skip2 [] "f" (bs "ilename") filename (x0d :: rest) cr);
      [|rewrite Et; unfold skip2, line, show_filename; rewrite bool_decide_false, <- !app_assoc by done; reflexivity
       |done|apply not_elem_of_nil|by apply (bool_decide_eq_false_1 _)|done|done| |done];
      change ("f"%byte :: bs "ilename") with (bs "filename"); literals.
    + by destruct (Z.ltb_spec (size skip2 + 0 + 2 + 8 + 1 + (2 + size filename)) cr); [lia|].
    + left. split; [by eexists|]. lia.
  - left. split; [by eexists|]. change (size (show_filename [])) with 0 in Ecr. lia.
  - right. unfold show_filename. rewrite bool_decide_false by done.
    split; [exists (bs "filename=" ++ quote filename ++ x0d :: rest); by rewrite <- app_assoc|lia].
Qed.

(** A header line is cut at its colon. *)
Lemma line_name text pre name rest cr : text = pre ++ name ++ bs ": " ++ rest -> short text ->
  (":"%byte ∉ name) -> size pre + size name < cr ->
  str_find (bs ": ") text (size pre) = size pre + size name
  /\ (negb (npos =? size pre + size name) && (size pre + size name <? cr)) = true
  /\ substr text (size pre) (size pre + size name - size pre) = name.
Proof.
  intros Et Hs Hn Hcr. unfold short in Hs.
  assert (size pre + size name <= size text) as Hsz.
  { rewrite Et, !size_app. pose proof (size_nonneg rest). change (size (bs ": ")) with 2. lia. }
  split_and!.
  - eapply str_find_first; [exact Et|done|by apply avoids_char].
  - destruct (Z.eqb_spec npos (size pre + size name)); [unfold npos in *; lia|].
    by destruct (Z.ltb_spec (size pre + size name) cr); [|lia].
  - eapply substr_at; [exact Et|done|lia].
Qed.

(** The two lines of a part's header. *)
Lemma disposition_line_read text pre name filename rest :
  text = pre ++ show_disposition name filename ++ x0d :: rest -> short text ->
  (";"%byte ∉ name) -> (";"%byte ∉ filename) ->
  disposition_line text (size pre) (size pre + size (show_disposition name filename)) FormDisposition_init
  = Some (MkDisposition name filename [] []).
Proof.
  intros Et Hs Hn Hf.
  set (line := bs ": form-data" ++ bs "; " ++ bs "name" ++ bs "=" ++ quote name ++ show_filename filename).
  assert (show_disposition name filename = bs "Content-Disposition" ++ line) as E by reflexivity.
  rewrite E in *. rewrite <- app_assoc in Et.
  assert (0 < size line) as Hl.
  { unfold line. rewrite size_app. literals. pose proof (size_nonneg
      (bs "; " ++ bs "name" ++ bs "=" ++ quote name ++ show_filename filename)). lia. }
  destruct (line_name text pre (bs "Content-Disposition")
              (drop 2 line ++ x0d :: rest) (size pre + size (bs "Content-Disposition" ++ line))) as (E1 & E2 & E3);
    [exact Et|done|by apply (bool_decide_eq_false_1 _)|rewrite size_app; lia|].
  unfold disposition_line. rewrite E1, E2, E3, bool_decide_false, bool_decide_true by done.
  rewrite size_app, Z.add_assoc, <- size_app.
  destruct (length text) as [|f] eqn:El; [by rewrite Et in El; destruct pre|].
  eapply disposition_parameters; [by rewrite <- app_assoc|done..].
Qed.

Lemma type_line_read text pre content_type rest d :
  text = pre ++ bs "Content-Type: " ++ content_type ++ rest -> short text ->
  disposition_line text (size pre) (size pre + size (bs "Content-Type: " ++ content_type)) d
  = Some (set_afd_content_type content_type d).
Proof.
  intros Et Hs. pose proof Hs as Hs'. unfold short in Hs'.
  pose proof (size_nonneg content_type). pose proof (size_nonneg pre).
  assert (size pre + 14 + size content_type <= size text) as Hsz.
  { rewrite Et, !size_app. literals. pose proof (size_nonneg rest). lia. }
  destruct (line_name text pre (bs "Content-Type") (content_type ++ rest)
              (size pre + size (bs "Content-Type: " ++ content_type))) as (E1 & E2 & E3);
    [exact Et|done|by apply (bool_decide_eq_false_1 _)|rewrite size_app; literals; lia|].
  unfold disposition_line. rewrite E1, E2, E3, bool_decide_true by done. do 2 f_equal.
  rewrite size_app. literals.
  rewrite (substr_at text (pre ++ bs "Content-Type: ") content_type rest);
    [done|by rewrite <- app_assoc|rewrite size_app; literals; lia|rewrite wrap_small; lia].
Qed.

Lemma part_ok_inv b d : part_ok b d = true ->
  (";"%byte ∉ afd_name d) /\ (";"%byte ∉ afd_filename d) /\
  (x0d ∉ show_disposition (afd_name d) (afd_filename d)) /\ (x0d ∉ afd_content_type d) /\
  avoids (bs "--" ++ b) (show_part d) (bs "--" ++ b) = true.
Proof.
  unfold part_ok, no_char. intros H. repeat apply andb_prop in H as [H ?].
  repeat match goal with E : bool_decide (_ ∉ _) = true |- _ => apply bool_decide_eq_true_1 in E end.
  auto using show_disposition_free.
Qed.

(** The lines of the header, one or two. *)
Lemma lines_loop_read f text pre d rest :
  let head := show_disposition (afd_name d) (afd_filename d) ++ show_type (afd_content_type d) in
  text = pre ++ head ++ CRLF ++ rest -> short text ->
  (";"%byte ∉ afd_name d) -> (";"%byte ∉ afd_filename d) ->
  (x0d ∉ show_disposition (afd_name d) (afd_filename d)) -> (x0d ∉ afd_content_type d) ->
  lines_loop (S (S f)) text (size pre + size head) (size pre) FormDisposition_init
  = Some (MkDisposition (afd_name d) (afd_filename d) (afd_content_type d) []).
Proof.
  intros head Et Hs Hn Hf Hd Ht. pose proof Hs as Hs'. unfold short in Hs'.
  set (disp := show_disposition (afd_name d) (afd_filename d)) in *.
  assert (size pre + size head + 2 <= size text) as Hsz.
  { rewrite Et, !size_app. literals. pose proof (size_nonneg rest). lia. }
  unfold head in Hsz. rewrite size_app in Hsz. pose proof (size_nonneg pre). pose proof (size_nonneg disp).
  assert (exists r, text = pre ++ disp ++ CRLF ++ r) as [r Er].
  { rewrite Et. unfold head, show_type. case_bool_decide.
    - eexists. rewrite <- !app_assoc. reflexivity.
    - eexists. rewrite <- !app_assoc. reflexivity. }
  cbn [lines_loop].
  rewrite (str_find_first CRLF text pre disp r) by (exact Er || done || by apply avoids_char).
  assert (disposition_line text (size pre) (size pre + size disp) FormDisposition_init
          = Some (MkDisposition (afd_name d) (afd_filename d) [] [])) as ->
    by exact (disposition_line_read text pre _ _ (x0a :: r) Er Hs Hn Hf).
  cbn [mbind option_bind].
  pose proof (size_nonneg (show_type (afd_content_type d))).
  rewrite wrap_small by lia. unfold head in *. rewrite size_app.
  destruct (decide (afd_content_type d = [])) as [E0|N].
  - rewrite E0. unfold show_type. rewrite bool_decide_true by done. literals.
    by destruct (Z.ltb_spec (size pre + size disp + 2) (size pre + (size disp + 0))); [lia|].
  - assert (show_type (afd_content_type d) = CRLF ++ bs "Content-Type: " ++ afd_content_type d) as Ety
      by (unfold show_type; by rewrite bool_decide_false).
    rewrite Ety in *. rewrite !size_app in *. literals. pose proof (size_nonneg (afd_content_type d)).
    destruct (Z.ltb_spec (size pre + size disp + 2)
                (size pre + (size disp + (2 + (14 + size (afd_content_type d)))))); [|lia].
    set (pre2 := pre ++ disp ++ CRLF).
    assert (size pre2 = size pre + size disp + 2) as <- by (unfold pre2; rewrite !size_app; literals; lia).
    assert (text = pre2 ++ (bs "Content-Type: " ++ afd_content_type d) ++ CRLF ++ rest) as Et2
      by (rewrite Et; unfold pre2; segments).
    rewrite (str_find_first CRLF text pre2 (bs "Content-Type: " ++ afd_content_type d) rest);
      [|exact Et2|done|apply avoids_char; rewrite not_elem_of_app; split; [by apply (bool_decide_eq_false_1 _)|done]].
    erewrite type_line_read; [|rewrite <- app_assoc in Et2; exact Et2|done]. cbn [mbind option_bind].
    rewrite size_app in *. literals.
    assert (size pre2 + 14 + size (afd_content_type d) + 2 <= size text).
    { rewrite Et2, !size_app. literals. pose proof (size_nonneg rest). lia. }
    rewrite wrap_small by (pose proof (size_nonneg pre2); lia).
    assert (size pre2 = size pre + size disp + 2) as Ep2 by (unfold pre2; rewrite !size_app; literals; lia).
    destruct (Z.ltb_spec (size pre2 + (14 + size (afd_content_type d)) + 2)
                (size pre + (size disp + (2 + (14 + size (afd_content_type d)))))); [lia|done].
Qed.

Lemma ParseDisposition_read text pre d rest :
  text = pre ++ show_part d ++ rest -> short text ->
  (";"%byte ∉ afd_name d) -> (";"%byte ∉ afd_filename d) ->
  (x0d ∉ show_disposition (afd_name d) (afd_filename d)) -> (x0d ∉ afd_content_type d) ->
  ParseDisposition text (size pre) (size pre + size (show_part d)) = Some d.
Proof.
  intros Et Hs Hn Hf Hd Ht. pose proof Hs as Hs'. unfold short in Hs'.
  set (head := show_disposition (afd_name d) (afd_filename d) ++ show_type (afd_content_type d)).
  assert (show_part d = head ++ CRLF ++ CRLF ++ afd_data d ++ CRLF) as Ep
    by (unfold show_part, head; segments).
  rewrite Ep in *. rewrite <- !app_assoc in Et.
  assert (size pre + size head + 6 + size (afd_data d) <= size text) as Hsz.
  { rewrite Et, !size_app. literals. pose proof (size_nonneg rest). lia. }
  pose proof (size_nonneg pre). pose proof (size_nonneg head). pose proof (size_nonneg (afd_data d)).
  assert (size (head ++ CRLF ++ CRLF ++ afd_data d ++ CRLF) = size head + 6 + size (afd_data d)) as ->
    by (rewrite !size_app; literals; lia).
  unfold ParseDisposition.
  rewrite (str_find_first (bs "Content-Disposition") text pre []
    (drop 19 head ++ CRLF ++ CRLF ++ afd_data d ++ CRLF ++ rest)); [|exact Et|done|done].
  literals. rewrite Z.add_0_r, Z.eqb_refl. cbn [negb].
  rewrite (str_find_first (CRLF ++ CRLF) text pre head (afd_data d ++ CRLF ++ rest));
    [|rewrite Et; segments|done|].
  2:{ unfold head. rewrite avoids_app. apply andb_true_intro. split; [by apply avoids_char|].
      unfold show_type. case_bool_decide; [done|]. rewrite avoids_app. apply andb_true_intro.
      split; [done|]. apply avoids_char. rewrite not_elem_of_app. split; [by apply (bool_decide_eq_false_1 _)|done]. }
  destruct (Z.eqb_spec npos (size pre + size head)); [unfold npos in *; lia|].
  destruct (Z.ltb_spec (size pre + (size head + 6 + size (afd_data d))) (size pre + size head)); [lia|].
  cbn [orb].
  destruct (length text) as [|f] eqn:El; [destruct text; [change (size []) with 0 in Hsz; lia|done]|].
  assert (lines_loop (S (S f)) text (size pre + size head) (size pre) FormDisposition_init
          = Some (MkDisposition (afd_name d) (afd_filename d) (afd_content_type d) [])) as ->
    by exact (lines_loop_read f text pre d _ Et Hs Hn Hf Hd Ht).
  cbn [mbind option_bind].
  rewrite (substr_at text (pre ++ head ++ CRLF ++ CRLF) (afd_data d) (CRLF ++ rest));
    [by destruct d|rewrite Et; segments|rewrite !size_app; literals; lia|rewrite wrap_small; lia].
Qed.

Lemma show_form_cons b d ds :
  show_form b (d :: ds) = (bs "--" ++ b) ++ CRLF ++ show_part d ++ show_form b ds.
Proof. unfold show_form. cbn [flat_map]. segments. Qed.

(** A form starts with its boundary. *)
Lemma show_form_head b ds : exists r, show_form b ds = (bs "--" ++ b) ++ r /\ 2 <= size r.
Proof.
  destruct ds as [|d ds].
  - exists (bs "--" ++ CRLF). split; [done|]. by vm_compute.
  - rewrite show_form_cons. exists (CRLF ++ show_part d ++ show_form b ds). split; [done|].
    rewrite size_app. literals. pose proof (size_nonneg (show_part d ++ show_form b ds)). lia.
Qed.

Lemma parts_loop_read fuel b text pre ds :
  text = pre ++ show_form b ds -> short text -> Forall (fun d => part_ok b d = true) ds ->
  (length ds < fuel)%nat -> parts_loop fuel (bs "--" ++ b) text (size pre) = Some ds.
Proof.
  set (B := bs "--" ++ b). revert pre ds. induction fuel as [|fuel IH]; intros pre ds Et Hs Hds Hf; [lia|].
  pose proof Hs as Hs'. unfold short in Hs'. cbn [parts_loop].
  destruct (show_form_head b ds) as (r & Er & Hr). fold B in Er.
  pose proof (size_nonneg pre). pose proof (size_nonneg B).
  assert (size pre + size B + 2 <= size text) as Hsz by (rewrite Et, Er, !size_app; lia).
  rewrite (str_find_first B text pre [] r); [|rewrite Et, Er; done|done|done]. literals. rewrite Z.add_0_r.
  destruct (Z.eqb_spec npos (size pre)); [unfold npos in *; lia|].
  destruct (Z.ltb_spec (size text) (size pre + size B + 2)); [lia|]. cbn [andb].
  destruct ds as [|d ds].
  - (* the last boundary *)
    assert (text = (pre ++ B ++ bs "--") ++ CRLF) as Et2 by (rewrite Et; unfold show_form; cbn [flat_map]; segments).
    assert (str_find B text (size pre + size B + 2) = npos) as ->; [|done].
    unfold str_find. destruct (Z.ltb_spec (size text) (size pre + size B + 2)); [done|].
    rewrite Et2. replace (Z.to_nat (size pre + size B + 2)) with (length (pre ++ B ++ bs "--")).
    2:{ unfold size. rewrite !length_app. change (length (bs "--")) with 2%nat. lia. }
    rewrite drop_app_length. apply (str_find_at_absent "-"); [by left|by apply (bool_decide_eq_false_1 _)].
  - apply Forall_cons in Hds as [Hd Hds]. destruct (part_ok_inv b d) as (P1 & P2 & P3 & P4 & P5); [done|].
    destruct (show_form_head b ds) as (r2 & Er2 & _). fold B in Er2, P5.
    set (pre2 := pre ++ B ++ CRLF). rewrite show_form_cons in Et. fold B in Et.
    assert (size pre + size B + 2 = size pre2) as -> by (unfold pre2; rewrite !size_app; literals; lia).
    rewrite (str_find_first B text pre2 (show_part d) r2);
      [|rewrite Et, Er2; unfold pre2; segments|done|by apply avoids_end].
    assert (size (pre2 ++ show_part d) <= size text) as Hsz2.
    { rewrite Et. unfold pre2. rewrite !size_app. pose proof (size_nonneg (show_form b ds)). lia. }
    rewrite size_app in Hsz2.
    destruct (Z.eqb_spec npos (size pre2 + size (show_part d))); [unfold npos in *; lia|].
    rewrite (ParseDisposition_read text pre2 d (show_form b ds));
      [|rewrite Et; unfold pre2; segments|done..]. cbn [mbind option_bind].
    rewrite <- size_app, (IH (pre2 ++ show_part d) ds); [done| |done|done|simpl in Hf; lia].
    rewrite Et. unfold pre2. segments.
Qed.

Lemma length_show_form b ds : (length ds < length (show_form b ds))%nat.
Proof.
  induction ds as [|d ds IH]; [unfold show_form; simpl; rewrite length_app; simpl; lia|].
  rewrite show_form_cons, !length_app. simpl. lia.
Qed.

Definition multipart_type (boundary : bytes) : bytes := bs "multipart/form-data; boundary=" ++ boundary.

Lemma multipart_boundary_read b : size b < 2 ^ 62 -> multipart_boundary (multipart_type b) = bs "--" ++ b.
Proof.
  intros Hb. unfold multipart_boundary, multipart_type. pose proof (size_nonneg b).
  rewrite (str_find_first (bs "boundary=") _ [] (bs "multipart/form-data; ") b);
    [|done|done|apply avoids_char; by apply (bool_decide_eq_false_1 _)].
  change (size (bs "multipart/form-data; ")) with 21. literals.
  destruct (Z.eqb_spec npos (0 + 21)); [done|]. cbn [negb].
  replace (Byte.eqb (nth (Z.to_nat (0 + 21 + 1)) (bs "multipart/form-data; boundary=" ++ b) x00) quote_mark)
    with false by done.
  f_equal. apply substr_suffix; [done|unfold npos; lia].
Qed.

(** C10: The fields and files of a form come back from the parser as the
    browser sent them - names, file names, types and contents, whatever bytes
    the contents hold - as long as no part contains the boundary and the names
    hold neither semicolons nor line ends; and on every body the parser ends. *)
Theorem ParseMultipartForm_read (boundary : bytes) (parts : list FormDisposition) :
  forallb (part_ok boundary) parts = true -> size (show_form boundary parts) < 2 ^ 62 ->
  ParseMultipartForm (multipart_type boundary) (show_form boundary parts) = Some parts
  /\ forall content_type text, size text < 2 ^ 63 -> exists l, ParseMultipartForm content_type text = Some l.
Proof.
  intros Hp L. split; [|intros; by apply ParseMultipartForm_total].
  assert (size boundary < 2 ^ 62).
  { destruct (show_form_head boundary parts) as (r & E & _). rewrite E, !size_app in L.
    pose proof (size_nonneg r). change (size (bs "--")) with 2 in L. lia. }
  unfold ParseMultipartForm. rewrite multipart_boundary_read by done.
  apply (parts_loop_read _ boundary _ []); [done|unfold short; lia|by apply forallb_Forall|].
  pose proof (length_show_form boundary parts). lia.
Qed.

Definition sample_parts : list FormDisposition :=
  [MkDisposition (bs "name_of_sender") [] [] (bs "hello");
   MkDisposition (bs "t") [] [] (bs "dd" ++ CRLF ++ CRLF ++ bs "ee");
   MkDisposition (bs "name_of_files") (bs "foo") (bs "application/octet-stream") (bs "a--b" ++ CRLF)].

Lemma ParseMultipartForm_read_witness :
  ParseMultipartForm (multipart_type (bs "---13850")) (show_form (bs "---13850") sample_parts) = Some sample_parts.
Proof. apply (ParseMultipartForm_read (bs "---13850") sample_parts); by vm_compute. Defined.

(** A semicolon and a blank end a value even between its quotes. *)
Example semicolon_cuts : (d ← ParseDisposition (show_part (MkDisposition (bs "f") (bs "a; b") [] (bs "x"))) 0
    (size (show_part (MkDisposition (bs "f") (bs "a; b") [] (bs "x")))); Some (afd_filename d))
  = Some (quote_mark :: bs "a").
Proof. by vm_compute. Qed.

(** A boundary between quotes is taken with its quotes. *)
Example quoted_boundary :
  multipart_boundary (bs "multipart/form-data; boundary=" ++ quote (bs "x")) = bs "--" ++ quote (bs "x").
Proof. by vm_compute. Qed.

(** ** Requests as browsers send them *)

(** The whole body is read when the bound allows as many reads as it takes. *)
Lemma read_body_reads {I} `{FcgxIn I} fuel (i : I) : size (unread i) < 2048 * Z.of_nat fuel ->
  exists i', read_body fuel i = Some (unread i, i').
Proof.
  revert i. induction fuel as [|fuel IH]; intros i L; [pose proof (size_nonneg (unread i)); lia|].
  cbn [read_body]. destruct (GetStr_reads 2048 i) as [H1 H2]; [lia|].
  destruct (GetStr 2048 i) as [buf i2]. cbn [fst snd] in *. subst buf.
  destruct (Z.eqb_spec (size (take (Z.to_nat 2048) (unread i))) 2048) as [E|N].
  - destruct (IH i2) as [i3 ->].
    { rewrite H2. unfold size in *. rewrite length_take in E. rewrite length_drop. lia. }
    exists i3. cbn. by rewrite H2, take_drop.
  - exists i2. unfold size in N. rewrite length_take in N. by rewrite take_ge by lia.
Qed.

Definition env_var (key value : bytes) : bytes := key ++ "="%byte :: value.

(** What [Init] needs of a name and of a value in the environment. *)
Definition key_ok (key : bytes) : bool :=
  bool_decide (x00 ∉ key) && bool_decide ("="%byte ∉ key) && (size key <? 2 ^ 62).
Definition env_ok (value : bytes) : bool :=
  bool_decide (x00 ∉ value) && negb (bool_decide (value = [])) && (size value <? 2 ^ 62).

Lemma env_ok_inv value : env_ok value = true -> (x00 ∉ value) /\ value <> [] /\ size value < 2 ^ 62.
Proof.
  unfold env_ok. intros [[H1 H2%negb_true_iff]%andb_prop H3%Z.ltb_lt]%andb_prop.
  by apply bool_decide_eq_true_1 in H1; apply bool_decide_eq_false_1 in H2.
Qed.

Lemma Init_env_var key value q : key_ok key = true -> env_ok value = true ->
  Init_env q (env_var key value) =
    if starts_with key (bs "HTTP_") then set_header (drop 5 key) value q
    else if bool_decide (key = bs "QUERY_STRING") then set_query_string value q
    else if bool_decide (key = bs "REQUEST_METHOD") then
      match Parse value with Some m => set_method m q | None => q end
    else if bool_decide (key = bs "REQUEST_URI") then set_url value q
    else set_header key value q.
Proof.
  unfold key_ok. intros [[Hk He]%andb_prop Lk%Z.ltb_lt]%andb_prop (Hv & Hn & Lv)%env_ok_inv.
  apply bool_decide_eq_true_1 in Hk, He.
  assert (size (show_cookie (key, value)) < npos) as L.
  { unfold show_cookie. cbn [fst snd]. rewrite size_app, size_cons. unfold npos. lia. }
  unfold Init_env, env_var. rewrite c_str_id by by rewrite not_elem_of_app, not_elem_of_cons.
  pose proof (cut_equal_show key value He L) as E. unfold show_cookie in E. cbn [fst snd] in E.
  by rewrite E, bool_decide_false.
Qed.

Definition upload_env (host url boundary : bytes) : list bytes :=
  [env_var (bs "HTTP_HOST") host; env_var (bs "REQUEST_METHOD") (bs "POST");
   env_var (bs "REQUEST_URI") url; env_var (bs "CONTENT_TYPE") (multipart_type boundary)].
Definition download_env (host url : bytes) : list bytes :=
  [env_var (bs "HTTP_HOST") host; env_var (bs "REQUEST_METHOD") (bs "GET"); env_var (bs "REQUEST_URI") url].

Ltac env_step := rewrite Init_env_var; [|by vm_compute|first [done|by vm_compute]].

(** The request after the environment is read. *)
Definition upload_request (host url boundary : bytes) : Request :=
  MkRequest host url [] [] [(bs "CONTENT_TYPE", multipart_type boundary); (bs "HOST", host)] [] [] [] HV_POST.
Definition download_request (host url : bytes) : Request :=
  MkRequest host url [] [] [(bs "HOST", host)] [] [] [] HV_GET.

Lemma Init_head_upload host url boundary :
  env_ok host = true -> env_ok url = true -> env_ok (multipart_type boundary) = true ->
  Init_head (upload_env host url boundary) Request_new = upload_request host url boundary.
Proof.
  intros Hh Hu Hb. unfold Init_head, upload_env. cbn [fold_left]. do 4 env_step. reflexivity.
Qed.

Lemma Init_head_download host url : env_ok host = true -> env_ok url = true ->
  Init_head (download_env host url) Request_new = download_request host url.
Proof. intros Hh Hu. unfold Init_head, download_env. cbn [fold_left]. do 3 env_step. reflexivity. Qed.

Lemma Init_download {I} `{FcgxIn I} fuel (i : I) host url :
  env_ok host = true -> env_ok url = true ->
  Init fuel i (download_env host url) Request_new = Some (true, download_request host url, i).
Proof.
  intros Hh Hu. unfold Init. rewrite Init_head_download by done. cbv zeta.
  rewrite decide_False by done. apply env_ok_inv in Hh as (_ & Hh & _), Hu as (_ & Hu & _).
  cbn. by rewrite !bool_decide_false.
Qed.

(** The parts of a form become its fields and its files. *)
Definition is_file (d : FormDisposition) : bool := negb (bool_decide (afd_filename d = [])).
Definition fields (parts : list FormDisposition) (f : StringMap) : StringMap :=
  fold_left (fun f d => if is_file d then f else map_insert (afd_name d) (afd_data d) f) parts f.

Lemma add_parts parts q : fold_left add_part parts q =
  set_forms (fields parts (form_ q)) (file_array_ q ++ List.filter is_file parts) q.
Proof.
  revert q. induction parts as [|d parts IH]; intros q; cbn [fold_left List.filter fields].
  - destruct q. by rewrite app_nil_r.
  - rewrite IH. unfold add_part, is_file. case_bool_decide; [by destruct q|].
    destruct q. cbn. by rewrite <- app_assoc.
Qed.

Lemma part_type_multipart boundary : part_type (multipart_type boundary) = bs "multipart/form-data".
Proof.
  unfold part_type, multipart_type.
  change (bs "multipart/form-data; boundary=" ++ boundary)
    with (bs "multipart/form-data" ++ ";"%byte :: bs " boundary=" ++ boundary).
  rewrite find_first by by apply (bool_decide_eq_false_1 _).
  change (negb (npos =? size (bs "multipart/form-data"))) with true. cbn iota. by apply substr_prefix.
Qed.

(** An uploaded form arrives whole: [Init] accepts the request, and its files
    are the parts that have a file name, in order. *)
Lemma Init_upload {I} `{FcgxIn I} fuel (i : I) host url boundary parts :
  env_ok host = true -> env_ok url = true -> env_ok (multipart_type boundary) = true ->
  forallb (part_ok boundary) parts = true -> size (show_form boundary parts) < 2 ^ 62 ->
  unread i = show_form boundary parts -> size (show_form boundary parts) < 2048 * Z.of_nat fuel ->
  exists i', Init fuel i (upload_env host url boundary) Request_new =
    Some (true, set_forms (fields parts []) (List.filter is_file parts) (upload_request host url boundary), i').
Proof.
  intros Hh Hu Hb Hp L Hi Hf. destruct (read_body_reads fuel i) as [i' Hr]; [by rewrite Hi|].
  exists i'. unfold Init. rewrite Init_head_upload by done. rewrite decide_True by done. rewrite Hr, Hi. cbn [mbind option_bind].
  unfold Init_body. rewrite bool_decide_false.
  2:{ destruct (show_form_head boundary parts) as (r & -> & _). done. }
  change (header (bs "CONTENT_TYPE") (upload_request host url boundary)) with (multipart_type boundary).
  cbv zeta. rewrite part_type_multipart, bool_decide_false, bool_decide_true by done.
  unfold ParseMultipartForm. rewrite multipart_boundary_read.
  2:{ apply env_ok_inv in Hb as (_ & _ & Hb). unfold multipart_type in Hb. rewrite size_app in Hb.
      pose proof (size_nonneg (bs "multipart/form-data; boundary=")). lia. }
  rewrite (parts_loop_read _ boundary _ [] parts);
    [|done|unfold short; lia|by apply forallb_Forall|pose proof (length_show_form boundary parts); lia].
  cbn [mbind option_bind]. rewrite add_parts. cbn.
  apply env_ok_inv in Hh as (_ & Hh & _), Hu as (_ & Hu & _). by rewrite !bool_decide_false.
Qed.
