(* ===== verification/Frame.v ===== *)
(** * The web framework (src/cwf/frame.h, src/cwf/frame.cc, src/cwf/action.h, src/cwf/action.cc)

    An action answers the requests whose url it matches; the first registered
    action that matches is taken.  An action runs on the file system of
    [Posix.v] and writes its response as it goes, so what it wrote before an
    exception has been sent. *)

From S2P Require Import Prelude CString Http Stl Cookie Stream Posix.

Section Frame.
Context {O : Type} `{FcgxOut O}.

(** ** Programs that answer a request *)

Definition R (A : Type) : Type := Response O -> proc -> prog ((stop + A) * Response O * proc).

#[export] Instance R_ret : MRet R := fun A a r s => Ret (inr a, r, s).
#[export] Instance R_bind : MBind R := fun A B k m r s =>
  pbind (m r s) (fun '(x, r, s) => match x with inr a => k a r s | inl e => Ret (inl e, r, s) end).

(** A piece of a program that writes no response. *)
Definition quietly {A} (m : P A) : R A := fun r s => pbind (m s) (fun '(x, s) => Ret (x, r, s)).
(** A call on the response. *)
Definition respond (f : Response O -> Response O) : R unit := fun r s => Ret (inr tt, f r, s).
(** [try { m } catch (...) {}], with the value kept when [m] throws. *)
Definition catch_all {A} (m : R A) (a : A) : R A := fun r s =>
  pbind (m r s) (fun '(x, r, s) => match x with
                                   | inl Exn => Ret (inr a, r, s)
                                   | x => Ret (x, r, s)
                                   end).

(** *** Reasoning about them *)

(** [m] is not stopped, and ends in [Q]. *)
Definition wpR {A} (C : choice -> Prop) (m : R A) (Q : A -> Response O -> proc -> fs -> Prop)
    (r : Response O) (s : proc) (f : fs) : Prop :=
  wp C (m r s) (fun '(x, r, s) f => match x with inr a => Q a r s f | inl _ => False end) f.

Lemma wpR_ret {A} C (a : A) (Q : A -> Response O -> proc -> fs -> Prop) r s f :
  Q a r s f -> wpR C (mret a) Q r s f.
Proof. done. Qed.

Lemma wpR_bind {A B} C (m : R A) (k : A -> R B) Q r s f :
  wpR C m (fun a r s f => wpR C (k a) Q r s f) r s f -> wpR C (mbind k m) Q r s f.
Proof.
  unfold wpR. intros Hm. apply wp_bind. eapply wp_mono; [exact Hm|]. by intros [[[e|a] r'] s'] f'.
Qed.

Lemma wpR_mono {A} C (m : R A) (Q Q' : A -> Response O -> proc -> fs -> Prop) r s f :
  wpR C m Q r s f -> (forall a r s f, Q a r s f -> Q' a r s f) -> wpR C m Q' r s f.
Proof. intros Hm HQ. eapply wp_mono; [exact Hm|]. intros [[[e|a] r'] s'] f'; [done|]. apply HQ. Qed.

Lemma wpR_quietly {A} C (m : P A) (Q : A -> Response O -> proc -> fs -> Prop) r s f :
  wpP C never m (fun a s f => Q a r s f) s f -> wpR C (quietly m) Q r s f.
Proof. intros Hm. apply wp_bind. eapply wp_mono; [exact Hm|]. by intros [[e|a] s'] f'. Qed.

Lemma wpR_respond C g (Q : unit -> Response O -> proc -> fs -> Prop) r s f :
  Q tt (g r) s f -> wpR C (respond g) Q r s f.
Proof. done. Qed.

Lemma wpR_catch_all {A} C (m : R A) a (Q : A -> Response O -> proc -> fs -> Prop) r s f :
  wpR C m Q r s f -> wpR C (catch_all m a) Q r s f.
Proof. intros Hm. apply wp_bind. eapply wp_mono; [exact Hm|]. by intros [[[e|x] r'] s'] f'. Qed.

(** ** Actions *)

Record BaseAction := MkAction {
  Match_ : bytes -> bool;
  Process_ : Request -> R HttpStatusCode }.

(** [response->header().set_status_code(hc, message)] and [Add(hh, value)] *)
Definition status (hc : HttpStatusCode) (message : bytes) : R unit :=
  respond (on_header (set_status_code hc message)).
Definition add (hh : HttpHeader) (value : bytes) : R unit := respond (on_header (Header_Add hh value)).

Definition html_type : bytes := bs "text/html; charset=utf-8".

Definition FooAction : BaseAction := {|
  Match_ url := bool_decide (url = bs "/foo");
  Process_ _ :=
    status HC_OK (bs "OK");;
    add HH_CONTENT_TYPE html_type;;
    respond OutputHeader;;
    respond (WriteRaw (bs "<h1>foo</h1>"));;
    mret HC_OK |}.

(** The lists [EatAction] shows. *)
Definition eaten_pairs (title : bytes) (m : StringMap) : bytes :=
  bs "<ul>" ++ title ++ bs ":" ++ [x0a]
  ++ flat_map (fun i => bs "<li>" ++ i.1 ++ bs ": " ++ i.2 ++ bs "</li>" ++ [x0a]) m
  ++ bs "</ul>" ++ [x0a].
Definition eaten_files (files : list FormDisposition) : bytes :=
  bs "<ul>file:" ++ [x0a]
  ++ flat_map (fun i => bs "<li>" ++ afd_filename i ++ bs ": " ++ dec (size (afd_data i)) ++ bs "</li>" ++ [x0a]) files
  ++ bs "</ul>" ++ [x0a].

Definition EatAction : BaseAction := {|
  Match_ url := negb (npos =? str_find (bs "eat") url 0);
  Process_ request :=
    status HC_OK (bs "OK");;
    add HH_CONTENT_TYPE html_type;;
    respond OutputHeader;;
    respond (WriteRaw (bs "<h1>yamm, taste good</h1>"));;
    respond (WriteRaw (eaten_pairs (bs "request") (query_ request) ++ eaten_pairs (bs "form") (form_ request)
                       ++ eaten_files (file_array_ request)));;
    mret HC_OK |}.

(** ** FrameWork *)

(** [default_actions_], null until the first [RegisterAction]. *)
Definition Registry : Type := option (list BaseAction).

Definition RegisterAction (a : BaseAction) (default_actions : Registry) : Registry :=
  Some (default [] default_actions ++ [a]).

Definition InstallDefaultAction (default_actions : Registry) : Registry :=
  RegisterAction FooAction (RegisterAction EatAction default_actions).

(** [host_action_] *)
Definition FrameWork : Type := list BaseAction.

Definition LoadConfig (filename : bytes) : bool := true.
Definition InitHost (default_actions : Registry) (fw : FrameWork) : FrameWork :=
  match default_actions with Some l => l | None => fw end.
Definition AddAction (a : BaseAction) (fw : FrameWork) : FrameWork := fw ++ [a].

Definition Find (url : bytes) (fw : FrameWork) : option BaseAction := List.find (fun ha => Match_ ha url) fw.

Definition kDefaultMessage : list (HttpStatusCode * bytes) :=
  [(HC_BAD_REQUEST, bs "Bad Request"); (HC_UNAUTHORIZED, bs "Unauthorized");
   (HC_METHOD_NOT_ALLOWED, bs "Method Not Allowed"); (HC_NOT_ACCEPTABLE, bs "Not Acceptable");
   (HC_PROXY_AUTHENTICATION_REQUIRED, bs "Proxy Authentication Required"); (HC_OK, bs "OK")].

Definition default_message (code : HttpStatusCode) : bytes :=
  match List.find (fun cm => bool_decide (cm.1 = code)) kDefaultMessage with
  | Some cm => cm.2
  | None => bs "TODO:"
  end.

Definition ResponseError (code : HttpStatusCode) (message : option bytes) : R unit :=
  status code (default (default_message code) message);;
  respond OutputHeader.

Definition Process (fw : FrameWork) (request : Request) : R HttpStatusCode :=
  match Find (url_ request) fw with
  | None => ResponseError HC_NOT_FOUND None;; mret HC_NOT_FOUND
  | Some a =>
      rc ← Process_ a request;
      (if decide (rc = HC_OK) then mret tt else ResponseError rc None);;
      mret rc
  end.

(** The answer the found action gives, when it is 200. *)
Lemma Process_wp C fw request a (Q : HttpStatusCode -> Response O -> proc -> fs -> Prop) r s f :
  Find (url_ request) fw = Some a ->
  wpR C (Process_ a request) (fun rc r s f => rc = HC_OK /\ Q HC_OK r s f) r s f ->
  wpR C (Process fw request) Q r s f.
Proof.
  intros Hf Ha. unfold Process. rewrite Hf. apply wpR_bind. eapply wpR_mono; [exact Ha|].
  intros rc r' s' f' [-> HQ]. rewrite decide_True by done. by apply wpR_bind, wpR_ret.
Qed.

(** ** FastcgiProc *)

(** A request as [FCGX_Accept_r] delivers it. *)
Record Wrap (I : Type) := MkWrap { wrap_in : I; wrap_envp : list bytes; wrap_out : O }.
Arguments MkWrap {I}. Arguments wrap_in {I}. Arguments wrap_envp {I}. Arguments wrap_out {I}.

Section Serve.
Context {I : Type} `{FcgxIn I}.

(** One turn of the loop: the status and what the output then is.  A request
    [Init] refuses is processed all the same.  [fuel] bounds the reads of the
    body, [garbage] is the memory of the status before one is set. *)
Definition serve (fuel : nat) (garbage : Z) (fw : FrameWork) (wrap : Wrap I) : P (HttpStatusCode * O) :=
  match Init fuel (wrap_in wrap) (wrap_envp wrap) Request_new with
  | None => halt Fuel
  | Some (_, q, _) => fun s =>
      pbind (catch_all (Process fw q) HC_SERVICE_UNAVAILABLE (Response_new garbage (wrap_out wrap)) s)
        (fun '(x, p, s) => Ret (match x with inr rc => inr (rc, out_ p) | inl e => inl e end, s))
  end.

Lemma serve_wp C fuel garbage fw wrap ok q i (Q : HttpStatusCode * O -> proc -> fs -> Prop) s f :
  Init fuel (wrap_in wrap) (wrap_envp wrap) Request_new = Some (ok, q, i) ->
  wpR C (Process fw q) (fun rc r s f => Q (rc, out_ r) s f) (Response_new garbage (wrap_out wrap)) s f ->
  wpP C never (serve fuel garbage fw wrap) Q s f.
Proof.
  intros Hi Hp. unfold serve. rewrite Hi. apply wp_bind. eapply wp_mono.
  { apply wpR_catch_all. exact Hp. }
  by intros [[[e|rc] r] s'] f'.
Qed.

(** The loop over the accepted requests, each with whether [quit_] is seen set after it. *)
Fixpoint FastcgiProc (fuel : nat) (garbage : Z) (fw : FrameWork) (accepted : list (Wrap I * bool))
    : P (list (HttpStatusCode * O)) :=
  match accepted with
  | [] => mret []
  | (wrap, quit) :: accepted =>
      r ← serve fuel garbage fw wrap;
      if (quit : bool) then mret [r]
      else rs ← FastcgiProc fuel garbage fw accepted; mret (r :: rs)
  end.
End Serve.
End Frame.
Arguments BaseAction O : clear implicits.
Arguments FrameWork O : clear implicits.
Arguments Wrap O I : clear implicits.
Arguments MkWrap {O I}.
