(* ===== verification/BundleAction.v ===== *)
(** * HTTP actions for bundles (src/bundle/bundleaction.cc)

    Uploads that answer with the urls of the stored files or redirect to the
    first, and downloads by url.  [today] is what [localtime] gives when the
    [i]-th file of a request is stored; [fuel] bounds [Allocate]'s search. *)

From S2P Require Import Prelude CString Http Stl Cookie Stream Posix BundleUrl FileLock Format Bundle Allocate Frame.

Section Actions.
Context {O : Type} `{FcgxOut O}.
Context (st : Setting) (today : Z -> tm) (fuel : nat).

Definition the_storage_ : bytes := bs "test".

Definition text_type : bytes := bs "text/plain; charset=utf-8".
Definition kImageType : bytes := bs "image/jpeg".

(** [snprintf] into [room] bytes, as the string that is then there. *)
Definition snprintf (room : nat) (text : bytes) : bytes := take (room - 1) (c_str text).

(** [tm_buf]: a prefix like p/20120512 *)
Definition day_prefix (ts : tm) : bytes :=
  snprintf 32 (bs "p/" ++ dec_pad 4 (i32 (tm_year ts + 1900)) ++ dec_pad 2 (i32 (tm_mon ts + 1))
               ++ dec_pad 2 (tm_mday ts)).

(** [Writer::Allocate]; its callers use the result unchecked. *)
Definition allocate_file (i : Z) (fd : FormDisposition) : R (O := O) Writer :=
  w ← quietly (Allocate st fuel (day_prefix (today i)) (bs ".jpg") (size (afd_data fd)) the_storage_ None None);
  match w with Some aw => mret aw | None => quietly (halt Undef) end.

Definition write_failed (ret : Z) : R (O := O) unit := respond (WriteRaw (bs "failed " ++ dec ret)).

(** ** WriteAction *)

Definition write_file (i : Z) (fd : FormDisposition) : R (O := O) unit :=
  aw ← allocate_file i fd;
  '(ret, _) ← quietly (Write aw (afd_data fd) None);
  (if 0 =? ret then respond (WriteRaw (EnsureUrl aw ++ [x0a])) else write_failed ret);;
  quietly (Release aw);;
  mret tt.

Fixpoint write_files (i : Z) (files : list FormDisposition) : R (O := O) unit :=
  match files with
  | [] => mret tt
  | fd :: files => write_file i fd;; write_files (i + 1) files
  end.

Definition WriteAction : BaseAction O := {|
  Match_ url := negb (str_find (bs "bundle") url 0 =? npos);
  Process_ request :=
    if negb (bool_decide (method_ request = HV_POST)) then mret HC_METHOD_NOT_ALLOWED
    else
      status HC_OK (bs "OK");;
      add HH_CONTENT_TYPE text_type;;
      respond OutputHeader;;
      write_files 0 (file_array_ request);;
      mret HC_OK |}.

(** ** WriteRedirectAction *)

(** The first file that is stored ends the request; its writer is then not deleted. *)
Fixpoint redirect_files (i : Z) (files : list FormDisposition) : R (O := O) HttpStatusCode :=
  match files with
  | [] => mret HC_OK
  | fd :: files =>
      aw ← allocate_file i fd;
      '(ret, _) ← quietly (Write aw (afd_data fd) None);
      if 0 =? ret then
        status HC_FOUND (bs "Found");;
        add HH_CONTENT_TYPE text_type;;
        add HH_CONTENT_LENGTH (bs "0");;
        add HH_LOCATION (snprintf 256 (bs "/" ++ c_str (EnsureUrl aw)));;
        respond OutputHeader;;
        mret HC_OK
      else
        write_failed ret;;
        quietly (Release aw);;
        redirect_files (i + 1) files
  end.

Definition WriteRedirectAction : BaseAction O := {|
  Match_ url := negb (str_find (bs "/upload") url 0 =? npos);
  Process_ request :=
    if negb (bool_decide (method_ request = HV_POST)) then mret HC_METHOD_NOT_ALLOWED
    else redirect_files 0 (file_array_ request) |}.

(** ** ReadAction *)

Definition ReadAction : BaseAction O := {|
  Match_ url := str_find (bs "/p/") url 0 =? 0;
  Process_ request :=
    let url := substr (Stream.url_ request) 1 npos in
    '(ret, r) ← quietly (Read_url st url the_storage_ None);
    if ret =? 0 then
      let buf := match r with Some (content, _) => content | None => [] end in
      status HC_OK (bs "OK");;
      add HH_CONTENT_TYPE kImageType;;
      add HH_CONTENT_LENGTH (snprintf 16 (dec (i32 (size buf))));;
      respond (WriteRawWithHeader buf);;
      mret HC_OK
    else
      status HC_NOT_FOUND (bs "Not Found");;
      respond OutputHeader;;
      mret HC_NOT_FOUND |}.

Definition Init_actions (default_actions : Registry (O := O)) : Registry (O := O) :=
  RegisterAction WriteRedirectAction (RegisterAction ReadAction (RegisterAction WriteAction default_actions)).

(** What [FastcgiMain] serves with. *)
Definition bundle_host : FrameWork O := InitHost (Init_actions None) [].
End Actions.
