(* ===== verification/BundleActionSpec.v ===== *)
(** * What the HTTP actions promise

    A picture posted to the server can be fetched under the url the server
    answers with; what the other requests are answered. *)

From S2P Require Import Prelude CString Http Sixty Stl Cookie Stream StreamSpec Posix PathOps BundleUrl FileLock Format Bundle Allocate Frame BundleAction.

(** ** Urls of the day *)

Definition day_ok (ts : tm) : Prop :=
  0 <= tm_year ts + 1900 < 2 ^ 31 /\ 0 <= tm_mon ts + 1 < 2 ^ 31 /\ 0 <= tm_mday ts.

Lemma dec_pad_digits w n : 0 <= n -> Forall (fun c => isdigit c = true) (dec_pad w n).
Proof.
  intros Hn. unfold dec_pad. apply Forall_app. split; [by apply Forall_replicate|by apply dec_nonneg_digits].
Qed.

Lemma digits_free c ds : isdigit c = false -> Forall (fun c => isdigit c = true) ds -> c ∉ ds.
Proof. intros Hc Hd Hin. rewrite Forall_forall in Hd. apply Hd in Hin. congruence. Qed.

Lemma day_prefix_shape ts : day_ok ts ->
  exists ds, day_prefix ts = bs "p/" ++ ds /\ Forall (fun c => isdigit c = true) ds /\ size ds <= 29.
Proof.
  intros (Hy & Hm & Hd). unfold day_prefix. rewrite !i32_small by lia.
  set (ds := dec_pad 4 _ ++ dec_pad 2 _ ++ dec_pad 2 _).
  assert (Forall (fun c => isdigit c = true) ds) as Hds by (unfold ds; rewrite !Forall_app; split_and!; apply dec_pad_digits; lia).
  exists (take 29 ds). unfold snprintf. rewrite c_str_id.
  - split; [done|]. split; [by apply Forall_take|]. unfold size. rewrite length_take. lia.
  - rewrite not_elem_of_app. split; [by apply (bool_decide_eq_false_1 _)|by apply digits_free].
Qed.

Lemma size_dec n : 0 <= n < 2 ^ 31 -> size (dec n) <= 10.
Proof.
  intros Hn. unfold dec. destruct (Z.ltb_spec n 0); [lia|]. unfold dec_nonneg, size. rewrite length_map.
  destruct (radix_digits_spec 10 n) as (_ & _ & Hl & Hlow); [lia|lia|].
  destruct (Z.eq_dec n 0) as [->|]; [by vm_compute|]. specialize (Hlow ltac:(lia)).
  destruct (Z.le_gt_cases (Z.of_nat (length (radix_digits 10 n))) 10); [done|].
  assert (10 ^ 10 <= 10 ^ (Z.of_nat (length (radix_digits 10 n)) - 1)) by (apply Z.pow_le_mono_r; lia). lia.
Qed.

Lemma snprintf_fits room text : x00 ∉ text -> size text < Z.of_nat room -> snprintf room text = text.
Proof. intros Hn L. unfold snprintf. rewrite c_str_id by done. apply take_ge. unfold size in L. lia. Qed.

Section Url.
Context (ts : tm) (id off sz : Z).
Hypothesis day : day_ok ts.
Abbreviation info := (mkInfo id [] off sz [] (day_prefix ts) (bs ".jpg")).
Hypothesis fields_ok : encodable info = true.

Hypothesis small : off < 2 ^ 32 /\ sz < 2 ^ 32.

(** A number of the url is too small to spell the word that marks the other action. *)
Lemma token_not_bundle n : 0 <= n < 2 ^ 32 -> ~ occurs (bs "bundle") (ToSixty n).
Proof.
  intros Hn (u & v & E).
  assert (length (ToSixty n) <= 6)%nat as L by (apply ToSixty_short; [|lia]; split; [lia|];
    eapply Z.lt_trans; [apply Hn|reflexivity]).
  rewrite E, !length_app in L. change (length (bs "bundle")) with 6%nat in L.
  destruct u, v; cbn in L; try lia. cbn [app] in E. rewrite app_nil_r in E.
  assert (FromSixty (ToSixty n) = n) as F by (apply sixty_read_back; lia).
  rewrite E in F. vm_compute in F. lia.
Qed.

Lemma url_shape : exists rest, BuildWithEncode info = bs "p/" ++ rest /\
  size (BuildWithEncode info) <= 83 /\ (x00 ∉ BuildWithEncode info) /\
  ~ occurs (bs "bundle") (bs "/" ++ BuildWithEncode info).
Proof.
  destruct (encodable_inv _ fields_ok) as (Hid & Hoff & Hsz & _). cbn in Hid, Hoff, Hsz.
  pose proof (encode_hash_range info) as Hh. rewrite BuildWithEncode_encoded by (cbn; lia).
  destruct (day_prefix_shape ts day) as (ds & Eds & Hds & Lds). cbn [info_prefix info_id info_offset info_size info_postfix].
  set (h := encode_hash info) in *. unfold encoded. rewrite Eds.
  eexists. split; [by rewrite <- app_assoc|].
  destruct (ToSixty_letters id) as [L1 _]; [lia|]. destruct (ToSixty_letters off) as [L2 _]; [lia|].
  destruct (ToSixty_letters sz) as [L3 _]; [lia|]. destruct (ToSixty_letters h) as [L4 _]; [lia|].
  split; [|split].
  - unfold size in *. rewrite !length_app. cbn [length bs String.list_byte_of_string]. cbn. lia.
  - assert (forall n, 0 <= n < 2 ^ 63 -> x00 ∉ ToSixty n) as Hx by (intros; by apply sixty_free; [left|]).
    rewrite !not_elem_of_app.
    split_and!; try (apply Hx; lia); try (by apply (bool_decide_eq_false_1 _)). by apply digits_free.
  - assert (forall c a b, c ∉ bs "bundle" -> ~ occurs (bs "bundle") a -> ~ occurs (bs "bundle") b ->
      ~ occurs (bs "bundle") (a ++ c :: b)) as G by (intros c a b Hc Ha Hb [?|?]%occurs_split; done).
    assert (forall a, "d"%byte ∉ a -> ~ occurs (bs "bundle") a) as F
      by (intros; apply (occurs_free "d"); [by apply (bool_decide_eq_true_1 _)|done]).
    change (bs "/" ++ (bs "p/" ++ ds) ++ ?r) with ([] ++ "/"%byte :: ["p"%byte] ++ "/"%byte :: ds ++ r).
    change (bs "/" ++ ?r) with ("/"%byte :: r). rewrite <- !app_assoc.
    change (bs "_" ++ ?r) with ("_"%byte :: r). change (bs ".jpg") with ("."%byte :: bs "jpg").
    repeat (apply G; [by apply (bool_decide_eq_false_1 _)|..]);
      try (apply token_not_bundle; lia); apply F; try (by apply (bool_decide_eq_false_1 _)).
    by apply digits_free.
Qed.
End Url.

(** ** An upload, then the download it redirects to *)

(** The answers on the wire. *)
Definition redirect_answer (location : bytes) : bytes :=
  bs "HTTP/1.x 302 Found" ++ CRLF ++ bs "Content-Type: text/plain; charset=utf-8" ++ CRLF
  ++ bs "Content-Length: 0" ++ CRLF ++ bs "Location: " ++ location ++ CRLF ++ CRLF.
Definition image_answer (content : bytes) : bytes :=
  bs "HTTP/1.x 200 OK" ++ CRLF ++ bs "Content-Type: image/jpeg" ++ CRLF
  ++ bs "Content-Length: " ++ dec (size content) ++ CRLF ++ CRLF ++ content.

Lemma redirect_head location :
  Header_Write (MkHeader [(HH_CONTENT_TYPE, text_type); (HH_CONTENT_LENGTH, bs "0"); (HH_LOCATION, location)]
                  (code_value HC_FOUND) (bs "Found")) = redirect_answer location.
Proof. unfold Header_Write, redirect_answer. cbn [flat_map list_ fst snd]. rewrite <- !app_assoc. reflexivity. Qed.

Lemma image_head content :
  Header_Write (MkHeader [(HH_CONTENT_TYPE, kImageType); (HH_CONTENT_LENGTH, dec (size content))]
                  (code_value HC_OK) (bs "OK")) ++ content = image_answer content.
Proof. unfold Header_Write, image_answer. cbn [flat_map list_ fst snd]. rewrite <- !app_assoc. reflexivity. Qed.

Ltac literal_sizes :=
  repeat match goal with |- context [size (bs ?x)] =>
    let n := eval vm_compute in (size (bs x)) in change (size (bs x)) with n end;
  change (size CRLF) with 2.

(** An upload url: the redirecting action is the first that takes it. *)
Definition upload_url_ok (url : bytes) : bool :=
  env_ok url && (str_find (bs "bundle") url 0 =? npos) && negb (str_find (bs "/p/") url 0 =? 0)
  && negb (str_find (bs "/upload") url 0 =? npos).

Section Redirect.
Context {O : Type} `{FcgxOut O}.
Context (st : Setting) (today : Z -> tm) (k : nat).
Context (buf : bytes) (id0 off : Z) (ql q : path) (f0 : fs).
Abbreviation prefix := (day_prefix (today 0)).
Abbreviation id := (id0 + Z.of_nat k).
Abbreviation info := (mkInfo id [] off (size buf) [] prefix (bs ".jpg")).
Abbreviation url := (BuildWithEncode info).
Abbreviation fw := (bundle_host (O := O) st today (S k)).

Hypothesis day : day_ok (today 0).
Hypothesis Hst : storable st k prefix (bs ".jpg") buf the_storage_ None id0 off ql q f0.

Lemma prefix_read : skip_slash (c_str prefix) = prefix.
Proof.
  destruct (day_prefix_shape (today 0) day) as (ds & -> & Hds & _). rewrite c_str_id; [done|].
  rewrite not_elem_of_app. split; [by apply (bool_decide_eq_false_1 _)|by apply digits_free].
Qed.

Lemma url_facts : exists rest, url = bs "p/" ++ rest /\ size url <= 83 /\ (x00 ∉ url) /\
  ~ occurs (bs "bundle") (bs "/" ++ url).
Proof.
  pose proof (st_encodable _ _ _ _ _ _ _ _ _ _ _ _ Hst) as He. rewrite prefix_read in He.
  pose proof (st_off _ _ _ _ _ _ _ _ _ _ _ _ Hst). pose proof (st_size _ _ _ _ _ _ _ _ _ _ _ _ Hst).
  apply url_shape; [done|exact He|lia].
Qed.

Lemma sent_WriteRaw text (r : Response O) : size text < 2 ^ 31 ->
  sent (out_ (WriteRaw text r)) = sent (out_ r) ++ text.
Proof.
  intros L. pose proof (size_nonneg text). cbn. rewrite i32_small by lia.
  rewrite PutStr_sends by lia. f_equal. apply take_ge. unfold size. lia.
Qed.

(** The first file is stored and its url sent; the lock of its bundle stays. *)
Lemma redirect_files_wp d files (r : Response O) s :
  afd_data d = buf -> list_ (head_ r) = [] -> last_id_ s = id0 ->
  wpR benign (redirect_files st today (S k) 0 (d :: files)) (fun rc r' _ f' =>
    rc = HC_OK /\ sent (out_ r') = sent (out_ r) ++ redirect_answer (bs "/" ++ url) /\
    in_bundle st k prefix buf the_storage_ id0 off q None f' /\
    still_locked k the_storage_ None id0 ql q f0 f') r s f0.
Proof.
  intros Ed Hr Hid. destruct url_facts as (_ & _ & Lu & Hu & _). cbn [redirect_files].
  apply wpR_bind. unfold allocate_file. rewrite Ed. apply wpR_bind, wpR_quietly.
  eapply wpP_mono; [by eapply (Allocate_calm st k prefix (bs ".jpg") buf the_storage_ None id0 off ql q f0 Hst); [lia|..]|].
  cbn beta. intros wr s1 f1 (-> & Hal). apply wpR_ret, wpR_bind, wpR_quietly.
  eapply wpP_mono; [by eapply (Write_calm _ _ _ _ _ _ _ _ _ _ _ _ Hst)|].
  cbn beta. intros r1 s2 f2 (-> & Hin & Hlk). change (0 =? 0) with true. cbn iota.
  rewrite (writer_url _ _ _ _ _ _ _ _ _ _ _ _ Hst), prefix_read. change (c_str (bs ".jpg")) with (bs ".jpg").
  rewrite (c_str_id url), (snprintf_fits 256 (bs "/" ++ url));
    [|rewrite not_elem_of_app; split; [by apply (bool_decide_eq_false_1 _)|done]
     |rewrite size_app; change (size (bs "/")) with 1; lia|done].
  do 4 apply wpR_bind, wpR_respond. apply wpR_bind, wpR_respond, wpR_ret.
  split; [done|]. split; [|by split].
  unfold OutputHeader. cbn [on_header head_ out_].
  unfold Header_Add, set_status_code. cbn [list_ hc_ message_]. rewrite Hr. cbn [app].
  rewrite redirect_head, sent_WriteRaw; [done|].
  unfold redirect_answer. rewrite !size_app. literal_sizes. lia.
Qed.

(** One file through the other action: its url is listed and the lock is gone. *)
Lemma write_file_wp d (r : Response O) s :
  afd_data d = buf -> last_id_ s = id0 ->
  wpR benign (write_file st today (S k) 0 d) (fun _ r' _ f' =>
    sent (out_ r') = sent (out_ r) ++ url ++ [x0a] /\
    in_bundle st k prefix buf the_storage_ id0 off q None f' /\ nodes f' !! ql = None) r s f0.
Proof.
  intros Ed Hid. destruct url_facts as (_ & _ & Lu & _).
  apply wpR_bind. unfold allocate_file. rewrite Ed. apply wpR_bind, wpR_quietly.
  eapply wpP_mono; [by eapply (Allocate_calm st k prefix (bs ".jpg") buf the_storage_ None id0 off ql q f0 Hst); [lia|..]|].
  cbn beta. intros wr s1 f1 (-> & Hal). apply wpR_ret, wpR_bind, wpR_quietly.
  eapply wpP_mono; [by eapply (Write_calm _ _ _ _ _ _ _ _ _ _ _ _ Hst)|].
  cbn beta. intros r1 s2 f2 (-> & Hin & Hlk). change (0 =? 0) with true. cbn iota.
  rewrite (writer_url _ _ _ _ _ _ _ _ _ _ _ _ Hst), prefix_read. change (c_str (bs ".jpg")) with (bs ".jpg").
  apply wpR_bind, wpR_respond, wpR_bind, wpR_quietly.
  eapply wpP_mono; [rewrite <- prefix_read at 1; by eapply (Release_calm _ _ _ _ _ _ _ _ _ _ _ _ Hst)|].
  cbn beta. intros _ s3 f3 [Hin3 Hq3]. apply wpR_ret. split; [|done].
  rewrite sent_WriteRaw; [done|]. rewrite size_app. change (size [x0a]) with 1. lia.
Qed.

(** Reading the url back answers with the content. *)
Lemma ReadAction_wp q0 (r : Response O) s f :
  Stream.url_ q0 = bs "/" ++ url -> list_ (head_ r) = [] ->
  in_bundle st k prefix buf the_storage_ id0 off q None f ->
  wpR benign (Process_ (ReadAction (O := O) st) q0) (fun rc r' _ f' =>
    rc = HC_OK /\ sent (out_ r') = sent (out_ r) ++ image_answer buf /\ leaves f f' (nodes f)) r s f.
Proof.
  intros Eq Hr Hin. destruct url_facts as (rest & _ & Lu & Hu & _).
  pose proof (st_size _ _ _ _ _ _ _ _ _ _ _ _ Hst) as Hsz. pose proof (size_nonneg buf).
  cbn [ReadAction Process_]. rewrite Eq.
  rewrite (substr_suffix (bs "/") url) by (done || (unfold npos; lia)).
  apply wpR_bind, wpR_quietly. eapply wpP_mono.
  { eapply (fetch_calm _ _ _ _ _ _ _ _ _ _ _ _ Hst); [exact Hin|]. rewrite prefix_read. by rewrite c_str_id. }
  cbn beta. intros x s1 f1 (Hl & heap & _ & ->). change (0 =? 0) with true. cbn iota.
  pose proof (size_dec (size buf) ltac:(lia)).
  rewrite (i32_small (size buf)), (snprintf_fits 16) by
    (first [lia | rewrite <- c_str_dec; apply c_str_no_nul]).
  do 4 apply wpR_bind, wpR_respond. apply wpR_ret. split; [done|]. split; [|done].
  unfold WriteRawWithHeader. cbn [on_header head_ out_].
  unfold Header_Add, set_status_code. cbn [list_ hc_ message_]. rewrite Hr. cbn [app].
  rewrite image_head, sent_WriteRaw; [done|].
  unfold image_answer. rewrite !size_app. literal_sizes. lia.
Qed.
End Redirect.

Lemma download_found {O} `{FcgxOut O} st today k buf id0 off ql q f0 q0 :
  day_ok (today 0) ->
  storable st k (day_prefix (today 0)) (bs ".jpg") buf the_storage_ None id0 off ql q f0 ->
  Stream.url_ q0 = bs "/" ++ BuildWithEncode
    (mkInfo (id0 + Z.of_nat k) [] off (size buf) [] (day_prefix (today 0)) (bs ".jpg")) ->
  Find (Stream.url_ q0) (bundle_host (O := O) st today (S k)) = Some (ReadAction st).
Proof.
  intros Hd Hst Eq. destruct (url_facts st today k buf id0 off ql q f0 Hd Hst) as (rest & Er & _ & _ & Hb).
  rewrite Eq. set (u := BuildWithEncode _) in *.
  change (bundle_host st today (S k)) with [WriteAction (O := O) st today (S k); ReadAction st;
    WriteRedirectAction st today (S k)].
  unfold Find. cbn [List.find WriteAction Match_].
  destruct (Z.eqb_spec (str_find (bs "bundle") (bs "/" ++ u) 0) npos) as [|N]; [|by apply str_find_occurs in N].
  cbn [negb ReadAction Match_].
  rewrite (str_find_first (bs "/p/") (bs "/" ++ u) [] [] rest) by (done || by rewrite Er). done.
Qed.

Lemma upload_found {O} `{FcgxOut O} st today fuel url :
  upload_url_ok url = true -> Find url (bundle_host (O := O) st today fuel) = Some (WriteRedirectAction st today fuel).
Proof.
  unfold upload_url_ok. intros [[[_ H1]%andb_prop H2]%andb_prop H3]%andb_prop.
  change (bundle_host st today fuel) with [WriteAction (O := O) st today fuel; ReadAction st;
    WriteRedirectAction st today fuel].
  unfold Find. cbn [List.find WriteAction ReadAction WriteRedirectAction Match_].
  apply negb_true_iff in H2. by rewrite H1, H2, H3.
Qed.

(** C1: From the upload of a picture to its download, over the whole server: on
    a calm system a form posted to an upload url, with a file in it, is
    answered 302 with the url of the stored file; a GET of that very location
    is answered 200 with the content, byte for byte; and the lock file of the
    bundle is then still there, for the redirecting action never deletes its
    writer.  Any FastCGI library that keeps its documentation will do. *)
Theorem upload_then_download {W} `{Posix W benign} {I O} `{FcgxIn I, FcgxOut O} (st : Setting)
    (today : Z -> tm) (k fuel : nat) (garbage : Z) (in1 in2 : I) (out1 out2 : O)
    (host upload_url boundary : bytes) (parts : list FormDisposition) (d : FormDisposition)
    (off : Z) (ql q : path) (s : proc) (w : W) :
  let fw := bundle_host (O := O) st today (S k) in
  let url := BuildWithEncode (mkInfo (last_id_ s + Z.of_nat k) [] off (size (afd_data d)) []
                                (day_prefix (today 0)) (bs ".jpg")) in
  day_ok (today 0) ->
  storable st k (day_prefix (today 0)) (bs ".jpg") (afd_data d) the_storage_ None (last_id_ s) off ql q (view w) ->
  env_ok host = true -> upload_url_ok upload_url = true -> env_ok (multipart_type boundary) = true ->
  forallb (part_ok boundary) parts = true -> head (List.filter is_file parts) = Some d ->
  size (show_form boundary parts) < 2 ^ 62 -> size (show_form boundary parts) < 2048 * Z.of_nat fuel ->
  unread in1 = show_form boundary parts ->
  match runP (r1 ← serve fuel garbage fw (MkWrap in1 (upload_env host upload_url boundary) out1);
              r2 ← serve fuel garbage fw (MkWrap in2 (download_env host (bs "/" ++ url)) out2);
              mret (r1, r2)) s w with
  | (inr (r1, r2), _, w') =>
      r1.1 = HC_OK /\ sent r1.2 = sent out1 ++ redirect_answer (bs "/" ++ url) /\
      r2.1 = HC_OK /\ sent r2.2 = sent out2 ++ image_answer (afd_data d) /\
      nodes (view w') !! ql = Some (NFile [])
  | (inl _, _, _) => False
  end.
Proof.
  intros fw url Hday Hst Hh Hu Hb Hp Hd L Lf Hin.
  destruct (url_facts st today k (afd_data d) (last_id_ s) off ql q (view w) Hday Hst)
    as (rest & _ & Lu & Hnul & _). fold url in Lu, Hnul.
  assert (env_ok (bs "/" ++ url) = true) as Henv.
  { unfold env_ok. rewrite bool_decide_true, bool_decide_false; [|done|].
    - rewrite size_app. change (size (bs "/")) with 1. by destruct (Z.ltb_spec (1 + size url) (2 ^ 62)); [|lia].
    - rewrite not_elem_of_app. split; [by apply (bool_decide_eq_false_1 _)|done]. }
  assert (env_ok upload_url = true) as Hue by (unfold upload_url_ok in Hu; by do 3 apply andb_prop in Hu as [Hu _]).
  match goal with |- context [runP ?m s w] =>
    assert (wpP benign never m (fun r _ f => r.1.1 = HC_OK /\ sent r.1.2 = sent out1 ++ redirect_answer (bs "/" ++ url) /\
      r.2.1 = HC_OK /\ sent r.2.2 = sent out2 ++ image_answer (afd_data d) /\ nodes f !! ql = Some (NFile []))
      s (view w)) as Hwp; [|apply wpP_run in Hwp; by destruct (runP m s w) as [[[e|[r1 r2]] s'] w']]
  end.
  unfold fw.
  destruct (Init_upload fuel in1 host upload_url boundary parts) as [i' Hi]; [done..|].
  set (q1 := set_forms _ _ _) in Hi. apply wpP_bind.
  eapply serve_wp; [exact Hi|]. eapply Process_wp; [by apply upload_found|].
  destruct (List.filter is_file parts) as [|d' files] eqn:Ef; [done|]. injection Hd as ->.
  cbn [Process_ WriteRedirectAction]. change (method_ q1) with HV_POST. change (file_array_ q1) with (d :: files).
  eapply wpR_mono; [by eapply (redirect_files_wp st today k (afd_data d) (last_id_ s) off ql q (view w) Hday Hst)|].
  cbn beta. intros rc r1 s1 f1 (-> & E1 & Hbun & Hlk). split; [done|].
  apply wpP_bind. eapply serve_wp; [by apply Init_download|].
  eapply Process_wp; [by eapply download_found|].
  eapply wpR_mono; [by eapply (ReadAction_wp st today k (afd_data d) (last_id_ s) off ql q (view w) Hday Hst)|].
  cbn beta. intros rc2 r2 s2 f2 (-> & E2 & El & _). split; [done|]. apply wpP_ret. cbn [fst snd].
  split_and!; try done. rewrite El. apply Hlk.
Qed.

(** A url the listing action takes. *)
Definition listing_url_ok (url : bytes) : bool := env_ok url && negb (str_find (bs "bundle") url 0 =? npos).

Definition listing_answer (url : bytes) : bytes :=
  bs "HTTP/1.x 200 OK" ++ CRLF ++ bs "Content-Type: text/plain; charset=utf-8" ++ CRLF ++ CRLF ++ url ++ [x0a].

Lemma listing_found {O} `{FcgxOut O} st today fuel url :
  listing_url_ok url = true -> Find url (bundle_host (O := O) st today fuel) = Some (WriteAction st today fuel).
Proof.
  unfold listing_url_ok. intros [_ E]%andb_prop.
  change (bundle_host st today fuel) with [WriteAction (O := O) st today fuel; ReadAction st;
    WriteRedirectAction st today fuel].
  unfold Find. cbn [List.find WriteAction Match_]. by rewrite E.
Qed.

(** C9: A form with one file posted to a listing url is answered 200 with the
    file's url; the record is in the bundle under that url, and the lock of the
    bundle is released. *)
Theorem upload_listed {W} `{Posix W benign} {I O} `{FcgxIn I, FcgxOut O} (st : Setting)
    (today : Z -> tm) (k fuel : nat) (garbage : Z) (i : I) (out : O)
    (host listing_url boundary : bytes) (parts : list FormDisposition) (d : FormDisposition)
    (off : Z) (ql q : path) (s : proc) (w : W) :
  let url := BuildWithEncode (mkInfo (last_id_ s + Z.of_nat k) [] off (size (afd_data d)) []
                                (day_prefix (today 0)) (bs ".jpg")) in
  day_ok (today 0) ->
  storable st k (day_prefix (today 0)) (bs ".jpg") (afd_data d) the_storage_ None (last_id_ s) off ql q (view w) ->
  env_ok host = true -> listing_url_ok listing_url = true -> env_ok (multipart_type boundary) = true ->
  forallb (part_ok boundary) parts = true -> List.filter is_file parts = [d] ->
  size (show_form boundary parts) < 2 ^ 62 -> size (show_form boundary parts) < 2048 * Z.of_nat fuel ->
  unread i = show_form boundary parts ->
  match runP (serve fuel garbage (bundle_host (O := O) st today (S k))
                (MkWrap i (upload_env host listing_url boundary) out)) s w with
  | (inr r, _, w') =>
      r.1 = HC_OK /\ sent r.2 = sent out ++ listing_answer url /\
      in_bundle st k (day_prefix (today 0)) (afd_data d) the_storage_ (last_id_ s) off q None (view w') /\
      nodes (view w') !! ql = None
  | (inl _, _, _) => False
  end.
Proof.
  intros url Hday Hst Hh Hu Hb Hp Hd L Lf Hin.
  match goal with |- context [runP ?m s w] =>
    assert (wpP benign never m (fun r _ f => r.1 = HC_OK /\ sent r.2 = sent out ++ listing_answer url /\
      in_bundle st k (day_prefix (today 0)) (afd_data d) the_storage_ (last_id_ s) off q None f /\
      nodes f !! ql = None) s (view w)) as Hwp;
      [|apply wpP_run in Hwp; by destruct (runP m s w) as [[[e|r] s'] w']] end.
  assert (env_ok listing_url = true) as Hue by (unfold listing_url_ok in Hu; by apply andb_prop in Hu as [Hu _]).
  destruct (Init_upload fuel i host listing_url boundary parts) as [i' Hi]; [done..|].
  set (q1 := set_forms _ _ _) in Hi. eapply serve_wp; [exact Hi|].
  eapply Process_wp; [by apply listing_found|]. cbn [Process_ WriteAction wrap_out].
  change (method_ q1) with HV_POST. change (file_array_ q1) with (List.filter is_file parts). rewrite Hd.
  do 3 apply wpR_bind, wpR_respond. cbn [write_files]. apply wpR_bind, wpR_bind.
  eapply wpR_mono; [by eapply (write_file_wp st today k (afd_data d) (last_id_ s) off ql q (view w) Hday Hst)|].
  cbn beta. intros _ r1 s1 f1 (E1 & Hin1 & Hql1). do 2 apply wpR_ret. split; [done|]. split; [done|].
  split; [|done]. cbn [snd]. rewrite E1. unfold OutputHeader. rewrite sent_WriteRaw.
  - cbn [on_header head_ out_ Response_new]. unfold listing_answer. rewrite <- !app_assoc. f_equal.
  - by vm_compute.
Qed.

(** ** Other answers *)

(** A header block without fields. *)
Definition bare_answer (code : HttpStatusCode) (message : bytes) : bytes :=
  bs "HTTP/1.x " ++ dec (code_value code) ++ bs " " ++ message ++ CRLF ++ CRLF.

(** The answer to a GET that finds nothing: the framework sends a header of
    its own after that of the action. *)
Definition get_refused (st : Setting) (url : bytes) : option bytes :=
  if negb (str_find (bs "bundle") url 0 =? npos) then Some (bare_answer HC_METHOD_NOT_ALLOWED (bs "Method Not Allowed"))
  else if str_find (bs "/p/") url 0 =? 0 then
    match extract st (c_str (substr url 1 npos)) (Some Info_init) with
    | (true, Some _) => None
    | _ => Some (bare_answer HC_NOT_FOUND (bs "Not Found") ++ bare_answer HC_NOT_FOUND (bs "TODO:"))
    end
  else if negb (str_find (bs "/upload") url 0 =? npos)
  then Some (bare_answer HC_METHOD_NOT_ALLOWED (bs "Method Not Allowed"))
  else Some (bare_answer HC_NOT_FOUND (bs "TODO:")).

Section Refused.
Context {O : Type} `{FcgxOut O}.
Implicit Types r : Response O.

Lemma bare_head code message : Header_Write (MkHeader [] (code_value code) message) = bare_answer code message.
Proof. unfold Header_Write, bare_answer. cbn [flat_map list_]. by rewrite <- ?app_assoc. Qed.

Lemma size_bare code message : size message <= 100 -> size (bare_answer code message) < 2 ^ 31.
Proof.
  intros L. unfold bare_answer. rewrite !size_app. change (size CRLF) with 2.
  change (size (bs "HTTP/1.x ")) with 9. change (size (bs " ")) with 1.
  pose proof (size_dec (code_value code)). assert (0 <= code_value code < 2 ^ 31) by by destruct code. lia.
Qed.

(** A status and its header, for a response without fields. *)
Lemma bare_wp {A} C code message (m : R A) (Q : A -> Response O -> proc -> fs -> Prop) r s f :
  list_ (head_ r) = [] -> size message <= 100 ->
  (forall r', list_ (head_ r') = [] -> sent (out_ r') = sent (out_ r) ++ bare_answer code message ->
     wpR C m Q r' s f) ->
  wpR C (status code message;; respond OutputHeader;; m) Q r s f.
Proof.
  intros Hl L HQ. do 2 apply wpR_bind, wpR_respond. apply HQ; [done|].
  unfold OutputHeader. cbn [on_header head_ out_]. unfold set_status_code. rewrite Hl, bare_head.
  rewrite sent_WriteRaw by by apply size_bare. done.
Qed.

Lemma default_message_short code : size (default_message code) <= 100.
Proof. by destruct code; vm_compute. Qed.

Lemma ResponseError_wp C code (Q : unit -> Response O -> proc -> fs -> Prop) r s f :
  list_ (head_ r) = [] ->
  (forall r', sent (out_ r') = sent (out_ r) ++ bare_answer code (default_message code) -> Q tt r' s f) ->
  wpR C (ResponseError code None) Q r s f.
Proof.
  intros Hl HQ. apply wpR_bind, wpR_respond, wpR_respond, HQ.
  unfold OutputHeader. cbn [on_header head_ out_ default]. unfold set_status_code. rewrite Hl, bare_head.
  rewrite sent_WriteRaw by by apply size_bare, default_message_short. done.
Qed.

(** What the framework adds to an action that does not answer 200. *)
Lemma Process_failed_wp C fw request act code (Q : HttpStatusCode -> Response O -> proc -> fs -> Prop) r s f :
  Find (Stream.url_ request) fw = Some act -> code <> HC_OK ->
  wpR C (Process_ act request) (fun rc r' s f => rc = code /\ list_ (head_ r') = [] /\
    forall r2, sent (out_ r2) = sent (out_ r') ++ bare_answer code (default_message code) -> Q code r2 s f) r s f ->
  wpR C (Process fw request) Q r s f.
Proof.
  intros Hf Hc Ha. unfold Process. rewrite Hf. apply wpR_bind. eapply wpR_mono; [exact Ha|].
  cbn beta. intros rc r' s' f' (-> & Hl & HQ). rewrite decide_False by done.
  apply wpR_bind, ResponseError_wp; [done|]. intros r2 E. apply wpR_ret. by apply HQ.
Qed.
End Refused.

(** C11: The answers to the GETs that bring nothing, in any environment: 405 for
    the urls of uploads, 404 for a url no action takes and for one that is
    refused by its format - then with two headers, the action's and the
    framework's, the second with a message still to be written - and the files
    are not touched. *)
Theorem refused_answers {C W} `{Posix W C} {I O} `{FcgxIn I, FcgxOut O} (st : Setting) (today : Z -> tm)
    (k fuel : nat) (garbage : Z) (i : I) (out : O) (host url a : bytes) (s : proc) (w : W) :
  env_ok host = true -> env_ok url = true -> get_refused st url = Some a ->
  match runP (serve fuel garbage (bundle_host (O := O) st today k) (MkWrap i (download_env host url) out)) s w with
  | (inr r, _, w') => r.1 <> HC_OK /\ sent r.2 = sent out ++ a /\ view w' = view w
  | (inl _, _, _) => False
  end.
Proof.
  intros Hh Hu Ha.
  match goal with |- context [runP ?m s w] =>
    assert (wpP C never m (fun r _ f => r.1 <> HC_OK /\ sent r.2 = sent out ++ a /\ f = view w) s (view w)) as Hwp;
      [|apply wpP_run in Hwp; by destruct (runP m s w) as [[[e|r] s'] w']] end.
  eapply serve_wp; [by apply Init_download|]. cbn [wrap_out].
  set (q0 := download_request host url). set (r0 := Response_new garbage out).
  assert (Find (Stream.url_ q0) (bundle_host (O := O) st today k) =
    List.find (fun ha => Match_ ha url) [WriteAction st today k; ReadAction st; WriteRedirectAction st today k]) as Ef by done.
  cbn [List.find WriteAction ReadAction WriteRedirectAction Match_] in Ef. unfold get_refused in Ha.
  destruct (negb (str_find (bs "bundle") url 0 =? npos)).
  { injection Ha as <-. eapply (Process_failed_wp _ _ _ _ HC_METHOD_NOT_ALLOWED); [exact Ef|done|].
    cbn [Process_]. apply wpR_ret. by repeat split. }
  destruct (str_find (bs "/p/") url 0 =? 0).
  { eapply (Process_failed_wp _ _ _ _ HC_NOT_FOUND); [exact Ef|done|]. cbn [Process_ ReadAction].
    change (Stream.url_ q0) with url. apply wpR_bind, wpR_quietly.
    assert (Read_url st (substr url 1 npos) the_storage_ None = mret (-1, None)) as ->.
    { unfold Read_url. case_bool_decide; [done|]. cbn [default]. change (default (extract st) None) with (extract st).
      by destruct (extract st _ _) as [[] [?|]]. }
    apply wpP_ret. change (-1 =? 0) with false. cbn iota. apply bare_wp; [done|by vm_compute|].
    intros r1 Hl E1. apply wpR_ret. split; [done|]. split; [done|]. intros r2 E2. split; [done|]. split; [|done].
    cbn [snd]. rewrite E2, E1, <- app_assoc. revert Ha.
    destruct (extract st _ _) as [[] [?|]]; by intros [= <-]. }
  destruct (negb (str_find (bs "/upload") url 0 =? npos)); injection Ha as <-.
  { eapply (Process_failed_wp _ _ _ _ HC_METHOD_NOT_ALLOWED); [exact Ef|done|].
    cbn [Process_]. apply wpR_ret. by repeat split. }
  unfold Process. rewrite Ef. apply wpR_bind, ResponseError_wp; [done|]. intros r2 E. by apply wpR_ret.
Qed.

(** ** A concrete day *)

Definition sample_day (i : Z) : tm := Tm 0 0 12 12 4 112.
Definition day_dir : path := [bs "test"; bs "p"; bs "20120512"].

(** The storage of the actions, with one bundle for the day. *)
Definition web_fs : fs :=
  Fs {[ [] := NDir; [bs "test"] := NDir; [bs "test"; bs ".lock"] := NDir; [bs "test"; bs "p"] := NDir;
        day_dir := NDir; day_dir ++ [zero8] := NDir;
        day_dir ++ [zero8; zero8] := NFile (replicate 1024 x00) ]} ∅ 3 [].

Definition sample_upload : list FormDisposition :=
  [MkDisposition (bs "title") [] [] (bs "sunset");
   MkDisposition (bs "picture") (bs "a.jpg") (bs "image/jpeg") (bs "JFIF--data")].
Definition sample_file : FormDisposition := MkDisposition (bs "picture") (bs "a.jpg") (bs "image/jpeg") (bs "JFIF--data").

Lemma web_storable :
  storable g_default_setting 0 (day_prefix (sample_day 0)) (bs ".jpg") (afd_data sample_file) the_storage_ None 0
    1024 [bs "test"; bs ".lock"; bs "0"] (day_dir ++ [zero8; zero8]) web_fs.
Proof.
  split.
  - apply fs_ok_fresh; [lia|vm_compute; reflexivity].
  - exact default_levels.
  - done.
  - done.
  - exists [bs "test"; bs ".lock"], NDir. split; vm_compute; reflexivity.
  - lia.
  - done.
  - done.
  - intros j Hj. lia.
  - exists (nodes web_fs). split; [vm_compute; reflexivity|]. split; [vm_compute; reflexivity|].
    split; [vm_compute; reflexivity|]. split; [done|]. left. exists (replicate 1024 x00).
    split; [vm_compute; reflexivity|]. split; [vm_compute; reflexivity|].
    split; [vm_compute; reflexivity|reflexivity].
  - vm_compute. reflexivity.
  - vm_compute. congruence.
  - lia.
  - vm_compute. reflexivity.
Qed.

Lemma upload_then_download_witness :
  match runP (C := benign)
    (r1 ← serve 2 0 (bundle_host g_default_setting sample_day 1)
       (MkWrap (show_form (bs "xyz") sample_upload) (upload_env (bs "localhost") (bs "/upload") (bs "xyz")) []);
     r2 ← serve 2 0 (bundle_host g_default_setting sample_day 1)
       (MkWrap [] (download_env (bs "localhost") (bs "/" ++ BuildWithEncode
          (mkInfo 0 [] 1024 10 [] (day_prefix (sample_day 0)) (bs ".jpg")))) []);
     mret (r1, r2)) (Proc 0 0) (MkLocal web_fs []) with
  | (inr (_, r2), _, _) => sent r2.2 = image_answer (bs "JFIF--data")
  | (inl _, _, _) => False
  end.
Proof.
  pose proof (upload_then_download (H := calm_local) g_default_setting sample_day 0 2 0
    (show_form (bs "xyz") sample_upload) [] [] [] (bs "localhost") (bs "/upload") (bs "xyz") sample_upload
    sample_file 1024 _ _ (Proc 0 0) (MkLocal web_fs []) ltac:(unfold day_ok; cbn; lia) web_storable
    ltac:(vm_compute; reflexivity) ltac:(vm_compute; reflexivity) ltac:(vm_compute; reflexivity)
    ltac:(vm_compute; reflexivity) ltac:(reflexivity) ltac:(vm_compute; reflexivity) ltac:(vm_compute; reflexivity)
    ltac:(reflexivity)) as Hr.
  change (size (afd_data sample_file)) with 10 in Hr. change (last_id_ (Proc 0 0) + Z.of_nat 0) with 0 in Hr.
  destruct (runP _ _ _) as [[[e|[r1 r2]] s'] w']; [exact Hr|]. apply Hr.
Defined.

(** A download whose url has no hash. *)
Lemma refused_answers_witness :
  match runP (C := benign) (serve 0 0 (bundle_host g_default_setting sample_day 1)
    (MkWrap [] (download_env (bs "localhost") (bs "/p/20120512/A.jpg")) [])) (Proc 0 0) (MkLocal web_fs []) with
  | (inr r, _, _) => sent r.2 = bs "HTTP/1.x 404 Not Found" ++ CRLF ++ CRLF ++ bs "HTTP/1.x 404 TODO:" ++ CRLF ++ CRLF
  | (inl _, _, _) => False
  end.
Proof.
  pose proof (refused_answers (H := calm_local) g_default_setting sample_day 1 0 0 ([] : bytes) ([] : bytes)
    (bs "localhost") (bs "/p/20120512/A.jpg") _ (Proc 0 0) (MkLocal web_fs []) ltac:(vm_compute; reflexivity)
    ltac:(vm_compute; reflexivity) ltac:(vm_compute; reflexivity)) as Hr.
  destruct (runP _ _ _) as [[[e|r] s'] w']; [exact Hr|]. destruct Hr as (_ & -> & _). reflexivity.
Defined.

Lemma upload_listed_witness :
  match runP (C := benign) (serve 2 0 (bundle_host g_default_setting sample_day 1)
    (MkWrap (show_form (bs "xyz") sample_upload) (upload_env (bs "localhost") (bs "/bundle/new") (bs "xyz")) []))
    (Proc 0 0) (MkLocal web_fs []) with
  | (inr r, _, _) => r.1 = HC_OK
  | (inl _, _, _) => False
  end.
Proof.
  pose proof (upload_listed (H := calm_local) g_default_setting sample_day 0 2 0
    (show_form (bs "xyz") sample_upload) ([] : bytes) (bs "localhost") (bs "/bundle/new") (bs "xyz") sample_upload
    sample_file 1024 _ _ (Proc 0 0) (MkLocal web_fs []) ltac:(unfold day_ok; cbn; lia) web_storable
    ltac:(vm_compute; reflexivity) ltac:(vm_compute; reflexivity) ltac:(vm_compute; reflexivity)
    ltac:(vm_compute; reflexivity) ltac:(reflexivity) ltac:(vm_compute; reflexivity) ltac:(vm_compute; reflexivity)
    ltac:(reflexivity)) as Hr.
  destruct (runP _ _ _) as [[[e|r] s'] w']; [exact Hr|]. apply Hr.
Defined.
