(* ===== verification/Monitor.v ===== *)
(** * Threads that share a mutex and condition variables

    What the sources use of boost::mutex, boost::condition and the C++ memory
    they guard.  A method is a list of instructions, one for every access to
    the shared state; a thread is idle or at an instruction of a method.  An
    action lets one thread execute one instruction, call a method, or wake up
    without reason, so that a sequence of actions is an interleaving.  A thread
    that waits has released the mutex, and takes it again before it goes on. *)

From S2P Require Import Prelude.

(** [S]: the shared state; [L]: what a thread remembers; [cv]: the condition
    variables. *)
Inductive instr (S L cv : Type) : Type :=
| Acquire
| Release
| Do (f : S -> L -> S * L)
| Branch (b : S -> L -> bool) (target : nat)   (* goes to [target] if [b] *)
| Assert (b : S -> L -> bool)                  (* logs, or nothing: never stops *)
| WaitOn (c : cv)
| NotifyOne (c : cv)
| NotifyAll (c : cv).
Arguments Acquire {S L cv}.
Arguments Release {S L cv}.
Arguments Do {S L cv} f.
Arguments Branch {S L cv} b target.
Arguments Assert {S L cv} b.
Arguments WaitOn {S L cv} c.
Arguments NotifyOne {S L cv} c.
Arguments NotifyAll {S L cv} c.

(** [Woken]: notified, and about to take the mutex again. *)
Inductive status := Running | Waiting | Woken.
#[export] Instance status_eq_decision : EqDecision status.
Proof. solve_decision. Defined.

Inductive thread (M L : Type) : Type :=
| Idle (l : L)
| At (m : M) (pc : nat) (st : status) (l : L).
Arguments Idle {M L} l.
Arguments At {M L} m pc st l.

Inductive action (M : Type) : Type :=
| Call (t : nat) (m : M)
| Go (t : nat) (wake : nat)    (* [wake]: whom a [NotifyOne] wakes *)
| Spurious (t : nat).
Arguments Call {M} t m.
Arguments Go {M} t wake.
Arguments Spurious {M} t.

Record config (S M L : Type) := Config {
  shared : S; owner : option nat; threads : list (thread M L) }.
Arguments Config {S M L} shared owner threads.
Arguments shared {S M L} c.
Arguments owner {S M L} c.
Arguments threads {S M L} c.

(** A class of objects: its methods, when a thread may call them, and what it
    remembers when they return. *)
Record program (S M L cv : Type) := Program {
  code : M -> list (instr S L cv);
  may_call : L -> M -> bool;
  on_return : M -> L -> L }.
Arguments Program {S M L cv} code may_call on_return.
Arguments code {S M L cv} p m.
Arguments may_call {S M L cv} p l m.
Arguments on_return {S M L cv} p m l.

(** What [f] makes of the threads, one after the other. *)
Definition gather {A B} (f : A -> list B) (l : list A) : list B := concat (f <$> l).

Lemma gather_insert {A B} (f : A -> list B) l t x y :
  l !! t = Some x -> gather f (<[t := y]> l) ++ f x ≡ₚ gather f l ++ f y.
Proof.
  unfold gather. revert t. induction l as [|z l IH]; intros [|t] H; try done; cbn.
  - injection H as ->. solve_Permutation.
  - specialize (IH t H). rewrite <- !app_assoc. f_equiv. exact IH.
Qed.

Lemma gather_ext {A B} (f : A -> list B) (g : A -> A) l :
  (forall x, f (g x) = f x) -> gather f (g <$> l) = gather f l.
Proof. intros H. unfold gather. induction l as [|z l IH]; cbn; [done|]. by rewrite H, IH. Qed.

Lemma gather_same {A B} (f : A -> list B) l t x y :
  l !! t = Some x -> f y = f x -> gather f (<[t := y]> l) = gather f l.
Proof.
  intros E H. unfold gather. rewrite list_fmap_insert, list_insert_id; [done|].
  rewrite list_lookup_fmap, E. cbn. by rewrite H.
Qed.

Lemma gather_single {A B} (f : A -> list B) l t x :
  l !! t = Some x -> (forall u z, l !! u = Some z -> u <> t -> f z = []) -> gather f l = f x.
Proof.
  unfold gather. revert t. induction l as [|z l IH]; intros [|t] E H; try done; cbn.
  - injection E as ->. replace (concat (f <$> l)) with (@nil B); [by rewrite app_nil_r|].
    assert (forall u y, l !! u = Some y -> f y = []) as Hl by (intros u y Eu; by apply (H (S u))).
    clear H IH. induction l as [|y l IH]; [done|]. cbn. rewrite (Hl 0%nat y eq_refl), <- IH; [done|].
    intros u v Eu. by apply (Hl (S u)).
  - rewrite (H 0%nat z eq_refl) by done. apply (IH t E). intros u y Eu Ne. apply (H (S u) y Eu). congruence.
Qed.

(** ** Counting threads *)

Abbreviation total := sum_list_with.

Section Total.
Context {A : Type} (f : A -> nat).

Lemma total_insert l t x y : l !! t = Some x -> (total f (<[t := y]> l) + f x = total f l + f y)%nat.
Proof.
  revert t. induction l as [|z l IH]; intros [|t] H; try done.
  - injection H as ->. cbn. lia.
  - specialize (IH t H). change (<[S t := y]> (z :: l)) with (z :: <[t := y]> l).
    cbn [sum_list_with]. lia.
Qed.

Lemma total_fmap (g : A -> A) l : (forall x, f (g x) = f x) -> total f (g <$> l) = total f l.
Proof. intros H. induction l as [|z l IH]; cbn; [done|]. by rewrite H, IH. Qed.

Lemma total_lookup l t x : l !! t = Some x -> (f x <= total f l)%nat.
Proof.
  revert t. induction l as [|z l IH]; intros [|t] H; cbn in *; try done.
  - injection H as ->. lia.
  - specialize (IH t H). lia.
Qed.

Lemma total_pos l : (0 < total f l)%nat -> exists t x, l !! t = Some x /\ (0 < f x)%nat.
Proof.
  induction l as [|z l IH]; cbn; [lia|]. intros H. destruct (decide (0 < f z)%nat) as [Hz|Hz].
  - by exists 0%nat, z.
  - destruct IH as (t & x & E & Hx); [lia|]. by exists (S t), x.
Qed.

Lemma total_bound k l : (forall x, f x <= k)%nat -> (total f l <= k * length l)%nat.
Proof. intros H. induction l as [|z l IH]; cbn; [lia|]. specialize (H z). lia. Qed.

Lemma total_fmap_le (g : A -> A) k l :
  (forall x, f (g x) <= f x + k)%nat -> (total f (g <$> l) <= total f l + k * length l)%nat.
Proof. intros H. induction l as [|z l IH]; cbn; [lia|]. specialize (H z). lia. Qed.

Lemma total_zero l : (forall t x, l !! t = Some x -> f x = 0%nat) -> total f l = 0%nat.
Proof.
  induction l as [|z l IH]; intros H; cbn; [done|]. rewrite (H 0%nat z eq_refl), IH; [done|].
  intros t x E. by apply (H (S t)).
Qed.

Lemma total_le (g h : A -> nat) l :
  (forall x, f x + g x <= h x)%nat -> (total f l + total g l <= total h l)%nat.
Proof. intros H. induction l as [|z l IH]; cbn; [lia|]. specialize (H z). lia. Qed.

Lemma total_mono (g : A -> nat) l : (forall x, f x <= g x)%nat -> (total f l <= total g l)%nat.
Proof. intros H. induction l as [|z l IH]; cbn; [lia|]. specialize (H z). lia. Qed.
End Total.

Section Monitor.
Context {S M L cv : Type} `{EqDecision cv} (P : program S M L cv).

Abbreviation config := (config S M L).
Abbreviation thread := (thread M L).

(** ** Steps *)

Definition waits_on (c : cv) (th : thread) : bool :=
  match th with
  | At m pc Waiting _ =>
      match code P m !! pc with Some (WaitOn d) => bool_decide (c = d) | _ => false end
  | _ => false
  end.

Definition wake (th : thread) : thread :=
  match th with At m pc Waiting l => At m pc Woken l | _ => th end.

Definition put (t : nat) (th : thread) (c : config) : config :=
  Config (shared c) (owner c) (<[t := th]> (threads c)).

(** Thread [t], running at instruction [pc] of [m]. *)
Definition execute (t w : nat) (m : M) (pc : nat) (l : L) (c : config) : option config :=
  let next := At m (pc + 1) Running l in
  match code P m !! pc with
  | None => Some (put t (Idle (on_return P m l)) c)
  | Some Acquire =>
      match owner c with
      | None => Some (Config (shared c) (Some t) (<[t := next]> (threads c)))
      | Some _ => None
      end
  | Some Release =>
      if decide (owner c = Some t)
      then Some (Config (shared c) None (<[t := next]> (threads c))) else None
  | Some (Do f) =>
      let '(s, l) := f (shared c) l in
      Some (Config s (owner c) (<[t := At m (pc + 1) Running l]> (threads c)))
  | Some (Branch b target) =>
      Some (put t (if b (shared c) l then At m target Running l else next) c)
  | Some (Assert _) => Some (put t next c)
  | Some (WaitOn _) =>
      if decide (owner c = Some t)
      then Some (Config (shared c) None (<[t := At m pc Waiting l]> (threads c))) else None
  | Some (NotifyOne v) =>
      if existsb (waits_on v) (threads c) then
        match threads c !! w with
        | Some th =>
            if waits_on v th then Some (put t next (put w (wake th) c)) else None
        | None => None
        end
      else Some (put t next c)
  | Some (NotifyAll v) =>
      Some (Config (shared c) (owner c)
        (<[t := next]> ((fun th => if waits_on v th then wake th else th) <$> threads c)))
  end.

Definition act (a : action M) (c : config) : option config :=
  match a with
  | Call t m =>
      match threads c !! t with
      | Some (Idle l) => if may_call P l m then Some (put t (At m 0 Running l) c) else None
      | _ => None
      end
  | Spurious t =>
      match threads c !! t with
      | Some (At m pc Waiting l) => Some (put t (At m pc Woken l) c)
      | _ => None
      end
  | Go t w =>
      match threads c !! t with
      | Some (At m pc Running l) => execute t w m pc l c
      | Some (At m pc Woken l) =>
          match owner c with
          | None => Some (Config (shared c) (Some t) (<[t := At m (pc + 1) Running l]> (threads c)))
          | Some _ => None
          end
      | _ => None
      end
  end.

Fixpoint run (ts : list (action M)) (c : config) : option config :=
  match ts with
  | [] => Some c
  | a :: ts => match act a c with Some c => run ts c | None => None end
  end.

Lemma run_app ts us c : run (ts ++ us) c = match run ts c with Some c => run us c | None => None end.
Proof. revert c. induction ts as [|a ts IH]; intros c; cbn; [done|]. by destruct (act a c). Qed.

(** What every action keeps holds after every interleaving. *)
Lemma run_keeps (I : config -> Prop) ts c c' :
  (forall a c c', I c -> act a c = Some c' -> I c') -> I c -> run ts c = Some c' -> I c'.
Proof.
  intros H. revert c. induction ts as [|a ts IH]; cbn; intros c Hc E; [congruence|].
  destruct (act a c) as [d|] eqn:Ea; [|done]. eauto.
Qed.

(** Interleavings of actions that use up a measure are bounded. *)
Lemma run_bounded (I : config -> Prop) (good : action M -> bool) (mu : config -> nat) ts c c' :
  (forall a c c', I c -> act a c = Some c' -> I c') ->
  (forall a c c', I c -> good a = true -> act a c = Some c' -> (mu c' < mu c)%nat) ->
  I c -> forallb good ts = true -> run ts c = Some c' -> (length ts + mu c' <= mu c)%nat.
Proof.
  intros HI Hm. revert c. induction ts as [|a ts IH]; cbn; intros c Hc G E; [injection E as ->; lia|].
  destruct (act a c) as [d|] eqn:Ea; [|done]. apply andb_true_iff in G as [Ga G].
  specialize (IH d (HI _ _ _ Hc Ea) G E). specialize (Hm _ _ _ Hc Ga Ea). lia.
Qed.

(** ** The same as a relation *)

Inductive step : action M -> config -> config -> Prop :=
| step_call c t m l :
    threads c !! t = Some (Idle l) -> may_call P l m = true ->
    step (Call t m) c (put t (At m 0 Running l) c)
| step_return c t w m pc l :
    threads c !! t = Some (At m pc Running l) -> code P m !! pc = None ->
    step (Go t w) c (put t (Idle (on_return P m l)) c)
| step_acquire c t w m pc l :
    threads c !! t = Some (At m pc Running l) -> code P m !! pc = Some Acquire -> owner c = None ->
    step (Go t w) c (Config (shared c) (Some t) (<[t := At m (pc + 1) Running l]> (threads c)))
| step_again c t w m pc l :
    threads c !! t = Some (At m pc Woken l) -> owner c = None ->
    step (Go t w) c (Config (shared c) (Some t) (<[t := At m (pc + 1) Running l]> (threads c)))
| step_release c t w m pc l :
    threads c !! t = Some (At m pc Running l) -> code P m !! pc = Some Release -> owner c = Some t ->
    step (Go t w) c (Config (shared c) None (<[t := At m (pc + 1) Running l]> (threads c)))
| step_do c t w m pc l f s l' :
    threads c !! t = Some (At m pc Running l) -> code P m !! pc = Some (Do f) ->
    f (shared c) l = (s, l') ->
    step (Go t w) c (Config s (owner c) (<[t := At m (pc + 1) Running l']> (threads c)))
| step_branch c t w m pc l b target :
    threads c !! t = Some (At m pc Running l) -> code P m !! pc = Some (Branch b target) ->
    step (Go t w) c
      (put t (At m (if b (shared c) l then target else pc + 1)%nat Running l) c)
| step_assert c t w m pc l b :
    threads c !! t = Some (At m pc Running l) -> code P m !! pc = Some (Assert b) ->
    step (Go t w) c (put t (At m (pc + 1) Running l) c)
| step_wait c t w m pc l v :
    threads c !! t = Some (At m pc Running l) -> code P m !! pc = Some (WaitOn v) ->
    owner c = Some t ->
    step (Go t w) c (Config (shared c) None (<[t := At m pc Waiting l]> (threads c)))
| step_notify_one c t w m pc l v th :
    threads c !! t = Some (At m pc Running l) -> code P m !! pc = Some (NotifyOne v) ->
    threads c !! w = Some th -> waits_on v th = true ->
    step (Go t w) c (put t (At m (pc + 1) Running l) (put w (wake th) c))
| step_notify_none c t w m pc l v :
    threads c !! t = Some (At m pc Running l) -> code P m !! pc = Some (NotifyOne v) ->
    existsb (waits_on v) (threads c) = false ->
    step (Go t w) c (put t (At m (pc + 1) Running l) c)
| step_notify_all c t w m pc l v :
    threads c !! t = Some (At m pc Running l) -> code P m !! pc = Some (NotifyAll v) ->
    step (Go t w) c (Config (shared c) (owner c)
      (<[t := At m (pc + 1) Running l]>
         ((fun th => if waits_on v th then wake th else th) <$> threads c)))
| step_spurious c t m pc l :
    threads c !! t = Some (At m pc Waiting l) ->
    step (Spurious t) c (put t (At m pc Woken l) c).

Lemma act_step a c c' : act a c = Some c' -> step a c c'.
Proof.
  destruct a as [t m|t w|t]; cbn [act]; intros E.
  - destruct (threads c !! t) as [[l|]|] eqn:Et; [|done..].
    destruct (may_call P l m) eqn:Em; [|done]. injection E as <-. by econstructor.
  - destruct (threads c !! t) as [[|m pc [] l]|] eqn:Et; try done.
    + unfold execute in E. destruct (code P m !! pc) as [[]|] eqn:Ec; cbn beta iota zeta in E.
      * destruct (owner c) eqn:Eo; [done|]. injection E as <-. by econstructor.
      * case_decide; [|done]. injection E as <-. by eapply step_release.
      * destruct (f (shared c) l) as [s l'] eqn:Ef. injection E as <-. by eapply step_do.
      * destruct (b (shared c) l) eqn:Eb; injection E as <-;
          (eapply eq_rect; [by eapply step_branch|]); by rewrite Eb.
      * injection E as <-. by eapply step_assert.
      * case_decide; [|done]. injection E as <-. by eapply step_wait.
      * destruct (existsb _ _) eqn:Ee; [|injection E as <-; by eapply step_notify_none].
        destruct (threads c !! w) as [th|] eqn:Ew; [|done].
        destruct (waits_on _ th) eqn:Eh; [|done]. injection E as <-. by eapply step_notify_one.
      * injection E as <-. by eapply step_notify_all.
      * injection E as <-. by eapply step_return.
    + destruct (owner c) eqn:Eo; [done|]. injection E as <-. by eapply step_again.
  - destruct (threads c !! t) as [[|m pc [] l]|] eqn:Et; try done. injection E as <-. by econstructor.
Qed.

Lemma length_step a c c' : step a c c' -> length (threads c') = length (threads c).
Proof. intros H. inv H; cbn; by rewrite ?length_insert, ?length_fmap. Qed.

(** ** Who holds the mutex

    [held m pc]: the mutex is held before instruction [pc] of [m].  Methods
    that take and release it in pairs hold it exactly there. *)

Section Ownership.
Context (held : M -> nat -> bool).

Definition balanced : Prop := forall m,
  held m 0 = false /\
  forall pc, match code P m !! pc with
  | None => held m pc = false
  | Some Acquire => held m pc = false /\ held m (pc + 1)%nat = true
  | Some Release => held m pc = true /\ held m (pc + 1)%nat = false
  | Some (WaitOn _) => held m pc = true /\ held m (pc + 1)%nat = true
  | Some (Branch _ target) => held m target = held m pc /\ held m (pc + 1)%nat = held m pc
  | Some _ => held m (pc + 1)%nat = held m pc
  end.

Definition in_section (th : thread) : bool :=
  match th with At m pc Running _ => held m pc | _ => false end.

Definition owned (c : config) : Prop :=
  forall t, owner c = Some t <-> (in_section <$> threads c) !! t = Some true.

Lemma owned_holder c t th :
  owned c -> threads c !! t = Some th -> in_section th = true -> owner c = Some t.
Proof. intros O E H. apply O. by rewrite list_lookup_fmap, E; cbn; rewrite H. Qed.

Lemma owned_thread c t th :
  owned c -> owner c = Some t -> threads c !! t = Some th -> in_section th = true.
Proof. intros O Ho E. apply O in Ho. rewrite list_lookup_fmap, E in Ho. by injection Ho. Qed.

Lemma owned_keep c t th th' s :
  owned c -> threads c !! t = Some th -> in_section th' = in_section th ->
  owned (Config s (owner c) (<[t := th']> (threads c))).
Proof.
  intros O E H u. cbn. rewrite list_fmap_insert, H, list_insert_id; [apply O|].
  by rewrite list_lookup_fmap, E.
Qed.

Lemma owned_take c t th th' :
  owned c -> owner c = None -> threads c !! t = Some th -> in_section th' = true ->
  owned (Config (shared c) (Some t) (<[t := th']> (threads c))).
Proof.
  intros O N E H u. cbn. rewrite list_fmap_insert, H. split.
  - intros [= <-]. apply list_lookup_insert_eq. rewrite length_fmap. by eapply lookup_lt_Some.
  - intros [(-> & _ & _)|(_ & Hu)]%list_lookup_insert_Some; [done|]. apply O in Hu. congruence.
Qed.

Lemma owned_drop c t th' :
  owned c -> owner c = Some t -> in_section th' = false ->
  owned (Config (shared c) None (<[t := th']> (threads c))).
Proof.
  intros O N H u. cbn. rewrite list_fmap_insert, H. split; [done|].
  intros [(_ & ? & _)|(Ne & Hu)]%list_lookup_insert_Some; [done|]. apply O in Hu. congruence.
Qed.

Lemma in_section_wake th : in_section (wake th) = in_section th.
Proof. by destruct th as [|m pc [] l]. Qed.

Lemma owned_wake c w th :
  owned c -> threads c !! w = Some th -> owned (put w (wake th) c).
Proof. intros. eapply owned_keep; [done..|]. apply in_section_wake. Qed.

Lemma wake_all_section v (l : list thread) :
  in_section <$> ((fun th => if waits_on v th then wake th else th) <$> l) = in_section <$> l.
Proof.
  rewrite <- list_fmap_compose. apply list_fmap_ext. intros i th _. cbn.
  destruct (waits_on v th); [apply in_section_wake|done].
Qed.

Lemma waits_on_waiting v th : waits_on v th = true ->
  exists m pc l, th = At m pc Waiting l /\ code P m !! pc = Some (WaitOn v).
Proof.
  destruct th as [l|m pc [] l]; cbn; try done. intros H. exists m, pc, l. split; [done|].
  destruct (code P m !! pc) as [[]|]; try done. by apply bool_decide_eq_true in H as ->.
Qed.

Ltac find_waiting_as m pc l :=
  match goal with H : waits_on _ _ = true |- _ => apply waits_on_waiting in H as (m & pc & l & -> & _) end.
Tactic Notation "find_waiting" "as" ident(m) ident(pc) ident(l) := find_waiting_as m pc l.

(** A step leaves the other threads as they are, or wakes them. *)
Lemma step_others a c c' t w : a = Go t w -> step a c c' ->
  forall u, u <> t -> threads c' !! u = threads c !! u \/
    exists m pc l, threads c !! u = Some (At m pc Waiting l) /\ threads c' !! u = Some (At m pc Woken l).
Proof.
  intros -> H u Hu. inv H; cbn; try (left; by rewrite list_lookup_insert_ne).
  - rewrite list_lookup_insert_ne by done. destruct (decide (u = w)) as [->|];
      [|left; by rewrite list_lookup_insert_ne].
    right. find_waiting as m' pc' l'. exists m', pc', l'.
    split; [done|]. apply list_lookup_insert_eq. by eapply lookup_lt_Some.
  - rewrite list_lookup_insert_ne, list_lookup_fmap by done.
    destruct (threads c !! u) as [th|] eqn:E; [cbn|by left].
    destruct (waits_on v th) eqn:Ew; [right|by left].
    find_waiting as m' pc' l'. by exists m', pc', l'.
Qed.

Context (B : balanced).

Lemma balanced_at m pc i : code P m !! pc = Some i ->
  match i with
  | Acquire => held m pc = false /\ held m (pc + 1)%nat = true
  | Release => held m pc = true /\ held m (pc + 1)%nat = false
  | WaitOn _ => held m pc = true /\ held m (pc + 1)%nat = true
  | Branch _ target => held m target = held m pc /\ held m (pc + 1)%nat = held m pc
  | _ => held m (pc + 1)%nat = held m pc
  end.
Proof. intros E. destruct (B m) as [_ H]. specialize (H pc). by rewrite E in H. Qed.

Definition resumable (c : config) : Prop :=
  forall t m pc st l, threads c !! t = Some (At m pc st l) -> st <> Running ->
    exists v, code P m !! pc = Some (WaitOn v).

Lemma owned_step a c c' : resumable c -> owned c -> step a c c' -> owned c'.
Proof.
  intros R O H. inv H; try match goal with E : code P _ !! _ = Some _ |- _ => pose proof (balanced_at _ _ _ E) as Hb; cbn in Hb end.
  - eapply owned_keep; [done..|]. apply B.
  - eapply owned_keep; [done..|]. destruct (B m) as [_ Hm]. specialize (Hm pc). by simplify_option_eq.
  - eapply owned_take; [done..|]. apply Hb.
  - eapply owned_take; [done..|]. edestruct R as [v Hv]; [done..|].
    by apply (balanced_at _ _ _ Hv).
  - eapply owned_drop; [done..|]. apply Hb.
  - eapply owned_keep; [done..|]. apply Hb.
  - eapply owned_keep; [done..|]. cbn. destruct Hb. by destruct (b _ _).
  - eapply owned_keep; [done..|]. apply Hb.
  - eapply owned_drop; [done..|]. done.
  - assert (owned (put w (wake th) c)) as O' by (by eapply owned_wake).
    apply (owned_keep (put w (wake th) c) t (At m pc Running l) _ (shared c)); [exact O'| |apply Hb]. cbn.
    rewrite list_lookup_insert_ne; [done|]. intros ->.
    find_waiting as m' pc' l'. congruence.
  - eapply owned_keep; [done..|]. apply Hb.
  - set (ths := (fun th => if waits_on v th then wake th else th) <$> threads c).
    assert (owned (Config (shared c) (owner c) ths)) as O'.
    { intros u. cbn. unfold ths. rewrite wake_all_section. apply O. }
    apply (owned_keep _ t (At m pc Running l) _ (shared c) O'); [|apply Hb].
    cbn. unfold ths. rewrite list_lookup_fmap. by simplify_option_eq.
  - eapply owned_keep; [done..|]. done.
Qed.

(** What the holder of the mutex knows: [A], about its place and the shared
    state.  A step has to establish it for the thread that moves, and has to be
    made in a section if it changes what others know. *)
Definition asserted (A : thread -> S -> Prop) (c : config) : Prop :=
  forall t th, threads c !! t = Some th -> in_section th = true -> A th (shared c).

Definition mover (a : action M) : nat :=
  match a with Call t _ => t | Go t _ => t | Spurious t => t end.

Lemma step_frame a c c' : step a c c' -> forall u th, u <> mover a ->
  threads c' !! u = Some th -> in_section th = true -> threads c !! u = Some th.
Proof.
  intros H u th Hu E Hs. destruct a as [t m|t w|t]; cbn in Hu.
  - inv H. cbn in E. by rewrite list_lookup_insert_ne in E by done.
  - destruct (step_others _ _ _ t w eq_refl H u Hu) as [<-|(m & pc & l & _ & Ew)]; [done|].
    rewrite Ew in E. by injection E as <-.
  - inv H. cbn in E. by rewrite list_lookup_insert_ne in E by done.
Qed.

Lemma asserted_step A a c c' :
  owned c -> asserted A c -> step a c c' ->
  (forall th, threads c' !! mover a = Some th -> in_section th = true -> A th (shared c')) ->
  (owner c = Some (mover a) \/ forall th, A th (shared c) -> A th (shared c')) -> asserted A c'.
Proof.
  intros O HA H Hm Hs u th E Hu. destruct (decide (u = mover a)) as [->|Ne]; [auto|].
  pose proof (step_frame _ _ _ H u th Ne E Hu) as E0.
  destruct Hs as [Ho|Hs]; [|by eapply Hs, HA]. pose proof (owned_holder _ _ _ O E0 Hu). congruence.
Qed.

Lemma step_other_place a c c' u m pc st l : step a c c' -> u <> mover a ->
  threads c' !! u = Some (At m pc st l) ->
  exists st', threads c !! u = Some (At m pc st' l) /\ (st <> Running -> st' <> Running).
Proof.
  intros H Hu E. destruct a as [t m'|t w|t]; cbn in Hu.
  - exists st. inv H. cbn in E. by rewrite list_lookup_insert_ne in E by done.
  - destruct (step_others _ _ _ t w eq_refl H u Hu) as [<-|(m1 & pc1 & l1 & Eu & Ew)]; [by exists st|].
    rewrite Ew in E. injection E as <- <- <- <-. by exists Waiting.
  - exists st. inv H. cbn in E. by rewrite list_lookup_insert_ne in E by done.
Qed.

(** A waiting or woken thread is at the instruction it waits in. *)
Lemma resumable_step a c c' : resumable c -> step a c c' -> resumable c'.
Proof.
  intros R H u m' pc' st l' E Hst.
  destruct (decide (u = mover a)) as [->|Ne];
    [|destruct (step_other_place _ _ _ _ _ _ _ _ H Ne E) as (st'' & Eu & Hs); eapply R; eauto].
  inv H; cbn in E;
    (rewrite list_lookup_insert_eq in E; [|try rewrite length_fmap; try rewrite length_insert;
       by eapply lookup_lt_Some]);
    simplify_eq; try done; eauto.
Qed.

Definition sound (c : config) : Prop := resumable c /\ owned c.

Lemma sound_step a c c' : sound c -> step a c c' -> sound c'.
Proof. intros [R O] H. split; [by eapply resumable_step|by eapply owned_step]. Qed.

Lemma sound_init s n l : sound (Config s None (replicate n (Idle l))).
Proof.
  split.
  - intros t m pc st l' H _. cbn in H. apply lookup_replicate in H as [H _]. done.
  - intros t. cbn. rewrite fmap_replicate. split; [done|].
    intros [H _]%lookup_replicate. done.
Qed.

(** ** Nobody is stuck but those who wait *)

Lemma execute_some t m pc l c :
  (code P m !! pc = Some Acquire -> owner c = None) ->
  (code P m !! pc = Some Release -> owner c = Some t) ->
  (forall v, code P m !! pc = Some (WaitOn v) -> owner c = Some t) ->
  exists w c', execute t w m pc l c = Some c'.
Proof.
  intros Ha Hr Hw. unfold execute. destruct (code P m !! pc) as [[]|]; eauto using O.
  - rewrite Ha by done. by eexists 0%nat, _.
  - rewrite decide_True by auto. by eexists 0%nat, _.
  - destruct (f (shared c) l). by eexists 0%nat, _.
  - rewrite decide_True by eauto. by eexists 0%nat, _.
  - destruct (existsb _ _) eqn:E; [|by eexists 0%nat, _].
    apply existsb_exists in E as (th & Hin & Hv). apply list_elem_of_In, list_elem_of_lookup in Hin as [w Ew].
    exists w. rewrite Ew, Hv. by eexists.
Qed.

Lemma progress c t m pc st l :
  sound c -> threads c !! t = Some (At m pc st l) -> st <> Waiting ->
  exists u w c', act (Go u w) c = Some c'.
Proof.
  intros [R O] E Hst. destruct (owner c) as [u|] eqn:Eo.
  - pose proof Eo as Hu. apply O in Hu. rewrite list_lookup_fmap in Hu.
    destruct (threads c !! u) as [th|] eqn:Eu; [|done]. injection Hu as Hu.
    destruct th as [l'|m' pc' [] l']; try done. exists u. cbn [act]. rewrite Eu.
    apply execute_some; intros; try done. cbn in Hu.
    match goal with H : code P _ !! _ = _ |- _ => apply balanced_at in H as [? _] end. congruence.
  - exists t. cbn [act]. rewrite E. destruct st; [|done|rewrite Eo; by eexists 0%nat, _].
    assert (held m pc = false) as Hf.
    { destruct (held m pc) eqn:Eh; [|done]. pose proof (owned_holder _ _ _ O E Eh). congruence. }
    apply execute_some; intros; try done;
      match goal with H : code P _ !! _ = _ |- _ => apply balanced_at in H as [? _] end; congruence.
Qed.
End Ownership.
End Monitor.
