(* ===== verification/RwLock.v ===== *)
(** * The lock for readers and writers (src/base3/rwlock.h)

    [ReadWriteLock] as a program of [Monitor]: its counters are the shared
    state, and a thread remembers what it holds.  The unsigned counters wrap at
    32 bits. *)

From S2P Require Import Prelude Monitor.

Record ReadWriteLock := mkReadWriteLock {
  readers_ : Z; writers_ : Z; read_waiters_ : Z; write_waiters_ : Z }.

Inductive condition := cond_read_ | cond_write_.
#[export] Instance condition_eq_decision : EqDecision condition.
Proof. solve_decision. Defined.

Inductive method := ReadLock | ReadUnlock | WriteLock | WriteUnlock.

(** What the calling thread holds. *)
Inductive holding := Free | Reading | Writing.

Abbreviation rw_instr := (instr ReadWriteLock holding condition).

Definition set_readers (n : Z) (s : ReadWriteLock) : ReadWriteLock :=
  mkReadWriteLock (u32 n) (writers_ s) (read_waiters_ s) (write_waiters_ s).
Definition set_writers (n : Z) (s : ReadWriteLock) : ReadWriteLock :=
  mkReadWriteLock (readers_ s) (u32 n) (read_waiters_ s) (write_waiters_ s).
Definition set_read_waiters (n : Z) (s : ReadWriteLock) : ReadWriteLock :=
  mkReadWriteLock (readers_ s) (writers_ s) (u32 n) (write_waiters_ s).
Definition set_write_waiters (n : Z) (s : ReadWriteLock) : ReadWriteLock :=
  mkReadWriteLock (readers_ s) (writers_ s) (read_waiters_ s) (u32 n).

(** [writers_ || write_waiters_] and its relatives, and their negations for
    jumping over a body. *)
Definition no_readers (s : ReadWriteLock) : bool := readers_ s =? 0.
Definition no_writers (s : ReadWriteLock) : bool := writers_ s =? 0.
Definition no_read_waiters (s : ReadWriteLock) : bool := read_waiters_ s =? 0.
Definition no_write_waiters (s : ReadWriteLock) : bool := write_waiters_ s =? 0.

Definition ReadLock_code : list rw_instr := [
  (* 0 *) Acquire;
  (* 1 *) Branch (fun s _ => no_writers s && no_write_waiters s) 6;
  (* 2 *) Do (fun s l => (set_read_waiters (read_waiters_ s + 1) s, l));
  (* 3 *) WaitOn cond_read_;
  (* 4 *) Branch (fun s _ => negb (no_writers s && no_write_waiters s)) 3;
  (* 5 *) Do (fun s l => (set_read_waiters (read_waiters_ s - 1) s, l));
  (* 6 *) Do (fun s l => (set_readers (readers_ s + 1) s, l));
  (* 7 *) Release ].

Definition ReadUnlock_code : list rw_instr := [
  (* 0 *) Acquire;
  (* 1 *) Do (fun s l => (set_readers (readers_ s - 1) s, l));
  (* 2 *) Assert (fun s _ => 0 <=? readers_ s);
  (* 3 *) Branch (fun s _ => no_write_waiters s) 5;
  (* 4 *) NotifyOne cond_write_;
  (* 5 *) Release ].

Definition WriteLock_code : list rw_instr := [
  (* 0 *) Acquire;
  (* 1 *) Branch (fun s _ => no_readers s && no_writers s) 6;
  (* 2 *) Do (fun s l => (set_write_waiters (write_waiters_ s + 1) s, l));
  (* 3 *) WaitOn cond_write_;
  (* 4 *) Branch (fun s _ => negb (no_readers s && no_writers s)) 3;
  (* 5 *) Do (fun s l => (set_write_waiters (write_waiters_ s - 1) s, l));
  (* 6 *) Assert (fun s _ => writers_ s =? 0);
  (* 7 *) Do (fun s l => (set_writers 1 s, l));
  (* 8 *) Release ].

Definition WriteUnlock_code : list rw_instr := [
  (* 0 *) Acquire;
  (* 1 *) Assert (fun s _ => writers_ s =? 1);
  (* 2 *) Do (fun s l => (set_writers 0 s, l));
  (* 3 *) Branch (fun s _ => no_write_waiters s) 6;
  (* 4 *) NotifyOne cond_write_;
  (* 5 *) Branch (fun _ _ => true) 8;
  (* 6 *) Branch (fun s _ => no_read_waiters s) 8;
  (* 7 *) NotifyAll cond_read_;
  (* 8 *) Release ].

(** A thread unlocks what it has locked, and locks nothing twice. *)
Definition rwlock : program ReadWriteLock method holding condition := {|
  code m := match m with
    | ReadLock => ReadLock_code | ReadUnlock => ReadUnlock_code
    | WriteLock => WriteLock_code | WriteUnlock => WriteUnlock_code end;
  may_call l m := match l, m with
    | Free, ReadLock | Free, WriteLock | Reading, ReadUnlock | Writing, WriteUnlock => true
    | _, _ => false end;
  on_return m _ := match m with
    | ReadLock => Reading | WriteLock => Writing | _ => Free end |}.

Definition rw_config := config ReadWriteLock method holding.

(** The constructor, with [n] threads that hold nothing. *)
Definition rw_init (n : nat) : rw_config :=
  Config (mkReadWriteLock 0 0 0 0) None (replicate n (Idle Free)).

(** ** Examples: two writers and a reader *)

Definition goes (t : nat) (n : nat) : list (action method) := replicate n (Go t 0).

Example writer_enters :
  (shared <$> run rwlock (Call 0 WriteLock :: goes 0 6) (rw_init 2))
  = Some (mkReadWriteLock 0 1 0 0).
Proof. vm_compute. reflexivity. Qed.

Example reader_waits_for_writer :
  (shared <$> run rwlock (Call 0 WriteLock :: goes 0 6 ++ Call 1 ReadLock :: goes 1 4) (rw_init 2))
  = Some (mkReadWriteLock 0 1 1 0).
Proof. vm_compute. reflexivity. Qed.

(** ** What the place of a thread adds to the counters *)

Abbreviation rw_thread := (thread method holding).

Definition b2n (b : bool) : nat := if b then 1%nat else 0%nat.

(** Counted in [readers_], in [writers_], in [read_waiters_], in [write_waiters_]. *)
Definition reads (th : rw_thread) : nat :=
  match th with
  | Idle Reading => 1
  | At ReadLock pc _ _ => b2n (7 <=? pc)%nat
  | At ReadUnlock pc _ _ => b2n (pc <=? 1)%nat
  | _ => 0
  end.
Definition writes (th : rw_thread) : nat :=
  match th with
  | Idle Writing => 1
  | At WriteLock pc _ _ => b2n (8 <=? pc)%nat
  | At WriteUnlock pc _ _ => b2n (pc <=? 2)%nat
  | _ => 0
  end.
Definition wants_read (th : rw_thread) : nat :=
  match th with At ReadLock pc _ _ => b2n ((3 <=? pc) && (pc <=? 5))%nat | _ => 0 end.
Definition wants_write (th : rw_thread) : nat :=
  match th with At WriteLock pc _ _ => b2n ((3 <=? pc) && (pc <=? 5))%nat | _ => 0 end.

(** Asleep in [ReadLock], in [WriteLock]. *)
Definition sleeps_read (th : rw_thread) : nat :=
  match th with At ReadLock 3 Waiting _ => 1 | _ => 0 end.
Definition sleeps_write (th : rw_thread) : nat :=
  match th with At WriteLock 3 Waiting _ => 1 | _ => 0 end.

(** Has yet to pass the place where sleeping writers, or readers, are woken. *)
Definition helps_write (th : rw_thread) : nat :=
  match th with
  | Idle Reading | Idle Writing => 1
  | At ReadLock pc _ _ => b2n (7 <=? pc)%nat
  | At ReadUnlock pc _ _ => b2n (pc <=? 4)%nat
  | At WriteLock _ Woken _ => 1
  | At WriteLock pc _ _ => b2n (4 <=? pc)%nat
  | At WriteUnlock pc _ _ => b2n (pc <=? 4)%nat
  | _ => 0
  end.
Definition helps_read (th : rw_thread) : nat :=
  match th with
  | Idle Writing => 1
  | At WriteLock pc _ _ => b2n (3 <=? pc)%nat
  | At WriteUnlock pc _ _ => b2n ((pc <=? 4) || (pc =? 6) || (pc =? 7))%nat
  | _ => 0
  end.

(** The mutex is held from the instruction after [Acquire] to [Release]. *)
Definition held (m : method) (pc : nat) : bool :=
  (1 <=? pc)%nat && (pc <=? match m with ReadLock => 7 | ReadUnlock => 5 | _ => 8 end)%nat.

(** What the holder of the mutex has found out. *)
Definition knows (th : rw_thread) (s : ReadWriteLock) : Prop :=
  match th with
  | At ReadLock (2 | 3) _ _ => 0 < writers_ s + write_waiters_ s
  | At ReadLock (5 | 6) _ _ => writers_ s = 0
  | At WriteLock (2 | 3) _ _ => 0 < readers_ s + writers_ s
  | At WriteLock (5 | 6 | 7) _ _ => readers_ s = 0 /\ writers_ s = 0
  | At WriteUnlock 4 _ _ => 0 < write_waiters_ s
  | _ => True
  end.

Lemma rwlock_balanced : balanced rwlock held.
Proof.
  intros m. split; [by destruct m|]. intros pc.
  destruct m; do 10 (destruct pc as [|pc]; [cbn; auto|]); done.
Qed.

(** The counters, and what has to hold of the places of the threads. *)
Definition counted (s : ReadWriteLock) (l : list rw_thread) : Prop :=
  readers_ s = Z.of_nat (total reads l) /\ writers_ s = Z.of_nat (total writes l) /\
  read_waiters_ s = Z.of_nat (total wants_read l) /\
  write_waiters_ s = Z.of_nat (total wants_write l).

Definition exclusive (l : list rw_thread) : Prop :=
  (total writes l <= 1)%nat /\ (0 < total writes l -> total reads l = 0)%nat.

Definition awake (l : list rw_thread) : Prop :=
  (0 < total sleeps_write l -> 0 < total helps_write l)%nat /\
  (0 < total sleeps_read l -> 0 < total helps_read l)%nat.

Definition tally (s : ReadWriteLock) (l : list rw_thread) : Prop :=
  counted s l /\ exclusive l /\ awake l.

Record rw_inv (c : rw_config) : Prop := {
  inv_few : Z.of_nat (length (threads c)) < 2 ^ 32;
  inv_sound : sound rwlock held c;
  inv_knows : asserted held knows c;
  inv_tally : tally (shared c) (threads c) }.

(** The places of a method, one by one. *)
Ltac each_place m pc := destruct m; destruct pc as [|[|[|[|[|[|[|[|[|pc]]]]]]]]].

(** How the counts of places relate, thread by thread. *)
Lemma places (l : list rw_thread) :
  (total reads l + total writes l <= total helps_write l)%nat /\
  (total writes l + total wants_write l <= total helps_read l)%nat /\
  (total sleeps_write l <= total wants_write l)%nat /\
  (total sleeps_read l <= total wants_read l)%nat.
Proof.
  split; [|split; [|split]]; [apply total_le|apply total_le|apply total_mono|apply total_mono];
    (intros [[]|m pc st l']; [cbn; lia..|]; each_place m pc; destruct st; cbn; lia).
Qed.

Lemma few (l : list rw_thread) :
  (total reads l <= length l)%nat /\ (total writes l <= length l)%nat /\
  (total wants_read l <= length l)%nat /\ (total wants_write l <= length l)%nat.
Proof.
  pose proof (total_bound reads 1 l) as Hr. pose proof (total_bound writes 1 l) as Hw.
  pose proof (total_bound wants_read 1 l) as Hr'. pose proof (total_bound wants_write 1 l) as Hw'.
  rewrite !Nat.mul_1_l in *.
  split; [apply Hr|split; [apply Hw|split; [apply Hr'|apply Hw']]];
    (intros [[]|m pc st l']; [cbn; lia..|]; each_place m pc; destruct st; cbn; lia).
Qed.

Ltac counts E th' :=
  pose proof (total_insert reads _ _ _ th' E); pose proof (total_insert writes _ _ _ th' E);
  pose proof (total_insert wants_read _ _ _ th' E); pose proof (total_insert wants_write _ _ _ th' E);
  pose proof (total_insert sleeps_read _ _ _ th' E); pose proof (total_insert sleeps_write _ _ _ th' E);
  pose proof (total_insert helps_read _ _ _ th' E); pose proof (total_insert helps_write _ _ _ th' E).

(** The thread goes from [th] to [th'], and nothing else changes. *)
Ltac moves E th' :=
  match goal with I : rw_inv _ |- _ => destruct I as [F S K T] end;
  unfold tally, counted, exclusive, awake in *; counts E th'.

Lemma rw_tally_call c t m l :
  rw_inv c -> threads c !! t = Some (Idle l) -> may_call rwlock l m = true ->
  tally (shared c) (<[t := At m 0 Running l]> (threads c)).
Proof.
  intros I E Hm. moves E (At m 0 Running l : rw_thread). destruct l, m; cbn in *; try done; lia.
Qed.

Lemma tally_return c t m pc l :
  rw_inv c -> threads c !! t = Some (At m pc Running l) -> code rwlock m !! pc = None ->
  tally (shared c) (<[t := Idle (on_return rwlock m l)]> (threads c)).
Proof.
  intros I E Hm. moves E (Idle (on_return rwlock m l) : rw_thread).
  each_place m pc; try done; cbn in *; lia.
Qed.

Lemma tally_acquire c t m pc l :
  rw_inv c -> threads c !! t = Some (At m pc Running l) -> code rwlock m !! pc = Some Acquire ->
  tally (shared c) (<[t := At m (pc + 1) Running l]> (threads c)).
Proof.
  intros I E Hm. moves E (At m (pc + 1) Running l : rw_thread).
  each_place m pc; try done; cbn in *; lia.
Qed.

Lemma tally_again c t m pc l :
  rw_inv c -> threads c !! t = Some (At m pc Woken l) ->
  tally (shared c) (<[t := At m (pc + 1) Running l]> (threads c)).
Proof.
  intros I E. destruct (proj1 (inv_sound c I) _ _ _ _ _ E ltac:(done)) as [v Hm].
  moves E (At m (pc + 1) Running l : rw_thread).
  each_place m pc; try done; cbn in *; lia.
Qed.

Lemma tally_release c t m pc l :
  rw_inv c -> threads c !! t = Some (At m pc Running l) -> code rwlock m !! pc = Some Release ->
  tally (shared c) (<[t := At m (pc + 1) Running l]> (threads c)).
Proof.
  intros I E Hm. moves E (At m (pc + 1) Running l : rw_thread).
  each_place m pc; try done; cbn in *; lia.
Qed.

Lemma tally_assert c t m pc l b :
  rw_inv c -> threads c !! t = Some (At m pc Running l) -> code rwlock m !! pc = Some (Assert b) ->
  tally (shared c) (<[t := At m (pc + 1) Running l]> (threads c)).
Proof.
  intros I E Hm. moves E (At m (pc + 1) Running l : rw_thread).
  each_place m pc; try done; cbn in *; lia.
Qed.

Lemma rw_knows_at c t m pc l :
  rw_inv c -> threads c !! t = Some (At m pc Running l) -> held m pc = true ->
  knows (At m pc Running l) (shared c).
Proof. intros I E H. by apply (inv_knows c I t). Qed.

Lemma rw_tally_do c t m pc l f s l' :
  rw_inv c -> threads c !! t = Some (At m pc Running l) -> code rwlock m !! pc = Some (Do f) ->
  f (shared c) l = (s, l') ->
  tally s (<[t := At m (pc + 1) Running l']> (threads c)).
Proof.
  intros I E Hm Hf. pose proof (rw_knows_at c t m pc l I E) as Hk.
  moves E (At m (pc + 1) Running l' : rw_thread).
  pose proof (few (<[t := At m (pc + 1) Running l']> (threads c))) as Hn.
  rewrite length_insert in Hn.
  each_place m pc; try done; cbn in Hm, Hk; simplify_eq; specialize (Hk eq_refl); cbn in *;
    rewrite !wrap_small by lia; lia.
Qed.

Lemma tally_branch c t m pc l b target :
  rw_inv c -> threads c !! t = Some (At m pc Running l) ->
  code rwlock m !! pc = Some (Branch b target) ->
  tally (shared c)
    (<[t := At m (if b (shared c) l then target else pc + 1)%nat Running l]> (threads c)).
Proof.
  intros I E Hm. pose proof (rw_knows_at c t m pc l I E) as Hk.
  moves E (At m (if b (shared c) l then target else pc + 1)%nat Running l : rw_thread).
  pose proof (places (<[t := At m (if b (shared c) l then target else pc + 1)%nat Running l]> (threads c))) as Hp.
  each_place m pc; try done; cbn in Hm, Hk; simplify_eq; specialize (Hk eq_refl);
    unfold no_readers, no_writers, no_read_waiters, no_write_waiters in *;
    revert H H0 H1 H2 H3 H4 H5 H6 Hp; bool_cases; cbn; intros; cbn in *; lia.
Qed.

Lemma rw_tally_wait c t m pc l v :
  rw_inv c -> threads c !! t = Some (At m pc Running l) -> code rwlock m !! pc = Some (WaitOn v) ->
  tally (shared c) (<[t := At m pc Waiting l]> (threads c)).
Proof.
  intros I E Hm. pose proof (rw_knows_at c t m pc l I E) as Hk.
  moves E (At m pc Waiting l : rw_thread).
  pose proof (places (<[t := At m pc Waiting l]> (threads c))) as Hp.
  each_place m pc; try done; cbn in Hm, Hk; simplify_eq; specialize (Hk eq_refl); cbn in *; lia.
Qed.

Lemma tally_wakes s l t (th : rw_thread) :
  l !! t = Some th -> (exists v, waits_on rwlock v th = true) \/ (exists m pc l', th = At m pc Waiting l') ->
  tally s l -> tally s (<[t := wake th]> l).
Proof.
  intros E Hw T. assert (exists m pc l', th = At m pc Waiting l') as (m & pc & l' & ->).
  { destruct Hw as [[v Hv]|Hv]; [|done]. apply waits_on_waiting in Hv as (m & pc & l' & -> & _). eauto. }
  unfold tally, counted, exclusive, awake in *. counts E (wake (At m pc Waiting l') : rw_thread).
  each_place m pc; cbn in *; lia.
Qed.

Lemma tally_notify_one c t w m pc l v th :
  rw_inv c -> threads c !! t = Some (At m pc Running l) ->
  code rwlock m !! pc = Some (NotifyOne v) -> threads c !! w = Some th ->
  waits_on rwlock v th = true ->
  tally (shared c) (<[t := At m (pc + 1) Running l]> (<[w := wake th]> (threads c))).
Proof.
  intros I E Hm Ew Hw. pose proof (rw_knows_at c t m pc l I E) as Hk.
  apply waits_on_waiting in Hw as (m' & pc' & l' & -> & Hv).
  assert (<[w := At m' pc' Woken l']> (threads c) !! t = Some (At m pc Running l)) as E'
    by (rewrite list_lookup_insert_ne; [done|congruence]).
  moves Ew (At m' pc' Woken l' : rw_thread). counts E' (At m (pc + 1) Running l : rw_thread).
  pose proof (places (<[t := At m (pc + 1) Running l]> (<[w := At m' pc' Woken l']> (threads c)))) as Hp.
  each_place m pc; try done; cbn in Hm, Hk; simplify_eq; specialize (Hk eq_refl);
    (each_place m' pc'; try done; cbn in *; lia).
Qed.

Lemma nobody_waits v (l : list rw_thread) :
  existsb (waits_on rwlock v) l = false ->
  match v with cond_read_ => total sleeps_read l = 0%nat | cond_write_ => total sleeps_write l = 0%nat end.
Proof.
  intros H. assert (forall th, th ∈ l -> waits_on rwlock v th = false) as Hn.
  { intros th Hin. destruct (waits_on rwlock v th) eqn:E; [|done].
    rewrite <- H. symmetry. apply existsb_exists. exists th. split; [by apply list_elem_of_In|done]. }
  destruct v; apply total_zero; intros t [l'|m pc st l'] E; try done;
    specialize (Hn _ (list_elem_of_lookup_2 _ _ _ E));
    destruct m; try done; destruct pc as [|[|[|[|pc]]]]; try done; by destruct st.
Qed.

Lemma tally_notify_none c t m pc l v :
  rw_inv c -> threads c !! t = Some (At m pc Running l) ->
  code rwlock m !! pc = Some (NotifyOne v) -> existsb (waits_on rwlock v) (threads c) = false ->
  tally (shared c) (<[t := At m (pc + 1) Running l]> (threads c)).
Proof.
  intros I E Hm Hw. apply nobody_waits in Hw. pose proof (rw_knows_at c t m pc l I E) as Hk.
  moves E (At m (pc + 1) Running l : rw_thread).
  pose proof (places (<[t := At m (pc + 1) Running l]> (threads c))) as Hp.
  each_place m pc; try done; cbn in Hm, Hk; simplify_eq; specialize (Hk eq_refl); cbn in *; lia.
Qed.

(** [NotifyAll] on [cond_read_] puts no reader to sleep and changes no other count. *)
Definition wake_readers (th : rw_thread) : rw_thread :=
  if waits_on rwlock cond_read_ th then wake th else th.

Lemma wake_readers_counts (l : list rw_thread) :
  total reads (wake_readers <$> l) = total reads l /\
  total writes (wake_readers <$> l) = total writes l /\
  total wants_read (wake_readers <$> l) = total wants_read l /\
  total wants_write (wake_readers <$> l) = total wants_write l /\
  total sleeps_write (wake_readers <$> l) = total sleeps_write l /\
  total helps_write (wake_readers <$> l) = total helps_write l /\
  total helps_read (wake_readers <$> l) = total helps_read l /\
  total sleeps_read (wake_readers <$> l) = 0%nat.
Proof.
  repeat match goal with |- _ /\ _ => split end; [apply total_fmap..|apply total_zero; intros t x Ex];
    [intros [l'|m pc st l']; [done|]; each_place m pc; by destruct st ..|].
  rewrite list_lookup_fmap in Ex. destruct (l !! t) as [[l'|m pc st l']|]; [by simplify_eq/=| |done].
  injection Ex as <-. each_place m pc; by destruct st.
Qed.

Lemma rw_tally_notify_all c t m pc l v :
  rw_inv c -> threads c !! t = Some (At m pc Running l) ->
  code rwlock m !! pc = Some (NotifyAll v) ->
  tally (shared c) (<[t := At m (pc + 1) Running l]>
    ((fun th => if waits_on rwlock v th then wake th else th) <$> threads c)).
Proof.
  intros I E Hm. assert (v = cond_read_) as -> by (each_place m pc; try done; by simplify_eq/=).
  change (fun th => if waits_on rwlock cond_read_ th then wake th else th) with wake_readers.
  assert ((wake_readers <$> threads c) !! t = Some (At m pc Running l)) as E'
    by (by rewrite list_lookup_fmap, E).
  destruct (wake_readers_counts (threads c)) as (H1 & H2 & H3 & H4 & H5 & H6 & H7 & H8).
  moves E' (At m (pc + 1) Running l : rw_thread). rewrite H1, H2, H3, H4, H5, H6, H7, H8 in *.
  each_place m pc; try done; cbn in *; lia.
Qed.

Lemma rw_tally_step a c c' : rw_inv c -> step rwlock a c c' -> tally (shared c') (threads c').
Proof.
  intros I H. inv H; cbn.
  - by apply rw_tally_call.
  - by eapply tally_return.
  - by apply tally_acquire.
  - by apply tally_again.
  - by apply tally_release.
  - by eapply rw_tally_do.
  - by apply tally_branch.
  - by eapply tally_assert.
  - by eapply rw_tally_wait.
  - by eapply tally_notify_one.
  - by eapply tally_notify_none.
  - by eapply rw_tally_notify_all.
  - apply (tally_wakes _ _ _ (At m pc Waiting l)); [done|right; eauto|apply I].
Qed.

(** What the thread that moves knows at its next place. *)
Lemma rw_knows_next c t m pc l m' pc' l' s :
  rw_inv c -> threads c !! t = Some (At m pc Running l) ->
  (match code rwlock m !! pc with
   | Some (Do f) => m' = m /\ pc' = (pc + 1)%nat /\ f (shared c) l = (s, l')
   | Some (Branch b target) =>
       m' = m /\ pc' = (if b (shared c) l then target else pc + 1)%nat /\ s = shared c
   | Some _ => m' = m /\ pc' = (pc + 1)%nat /\ s = shared c
   | None => False
   end) -> knows (At m' pc' Running l') s.
Proof.
  intros I E Hc. pose proof (rw_knows_at c t m pc l I E) as Hk. destruct I as [F S K [C X]].
  unfold counted in C. pose proof (few (threads c)) as Hn.
  each_place m pc; try done; cbn in Hc; destruct Hc as (-> & -> & Hs); simplify_eq/=; try done;
    specialize (Hk eq_refl); unfold no_readers, no_writers, no_read_waiters, no_write_waiters;
    bool_cases; cbn in *; try done; lia.
Qed.

Lemma rw_knows_step a c c' : rw_inv c -> step rwlock a c c' -> asserted held knows c'.
Proof.
  intros I H. eapply asserted_step; [apply I|apply I|done| |].
  - inv H; cbn; intros th' Eth Hs;
      (rewrite list_lookup_insert_eq in Eth by
         (rewrite ?length_insert, ?length_fmap; by eapply lookup_lt_Some));
      injection Eth as <-; try done;
      try (eapply rw_knows_next; [exact I|done|]; by simplify_option_eq).
    destruct (proj1 (inv_sound c I) _ _ _ _ _ H0 ltac:(done)) as [v Hm].
    each_place m pc; done.
  - inv H; try (by right). left. eapply owned_holder; [apply I|done|]. each_place m pc; done.
Qed.

Lemma rw_inv_step a c c' : rw_inv c -> act rwlock a c = Some c' -> rw_inv c'.
Proof.
  intros I H%act_step. split.
  - rewrite (length_step _ _ _ _ H). apply I.
  - eapply sound_step; [apply rwlock_balanced|apply I|done].
  - by eapply rw_knows_step.
  - by eapply rw_tally_step.
Qed.

Lemma rw_inv_init n : Z.of_nat n < 2 ^ 32 -> rw_inv (rw_init n).
Proof.
  intros Hn. split; cbn.
  - by rewrite length_replicate.
  - apply sound_init.
  - intros t th E _. cbn in E. by apply lookup_replicate in E as [-> _].
  - assert (forall f : rw_thread -> nat, f (Idle Free) = 0%nat -> total f (replicate n (Idle Free)) = 0%nat) as Hz.
    { intros f Hf. apply total_zero. intros t x [-> _]%lookup_replicate. done. }
    unfold tally, counted, exclusive, awake. rewrite !Hz by done. cbn. lia.
Qed.

Lemma rw_reachable n ts c :
  Z.of_nat n < 2 ^ 32 -> run rwlock ts (rw_init n) = Some c ->
  rw_inv c /\ length (threads c) = n.
Proof.
  intros Hn H. apply (run_keeps rwlock (fun c => rw_inv c /\ length (threads c) = n) ts (rw_init n) c);
    [|split; [by apply rw_inv_init|apply length_replicate]|done].
  intros a d d' [I L] Ha. split; [by eapply rw_inv_step|].
  rewrite <- L. by apply (length_step rwlock a), act_step.
Qed.

(** ** Mutual exclusion *)

(** C27: However [n] threads that lock and unlock interleave, a writer is alone:
    while a thread is between WriteLock and WriteUnlock no other thread is
    between a lock and its unlock; and no assertion of the class fails. *)
Theorem ReadWriteLock_safe n ts c :
  Z.of_nat n < 2 ^ 32 -> run rwlock ts (rw_init n) = Some c ->
  (forall t u l, threads c !! t = Some (Idle Writing) -> threads c !! u = Some (Idle l) ->
     l <> Free -> t = u) /\
  (forall t m pc l b, threads c !! t = Some (At m pc Running l) ->
     code rwlock m !! pc = Some (Assert b) -> b (shared c) l = true).
Proof.
  intros Hn H. destruct (rw_reachable n ts c Hn H) as [I _]. split.
  - intros t u l Et Eu Hl. destruct (decide (t = u)) as [|Ne]; [done|]. exfalso.
    destruct (inv_tally c I) as (_ & [X1 X2] & _).
    pose proof (total_insert writes _ _ _ (Idle Free) Et) as Hw.
    pose proof (total_insert reads _ _ _ (Idle Free) Et) as Hr.
    assert (<[t := Idle Free]> (threads c) !! u = Some (Idle l)) as Eu' by (by rewrite list_lookup_insert_ne).
    pose proof (total_lookup writes _ _ _ Eu'). pose proof (total_lookup reads _ _ _ Eu').
    destruct l; cbn in *; try done; lia.
  - intros t m pc l b E Hm. destruct I as [F S K [C X]]. specialize (K t _ E).
    unfold counted in C. pose proof (total_lookup writes _ _ _ E) as Hw. destruct X as [[X _] _].
    each_place m pc; try done; simplify_eq/=; try (specialize (K eq_refl)); apply Z.leb_le || apply Z.eqb_eq; lia.
Qed.

Lemma ReadWriteLock_safe_witness :
  run rwlock (Call 0 WriteLock :: goes 0 6 ++ Call 1 ReadLock :: goes 1 4) (rw_init 2) <> None /\
  forall c, run rwlock (Call 0 WriteLock :: goes 0 6 ++ Call 1 ReadLock :: goes 1 4) (rw_init 2) = Some c ->
    forall t u l, threads c !! t = Some (Idle Writing) -> threads c !! u = Some (Idle l) ->
      l <> Free -> t = u.
Proof.
  split; [by vm_compute|]. intros c H. exact (proj1 (ReadWriteLock_safe 2 _ c ltac:(lia) H)).
Defined.

(** ** Every lock is granted *)

(** The steps of a thread that asks for no new lock. *)
Definition leaving (a : action method) : bool :=
  match a with
  | Go _ _ | Call _ ReadUnlock | Call _ WriteUnlock => true
  | _ => false
  end.

(** The steps a thread has left until it holds nothing, with three more for
    each thread it can still wake; [n] threads. *)
Definition steps_left (n : nat) (th : rw_thread) : nat :=
  let C := (3 * n + 3)%nat in
  match th with
  | Idle Free => 0
  | Idle Reading => 8 + C
  | Idle Writing => 9 + C
  | At ReadUnlock pc _ _ =>
      match pc with 0 => 7 + C | 1 => 6 + C | 2 => 5 + C | 3 => 4 + C | 4 => 3 + C | 5 => 2 | _ => 1 end
  | At WriteUnlock pc _ _ =>
      match pc with
      | 0 => 8 + C | 1 => 7 + C | 2 => 6 + C | 3 => 5 + C | 4 => 4 + C | 5 => 3 | 6 => 4 + C
      | 7 => 3 + C | 8 => 2 | _ => 1 end
  | At ReadLock pc st _ =>
      match pc, st with
      | 0, _ => 16 + C | 1, _ => 15 + C | 2, _ => 14 + C
      | 3, Running => 13 + C | 3, Waiting => 12 + C | 3, Woken => 15 + C
      | 4, _ => 14 + C | 5, _ => 12 + C | 6, _ => 11 + C | 7, _ => 10 + C | _, _ => 9 + C end
  | At WriteLock pc st _ =>
      match pc, st with
      | 0, _ => 18 + C | 1, _ => 17 + C | 2, _ => 16 + C
      | 3, Running => 15 + C | 3, Waiting => 14 + C | 3, Woken => 17 + C
      | 4, _ => 16 + C | 5, _ => 14 + C | 6, _ => 13 + C | 7, _ => 12 + C | 8, _ => 11 + C
      | _, _ => 10 + C end
  end%nat.

Definition all_left (c : rw_config) : nat := total (steps_left (length (threads c))) (threads c).

Lemma fewer n (l : list rw_thread) t th th' :
  l !! t = Some th -> (steps_left n th' < steps_left n th)%nat ->
  (total (steps_left n) (<[t := th']> l) < total (steps_left n) l)%nat.
Proof. intros E H. pose proof (total_insert (steps_left n) _ _ _ th' E). lia. Qed.

Lemma rw_woken_left n v (th : rw_thread) :
  (steps_left n (if waits_on rwlock v th then wake th else th) <= steps_left n th + 3)%nat.
Proof.
  destruct (waits_on rwlock v th) eqn:E; [|lia].
  apply waits_on_waiting in E as (m & pc & l' & -> & Hm). each_place m pc; try done; cbn; lia.
Qed.

Lemma leaving_step a c c' :
  rw_inv c -> leaving a = true -> act rwlock a c = Some c' -> (all_left c' < all_left c)%nat.
Proof.
  intros I La H%act_step. unfold all_left. rewrite (length_step _ _ _ _ H).
  set (n := length (threads c)). pose proof (inv_sound c I) as [R _].
  inv H; try done; cbn [put threads].
  - eapply fewer; [done|]. destruct m; try done; destruct l; cbn; try done; lia.
  - eapply fewer; [done|]. each_place m pc; try done; cbn; lia.
  - eapply fewer; [done|]. each_place m pc; try done; cbn; lia.
  - eapply fewer; [done|]. destruct (R _ _ _ _ _ H0 ltac:(done)) as [v Hm].
    each_place m pc; try done; cbn; lia.
  - eapply fewer; [done|]. each_place m pc; try done; cbn; lia.
  - eapply fewer; [done|]. each_place m pc; try done; cbn; lia.
  - eapply fewer; [done|]. each_place m pc; try done; simplify_eq/=;
      match goal with |- context [if ?b then _ else _] => destruct b | |- _ => idtac end; cbn; lia.
  - eapply fewer; [done|]. each_place m pc; try done; cbn; lia.
  - eapply fewer; [done|]. each_place m pc; try done; cbn; lia.
  - apply waits_on_waiting in H3 as (m' & pc' & l' & -> & Hv). cbn [wake].
    assert (<[w := At m' pc' Woken l']> (threads c) !! t = Some (At m pc Running l)) as E'
      by (rewrite list_lookup_insert_ne; [done|congruence]).
    pose proof (total_insert (steps_left n) _ _ _ (At m' pc' Woken l') H2).
    pose proof (total_insert (steps_left n) _ _ _ (At m (pc + 1) Running l) E').
    each_place m pc; try done; (each_place m' pc'; try done; cbn in *; lia).
  - eapply fewer; [done|]. each_place m pc; try done; cbn; lia.
  - pose proof (total_fmap_le (steps_left n) _ 3 (threads c) (rw_woken_left n v)) as Hg. fold n in Hg.
    assert (((fun th => if waits_on rwlock v th then wake th else th) <$> threads c) !! t
      = Some (At m pc Running l)) as E' by (by rewrite list_lookup_fmap, H0).
    pose proof (total_insert (steps_left n) _ _ _ (At m (pc + 1) Running l) E').
    each_place m pc; try done; cbn in *; lia.
Qed.

(** Threads that can do nothing but wait for one another. *)
Lemma nobody_is_asleep c :
  rw_inv c -> (forall a, leaving a = true -> act rwlock a c = None) ->
  forall t th, threads c !! t = Some th -> th = Idle Free.
Proof.
  intros I Hstuck.
  assert (forall t th, threads c !! t = Some th ->
    th = Idle Free \/ exists l, th = At ReadLock 3 Waiting l \/ th = At WriteLock 3 Waiting l) as Hall.
  { intros t [[]|m pc st l] E; [by left|..].
    - specialize (Hstuck (Call t ReadUnlock) eq_refl). cbn in Hstuck. by rewrite E in Hstuck.
    - specialize (Hstuck (Call t WriteUnlock) eq_refl). cbn in Hstuck. by rewrite E in Hstuck.
    - right. exists l. assert (st = Waiting) as ->.
      { destruct (decide (st = Waiting)) as [|Ne]; [done|exfalso].
        destruct (progress rwlock held rwlock_balanced c t m pc st l (inv_sound c I) E Ne) as (u & w & c' & Ha).
        by rewrite Hstuck in Ha. }
      destruct (proj1 (inv_sound c I) _ _ _ _ _ E ltac:(done)) as [v Hm].
      each_place m pc; try done; auto. }
  destruct (inv_tally c I) as (_ & _ & W1 & W2).
  assert (total helps_write (threads c) = 0%nat) as Z1.
  { apply total_zero. intros t th E. by destruct (Hall _ _ E) as [->|[l [->| ->]]]. }
  assert (forall t l, threads c !! t <> Some (At WriteLock 3 Waiting l)) as N1.
  { intros t l E. pose proof (total_lookup sleeps_write _ _ _ E). cbn in *. lia. }
  assert (total helps_read (threads c) = 0%nat) as Z2.
  { apply total_zero. intros t th E. destruct (Hall _ _ E) as [->|[l [->| ->]]]; [done..|].
    by apply N1 in E. }
  intros t th E. destruct (Hall _ _ E) as [->|[l [->| ->]]]; [done| |by apply N1 in E].
  pose proof (total_lookup sleeps_read _ _ _ E). cbn in *. lia.
Qed.

(** C28: No lock is forgotten: once no thread asks for a new one, [n] threads
    that hold [n] locks at most make at most [3 n^2 + 21 n] further steps, and
    when none of them can move any more all locks have been granted and given
    back. *)
Theorem ReadWriteLock_live n ts c :
  Z.of_nat n < 2 ^ 32 -> run rwlock ts (rw_init n) = Some c ->
  (forall us c', forallb leaving us = true -> run rwlock us c = Some c' ->
     (length us <= n * (3 * n + 21))%nat) /\
  ((forall a, leaving a = true -> act rwlock a c = None) ->
   forall t th, threads c !! t = Some th -> th = Idle Free).
Proof.
  intros Hn H. destruct (rw_reachable n ts c Hn H) as [I L]. split.
  - intros us c' Hus Hr.
    pose proof (run_bounded rwlock rw_inv leaving all_left us c c' rw_inv_step leaving_step I Hus Hr) as Hb.
    enough (all_left c <= n * (3 * n + 21))%nat by lia. unfold all_left. rewrite L.
    rewrite <- L at 2. rewrite Nat.mul_comm. apply total_bound. intros [[]|m pc st l]; [cbn; lia..|].
    each_place m pc; destruct st; cbn; lia.
  - by apply nobody_is_asleep.
Qed.

Lemma ReadWriteLock_live_witness :
  run rwlock (Call 0 WriteLock :: goes 0 6 ++ Call 1 ReadLock :: goes 1 4) (rw_init 2) <> None /\
  forall c us c',
    run rwlock (Call 0 WriteLock :: goes 0 6 ++ Call 1 ReadLock :: goes 1 4) (rw_init 2) = Some c ->
    forallb leaving us = true -> run rwlock us c = Some c' -> (length us <= 54)%nat.
Proof.
  split; [by vm_compute|]. intros c us c' H.
  exact (proj1 (ReadWriteLock_live 2 _ c ltac:(lia) H) us c').
Defined.
