(* ===== verification/MessageQueue.v ===== *)
(** * Queues of messages (src/base3/messagequeue.h)

    [MessageQueue] as a program of [Monitor]: threads post, one or several
    workers process, anyone closes.  Running a message is the user's code: it is
    recorded in a log, like the posting and the taking of a message
    ([posted_], [taken_], [ran_] are not in the class).  A worker's increment of
    [processed_] is unguarded: a read and a write. *)

From S2P Require Import Prelude Monitor.

Section MessageQueue.
Context {Message : Type}.

Record MessageQueue := mkMessageQueue {
  message_queue_ : list Message; queue_size_ : Z; busy_ : Z; quit_ : bool; processed_ : Z;
  posted_ : list Message; taken_ : list Message; ran_ : list Message }.

(** [boost::condition queue_not_empty_]. *)
Inductive condition := queue_not_empty_.
#[export] Instance mq_condition_eq_decision : EqDecision condition.
Proof. solve_decision. Defined.

Inductive method :=
| Post (m : Message)
| PostRange (ms : list Message)    (* [Post(beg, end)] *)
| Close
| Process.

(** Variables of a running method: [p], the rest of a range and its [c], a
    register; and whether the thread is one that processes. *)
Record locals := mkLocals {
  worker : bool; loc_p : option Message; loc_rest : list Message; loc_c : Z; loc_n : Z }.

Definition set_rest (r : list Message) (c : Z) (l : locals) : locals :=
  mkLocals (worker l) (loc_p l) r c (loc_n l).
Definition set_p (p : option Message) (l : locals) : locals :=
  mkLocals (worker l) p (loc_rest l) (loc_c l) (loc_n l).
Definition set_n (n : Z) (l : locals) : locals :=
  mkLocals (worker l) (loc_p l) (loc_rest l) (loc_c l) n.

(** ** The accesses to the object *)

Definition push_back (m : Message) (q : MessageQueue) : MessageQueue :=
  mkMessageQueue (message_queue_ q ++ [m]) (queue_size_ q) (busy_ q) (quit_ q) (processed_ q)
    (posted_ q ++ [m]) (taken_ q) (ran_ q).
Definition set_queue_size (n : Z) (q : MessageQueue) : MessageQueue :=
  mkMessageQueue (message_queue_ q) (u64 n) (busy_ q) (quit_ q) (processed_ q)
    (posted_ q) (taken_ q) (ran_ q).
Definition set_busy (n : Z) (q : MessageQueue) : MessageQueue :=
  mkMessageQueue (message_queue_ q) (queue_size_ q) n (quit_ q) (processed_ q)
    (posted_ q) (taken_ q) (ran_ q).
Definition set_quit (q : MessageQueue) : MessageQueue :=
  mkMessageQueue (message_queue_ q) (queue_size_ q) (busy_ q) true (processed_ q)
    (posted_ q) (taken_ q) (ran_ q).
Definition set_processed (n : Z) (q : MessageQueue) : MessageQueue :=
  mkMessageQueue (message_queue_ q) (queue_size_ q) (busy_ q) (quit_ q) (u64 n)
    (posted_ q) (taken_ q) (ran_ q).
(** [pop_front] of an empty list is undefined; it does not happen
    ([MessageQueue_order]). *)
Definition pop_front (q : MessageQueue) : MessageQueue :=
  mkMessageQueue (tail (message_queue_ q)) (queue_size_ q) (busy_ q) (quit_ q) (processed_ q)
    (posted_ q) (taken_ q ++ take 1 (message_queue_ q)) (ran_ q).
(** [p->Run()] and [delete p]. *)
Definition Run (p : option Message) (q : MessageQueue) : MessageQueue :=
  mkMessageQueue (message_queue_ q) (queue_size_ q) (busy_ q) (quit_ q) (processed_ q)
    (posted_ q) (taken_ q) (ran_ q ++ option_list p).

Definition empty (q : MessageQueue) : bool :=
  match message_queue_ q with [] => true | _ => false end.

(** ** The methods *)

Abbreviation mq_instr := (instr MessageQueue locals condition).

Definition Post_code (m : Message) : list mq_instr := [
  (* 0 *) Acquire;
  (* 1 *) Do (fun q l => (push_back m q, l));
  (* 2 *) Do (fun q l => (set_queue_size (queue_size_ q + 1) q, l));
  (* 3 *) Release;
  (* 4 *) NotifyAll queue_not_empty_ ].

Definition PostRange_code (ms : list Message) : list mq_instr := [
  (* 0 *) Do (fun q l => (q, set_rest ms 0 l));
  (* 1 *) Acquire;
  (* 2 *) Branch (fun _ l => match loc_rest l with [] => true | _ => false end) 7;
  (* 3 *) Do (fun q l => (q, set_rest (loc_rest l) (loc_c l + 1) l));
  (* 4 *) Do (fun q l => match loc_rest l with
                         | m :: ms => (push_back m q, set_rest ms (loc_c l) l)
                         | [] => (q, l) end);
  (* 5 *) Do (fun q l => (set_queue_size (queue_size_ q + 1) q, l));
  (* 6 *) Branch (fun _ _ => true) 2;
  (* 7 *) Release;
  (* 8 *) NotifyAll queue_not_empty_ ].

Definition Close_code : list mq_instr := [
  (* 0 *) Do (fun q l => (set_quit q, l));
  (* 1 *) NotifyAll queue_not_empty_ ].

(** Where it starts inside [Process]: at 5. *)
Definition ProcessAll_code : list mq_instr := [
  (* 5 *) Acquire;
  (* 6 *) Do (fun q l => (set_busy (queue_size_ q) q, l));
  (* 7 *) Branch (fun q _ => empty q) 17;
  (* 8 *) Do (fun q l => (q, set_p (head (message_queue_ q)) l));
  (* 9 *) Do (fun q l => (pop_front q, l));
  (* 10 *) Do (fun q l => (set_queue_size (queue_size_ q - 1) q, l));
  (* 11 *) Release;
  (* 12 *) Do (fun q l => (Run (loc_p l) q, l));
  (* 13 *) Do (fun q l => (q, set_n (processed_ q) l));
  (* 14 *) Do (fun q l => (set_processed (loc_n l + 1) q, l));
  (* 15 *) Acquire;
  (* 16 *) Branch (fun _ _ => true) 7;
  (* 17 *) Do (fun q l => (set_busy (queue_size_ q) q, l));
  (* 18 *) Release ].

Definition Process_code : list mq_instr := [
  (* 0 *) Branch (fun q _ => quit_ q) 20;
  (* 1 *) Acquire;
  (* 2 *) Branch (fun q _ => negb (empty q)) 4;
  (* 3 *) WaitOn queue_not_empty_;
  (* 4 *) Release ] ++ ProcessAll_code ++ [
  (* 19 *) Branch (fun _ _ => true) 0 ].

Definition messagequeue : program MessageQueue method locals condition := {|
  code m := match m with
    | Post m => Post_code m | PostRange ms => PostRange_code ms
    | Close => Close_code | Process => Process_code end;
  may_call l m := match m with Process => worker l | _ => negb (worker l) end;
  on_return _ l := l |}.

Definition mq_config := config MessageQueue method locals.

Definition mq_new : MessageQueue := mkMessageQueue [] 0 0 false 0 [] [] [].
Definition idle_thread (w : bool) : thread method locals := Idle (mkLocals w None [] 0 0).

(** The constructor, with [k] threads that process and [n] others. *)
Definition mq_init (k n : nat) : mq_config :=
  Config mq_new None (replicate k (idle_thread true) ++ replicate n (idle_thread false)).
End MessageQueue.
Arguments MessageQueue : clear implicits.
Arguments method : clear implicits.
Arguments locals : clear implicits.
Arguments mq_config : clear implicits.

(** ** Examples *)

Definition steps_of {M} (t n : nat) : list (action M) := replicate n (Go t 0).

(** Thread 0 processes; thread 1 posts 7 and 8, then closes. *)
Definition a_session : list (action (method nat)) :=
  Call 0 Process :: steps_of 0 4 ++ Call 1 (PostRange [7%nat; 8%nat]) :: steps_of 1 16 ++
  steps_of 0 32.

Example a_session_runs :
  (fun c => (ran_ (shared c), queue_size_ (shared c), processed_ (shared c)))
    <$> run messagequeue a_session (mq_init 1 1) = Some ([7%nat; 8%nat], 0, 2).
Proof. vm_compute. reflexivity. Qed.

(** [Close] between the test of [quit_] and the wait: its notification is lost
    and the worker sleeps for ever. *)
Definition a_lost_close : list (action (method nat)) :=
  Call 0 Process :: steps_of 0 1 ++ Call 1 Close :: steps_of 1 3 ++ steps_of 0 3.

Example Close_lost_wakeup :
  match run messagequeue a_lost_close (mq_init 1 1) with
  | Some c => quit_ (shared c) = true /\
      threads c = [At Process 3 Waiting (mkLocals true None [] 0 0); idle_thread false] /\
      forall t w, act messagequeue (Go t w) c = None
  | None => False
  end.
Proof.
  destruct (run messagequeue a_lost_close (mq_init 1 1)) as [c|] eqn:E; [|by vm_compute in E].
  vm_compute in E. injection E as <-. split; [done|]. split; [done|]. by intros [|[|t]] w.
Qed.

(** ** What the places of the threads tell *)

Section Invariant.
Context {Message : Type}.
Abbreviation MessageQueue := (MessageQueue Message).
Abbreviation mq_thread := (thread (method Message) (locals Message)).
Abbreviation mq_config := (mq_config Message).

Definition one_if (b : bool) : nat := if b then 1%nat else 0%nat.

(** Has a message in the list that [queue_size_] does not count, or the reverse. *)
Definition pushing (th : mq_thread) : nat :=
  match th with
  | At (Post _) pc _ _ => one_if (pc =? 2)%nat
  | At (PostRange _) pc _ _ => one_if (pc =? 5)%nat
  | _ => 0
  end.
Definition popping (th : mq_thread) : nat :=
  match th with At Process pc _ _ => one_if (pc =? 10)%nat | _ => 0 end.

(** Has taken a message and not run it yet. *)
Definition in_flight (th : mq_thread) : list Message :=
  match th with
  | At Process pc _ l => if ((10 <=? pc) && (pc <=? 12))%nat then option_list (loc_p l) else []
  | _ => []
  end.

Definition asleep (th : mq_thread) : nat :=
  match th with At Process 3 Waiting _ => 1 | _ => 0 end.
(** Has yet to notify. *)
Definition posting (th : mq_thread) : nat :=
  match th with
  | At (Post _) pc _ _ => one_if ((2 <=? pc) && (pc <=? 4))%nat
  | At (PostRange _) pc _ _ => one_if ((2 <=? pc) && (pc <=? 8))%nat
  | _ => 0
  end.
Definition works (th : mq_thread) : nat :=
  match th with Idle l | At _ _ _ l => one_if (worker l) end.

Definition held (m : method Message) (pc : nat) : bool :=
  match m with
  | Post _ => (1 <=? pc) && (pc <=? 3)
  | PostRange _ => (2 <=? pc) && (pc <=? 7)
  | Close => false
  | Process => ((2 <=? pc) && (pc <=? 4)) || ((6 <=? pc) && (pc <=? 11)) || ((16 <=? pc) && (pc <=? 18))
  end%nat.

Definition knows (th : mq_thread) (q : MessageQueue) : Prop :=
  match th with
  | At (PostRange _) (3 | 4) _ l => loc_rest l <> []
  | At Process 3 _ _ => message_queue_ q = []
  | At Process 8 _ _ => message_queue_ q <> []
  | At Process 9 _ l => message_queue_ q <> [] /\ loc_p l = head (message_queue_ q)
  | _ => True
  end.

Lemma messagequeue_balanced : balanced (messagequeue (Message := Message)) held.
Proof.
  intros m. split; [by destruct m|]. intros pc.
  destruct m; do 21 (destruct pc as [|pc]; [cbn; auto|]); done.
Qed.

Record tally (q : MessageQueue) (l : list mq_thread) : Prop := {
  t_order : posted_ q = taken_ q ++ message_queue_ q;
  t_ran : ran_ q ++ gather in_flight l ≡ₚ taken_ q;
  t_fifo : (total works l <= 1)%nat -> ran_ q ++ gather in_flight l = taken_ q;
  t_size : queue_size_ q
    = u64 (Z.of_nat (length (message_queue_ q)) - Z.of_nat (total pushing l) + Z.of_nat (total popping l));
  t_awake : (0 < total asleep l)%nat -> message_queue_ q = [] \/ (0 < total posting l)%nat }.

Record mq_inv (c : mq_config) : Prop := {
  inv_sound : sound messagequeue held c;
  inv_workers : forall t pc st l, threads c !! t = Some (At Process pc st l) -> worker l = true;
  inv_knows : asserted held knows c;
  inv_tally : tally (shared c) (threads c) }.

(** A move that matters to nobody. *)
Definition alike (th th' : mq_thread) : Prop :=
  in_flight th' = in_flight th /\ pushing th' = pushing th /\ popping th' = popping th /\
  (asleep th' <= asleep th)%nat /\ (posting th <= posting th')%nat /\ works th' = works th.

Definition same_queue (q q' : MessageQueue) : Prop :=
  message_queue_ q' = message_queue_ q /\ queue_size_ q' = queue_size_ q /\
  posted_ q' = posted_ q /\ taken_ q' = taken_ q /\ ran_ q' = ran_ q.

Lemma mq_tally_alike q q' l t th th' :
  tally q l -> l !! t = Some th -> alike th th' -> same_queue q q' -> tally q' (<[t := th']> l).
Proof.
  intros [T1 T2 T3 T4 T5] E (A1 & A2 & A3 & A4 & A5 & A6) (S1 & S2 & S3 & S4 & S5).
  pose proof (total_insert pushing _ _ _ th' E). pose proof (total_insert popping _ _ _ th' E).
  pose proof (total_insert asleep _ _ _ th' E). pose proof (total_insert posting _ _ _ th' E).
  pose proof (total_insert works _ _ _ th' E).
  split; rewrite ?S1, ?S2, ?S3, ?S4, ?S5, ?(gather_same in_flight _ _ _ _ E A1); [done..| | |].
  - intros Hw. apply T3. lia.
  - rewrite T4. f_equal. lia.
  - intros Ha. destruct T5 as [|]; [lia|by left|right; lia].
Qed.

(** A lone worker is the only thread with a message in flight. *)
Lemma lone_worker (l : list mq_thread) t m pc st lo th' :
  (forall t pc st lo, l !! t = Some (At Process pc st lo) -> worker lo = true) ->
  l !! t = Some (At m pc st lo) -> worker lo = true -> (total works l <= 1)%nat ->
  gather in_flight (<[t := th']> l) = in_flight th'.
Proof.
  intros Hw E Hl Ht. apply (gather_single _ _ t); [apply list_lookup_insert_eq; by eapply lookup_lt_Some|].
  intros u z Eu Ne. rewrite list_lookup_insert_ne in Eu by done.
  destruct z as [l'|[] pc' st' l']; try done. exfalso. pose proof (Hw _ _ _ _ Eu) as Hz.
  pose proof (total_insert works _ _ _ (At Close 0 Running (mkLocals false None [] 0 0)) E).
  assert (<[t := At Close 0 Running (mkLocals false None [] 0 0)]> l !! u = Some (At Process pc' st' l')) as Eu'
    by by rewrite list_lookup_insert_ne.
  pose proof (total_lookup works _ _ _ Eu'). cbn in *. rewrite Hz, Hl in *. cbn in *. lia.
Qed.

(** The places of a method, one by one. *)
Ltac each_pc pc :=
  destruct pc as [|[|[|[|[|[|[|[|[|[|[|[|[|[|[|[|[|[|[|[|pc]]]]]]]]]]]]]]]]]]]].
Ltac each_place m pc := destruct m; each_pc pc.

Lemma alike_call (l : locals Message) m : alike (Idle l) (At m 0 Running l).
Proof. unfold alike. destruct m; cbn; repeat split; lia. Qed.

Lemma mq_knows_at c t m pc l :
  mq_inv c -> threads c !! t = Some (At m pc Running l) -> held m pc = true ->
  knows (At m pc Running l) (shared c).
Proof. intros I E H. by apply (inv_knows c I t). Qed.

(** Instructions that only move the thread. *)
Lemma alike_next (m : method Message) pc l :
  match code messagequeue m !! pc with
  | Some Acquire | Some Release | Some (Assert _) | Some (NotifyOne _) =>
      alike (At m pc Running l) (At m (pc + 1) Running l)
  | Some (Branch b target) => forall q : MessageQueue,
      alike (At m pc Running l) (At m (if b q l then target else pc + 1) Running l)
  | None => alike (At m pc Running l) (Idle l)
  | Some (WaitOn _) => alike (At m pc Woken l) (At m (pc + 1) Running l)
  | _ => True
  end.
Proof.
  each_place m pc; try exact I; unfold alike; cbn; intros;
    try destruct (quit_ _); try destruct (empty _); try destruct (loc_rest _);
    repeat split; cbn; (done || lia).
Qed.

(** The ways the tally changes. *)
Lemma mq_tally_push (q : MessageQueue) l t th th' m :
  tally q l -> l !! t = Some th -> in_flight th = [] -> in_flight th' = [] ->
  pushing th = 0%nat -> pushing th' = 1%nat -> popping th = 0%nat -> popping th' = 0%nat ->
  asleep th' = 0%nat -> posting th' = 1%nat -> works th' = works th ->
  tally (push_back m q) (<[t := th']> l).
Proof.
  intros [T1 T2 T3 T4 T5] E F F' P P' O O' A S W.
  pose proof (total_insert pushing _ _ _ th' E). pose proof (total_insert popping _ _ _ th' E).
  pose proof (total_insert posting _ _ _ th' E). pose proof (total_insert works _ _ _ th' E).
  split; cbn; rewrite ?(gather_same in_flight _ _ _ th' E) by congruence.
  - by rewrite T1, app_assoc.
  - done.
  - intros Hw. apply T3. lia.
  - rewrite T4. f_equal. len.
  - right. pose proof (total_lookup posting _ _ _ E). lia.
Qed.

Lemma mq_tally_size (q : MessageQueue) l t th th' d :
  tally q l -> l !! t = Some th -> in_flight th' = in_flight th ->
  d = Z.of_nat (pushing th) - Z.of_nat (popping th) -> pushing th' = 0%nat -> popping th' = 0%nat ->
  (asleep th' <= asleep th)%nat -> (posting th <= posting th')%nat -> works th' = works th ->
  tally (set_queue_size (queue_size_ q + d) q) (<[t := th']> l).
Proof.
  intros [T1 T2 T3 T4 T5] E F D P O A S W.
  pose proof (total_insert pushing _ _ _ th' E). pose proof (total_insert popping _ _ _ th' E).
  pose proof (total_insert posting _ _ _ th' E). pose proof (total_insert works _ _ _ th' E).
  pose proof (total_insert asleep _ _ _ th' E).
  split; cbn; rewrite ?(gather_same in_flight _ _ _ th' E) by congruence; [done..| | |].
  - intros Hw. apply T3. lia.
  - rewrite T4. unfold wrap. rewrite Zplus_mod_idemp_l. f_equal. lia.
  - intros Ha. destruct T5 as [|]; [lia|by left|right; lia].
Qed.

(** [pop_front]: the message at the front is now in flight. *)
Lemma mq_tally_pop (c : mq_config) t pc l :
  mq_inv c -> threads c !! t = Some (At Process pc Running l) -> pc = 9%nat ->
  tally (pop_front (shared c)) (<[t := At Process (pc + 1) Running l]> (threads c)).
Proof.
  intros I E ->. pose proof (mq_knows_at c t _ _ _ I E eq_refl) as [Kn Kp]. cbn [Nat.add].
  pose proof (inv_workers c I _ _ _ _ E) as Hw.
  pose proof (lone_worker _ _ _ _ _ _ (At Process 10 Running l) (inv_workers c I) E Hw) as L1.
  pose proof (lone_worker _ _ _ _ _ _ (At Process 9 Running l) (inv_workers c I) E Hw) as L0.
  rewrite (list_insert_id _ _ _ E) in L0.
  destruct (inv_tally c I) as [T1 T2 T3 T4 T5]. set (th' := At Process 10 Running l : mq_thread) in *.
  pose proof (total_insert pushing _ _ _ th' E). pose proof (total_insert popping _ _ _ th' E).
  pose proof (total_insert posting _ _ _ th' E). pose proof (total_insert works _ _ _ th' E).
  pose proof (total_insert asleep _ _ _ th' E). pose proof (gather_insert in_flight _ _ _ th' E) as G.
  destruct (message_queue_ (shared c)) as [|m ms] eqn:Eq; [done|]. cbn in Kp. cbn in G, L0, L1.
  rewrite Kp in G, L1. cbn in G, L1. rewrite app_nil_r in G.
  split; cbn; rewrite ?Eq; cbn.
  - rewrite T1, <- app_assoc. done.
  - rewrite G, app_assoc, T2. done.
  - intros Hn. rewrite L1, <- T3, L0 by (cbn in *; lia). by rewrite app_nil_r.
  - rewrite T4. f_equal. cbn in *. lia.
  - intros Ha. right. cbn in *. destruct T5; [lia|done|lia].
Qed.

Lemma mq_tally_run (c : mq_config) t pc l :
  mq_inv c -> threads c !! t = Some (At Process pc Running l) -> pc = 12%nat ->
  tally (Run (loc_p l) (shared c)) (<[t := At Process (pc + 1) Running l]> (threads c)).
Proof.
  intros I E ->. cbn [Nat.add]. pose proof (inv_workers c I _ _ _ _ E) as Hw.
  pose proof (lone_worker _ _ _ _ _ _ (At Process 13 Running l) (inv_workers c I) E Hw) as L1.
  pose proof (lone_worker _ _ _ _ _ _ (At Process 12 Running l) (inv_workers c I) E Hw) as L0.
  rewrite (list_insert_id _ _ _ E) in L0.
  destruct (inv_tally c I) as [T1 T2 T3 T4 T5]. set (th' := At Process 13 Running l : mq_thread) in *.
  pose proof (total_insert pushing _ _ _ th' E). pose proof (total_insert popping _ _ _ th' E).
  pose proof (total_insert posting _ _ _ th' E). pose proof (total_insert works _ _ _ th' E).
  pose proof (total_insert asleep _ _ _ th' E). pose proof (gather_insert in_flight _ _ _ th' E) as G.
  cbn in G, L0, L1. rewrite app_nil_r in G.
  split; cbn.
  - done.
  - rewrite <- T2, <- G. solve_Permutation.
  - intros Hn. rewrite L1, app_nil_r by (cbn in *; lia). rewrite <- T3, L0 by (cbn in *; lia). done.
  - rewrite T4. f_equal. cbn in *. lia.
  - intros Ha. cbn in *. destruct T5; [lia|by left|right; lia].
Qed.

Lemma mq_tally_do (c : mq_config) t m pc l f s l' :
  mq_inv c -> threads c !! t = Some (At m pc Running l) ->
  code messagequeue m !! pc = Some (Do f) -> f (shared c) l = (s, l') ->
  tally s (<[t := At m (pc + 1) Running l']> (threads c)).
Proof.
  intros I E Hm Hf. pose proof (inv_tally c I) as T. pose proof (mq_knows_at c t m pc l I E) as Hk.
  each_place m pc; try done; cbn in Hm, Hk; simplify_eq; try (cbn in Hf; simplify_eq);
    try (by apply (mq_tally_alike (shared c) _ _ _ _ _ T E));
    try (by apply (mq_tally_push _ _ _ _ _ _ T E));
    try (by apply (mq_tally_size _ _ _ _ _ _ T E)).
  - specialize (Hk eq_refl). destruct (loc_rest l) as [|m ms']; [done|]. simplify_eq.
    by apply (mq_tally_push _ _ _ _ _ _ T E).
  - by eapply mq_tally_pop.
  - by eapply mq_tally_run.
Qed.

(** Threads asleep are woken, and nothing else. *)
Definition wake_workers (th : mq_thread) : mq_thread :=
  if waits_on messagequeue queue_not_empty_ th then wake th else th.

Lemma alike_woken th :
  (exists m pc l, th = At m pc Waiting l) -> alike th (wake th).
Proof.
  intros (m & pc & l & ->). unfold alike. cbn [wake].
  destruct m; repeat split; try done; cbn; destruct pc as [|[|[|[|]]]]; cbn; lia.
Qed.

Lemma mq_tally_wait (c : mq_config) t m pc l v :
  mq_inv c -> threads c !! t = Some (At m pc Running l) ->
  code messagequeue m !! pc = Some (WaitOn v) ->
  tally (shared c) (<[t := At m pc Waiting l]> (threads c)).
Proof.
  intros I E Hm. pose proof (mq_knows_at c t m pc l I E) as Hk.
  assert (m = Process /\ pc = 3%nat) as [-> ->] by (each_place m pc; done).
  specialize (Hk eq_refl). cbn in Hk. destruct (inv_tally c I) as [T1 T2 T3 T4 T5].
  set (th' := At Process 3 Waiting l : mq_thread).
  pose proof (total_insert pushing _ _ _ th' E). pose proof (total_insert popping _ _ _ th' E).
  pose proof (total_insert works _ _ _ th' E).
  split; rewrite ?(gather_same in_flight _ _ _ th' E) by done; [done..| | |by left].
  - intros Hw. apply T3. cbn in *. lia.
  - rewrite T4. f_equal. cbn in *. lia.
Qed.

Lemma wake_workers_same (l : list mq_thread) :
  gather in_flight (wake_workers <$> l) = gather in_flight l /\
  total pushing (wake_workers <$> l) = total pushing l /\
  total popping (wake_workers <$> l) = total popping l /\
  total posting (wake_workers <$> l) = total posting l /\
  total works (wake_workers <$> l) = total works l /\
  total asleep (wake_workers <$> l) = 0%nat.
Proof.
  assert (forall th : mq_thread, waits_on messagequeue queue_not_empty_ th = true ->
    exists l, th = At Process 3 Waiting l) as Hw.
  { intros th (m & pc & l' & -> & Hm)%waits_on_waiting. exists l'. each_place m pc; done. }
  repeat match goal with |- _ /\ _ => split end;
    [apply gather_ext|apply total_fmap..|apply total_zero; intros t x Ex];
    [intros th; unfold wake_workers; destruct (waits_on _ _ th) eqn:Et; [|done];
     by apply Hw in Et as [l' ->]..|].
  rewrite list_lookup_fmap in Ex. destruct (l !! t) as [th|]; [|done]. injection Ex as <-.
  unfold wake_workers. destruct (waits_on _ _ th) eqn:Et; [by apply Hw in Et as [l' ->]|].
  destruct th as [l'|[] [|[|[|[|pc]]]] [] l']; done.
Qed.

Lemma mq_tally_notify_all (c : mq_config) t m pc l v :
  mq_inv c -> threads c !! t = Some (At m pc Running l) ->
  code messagequeue m !! pc = Some (NotifyAll v) ->
  tally (shared c) (<[t := At m (pc + 1) Running l]>
    ((fun th => if waits_on messagequeue v th then wake th else th) <$> threads c)).
Proof.
  intros I E Hm. destruct v.
  change (fun th => if waits_on messagequeue queue_not_empty_ th then wake th else th) with wake_workers.
  assert ((wake_workers <$> threads c) !! t = Some (At m pc Running l)) as E'
    by (by rewrite list_lookup_fmap, E).
  destruct (wake_workers_same (threads c)) as (G & P & O & S & W & A).
  destruct (inv_tally c I) as [T1 T2 T3 T4 T5].
  set (th' := At m (pc + 1) Running l : mq_thread).
  pose proof (total_insert pushing _ _ _ th' E'). pose proof (total_insert popping _ _ _ th' E').
  pose proof (total_insert works _ _ _ th' E'). pose proof (total_insert asleep _ _ _ th' E').
  assert (in_flight th' = in_flight (At m pc Running l) /\ pushing th' = pushing (At m pc Running l) /\
    popping th' = popping (At m pc Running l) /\ asleep th' = 0%nat) as (F1 & F2 & F3 & F4)
    by (each_place m pc; done).
  split; rewrite ?(gather_same in_flight _ _ _ th' E' F1), ?G; [done..| | |].
  - intros Hw. apply T3. cbn in *. lia.
  - rewrite T4. f_equal. lia.
  - lia.
Qed.

Lemma mq_tally_step a (c c' : mq_config) :
  mq_inv c -> step messagequeue a c c' -> tally (shared c') (threads c').
Proof.
  intros I H. pose proof (inv_tally c I) as T. inv H; cbn;
    try match goal with E : code messagequeue ?m !! ?pc = _ |- _ =>
      pose proof (alike_next m pc l) as Ha; rewrite E in Ha end.
  - by apply (mq_tally_alike _ _ _ _ _ _ T H0 (alike_call l m)).
  - by apply (mq_tally_alike _ _ _ _ _ _ T H0 Ha).
  - by apply (mq_tally_alike _ _ _ _ _ _ T H0 Ha).
  - destruct (proj1 (inv_sound c I) _ _ _ _ _ H0 ltac:(done)) as [v Hm].
    pose proof (alike_next m pc l) as Ha. rewrite Hm in Ha.
    by apply (mq_tally_alike _ _ _ _ _ _ T H0 Ha).
  - by apply (mq_tally_alike _ _ _ _ _ _ T H0 Ha).
  - by eapply mq_tally_do.
  - by apply (mq_tally_alike _ _ _ _ _ _ T H0 (Ha (shared c))).
  - by apply (mq_tally_alike _ _ _ _ _ _ T H0 Ha).
  - by eapply mq_tally_wait.
  - exfalso. each_place m pc; done.
  - exfalso. each_place m pc; done.
  - by eapply mq_tally_notify_all.
  - apply (mq_tally_alike _ _ _ _ _ _ T H0 (alike_woken (At m pc Waiting l) ltac:(eauto))). done.
Qed.

Lemma workers_step a (c c' : mq_config) :
  mq_inv c -> step messagequeue a c c' ->
  forall u pc st l, threads c' !! u = Some (At Process pc st l) -> worker l = true.
Proof.
  intros I H u pc' st l' E. destruct (decide (u = mover a)) as [->|Ne].
  2: { destruct (step_other_place _ _ _ _ _ _ _ _ _ H Ne E) as (st' & Eu & _). by eapply (inv_workers c I). }
  inv H; cbn in E; (rewrite list_lookup_insert_eq in E by
      (rewrite ?length_insert, ?length_fmap; by eapply lookup_lt_Some));
    injection E; intros; subst; try done; try (by eapply (inv_workers c I)).
  pose proof (inv_workers c I _ _ _ _ H0) as Hw.
  do 20 (destruct pc as [|pc]; [try done; cbn in H1; by simplify_eq/=|]); done.
Qed.

Lemma mq_knows_next (c : mq_config) t m pc l m' pc' l' s :
  mq_inv c -> threads c !! t = Some (At m pc Running l) ->
  (match code messagequeue m !! pc with
   | Some (Do f) => m' = m /\ pc' = (pc + 1)%nat /\ f (shared c) l = (s, l')
   | Some (Branch b target) =>
       m' = m /\ pc' = (if b (shared c) l then target else pc + 1)%nat /\ s = shared c /\ l' = l
   | Some _ => m' = m /\ pc' = (pc + 1)%nat /\ s = shared c /\ l' = l
   | None => False
   end) -> knows (At m' pc' Running l') s.
Proof.
  intros I E Hc. pose proof (mq_knows_at c t m pc l I E) as Hk.
  each_place m pc; try done; cbn in Hc; destruct Hc as (-> & -> & Hs); cbn in Hk;
    try (specialize (Hk eq_refl)); simplify_eq/=; try done; unfold empty;
    try (destruct Hs as [-> ->]);
    try (destruct (message_queue_ (shared c)) eqn:Eq; cbn; rewrite ?Eq; done);
    try (destruct (loc_rest l); done); by destruct (quit_ (shared c)).
Qed.

Lemma works_step a (c c' : mq_config) :
  step messagequeue a c c' -> total works (threads c') = total works (threads c).
Proof.
  assert (forall l t th th', l !! t = Some th -> works th' = works th ->
    total works (<[t := th']> l) = total works l) as Hk.
  { intros l t th th' E Hw. pose proof (total_insert works _ _ _ th' E). lia. }
  intros H. inv H; cbn; try (by eapply Hk).
  - eapply Hk; [done|]. each_place m pc; try done; simplify_eq/=; try done.
    destruct (loc_rest l); by simplify_eq.
  - exfalso. each_place m pc; done.
  - destruct v.
    destruct (wake_workers_same (threads c)) as (_ & _ & _ & _ & Hw & _). rewrite <- Hw. apply (Hk _ _ (At m pc Running l)); [|done].
    by rewrite list_lookup_fmap, H0.
Qed.

Lemma knows_queue th (q q' : MessageQueue) :
  message_queue_ q' = message_queue_ q -> knows th q -> knows th q'.
Proof.
  intros Eq. destruct th as [l|m pc st l]; [done|]. each_place m pc; try done; cbn; by rewrite Eq.
Qed.

Lemma mq_knows_step a (c c' : mq_config) :
  mq_inv c -> step messagequeue a c c' -> asserted held knows c'.
Proof.
  intros I H. eapply asserted_step; [apply I|apply I|done| |].
  - inv H; cbn; intros th' Eth Hs;
      (rewrite list_lookup_insert_eq in Eth by
         (rewrite ?length_insert, ?length_fmap; by eapply lookup_lt_Some));
      injection Eth as <-; try done;
      try (eapply mq_knows_next; [exact I|done|]; by simplify_option_eq);
      try (by destruct m); try (each_place m pc; done).
    destruct (proj1 (inv_sound c I) _ _ _ _ _ H0 ltac:(done)) as [v Hm].
    each_place m pc; done.
  - inv H; try (by right). destruct (held m pc) eqn:Hh; [left; by eapply owned_holder; [apply I|done|]|].
    right. intros th. apply knows_queue. each_place m pc; try done; cbn in *; by simplify_eq/=.
Qed.

Lemma mq_inv_step a (c c' : mq_config) : mq_inv c -> act messagequeue a c = Some c' -> mq_inv c'.
Proof.
  intros I H%act_step. split.
  - eapply sound_step; [apply messagequeue_balanced|apply I|done].
  - by eapply workers_step.
  - by eapply mq_knows_step.
  - by eapply mq_tally_step.
Qed.

Lemma mq_init_idle k n t th : threads (mq_init k n) !! t = Some th -> exists w, th = @idle_thread Message w.
Proof.
  cbn. intros [[-> _]%lookup_replicate|[_ [-> _]%lookup_replicate]]%lookup_app_Some; eauto.
Qed.

Lemma mq_inv_init k n : mq_inv (mq_init k n).
Proof.
  pose proof (mq_init_idle k n) as Hi.
  assert (forall f : mq_thread -> nat, (forall w, f (idle_thread w) = 0%nat) ->
    total f (threads (mq_init k n)) = 0%nat) as Hz.
  { intros f Hf. apply total_zero. intros t x [w ->]%Hi. apply Hf. }
  assert (gather in_flight (threads (mq_init k n)) = []) as Hg.
  { assert (forall l, (forall t th, l !! t = Some th -> in_flight th = []) -> gather in_flight l = []) as Hl.
    { intros l. unfold gather. induction l as [|z l IH]; intros H; [done|]. cbn.
      rewrite (H 0%nat z eq_refl), IH; [done|]. intros t th E. by apply (H (S t)). }
    apply Hl. by intros t th [w ->]%Hi. }
  split.
  - split.
    + intros t m pc st l [w E]%Hi. done.
    + intros t. split; [done|]. rewrite list_lookup_fmap.
      destruct (threads (mq_init k n) !! t) as [th|] eqn:E; [|done]. by apply Hi in E as [w ->].
  - by intros t pc st l [w E]%Hi.
  - by intros t th [w ->]%Hi.
  - split; rewrite ?Hg, ?Hz by done; try done. lia.
Qed.

Lemma mq_reachable k n ts (c : mq_config) :
  run messagequeue ts (mq_init k n) = Some c ->
  mq_inv c /\ (total works (threads c) = k)%nat /\ length (threads c) = (k + n)%nat.
Proof.
  intros H.
  apply (run_keeps messagequeue (fun c => mq_inv c /\ (total works (threads c) = k)%nat /\
    length (threads c) = (k + n)%nat) ts (mq_init k n) c); [| |done].
  - intros a d d' (I & W & L) Ha. split; [by eapply mq_inv_step|]. apply act_step in Ha. split.
    + rewrite <- W. by eapply works_step.
    + rewrite <- L. by eapply length_step.
  - split; [apply mq_inv_init|]. cbn. split; [|by rewrite length_app, !length_replicate].
    assert (forall j w, total works (replicate j (@idle_thread Message w)) = (j * one_if w)%nat) as Hr.
    { intros j w. induction j as [|j IH]; cbn; [done|]. by rewrite IH. }
    assert (forall l1 l2, total works (l1 ++ l2) = (total works l1 + total works l2)%nat) as Ha.
    { intros l1 l2. induction l1 as [|z l1 IH]; cbn; [done|]. rewrite IH. lia. }
    rewrite Ha, !Hr. cbn. lia.
Qed.

(** ** Order *)

(** C29: However [k] workers, posting threads and [Close] interleave: messages
    are taken in the order of their posting, each is run once, or is on its way
    to be run by the worker that took it; a lone worker also runs them in that
    order; [queue_size_] is the number of messages whenever nobody holds the
    mutex; and [pop_front] never meets an empty list. *)
Theorem MessageQueue_order k n ts (c : mq_config) :
  run messagequeue ts (mq_init k n) = Some c ->
  let q := shared c in
  posted_ q = taken_ q ++ message_queue_ q /\
  ran_ q ++ gather in_flight (threads c) ≡ₚ taken_ q /\
  ((k <= 1)%nat -> ran_ q ++ gather in_flight (threads c) = taken_ q) /\
  (owner c = None -> queue_size_ q = u64 (Z.of_nat (length (message_queue_ q)))) /\
  (forall t l, threads c !! t = Some (At Process 9 Running l) -> message_queue_ q <> []).
Proof.
  intros H q. destruct (mq_reachable k n ts c H) as (I & W & _).
  destruct (inv_tally c I) as [T1 T2 T3 T4 T5]. split; [done|]. split; [done|].
  split; [intros Hk; apply T3; lia|]. split.
  - intros Ho. unfold q. rewrite T4. f_equal.
    assert (forall t th, threads c !! t = Some th -> in_section held th = false) as Hn.
    { intros t th E. destruct (in_section held th) eqn:Es; [|done].
      pose proof (owned_holder held c t th (proj2 (inv_sound c I)) E Es). congruence. }
    rewrite !total_zero; [lia|..]; intros t [l|m pc st l] E; try done; specialize (Hn _ _ E);
      each_place m pc; try done; destruct st; try done;
      by destruct (proj1 (inv_sound c I) _ _ _ _ _ E ltac:(done)).
  - intros t l E. by destruct (mq_knows_at c t _ _ _ I E eq_refl).
Qed.

(** ** Every message is run *)

(** The steps a thread has left until it is idle or asleep, on a queue that has
    messages ([e]) or none, with twelve more for each of the [n] threads it can
    wake; a message in the queue is worth twenty. *)
Definition steps_left (n : nat) (e : bool) (th : mq_thread) : nat :=
  let W := (12 * n)%nat in
  match th with
  | Idle _ => 0
  | At (Post _) pc _ _ =>
      match pc with 0 => 26 + 2 * W | 1 => 25 + 2 * W | 2 => 4 + W | 3 => 3 + W | 4 => 2 + W | _ => 1 end
  | At (PostRange ms) pc _ l =>
      let each := 30 + W in
      match pc with
      | 0 => 6 + W + length ms * each
      | 1 => 5 + W + length (loc_rest l) * each
      | 2 => 4 + W + length (loc_rest l) * each
      | 3 => 3 + W + length (loc_rest l) * each
      | 4 => 2 + W + length (loc_rest l) * each
      | 5 => 6 + W + length (loc_rest l) * each
      | 6 => 5 + W + length (loc_rest l) * each
      | 7 => 3 + W | 8 => 2 + W | _ => 1 end
  | At Close pc _ _ => match pc with 0 => 3 + W | 1 => 2 + W | _ => 1 end
  | At Process pc st _ =>
      let again := if e then 12 else 0 in
      match pc, st with
      | 0, _ => 7 + again | 1, _ => 6 + again | 2, _ => 5 + again
      | 3, Running => 4 | 3, Waiting => 3 | 3, Woken => 15
      | 4, _ => 14 | 5, _ => 13 | 6, _ => 12 | 7, _ => 11 | 8, _ => 10 | 9, _ => 9
      | 10, _ => 28 | 11, _ => 27 | 12, _ => 26 | 13, _ => 25 | 14, _ => 24 | 15, _ => 23 | 16, _ => 22
      | 17, _ => 10 + again | 18, _ => 9 + again | 19, _ => 8 + again
      | _, _ => 1 end
  end%nat.

Definition mq_left (c : mq_config) : nat :=
  (20 * length (message_queue_ (shared c)) +
   total (steps_left (length (threads c)) (negb (empty (shared c)))) (threads c))%nat.

Lemma steps_left_more n (l : list mq_thread) e :
  (total (steps_left n false) l <= total (steps_left n e) l)%nat /\
  (total (steps_left n e) l <= total (steps_left n false) l + 12 * length l)%nat.
Proof.
  split.
  - apply total_mono. intros [l'|m pc st l']; [done|]. destruct e, m; try done.
    each_pc pc; destruct st; cbn; lia.
  - induction l as [|z l IH]; cbn; [done|].
    enough (steps_left n e z <= steps_left n false z + 12)%nat by lia.
    destruct z as [l'|m pc st l']; [cbn; lia|]. destruct e, m; try (cbn; lia).
    each_pc pc; destruct st; cbn; lia.
Qed.

(** A thread moves on, or changes the queue. *)
Lemma left_put n (q q' : MessageQueue) (l : list mq_thread) t th th' :
  l !! t = Some th -> length l = n ->
  (20 * length (message_queue_ q') + steps_left n (negb (empty q')) th' +
     (if empty q then if empty q' then 0 else 12 * n else 0) <
   20 * length (message_queue_ q) + steps_left n (negb (empty q')) th)%nat ->
  (20 * length (message_queue_ q') + total (steps_left n (negb (empty q'))) (<[t := th']> l) <
   20 * length (message_queue_ q) + total (steps_left n (negb (empty q))) l)%nat.
Proof.
  intros E L H. pose proof (total_insert (steps_left n (negb (empty q'))) _ _ _ th' E).
  pose proof (steps_left_more n l (negb (empty q'))). pose proof (steps_left_more n l (negb (empty q))).
  destruct (empty q), (empty q'); cbn in *; lia.
Qed.

Lemma mq_woken_left n e (th : mq_thread) :
  (steps_left n e (wake_workers th) <= steps_left n e th + 12)%nat.
Proof.
  unfold wake_workers. destruct (waits_on _ _ th) eqn:E; [|lia].
  apply waits_on_waiting in E as (m & pc & l' & -> & Hm). each_place m pc; try done; cbn; lia.
Qed.

Definition going {M} (a : action M) : bool := match a with Go _ _ => true | _ => false end.

Lemma left_do (c : mq_config) t m pc l f s l' :
  mq_inv c -> threads c !! t = Some (At m pc Running l) ->
  code messagequeue m !! pc = Some (Do f) -> f (shared c) l = (s, l') ->
  (mq_left (Config s (owner c) (<[t := At m (pc + 1) Running l']> (threads c))) < mq_left c)%nat.
Proof.
  intros I E Hm Hf. pose proof (mq_knows_at c t m pc l I E) as Hk. unfold mq_left. cbn [shared threads].
  rewrite length_insert. set (n := length (threads c)). apply (left_put n _ _ _ _ _ _ E eq_refl).
  each_place m pc; try done; cbn in Hm, Hk; simplify_eq; try (cbn in Hf; simplify_eq);
    try (specialize (Hk eq_refl)); unfold empty in *; cbn [push_back pop_front set_queue_size set_busy
      set_quit set_processed Run message_queue_].
  all: try (destruct (loc_rest l) as [|m' ms'] eqn:Er; [done|]; simplify_eq; cbn [push_back message_queue_]).
  all: try match type of Hk with _ /\ _ => destruct Hk as [Hk _] end.
  all: destruct (message_queue_ (shared c)) as [|m1 [|m2 ms2]]; try done; cbn -[Nat.mul] in *;
    try rewrite Er in *; cbn [length]; len; nia.
Qed.

Lemma left_move k n e (l : list mq_thread) t th th' :
  l !! t = Some th -> (steps_left n e th' < steps_left n e th)%nat ->
  (k + total (steps_left n e) (<[t := th']> l) < k + total (steps_left n e) l)%nat.
Proof. intros E H. pose proof (total_insert (steps_left n e) _ _ _ th' E). lia. Qed.

Lemma going_step a (c c' : mq_config) :
  mq_inv c -> going a = true -> act messagequeue a c = Some c' -> (mq_left c' < mq_left c)%nat.
Proof.
  intros I La H%act_step. pose proof (length_step _ _ _ _ H) as Hl. inv H; try done; cbn [put threads shared] in *.
  5: by eapply left_do.
  all: unfold mq_left; cbn [put shared threads]; rewrite Hl; set (n := length (threads c)) in *.
  1, 2, 4, 5, 6: eapply left_move; [done|]; each_place m pc; try done; simplify_eq/=;
    try destruct (empty _); try destruct (quit_ _); try destruct (loc_rest _); cbn -[Nat.mul]; lia.
  - destruct (proj1 (inv_sound c I) _ _ _ _ _ H0 ltac:(done)) as [v Hm].
    eapply left_move; [done|]. each_place m pc; try done; cbn; lia.
  - eapply left_move; [done|]. each_place m pc; try done; cbn; lia.
  - exfalso. each_place m pc; done.
  - exfalso. each_place m pc; done.
  - destruct v.
    change (fun th => if waits_on messagequeue queue_not_empty_ th then wake th else th) with wake_workers.
    set (e := negb (empty (shared c))).
    pose proof (total_fmap_le (steps_left n e) wake_workers 12 (threads c) (mq_woken_left n e)) as Hg.
    assert ((wake_workers <$> threads c) !! t = Some (At m pc Running l)) as E'
      by (by rewrite list_lookup_fmap, H0).
    pose proof (total_insert (steps_left n e) _ _ _ (At m (pc + 1) Running l) E'). fold n in Hg.
    each_place m pc; try done; cbn -[Nat.mul] in *; lia.
Qed.

(** C30: No message is forgotten: without new calls the threads make a bounded
    number of steps, and when none of them can move any more each is idle or a
    worker asleep; if a worker is asleep, nothing is left in the queue and all
    that was posted has been run. *)
Theorem MessageQueue_live k n ts (c : mq_config) :
  run messagequeue ts (mq_init k n) = Some c ->
  (forall us c', forallb going us = true -> run messagequeue us c = Some c' ->
     (length us <= mq_left c)%nat) /\
  ((forall t w, act messagequeue (Go t w) c = None) ->
   (forall t th, threads c !! t = Some th ->
      exists l, th = Idle l \/ th = At Process 3 Waiting l) /\
   (forall t l, threads c !! t = Some (At Process 3 Waiting l) ->
      message_queue_ (shared c) = [] /\ ran_ (shared c) ≡ₚ posted_ (shared c))).
Proof.
  intros H. destruct (mq_reachable k n ts c H) as (I & _ & _). split.
  - intros us c' Hus Hr.
    pose proof (run_bounded messagequeue mq_inv going mq_left us c c' mq_inv_step going_step I Hus Hr). lia.
  - intros Hstuck.
    assert (forall t th, threads c !! t = Some th ->
      exists l, th = Idle l \/ th = At Process 3 Waiting l) as Hall.
    { intros t [l|m pc st l] E; exists l; [by left|right]. assert (st = Waiting) as ->.
      { destruct (decide (st = Waiting)) as [|Ne]; [done|exfalso].
        destruct (progress messagequeue held messagequeue_balanced c t m pc st l (inv_sound c I) E Ne)
          as (u & w & c' & Ha). by rewrite Hstuck in Ha. }
      destruct (proj1 (inv_sound c I) _ _ _ _ _ E ltac:(done)) as [v Hm]. each_place m pc; done. }
    split; [done|]. intros t l E. destruct (inv_tally c I) as [T1 T2 T3 T4 T5].
    pose proof (total_lookup asleep _ _ _ E) as Ha. cbn in Ha.
    destruct T5 as [Hq|Hp]; [lia| |].
    + split; [done|]. rewrite T1, Hq, app_nil_r, <- T2.
      enough (gather in_flight (threads c) = []) as -> by by rewrite app_nil_r.
      rewrite (gather_single in_flight _ _ _ E); [done|].
      intros u z Eu _. by destruct (Hall u z Eu) as [l' [->| ->]].
    + rewrite total_zero in Hp; [lia|]. intros u z Eu. by destruct (Hall u z Eu) as [l' [->| ->]].
Qed.
End Invariant.

Lemma MessageQueue_order_witness :
  run messagequeue a_session (mq_init 1 1) <> None /\
  forall c, run messagequeue a_session (mq_init 1 1) = Some c ->
    ran_ (shared c) ++ gather in_flight (threads c) = taken_ (shared c).
Proof.
  split; [by vm_compute|]. intros c H. by apply (MessageQueue_order 1 1 a_session c H).
Defined.

Lemma MessageQueue_live_witness :
  run messagequeue a_session (mq_init 1 1) <> None /\
  forall c, run messagequeue a_session (mq_init 1 1) = Some c ->
    forall us c', forallb going us = true -> run messagequeue us c = Some c' ->
      (length us <= mq_left c)%nat.
Proof.
  split; [by vm_compute|]. intros c H. exact (proj1 (MessageQueue_live 1 1 a_session c H)).
Defined.

(** Two workers that count at the same time count one message. *)
Example processed_loses_an_update :
  (fun c => (ran_ (shared c), processed_ (shared c))) <$> run messagequeue
    (Call 2 (PostRange [7%nat; 8%nat]) :: steps_of 2 16 ++ Call 0 Process :: steps_of 0 13 ++
     Call 1 Process :: steps_of 1 14 ++ steps_of 0 1) (mq_init 2 1) = Some ([7%nat; 8%nat], 1).
Proof. vm_compute. reflexivity. Qed.
