(* ===== verification/ConsistentHash.v ===== *)
(** * Consistent hashing (src/base3/consistenthash.h, src/base3/hash.h)

    [Continuum]: servers with capacities, a point on a ring of 2^32 for each
    unit of capacity, and the server of a hash: the next point on the ring.  The
    methods run under a [ReadWriteLock] ([RwLock]); here each is a function of
    the object.  [std::sort] does not say in which order equal points come: it
    is any function that sorts ([Sorter]). *)

From stdpp Require Import sorting.
From S2P Require Import Prelude CString Murmur Stl.

Record Point := mkPoint { point_ : Z; desc_ : bytes }.

Record Continuum := mkContinuum {
  points_ : list Point; desc_map_ : smap Z; name_ : bytes }.

(** [CompareByPoint] is the strict part. *)
Definition le_point (a b : Point) : Prop := point_ a <= point_ b.

Class Sorter (sort : list Point -> list Point) := {
  sort_permutes : forall l, sort l ≡ₚ l;
  sort_sorts : forall l, StronglySorted le_point (sort l) }.

(** [MurmurHash2(text, length, 0)]: base3/hash.h has the same function as
    bundle/murmurhash2.cc. *)
Definition Hash (text : bytes) : Z := MurmurHash2 text 0.

(** [std::map::erase] *)
Fixpoint map_erase {V} (k : bytes) (m : smap V) : smap V :=
  match m with
  | [] => []
  | (k', v) :: m => if bool_decide (k = k') then m else (k', v) :: map_erase k m
  end.

Definition Add (desc : bytes) (capacity : Z) (c : Continuum) : Continuum :=
  mkContinuum (points_ c) (map_set desc capacity (desc_map_ c)) (name_ c).
Definition Remove (desc : bytes) (c : Continuum) : bool * Continuum :=
  (true, mkContinuum (points_ c) (map_erase desc (desc_map_ c)) (name_ c)).
Definition Clear (c : Continuum) : Continuum := mkContinuum (points_ c) [] (name_ c).

(** [int sz = points_.size(); return sz]. *)
Definition Continuum_size (c : Continuum) : Z := u64 (i32 (Z.of_nat (length (points_ c)))).

(** [snprintf(buf, 21, "%s-%x", desc, k)]: the whole text; [buf] holds the first
    20 characters of it. *)
Definition point_text (desc : bytes) (k : Z) : bytes :=
  c_str desc ++ "-"%byte :: map hex_char (radix_digits 16 k).

(** The [len] bytes at [buf] that are hashed, [len] being the length of the whole
    text; [None]: some are behind the buffer. *)
Definition hashed_text (desc : bytes) (k : Z) : option bytes :=
  let text := point_text desc k in
  if size text <=? 20 then Some text
  else if size text =? 21 then Some (take 20 text ++ [x00])
  else None.

Definition server_points (func : bytes -> Z) (e : bytes * Z) : option (list Point) :=
  mapM (fun k => t ← hashed_text e.1 k; Some (mkPoint (func t) e.1)) (seqZ 0 e.2).

Definition target (func : bytes -> Z) (m : smap Z) : option (list Point) :=
  ls ← mapM (server_points func) m; Some (concat ls).

Definition total_point (m : smap Z) : Z := fold_left (fun t e => u32 (t + e.2)) m 0.

(** [None]: the buffer was overread. *)
Definition Rebuild (sort : list Point -> list Point) (func : bytes -> Z) (c : Continuum)
  : option (bool * Continuum) :=
  if total_point (desc_map_ c) =? 0 then Some (false, c)
  else
    l ← target func (desc_map_ c);
    Some (true, mkContinuum (sort l) (desc_map_ c) (name_ c)).

(** [std::lower_bound] on sorted points: the first that is not less. *)
Definition Locate (c : Continuum) (hash : Z) : bytes :=
  match List.find (fun p => hash <=? point_ p) (points_ c) with
  | Some p => desc_ p
  | None => match points_ c with p :: _ => desc_ p | [] => [] end
  end.

(** ** A sort, and examples *)

Fixpoint insert_point (p : Point) (l : list Point) : list Point :=
  match l with
  | [] => [p]
  | q :: l' => if point_ p <=? point_ q then p :: l else q :: insert_point p l'
  end.
Definition insertion_sort (l : list Point) : list Point := foldr insert_point [] l.

Definition three_servers : Continuum :=
  Add (bs "c") 4 (Add (bs "b") 4 (Add (bs "a") 4 (mkContinuum [] [] []))).

Definition rebuilt (c : Continuum) : Continuum :=
  match Rebuild insertion_sort Hash c with Some (_, c) => c | None => c end.

Definition located (c : Continuum) : list bytes :=
  map (Locate c) [0; 2 ^ 30; 2 ^ 31; 3 * 2 ^ 30; 2 ^ 32 - 1].

Example locate_three : located (rebuilt three_servers) = [bs "c"; bs "b"; bs "c"; bs "a"; bs "c"].
Proof. vm_compute. reflexivity. Qed.

Example locate_without_b :
  located (rebuilt (Remove (bs "b") three_servers).2) = [bs "c"; bs "a"; bs "c"; bs "a"; bs "c"].
Proof. vm_compute. reflexivity. Qed.

(** With the text cut off at 20 characters, sixteen points in a row are one: a
    server with a description of 18 characters loses most of its weight. *)
Example long_names_collide :
  let desc := bs "192.168.100.1:8080" in
  map (hashed_text desc) (seqZ 16 16) = replicate 16 (Some (desc ++ bs "-1" ++ [x00])) /\
  hashed_text (bs "192.168.100.1:8080") 256 = None.
Proof. vm_compute. done. Qed.

(** After the last server has gone [Rebuild] leaves the points of the servers
    that were there. *)
Example last_server_stays :
  let c := rebuilt (Add (bs "a") 2 (mkContinuum [] [] [])) in
  (fun r => (r.1, Locate r.2 7)) <$> Rebuild insertion_sort Hash (Remove (bs "a") c).2
  = Some (false, bs "a").
Proof. vm_compute. reflexivity. Qed.

#[export] Instance insertion_sorter : Sorter insertion_sort.
Proof.
  split.
  - intros l. induction l as [|p l IH]; cbn; [done|].
    assert (forall q m, insert_point q m ≡ₚ q :: m) as Hi.
    { intros q m. induction m as [|r m IHm]; cbn; [done|]. destruct (_ <=? _); [done|].
      rewrite IHm. apply perm_swap. }
    by rewrite Hi, IH.
  - assert (forall q m, StronglySorted le_point m -> StronglySorted le_point (insert_point q m)) as Hi.
    { intros q m. induction 1 as [|r m Hm IHm Hr]; cbn; [by repeat constructor|].
      destruct (Z.leb_spec (point_ q) (point_ r)).
      - constructor; [by constructor|]. constructor; [done|].
        eapply Forall_impl; [exact Hr|]. unfold le_point. intros. lia.
      - constructor; [done|].
        assert (forall x, x ∈ insert_point q m -> x = q \/ x ∈ m) as Hx.
        { clear. intros x. induction m as [|r m IH]; cbn; [rewrite list_elem_of_singleton; auto|].
          destruct (_ <=? _); rewrite !elem_of_cons; [tauto|]. intros [|Hx]; [auto|]. apply IH in Hx. tauto. }
        apply Forall_forall. intros x [->|Hin]%Hx; [unfold le_point; lia|].
        rewrite Forall_forall in Hr. auto. }
    intros l. induction l as [|p l IH]; cbn; [constructor|auto].
Qed.

(** ** The point a hash belongs to *)

(** The next point on the ring from [h] on; after the last the first follows. *)
Definition next_point (l : list Point) (h : Z) (p : Point) : Prop :=
  p ∈ l /\
  ((h <= point_ p /\ forall q, q ∈ l -> h <= point_ q -> point_ p <= point_ q) \/
   ((forall q, q ∈ l -> point_ q < h) /\ forall q, q ∈ l -> point_ p <= point_ q)).

Lemma next_point_unique l h p q : next_point l h p -> next_point l h q -> point_ p = point_ q.
Proof.
  intros [Hp [[H1 H2]|[H1 H2]]] [Hq [[H3 H4]|[H3 H4]]].
  - pose proof (H2 q Hq H3). pose proof (H4 p Hp H1). lia.
  - specialize (H3 p Hp). lia.
  - specialize (H1 q Hq). lia.
  - pose proof (H2 q Hq). pose proof (H4 p Hp). lia.
Qed.

Lemma next_point_sub l l' h p :
  (forall q, q ∈ l' -> q ∈ l) -> p ∈ l' -> next_point l h p -> next_point l' h p.
Proof. intros Hs Hp [_ [[H1 H2]|[H1 H2]]]; split; auto 6. Qed.

Lemma Locate_next c h :
  StronglySorted le_point (points_ c) -> points_ c <> [] ->
  exists p, next_point (points_ c) h p /\ Locate c h = desc_ p.
Proof.
  unfold Locate. destruct c as [l m n]. cbn [points_]. intros Hs Hn.
  destruct (List.find _ l) as [p|] eqn:E.
  - exists p. split; [|done]. assert (p ∈ l /\ h <= point_ p) as [Hp Hh].
    { apply List.find_some in E as [Hin Hle]. split; [by apply list_elem_of_In|lia]. }
    split; [done|left; split; [done|]]. clear Hn. induction Hs as [|r l Hl IH Hr]; cbn in E; [done|].
    destruct (Z.leb_spec h (point_ r)) as [Hle|Hlt].
    + injection E as <-. intros q [->|Hq]%elem_of_cons _; [done|]. rewrite Forall_forall in Hr. by apply Hr.
    + apply elem_of_cons in Hp as [->|Hp]; [lia|]. intros q [->|Hq]%elem_of_cons Hle; [lia|]. by apply IH.
  - destruct l as [|p l]; [done|]. exists p. split; [|done]. split; [by left|right]. split.
    + intros q Hq%list_elem_of_In. pose proof (List.find_none _ _ E q Hq). cbn in *. lia.
    + intros q [->|Hq]%elem_of_cons; [done|]. inversion_clear Hs as [|? ? ? Hr].
      rewrite Forall_forall in Hr. by apply Hr.
Qed.

(** ** Which points a set of servers has *)

Lemma target_elem func m l : target func m = Some l ->
  forall p, p ∈ l <-> exists e ps, e ∈ m /\ server_points func e = Some ps /\ p ∈ ps.
Proof.
  unfold target. intros H. destruct (mapM (server_points func) m) as [ls|] eqn:E; [|done].
  injection H as <-. apply mapM_Some_1 in E.
  induction E as [|e ps m ls He _ IH]; intros p.
  - split; [by intros ?%not_elem_of_nil|]. by intros (e & ps & ?%not_elem_of_nil & _).
  - cbn. rewrite elem_of_app, IH. split.
    + intros [Hp|(e' & ps' & Hin & H)]; [exists e, ps|exists e', ps']; rewrite elem_of_cons; auto.
    + intros (e' & ps' & [->|Hin]%elem_of_cons & He' & Hp); [left; congruence|right; eauto].
Qed.

Lemma server_points_desc func e ps p : server_points func e = Some ps -> p ∈ ps -> desc_ p = e.1.
Proof.
  unfold server_points. intros H%mapM_Some_1 Hp.
  apply list_elem_of_lookup in Hp as [i Hp]. destruct (Forall2_lookup_r _ _ _ _ _ H Hp) as (k & _ & Hk).
  destruct (hashed_text e.1 k); [|done]. by injection Hk as <-.
Qed.

Lemma elem_of_map_upd {V} d f (m : smap V) e : e.1 <> d -> e ∈ map_upd d f m <-> e ∈ m.
Proof.
  intros Hd. induction m as [|[k v] m IH]; cbn.
  - rewrite list_elem_of_singleton. split; [by intros ->|by intros ?%not_elem_of_nil].
  - case_bool_decide as Hk; [subst|destruct (str_lt d k)].
    + rewrite !elem_of_cons. split; (intros [->|]; [done|auto]).
    + rewrite (elem_of_cons _ _ (d, _)). split; [by intros [->|]|auto].
    + by rewrite !elem_of_cons, IH.
Qed.

Lemma map_find_absent {V} d (m : smap V) e : map_find d m = None -> e ∈ m -> e.1 <> d.
Proof.
  induction m as [|[k v] m IH]; cbn; [by intros _ ?%not_elem_of_nil|].
  case_bool_decide as Hk; [done|]. intros Hf [->|He]%elem_of_cons; [by intros <-|auto].
Qed.

Lemma map_erase_set {V} d (v : V) (m : smap V) :
  ordered m = true -> map_find d m = None -> map_erase d (map_set d v m) = m.
Proof.
  unfold map_set. induction m as [|[k w] m IH]; cbn; intros Ho Hf.
  - by rewrite bool_decide_eq_true_2.
  - case_bool_decide as Hk; [done|]. destruct (str_lt d k); cbn.
    + by rewrite bool_decide_eq_true_2.
    + rewrite bool_decide_eq_false_2 by done. apply andb_true_iff in Ho as [_ Ho]. by rewrite IH.
Qed.

(** ** Few keys move *)

Section Moves.
Context (sort : list Point -> list Point) `{!Sorter sort} (func : bytes -> Z).

Lemma Rebuild_points c c' : Rebuild sort func c = Some (true, c') ->
  exists l, target func (desc_map_ c) = Some l /\ points_ c' = sort l /\ desc_map_ c' = desc_map_ c.
Proof.
  unfold Rebuild. destruct (_ =? 0); [done|]. destruct (target func (desc_map_ c)) as [l|]; [|done].
  intros [= <-]. by exists l.
Qed.

Lemma Locate_common c c' d h :
  StronglySorted le_point (points_ c) -> StronglySorted le_point (points_ c') ->
  (forall p, p ∈ points_ c' -> p ∈ points_ c) ->
  (forall p, p ∈ points_ c -> desc_ p <> d -> p ∈ points_ c') ->
  (forall p q, p ∈ points_ c -> q ∈ points_ c -> point_ p = point_ q -> desc_ p = desc_ q) ->
  Locate c h = d \/ Locate c h = Locate c' h.
Proof.
  intros S S' Hsub Hkeep Hcol. destruct (decide (points_ c = [])) as [Hn|Hn].
  { right. assert (points_ c' = []) as Hn'.
    { destruct (points_ c') as [|p l]; [done|]. specialize (Hsub p ltac:(left)). rewrite Hn in Hsub.
      by apply not_elem_of_nil in Hsub. }
    unfold Locate. by rewrite Hn, Hn'. }
  destruct (Locate_next c h S Hn) as (p & Hp & ->).
  destruct (decide (desc_ p = d)) as [|Hd]; [by left|right].
  pose proof (Hkeep p (proj1 Hp) Hd) as Hin.
  destruct (Locate_next c' h S') as (q & Hq & ->); [by intros E; rewrite E in Hin; apply not_elem_of_nil in Hin|].
  apply Hcol; [apply Hp|apply Hsub, Hq|].
  apply (next_point_unique (points_ c') h); [|done]. by apply (next_point_sub (points_ c)).
Qed.

(** C31: A new server takes keys only for itself: of the hashes located before it
    was added each stays where it was or goes to it; and when it is removed
    again every hash is back.  Servers whose points coincide are excepted. *)
Theorem Continuum_moves d capacity c without with_d again :
  ordered (desc_map_ c) = true -> map_find d (desc_map_ c) = None ->
  Rebuild sort func c = Some (true, without) ->
  Rebuild sort func (Add d capacity c) = Some (true, with_d) ->
  Rebuild sort func (Remove d with_d).2 = Some (true, again) ->
  (forall p q, p ∈ points_ with_d -> q ∈ points_ with_d -> point_ p = point_ q -> desc_ p = desc_ q) ->
  forall h, (Locate with_d h = d \/ Locate with_d h = Locate without h) /\
    Locate again h = Locate without h.
Proof.
  intros Ho Hf R1 R2 R3 Hcol h.
  destruct (Rebuild_points _ _ R1) as (l1 & T1 & P1 & D1).
  destruct (Rebuild_points _ _ R2) as (l2 & T2 & P2 & D2).
  destruct (Rebuild_points _ _ R3) as (l3 & T3 & P3 & D3).
  cbn [Remove Add snd desc_map_] in *. rewrite D2, map_erase_set in T3 by done. split.
  - apply (Locate_common with_d without d h); rewrite ?P1, ?P2; try apply sort_sorts; [..|by rewrite P2 in Hcol].
    + intros p. rewrite !sort_permutes, (target_elem _ _ _ T1), (target_elem _ _ _ T2).
      intros (e & ps & He & Hs). exists e, ps. split; [|done].
      apply elem_of_map_upd; [by eapply map_find_absent|done].
    + intros p. rewrite !sort_permutes, (target_elem _ _ _ T1), (target_elem _ _ _ T2).
      intros (e & ps & He & Hs & Hp) Hd. exists e, ps. split; [|done].
      rewrite (server_points_desc _ _ _ _ Hs Hp) in Hd. by apply elem_of_map_upd in He.
  - unfold Locate. rewrite P3, P1. by rewrite T1 in T3; injection T3 as <-.
Qed.
End Moves.

(** Deciding that points of different servers do not coincide. *)
Definition apart (l : list Point) : bool :=
  forallb (fun p => forallb (fun q => negb (point_ p =? point_ q) || bool_decide (desc_ p = desc_ q)) l) l.

Lemma apart_spec l : apart l = true ->
  forall p q, p ∈ l -> q ∈ l -> point_ p = point_ q -> desc_ p = desc_ q.
Proof.
  unfold apart. intros H p q Hp%list_elem_of_In Hq%list_elem_of_In E.
  pose proof (proj1 (forallb_forall _ _) H p Hp) as Hl. cbn in Hl.
  pose proof (proj1 (forallb_forall _ _) Hl q Hq) as Hr. cbn in Hr. rewrite E, Z.eqb_refl in Hr.
  by apply bool_decide_eq_true in Hr.
Qed.

(** [three_servers] without "c", with it, and without it again. *)
Definition two_servers : Continuum := Add (bs "b") 4 (Add (bs "a") 4 (mkContinuum [] [] [])).
Definition third_server : Continuum := rebuilt (Add (bs "c") 4 two_servers).

Lemma Continuum_moves_witness :
  (Locate third_server (2 ^ 31) = bs "c"
   \/ Locate third_server (2 ^ 31) = Locate (rebuilt two_servers) (2 ^ 31)) /\
  Locate (rebuilt (Remove (bs "c") third_server).2) (2 ^ 31) = Locate (rebuilt two_servers) (2 ^ 31).
Proof.
  apply (Continuum_moves insertion_sort Hash (bs "c") 4 two_servers); [by vm_compute..|].
  apply apart_spec. by vm_compute.
Defined.
