(* ===== verification/HashCache.v ===== *)
(** * A cache that forgets what was not used longest (src/base3/cache.h)

    [HashCache]: a list of entries, the most recently used last, and a map from
    keys to iterators into it; an iterator is the number of the node it points
    to.  Each method, and each of the two halves of [Locate], is one section
    under the object's mutex.  [None]: an iterator that points to no node is
    used, or advanced past the end. *)

From S2P Require Import Prelude.

Section HashCache.
Context {Key Value : Type} `{Countable Key} (no_value : Value).
(** [Creator], which may return a null pointer. *)
Context (Creator : Key -> option Value).

Abbreviation node := (nat * (Key * Value))%type.

(** [posted]: calls of [Replace] handed to [Post] and not run yet; [fresh]: the
    next node number. *)
Record HashCache := mkHashCache {
  list_ : list node; map_ : gmap Key nat; max_size_ : Z; replacing_ : bool;
  posted : nat; fresh : nat }.

Definition new_cache (max_size : Z) : HashCache := mkHashCache [] ∅ max_size false 0 0.

Definition cache_size (c : HashCache) : Z := Z.of_nat (size (map_ c)).

(** [map_.size() > max_size_ && map_.size() - max_size_ > max_size_/10] *)
Definition ebaseed (c : HashCache) : bool :=
  (max_size_ c <? cache_size c) && (max_size_ c / 10 <? cache_size c - max_size_ c).

Definition node_at (i : nat) (l : list node) : option (Key * Value) :=
  snd <$> List.find (fun n => (n.1 =? i)%nat) l.
Definition without (i : nat) (l : list node) : list node :=
  List.filter (fun n => negb (n.1 =? i)%nat) l.

(** The section that [Find] and [Locate] begin with: a hit moves the node to the
    end ([list_.splice]). *)
Definition look (key : Key) (c : HashCache) : option (option Value * HashCache) :=
  match map_ c !! key with
  | None => Some (None, c)
  | Some i =>
      match node_at i (list_ c) with
      | Some e =>
          Some (Some e.2, mkHashCache (without i (list_ c) ++ [(i, e)]) (map_ c) (max_size_ c)
            (replacing_ c) (posted c) (fresh c))
      | None => None
      end
  end.

Definition Find (key : Key) (c : HashCache) : option (Value * HashCache) :=
  match look key c with
  | Some (Some v, c) => Some (v, c)
  | Some (None, c) => Some (no_value, c)
  | None => None
  end.

Definition Erase (key : Key) (c : HashCache) : option HashCache :=
  match map_ c !! key with
  | None => Some c
  | Some i =>
      match node_at i (list_ c) with
      | Some _ =>
          Some (mkHashCache (without i (list_ c)) (delete key (map_ c)) (max_size_ c)
            (replacing_ c) (posted c) (fresh c))
      | None => None
      end
  end.

Definition Insert (key : Key) (v : Value) (c : HashCache) : HashCache :=
  let c := mkHashCache (list_ c ++ [(fresh c, (key, v))]) (<[key := fresh c]> (map_ c))
    (max_size_ c) (replacing_ c) (posted c) (S (fresh c)) in
  if negb (replacing_ c) && ebaseed c then
    mkHashCache (list_ c) (map_ c) (max_size_ c) true (S (posted c)) (fresh c)
  else c.

(** The loop of [Replace]: the first [count] nodes leave the list, and their keys
    the map. *)
Definition drop_nodes (count : nat) (c : HashCache) : HashCache :=
  mkHashCache (drop count (list_ c))
    (foldr (fun n => delete n.2.1) (map_ c) (take count (list_ c)))
    (max_size_ c) false (posted c) (fresh c).

(** [std::advance(end, count)] may not pass the end; [count] is a [size_t]. *)
Definition Replace (c : HashCache) : option (Z * HashCache) :=
  let count := u64 (cache_size c - max_size_ c) in
  if count <=? Z.of_nat (length (list_ c))
  then Some (count, drop_nodes (Z.to_nat count) c) else None.

(** A posted [Replace] runs. *)
Definition run_posted (c : HashCache) : option (Z * HashCache) :=
  match posted c with
  | O => Some (0, c)
  | S n => Replace (mkHashCache (list_ c) (map_ c) (max_size_ c) (replacing_ c) n (fresh c))
  end.

(** Both sections of [Locate], with nothing in between. *)
Definition Locate (key : Key) (c : HashCache) : option (Value * HashCache) :=
  match look key c with
  | Some (Some v, c) => Some (v, c)
  | Some (None, c) =>
      match Creator key with
      | Some v => Some (v, Insert key v c)
      | None => Some (no_value, c)
      end
  | None => None
  end.

(** ** What it promises: entries in the order of their last use *)

Abbreviation lru := (list (Key * Value)).

Definition lru_get (key : Key) (l : lru) : option Value :=
  snd <$> List.find (fun e => bool_decide (e.1 = key)) l.
Definition lru_erase (key : Key) (l : lru) : lru :=
  List.filter (fun e => negb (bool_decide (e.1 = key))) l.
Definition lru_use (key : Key) (v : Value) (l : lru) : lru := lru_erase key l ++ [(key, v)].
Definition lru_look (key : Key) (l : lru) : option Value * lru :=
  match lru_get key l with Some v => (Some v, lru_use key v l) | None => (None, l) end.
Definition lru_trim (max_size : Z) (l : lru) : lru :=
  drop (length l - Z.to_nat max_size)%nat l.

(** The calls, with the values they return; [CReplace] is a posted [Replace]
    that is run.  A [Locate] that another thread comes between is a [CFind]
    that finds nothing, the other thread's calls, and a [CInsert]. *)
Inductive call :=
  CFind (k : Key) | CLocate (k : Key) | CInsert (k : Key) (v : Value) | CErase (k : Key) | CReplace.

Definition call_cache (a : call) (c : HashCache) : option (option Value * HashCache) :=
  match a with
  | CFind k => r ← Find k c; Some (Some r.1, r.2)
  | CLocate k => r ← Locate k c; Some (Some r.1, r.2)
  | CInsert k v => Some (None, Insert k v c)
  | CErase k => c ← Erase k c; Some (None, c)
  | CReplace => r ← run_posted c; Some (None, r.2)
  end.

Fixpoint call_caches (as_ : list call) (c : HashCache) : option (list (option Value) * HashCache) :=
  match as_ with
  | [] => Some ([], c)
  | a :: as_ =>
      r ← call_cache a c; rs ← call_caches as_ r.2; Some (r.1 :: rs.1, rs.2)
  end.

(** The same on the entries and a flag, whether a [Replace] has been posted;
    [None] if it meets fewer entries than it has to leave. *)
Definition too_full (max_size : Z) (l : lru) : bool :=
  let n := Z.of_nat (length l) in (max_size <? n) && (max_size / 10 <? n - max_size).

Definition lru_call (max_size : Z) (a : call) (s : lru * bool) : option (option Value * (lru * bool)) :=
  let '(l, pending) := s in
  match a with
  | CFind k => Some (Some (default no_value (lru_get k l)), ((lru_look k l).2, pending))
  | CLocate k =>
      match lru_get k l, Creator k with
      | Some v, _ => Some (Some v, (lru_use k v l, pending))
      | None, Some v =>
          let l := l ++ [(k, v)] in Some (Some v, (l, pending || too_full max_size l))
      | None, None => Some (Some no_value, (l, pending))
      end
  | CInsert k v => let l := l ++ [(k, v)] in Some (None, (l, pending || too_full max_size l))
  | CErase k => Some (None, (lru_erase k l, pending))
  | CReplace =>
      if pending then
        if Z.of_nat (length l) <? max_size then None else Some (None, (lru_trim max_size l, false))
      else Some (None, (l, false))
  end.

Fixpoint lru_calls (max_size : Z) (as_ : list call) (s : lru * bool)
  : option (list (option Value) * (lru * bool)) :=
  match as_ with
  | [] => Some ([], s)
  | a :: as_ =>
      r ← lru_call max_size a s; rs ← lru_calls max_size as_ r.2; Some (r.1 :: rs.1, rs.2)
  end.

(** [Insert] is for keys that are not there. *)
Definition fits (a : call) (l : lru) : bool :=
  match a with CInsert k _ => bool_decide (lru_get k l = None) | _ => true end.

Fixpoint inserts_new (max_size : Z) (as_ : list call) (s : lru * bool) : bool :=
  match as_ with
  | [] => true
  | a :: as_ =>
      fits a s.1 &&
      match lru_call max_size a s with Some r => inserts_new max_size as_ r.2 | None => true end
  end.

(** ** The list and the map agree *)

Record agree (c : HashCache) (max_size : Z) (s : lru * bool) : Prop := {
  a_entries : snd <$> list_ c = s.1;
  a_nodes : NoDup (fst <$> list_ c);
  a_keys : NoDup (fst <$> s.1);
  a_map : forall k i, map_ c !! k = Some i <-> exists v, (i, (k, v)) ∈ list_ c;
  a_fresh : forall i e, (i, e) ∈ list_ c -> (i < fresh c)%nat;
  a_pending : replacing_ c = s.2 /\ posted c = (if s.2 then 1 else 0)%nat;
  a_max : max_size_ c = max_size }.

Lemma filter_all {A} (f : A -> bool) l : (forall x, x ∈ l -> f x = true) -> List.filter f l = l.
Proof.
  induction l as [|x l IH]; intros Hl; cbn; [done|]. rewrite Hl by left.
  by rewrite IH by (intros y Hy; apply Hl; by right).
Qed.

Lemma elem_filter {A} (f : A -> bool) l x : x ∈ List.filter f l <-> x ∈ l /\ f x = true.
Proof. by rewrite !list_elem_of_In, List.filter_In. Qed.

(** The node of a key, and what is around it. *)
Lemma node_split (l : list node) i k v :
  NoDup (fst <$> l) -> NoDup (fst <$> (snd <$> l)) -> (i, (k, v)) ∈ l ->
  node_at i l = Some (k, v) /\ lru_get k (snd <$> l) = Some v /\
  snd <$> without i l = lru_erase k (snd <$> l).
Proof.
  unfold node_at, without, lru_get, lru_erase.
  induction l as [|[j [k' v']] l IH]; intros Hn Hk Hin; [by apply not_elem_of_nil in Hin|].
  cbn in *. apply NoDup_cons in Hn as [Hj Hn]. apply NoDup_cons in Hk as [Hk' Hk].
  apply elem_of_cons in Hin as [[= <- <- <-]|Hin].
  - rewrite Nat.eqb_refl, bool_decide_eq_true_2 by done. cbn. split; [done|]. split; [done|].
    rewrite !filter_all; [done|..].
    + intros e He. apply negb_true_iff, bool_decide_eq_false. intros <-. apply Hk'. by apply list_elem_of_fmap_2.
    + intros n Hn'. apply negb_true_iff, Nat.eqb_neq. intros <-. apply Hj. by apply list_elem_of_fmap_2.
  - assert (j <> i) as Ne by (intros ->; apply Hj; by apply (list_elem_of_fmap_2 fst l (i, (k, v)))).
    assert (k' <> k) as Nk.
    { intros ->. apply Hk'. apply (list_elem_of_fmap_2 fst (snd <$> l) (k, v)).
      by apply (list_elem_of_fmap_2 snd l (i, (k, v))). }
    apply Nat.eqb_neq in Ne. rewrite Ne, bool_decide_eq_false_2 by done. cbn.
    destruct (IH Hn Hk Hin) as (E1 & E2 & E3). rewrite E1, E2, E3. done.
Qed.

Lemma without_perm (l : list node) i e :
  NoDup (fst <$> l) -> (i, e) ∈ l -> l ≡ₚ (i, e) :: without i l.
Proof.
  unfold without. induction l as [|[j f] l IH]; intros Hn Hin; [by apply not_elem_of_nil in Hin|].
  cbn in *. apply NoDup_cons in Hn as [Hj Hn]. apply elem_of_cons in Hin as [[= <- <-]|Hin].
  - rewrite Nat.eqb_refl. cbn. rewrite filter_all; [done|].
    intros n Hn'. apply negb_true_iff, Nat.eqb_neq. intros <-. apply Hj. by apply list_elem_of_fmap_2.
  - destruct (Nat.eqb_spec j i) as [->|Ne]; cbn.
    + exfalso. apply Hj. by apply (list_elem_of_fmap_2 fst l (i, e)).
    + rewrite (IH Hn Hin) at 1. apply perm_swap.
Qed.

Lemma lru_get_absent k (l : lru) : lru_get k l = None <-> k ∉ fst <$> l.
Proof.
  unfold lru_get. induction l as [|[k' v] l IH]; cbn; [split; [by intros _ ?%not_elem_of_nil|done]|].
  rewrite not_elem_of_cons. case_bool_decide as Hk; cbn; [split; [done|intros [? _]; congruence]|].
  rewrite IH. split; [intros; split; [congruence|done]|tauto].
Qed.

Lemma agree_get c max_size s k :
  agree c max_size s ->
  match map_ c !! k with
  | Some i => exists v, (i, (k, v)) ∈ list_ c /\ node_at i (list_ c) = Some (k, v) /\
      lru_get k s.1 = Some v /\ snd <$> without i (list_ c) = lru_erase k s.1
  | None => lru_get k s.1 = None
  end.
Proof.
  intros [E Hn Hk Hm Hf Hp Hx]. destruct (map_ c !! k) as [i|] eqn:Ek.
  - apply Hm in Ek as [v Hv]. exists v. split; [done|]. rewrite <- E in Hk |- *. by apply node_split.
  - apply lru_get_absent. intros Hin. rewrite <- E in Hin. apply list_elem_of_fmap in Hin as ([k' v] & -> & Hin).
    apply list_elem_of_fmap in Hin as ([i e] & Ee & Hin). cbn in Ee. subst e.
    assert (map_ c !! k' = Some i) as Hs by (apply Hm; eauto). cbn in Ek. congruence.
Qed.

Lemma agree_look c max_size l p k :
  agree c max_size (l, p) ->
  exists c', look k c = Some ((lru_look k l).1, c') /\ agree c' max_size ((lru_look k l).2, p).
Proof.
  intros A. pose proof (agree_get _ _ _ k A) as G. unfold look, lru_look. cbn [fst] in G.
  destruct (map_ c !! k) as [i|] eqn:Ek; [|rewrite G; by exists c].
  destruct G as (v & Hin & -> & -> & Ee). eexists. split; [done|]. cbn [fst snd].
  destruct A as [E Hn Hk Hm Hf Hp Hx]. cbn in *.
  pose proof (without_perm _ _ _ Hn Hin) as Hw.
  assert (without i (list_ c) ++ [(i, (k, v))] ≡ₚ list_ c) as Hw' by (rewrite Hw at 2; by rewrite Permutation_app_comm).
  assert (snd <$> (without i (list_ c) ++ [(i, (k, v))]) = lru_use k v l) as Es
    by (by rewrite fmap_app, Ee).
  split; cbn; try done.
  - by rewrite Hw'.
  - by rewrite <- Es, Hw', E.
  - intros k' j. rewrite Hm. by setoid_rewrite Hw'.
  - intros j e. rewrite Hw'. apply Hf.
Qed.

Lemma agree_erase c max_size l p k :
  agree c max_size (l, p) -> exists c', Erase k c = Some c' /\ agree c' max_size (lru_erase k l, p).
Proof.
  intros A. pose proof (agree_get _ _ _ k A) as G. unfold Erase. cbn [fst] in G.
  destruct (map_ c !! k) as [i|] eqn:Ek.
  - destruct G as (v & Hin & -> & _ & Ee). eexists. split; [done|].
    destruct A as [E Hn Hk Hm Hf Hp Hx]. cbn in *.
    pose proof (without_perm _ _ _ Hn Hin) as Hw. pose proof Hn as Hn'. rewrite Hw in Hn'.
    rewrite <- E, Hw in Hk. cbn in Hn', Hk. apply NoDup_cons in Hn' as [Hi Hn'], Hk as [Hk0 Hk].
    split; cbn; try done.
    + by rewrite <- Ee.
    + intros k' j. rewrite lookup_delete_Some, Hm. setoid_rewrite Hw at 1. setoid_rewrite elem_of_cons.
      split; [intros (Ne & v' & [[= _ ->]|]); [done|eauto]|].
      intros [v' Hv]. split; [|eauto]. intros <-. apply Hk0.
      apply (list_elem_of_fmap_2 fst _ (k, v')). by apply (list_elem_of_fmap_2 snd _ (j, (k, v'))).
    + intros j e Hj. apply (Hf j e). rewrite Hw. by right.
  - exists c. split; [done|]. unfold lru_erase. rewrite filter_all; [done|].
    intros e He. apply negb_true_iff, bool_decide_eq_false. intros <-.
    apply lru_get_absent in G. apply G. by apply list_elem_of_fmap_2.
Qed.

Lemma agree_size c max_size s : agree c max_size s -> cache_size c = Z.of_nat (length s.1).
Proof.
  intros [E Hn Hk Hm _ _ _]. unfold cache_size. f_equal.
  assert (map_ c = list_to_map ((fun n : node => (n.2.1, n.1)) <$> list_ c)) as ->.
  { assert (NoDup ((fun n : node => (n.2.1, n.1)) <$> list_ c).*1) as Hd.
    { rewrite <- list_fmap_compose. by rewrite <- E, <- list_fmap_compose in Hk. }
    apply map_eq. intros k. apply option_eq. intros i. rewrite Hm, <- elem_of_list_to_map by done.
    rewrite list_elem_of_fmap. split.
    - intros [v Hv]. by exists (i, (k, v)).
    - intros ([j [k' v]] & [= -> ->] & Hv). eauto. }
  rewrite map_size_list_to_map, length_fmap, <- E, length_fmap; [done|].
  rewrite <- list_fmap_compose. by rewrite <- E, <- list_fmap_compose in Hk.
Qed.

Lemma agree_appended c max_size l p k v (r : bool) (n : nat) :
  agree c max_size (l, p) -> lru_get k l = None -> n = (if r then 1 else 0)%nat ->
  agree (mkHashCache (list_ c ++ [(fresh c, (k, v))]) (<[k := fresh c]> (map_ c)) (max_size_ c) r n
    (S (fresh c))) max_size (l ++ [(k, v)], r).
Proof.
  intros [E Hn Hk Hm Hf Hp Hx] G ->. apply lru_get_absent in G. cbn in *.
  split; cbn; try done.
  - by rewrite fmap_app, E.
  - rewrite fmap_app. apply NoDup_app. split; [done|]. split; [|apply NoDup_singleton].
    intros i Hi. apply list_elem_of_fmap in Hi as ([j e] & -> & Hj). cbn. rewrite list_elem_of_singleton.
    specialize (Hf _ _ Hj). lia.
  - rewrite fmap_app. apply NoDup_app. split; [done|]. split; [|apply NoDup_singleton].
    intros k' Hk'. cbn. rewrite list_elem_of_singleton. by intros ->.
  - intros k' j. rewrite lookup_insert_Some, Hm. setoid_rewrite elem_of_app.
    setoid_rewrite list_elem_of_singleton. split.
    + intros [[<- <-]|[Ne [v' Hv]]]; [exists v; by right|exists v'; by left].
    + intros [v' [Hv|[= -> -> ->]]]; [right|by left]. split; [|eauto]. intros <-. apply G.
      rewrite <- E. apply (list_elem_of_fmap_2 fst _ (k, v')). by apply (list_elem_of_fmap_2 snd _ (j, (k, v'))).
  - intros i e [Hi|Hi]%elem_of_app; [specialize (Hf _ _ Hi); lia|].
    apply list_elem_of_singleton in Hi as [= -> ->]. lia.
Qed.

Lemma agree_insert c max_size l p k v :
  agree c max_size (l, p) -> lru_get k l = None ->
  agree (Insert k v c) max_size (l ++ [(k, v)], p || too_full max_size (l ++ [(k, v)])).
Proof.
  intros A G. pose proof (fun r n => agree_appended c max_size l p k v r n A G) as Ar.
  pose proof (agree_size _ _ _ (Ar true _ eq_refl)) as Hs. destruct A as [_ _ _ _ _ [Hp Hq] Hx]. cbn in Hp, Hq.
  unfold Insert. unfold cache_size in Hs. cbn [map_ fst] in Hs.
  assert (ebaseed (mkHashCache (list_ c ++ [(fresh c, (k, v))]) (<[k := fresh c]> (map_ c)) (max_size_ c)
    (replacing_ c) (posted c) (S (fresh c))) = too_full max_size (l ++ [(k, v)])) as Ee.
  { unfold ebaseed, too_full, cache_size. cbn [map_ max_size_]. by rewrite Hs, Hx. }
  cbv zeta. rewrite Ee, Hp, Hq. cbn [list_ map_ max_size_ posted fresh replacing_].
  destruct p; cbn; [by apply (Ar true)|].
  destruct (too_full _ _); [by apply (Ar true)|by apply (Ar false)].
Qed.

Lemma lookup_dropped (ns : list node) (m : gmap Key nat) k i :
  foldr (fun n => delete n.2.1) m ns !! k = Some i <-> m !! k = Some i /\ k ∉ fst <$> (snd <$> ns).
Proof.
  induction ns as [|n ns IH]; cbn; [split; [intros; split; [done|apply not_elem_of_nil]|tauto]|].
  rewrite lookup_delete_Some, IH, not_elem_of_cons. split; [intros (? & ? & ?)|intros (? & ? & ?)]; auto.
Qed.

Lemma agree_dropped c max_size l p n q :
  agree c max_size (l, p) -> q = 0%nat ->
  agree (mkHashCache (drop n (list_ c)) (foldr (fun n => delete n.2.1) (map_ c) (take n (list_ c)))
    (max_size_ c) false q (fresh c)) max_size (drop n l, false).
Proof.
  intros [E Hn Hk Hm Hf Hp Hx] ->. cbn in *.
  rewrite <- (take_drop n (list_ c)) in Hn, E. rewrite <- E in Hk. rewrite fmap_app in Hn. rewrite !fmap_app in Hk.
  rewrite fmap_app in E.
  apply NoDup_app in Hn as (_ & _ & Hn), Hk as (_ & Hd & Hk).
  assert (snd <$> drop n (list_ c) = drop n l) as El.
  { rewrite <- E. rewrite <- !fmap_app, take_drop. by rewrite fmap_drop. }
  split; cbn; try done.
  - by rewrite <- El.
  - intros k i. rewrite lookup_dropped, Hm. setoid_rewrite <- (take_drop n (list_ c)) at 1.
    setoid_rewrite elem_of_app. split.
    + intros [(v & [Hin|Hin]) Hk']; [|eauto]. destruct Hk'.
      apply (list_elem_of_fmap_2 fst _ (k, v)). by apply (list_elem_of_fmap_2 snd _ (i, (k, v))).
    + intros [v Hin]. split; [eauto|]. intros Hk'. apply (Hd k Hk').
      apply (list_elem_of_fmap_2 fst _ (k, v)). by apply (list_elem_of_fmap_2 snd _ (i, (k, v))).
  - intros i e Hin. apply (Hf i e). rewrite <- (take_drop n (list_ c)). apply elem_of_app. by right.
Qed.

Lemma agree_replace c max_size l p :
  agree c max_size (l, p) -> 0 <= max_size < 2 ^ 63 -> Z.of_nat (length l) < 2 ^ 63 ->
  match lru_call max_size CReplace (l, p) with
  | Some (_, s) => exists c' n, run_posted c = Some (n, c') /\ agree c' max_size s
  | None => run_posted c = None
  end.
Proof.
  intros A Hx Hl. pose proof (agree_size _ _ _ A) as Hs. cbn [fst] in Hs.
  pose proof (a_pending _ _ _ A) as [Hr Hq]. pose proof (a_max _ _ _ A) as Hm. cbn in Hr, Hq.
  assert (length (list_ c) = length l) as Hll
    by (pose proof (a_entries _ _ _ A) as E; cbn [fst] in E; by rewrite <- E, length_fmap).
  unfold lru_call, run_posted, Replace, cache_size. rewrite Hq. destruct p; [|by exists c, 0].
  unfold cache_size in Hs. cbn [map_ list_ max_size_]. rewrite Hs, Hm, Hll.
  destruct (Z.ltb_spec (Z.of_nat (length l)) max_size) as [Hlt|Hge].
  - assert (u64 (Z.of_nat (length l) - max_size) = Z.of_nat (length l) - max_size + 2 ^ 64) as ->.
    { unfold wrap. rewrite <- (Z.mod_add _ 1), Z.mod_small by lia. lia. }
    destruct (Z.leb_spec (Z.of_nat (length l) - max_size + 2 ^ 64) (Z.of_nat (length l))); [lia|done].
  - rewrite wrap_small by lia. destruct (Z.leb_spec (Z.of_nat (length l) - max_size) (Z.of_nat (length l))); [|lia].
    eexists _, _. split; [done|]. unfold lru_trim, drop_nodes. cbn [list_ map_ max_size_ fresh posted].
    replace (Z.to_nat (Z.of_nat (length l) - max_size)) with (length l - Z.to_nat max_size)%nat by lia.
    pose proof (agree_dropped c max_size l true (length l - Z.to_nat max_size) 0 A eq_refl) as D.
    by rewrite Hm in D.
Qed.

Lemma agree_call a c max_size s :
  agree c max_size s -> fits a s.1 = true -> 0 <= max_size < 2 ^ 63 -> Z.of_nat (length s.1) < 2 ^ 63 ->
  match lru_call max_size a s with
  | Some (r, s') => exists c', call_cache a c = Some (r, c') /\ agree c' max_size s'
  | None => call_cache a c = None
  end.
Proof.
  destruct s as [l p]. intros A F Hx Hl. destruct a as [k|k|k v|k|]; cbn [lru_call call_cache].
  - destruct (agree_look _ _ _ _ k A) as (c' & E & A'). unfold Find. rewrite E.
    unfold lru_look in *. destruct (lru_get k l); by exists c'.
  - destruct (agree_look _ _ _ _ k A) as (c' & E & A'). unfold Locate. rewrite E.
    unfold lru_look in *. destruct (lru_get k l) as [v|] eqn:G; [by exists c'|].
    destruct (Creator k) as [v|]; [|by exists c']. eexists. split; [done|]. by apply agree_insert.
  - apply bool_decide_eq_true in F. eexists. split; [done|]. by apply agree_insert.
  - destruct (agree_erase _ _ _ _ k A) as (c' & -> & A'). by exists c'.
  - pose proof (agree_replace _ _ _ _ A Hx Hl) as Hr. cbn [lru_call] in Hr. destruct p.
    + destruct (_ <? _); [by rewrite Hr|]. destruct Hr as (c' & n & -> & A'). by exists c'.
    + destruct Hr as (c' & n & -> & A'). by exists c'.
Qed.

Lemma length_lru_call a max_size s r s' :
  lru_call max_size a s = Some (r, s') -> (length s'.1 <= S (length s.1))%nat.
Proof.
  assert (forall k (l : lru), (length (lru_erase k l) <= length l)%nat) as He.
  { intros k l. unfold lru_erase. induction l as [|e l IH]; cbn; [lia|]. destruct (negb _); cbn; lia. }
  destruct s as [l p]. destruct a as [k|k|k v|k|]; cbn; unfold lru_look, lru_use;
    try destruct (lru_get k l); try destruct (Creator k); try destruct p; try destruct (_ <? _);
    intros E; simplify_eq/=; unfold lru_trim; len; try pose proof (He k l); lia.
Qed.

(** C32: A cache started empty and used by [Find], [Locate], [Erase], [Insert]
    and posted [Replace], where [Insert] is only called with keys that are not
    there, behaves as a list of entries ordered by their last use: lookups
    return what was stored, [Locate] what [Creator] makes of a key that is not
    there, a posted [Replace] drops the entries used longest ago; and it is
    undefined exactly where a [Replace] meets fewer entries than the limit.
    Without the condition on [Insert], which two threads that locate the same
    key break, the claim is false: [insert_twice]. *)
Theorem HashCache_lru max_size as_ :
  0 <= max_size < 2 ^ 63 -> Z.of_nat (length as_) < 2 ^ 63 ->
  inserts_new max_size as_ ([], false) = true ->
  match lru_calls max_size as_ ([], false) with
  | Some (rs, s) => exists c, call_caches as_ (new_cache max_size) = Some (rs, c) /\ agree c max_size s
  | None => call_caches as_ (new_cache max_size) = None
  end.
Proof.
  intros Hx Hl Hi.
  assert (forall c s, agree c max_size s -> Z.of_nat (length s.1 + length as_) < 2 ^ 63 ->
    inserts_new max_size as_ s = true ->
    match lru_calls max_size as_ s with
    | Some (rs, s') => exists c', call_caches as_ c = Some (rs, c') /\ agree c' max_size s'
    | None => call_caches as_ c = None
    end) as H'.
  { clear Hl Hi. induction as_ as [|a as_ IH]; intros c s A Hs Hi; cbn; [by exists c|].
    cbn [length inserts_new] in *. apply andb_true_iff in Hi as [F Hi].
    pose proof (agree_call a c max_size s A F Hx ltac:(lia)) as Ha.
    destruct (lru_call max_size a s) as [[r s']|] eqn:El; [|by rewrite Ha].
    apply length_lru_call in El. destruct Ha as (c' & Ea & A'). rewrite Ea. cbn.
    specialize (IH c' s' A' ltac:(lia) Hi).
    destruct (lru_calls max_size as_ s') as [[rs s'']|]; cbn; [|by rewrite IH].
    destruct IH as (c'' & -> & A''). by exists c''. }
  apply H'; [|cbn; lia|done]. split; cbn; try done; try apply NoDup_nil_2.
  - intros k i. rewrite lookup_empty. split; [done|]. by intros (v & ?%not_elem_of_nil).
  - by intros i e ?%not_elem_of_nil.
Qed.
End HashCache.

(** ** Examples *)

(** Values are the keys; three entries at most. *)
Definition sample_calls : list (call (Key := nat)) :=
  [CLocate 1; CInsert 2 2; CLocate 3; CFind 1; CLocate 4; CReplace; CFind 2; CFind 1]%nat.

Lemma HashCache_lru_witness :
  match lru_calls 0%nat Some 3 sample_calls ([], false) with
  | Some (rs, s) => exists c, call_caches 0%nat Some sample_calls (new_cache 3) = Some (rs, c) /\ agree c 3 s
  | None => call_caches 0%nat Some sample_calls (new_cache 3) = None
  end /\
  lru_calls 0%nat Some 3 sample_calls ([], false)
    = Some ([Some 1; None; Some 3; Some 1; Some 4; None; Some 0; Some 1]%nat,
        ([(3, 3); (4, 4); (1, 1)]%nat, false)).
Proof.
  split; [apply (HashCache_lru 0%nat Some 3 sample_calls); [lia|cbn; lia|reflexivity]|vm_compute; reflexivity].
Defined.

(** An entry erased between the posting of [Replace] and its run. *)
Example Replace_underflow :
  call_caches 0%nat Some [CLocate 1; CLocate 2; CErase 1; CErase 2; CReplace]%nat (new_cache 1) = None.
Proof. vm_compute. reflexivity. Qed.

(** Two threads that locate a new key at once both insert it: the second entry
    hides the first, which stays in the list. *)
Definition two_locates : list (call (Key := nat) (Value := nat)) :=
  [CFind 1; CFind 1; CInsert 1 1; CInsert 1 1]%nat.

Example insert_twice :
  inserts_new 0%nat Some 3 two_locates ([], false) = false /\
  ((fun r => (length (list_ r.2), cache_size r.2)) <$> call_caches 0%nat Some two_locates (new_cache 3))
    = Some (2%nat, 1).
Proof. vm_compute. done. Qed.
