(* ===== verification/Url.v ===== *)
(** * Urls (src/base3/url.h, src/base3/url.cc, src/base3/charmask.h)

    Taking a url apart and putting it together again in its canonical form,
    escaping of components, and the check of the characters of a url.  The
    comments of url.h write user@password:host, and so does the code. *)

From S2P Require Import Prelude CString StringEncode Http Stl.

(** ** Sets of characters *)

(** [mask_]: eight words of 32 bits. *)
Definition CharMask : Type := list Z.

Definition contains (mask : CharMask) (c : Init.Byte.byte) : bool :=
  negb (Z.land (nth (Z.to_nat (Z.shiftr (bval c) 5)) mask 0)
          (u32 (Z.shiftl 1 (Z.land (bval c) 31))) =? 0).

Definition set (c : Init.Byte.byte) (flag : bool) (mask : CharMask) : CharMask :=
  let i := Z.to_nat (Z.shiftr (bval c) 5) in
  let bit := u32 (Z.shiftl 1 (Z.land (bval c) 31)) in
  if flag then alter (fun w => Z.lor w bit) i mask
  else alter (fun w => Z.land w (u32 (Z.lnot bit))) i mask.

Definition kRFC2396ReservedCharMask : CharMask :=
  [0xffffffff; 0xfc00987d; 0x78000001; 0xb8000001; 0xffffffff; 0xffffffff; 0xffffffff; 0xffffffff].
Definition kValidUrlCharMask : CharMask := [0x0; 0xaffffffa; 0x87ffffff; 0x07fffffe; 0x0; 0x0; 0x0; 0x0].
Definition kSafePathCharMask : CharMask := [0x0; 0x83ffffba; 0x87fffffe; 0x07fffffe; 0x0; 0x0; 0x0; 0x0].

(** ** Escaping of components *)

Definition hex_digit_to_int (c : Init.Byte.byte) : Z :=
  let v := bval c in
  if (97 <=? v) && (v <=? 102) then v - 97 + 10
  else if (65 <=? v) && (v <=? 70) then v - 65 + 10
  else if (48 <=? v) && (v <=? 57) then v - 48
  else -1.

Definition int_to_hex_digit_high (i : Z) : Init.Byte.byte :=
  let i := Z.land i 15 in byt (if i <? 10 then i + 48 else i - 10 + 65).

(** [comp[i]] is a signed [char], and shifts arithmetically. *)
Definition EscapeUrlComponent (comp dest : bytes) : bytes :=
  dest ++ flat_map (fun c =>
    let v := swrap 8 (bval c) in
    if contains kRFC2396ReservedCharMask c
    then ["%"%byte; int_to_hex_digit_high (Z.shiftr v 4); int_to_hex_digit_high (Z.land v 15)]
    else [c]) comp.

(** [memory] is what lies at [comp], of which [len] bytes are the text; the
    digits after a percent sign are not compared with [len].  [None]: read
    past the memory. *)
Fixpoint UnescapeUrlComponent (memory : bytes) (len : nat) (dest : bytes) {struct len}
  : option (bool * bytes) :=
  match len with
  | O => Some (true, dest)
  | S len =>
      match memory with
      | [] => None
      | c :: memory =>
          if Byte.eqb c "%" then
            match memory with
            | [] => None
            | a :: memory =>
                let high := hex_digit_to_int a in
                if high =? -1 then Some (false, dest)
                else
                  match memory with
                  | [] => None
                  | b :: memory =>
                      let low := hex_digit_to_int b in
                      if low =? -1 then Some (false, dest)
                      else UnescapeUrlComponent memory (len - 2)
                             (dest ++ [byt (Z.lor (Z.shiftl high 4) low)])
                  end
            end
          else UnescapeUrlComponent memory len (dest ++ [c])
      end
  end.

(** [UnescapeUrl(url, dest)], and the component of a C string. *)
Definition UnescapeUrl (url dest : bytes) : option (bool * bytes) :=
  UnescapeUrlComponent (c_str url ++ [x00]) (length (c_str url)) dest.

(** [path]: still in front of the first question mark. *)
Fixpoint valid_chars (path : bool) (src : bytes) : bool :=
  match src with
  | [] => true
  | c :: src =>
      let path := path && negb (Byte.eqb c "?") in
      contains (if path then kSafePathCharMask else kValidUrlCharMask) c && valid_chars path src
  end.
Definition ValidateUrlChars (src : bytes) : bool := valid_chars true (c_str src).

(** [Util::FingerPrint]: the two halves, [low] and [high]. *)
Definition finger_step (p : Z * Z) (c : Init.Byte.byte) : Z * Z :=
  let '(low, high) := p in
  let v := swrap 8 (bval c) in
  (u32 (u32 (Z.shiftl low 5) - low + v), u32 (u32 (Z.shiftl high 5) + high + v)).
Definition FingerPrint (s : bytes) : Z :=
  let '(low, high) := fold_left finger_step (c_str s) (0, 0) in
  u64 (Z.shiftl high 32 + low).

(** ** The class *)

Record Url := mkUrl {
  http_ : bool; user_ : bytes; password_ : bytes; host_ : bytes; port_ : Z; path_ : bytes;
  parameter_ : bytes; url_ : bytes; host_url_ : bytes; path_url_ : bytes }.

Definition Clear : Url := mkUrl true [] [] [] (-1) [] [] [] [] [].

Definition Validate (u : Url) : bool :=
  (if bool_decide (host_ u = []) then
     bool_decide (user_ u = []) && bool_decide (password_ u = []) &&
     negb (bool_decide (path_ u = []) && ((port_ u <? 0) || (65536 <=? port_ u)))
   else negb ((port_ u <=? 0) || (65536 <=? port_ u)))
  && negb (bool_decide (path_ u = []) && negb (bool_decide (parameter_ u = []))).

(** The port as [UpdateUrl] writes it. *)
Definition shown_port (u : Url) : bytes :=
  if (0 <? port_ u) && (port_ u <? 65536) &&
     (bool_decide (host_ u = []) || (http_ u && negb (port_ u =? 80))
      || (negb (http_ u) && negb (port_ u =? 443)))
  then ":"%byte :: dec (port_ u) else [].

Definition UpdateUrl (u : Url) : Url :=
  let scheme := if http_ u then bs "http://" else bs "https://" in
  let '(url, host_url) :=
    if bool_decide (host_ u = []) then ([], host_url_ u)
    else
      (scheme ++ (if bool_decide (user_ u = []) && bool_decide (password_ u = []) then []
                  else user_ u ++ bs "@" ++ password_ u ++ bs ":") ++ host_ u,
       scheme ++ host_ u) in
  let rest := path_ u ++ (if bool_decide (parameter_ u = []) then [] else "?"%byte :: parameter_ u) in
  mkUrl (http_ u) (user_ u) (password_ u) (host_ u) (port_ u) (path_ u) (parameter_ u)
    (url ++ shown_port u ++ rest) (host_url ++ shown_port u) (path_url_ u ++ rest).

(** [strnicmp(url, prefix, n) == 0] for a prefix in lower case. *)
Definition starts_like (url prefix : bytes) : bool :=
  bool_decide (map lower (take (length prefix) url) = prefix).

(** The protocol, and where the rest starts; [None]: another protocol. *)
Definition protocol (url : bytes) : option (bool * Z) :=
  if starts_like url (bs "http://") then Some (true, 7)
  else if starts_like url (bs "https://") then Some (false, 8)
  else if negb (str_find (bs "://") url 0 =? npos) then None
  else Some (true, 0).

(** [parta] and [partb]: up to the first slash, and from there on. *)
Definition cut_slash (url : bytes) (pos : Z) : bytes * bytes :=
  let pos1 := find_from "/" url pos in
  if pos1 =? npos then (substr url pos npos, [])
  else (substr url pos (pos1 - pos), substr url pos1 npos).

(** User, and the password with the place of the host; [None]: no colon. *)
Definition cut_user (parta : bytes) : bytes * option (bytes * Z) :=
  let pos1 := find "@" parta in
  if pos1 =? npos then ([], Some ([], 0))
  else
    let user := substr parta 0 pos1 in
    let pos2 := find_from ":" parta pos1 in
    if pos2 =? npos then (user, None)
    else (user, Some (substr parta (pos1 + 1) (pos2 - pos1 - 1), pos2 + 1)).

Definition cut_host (http : bool) (parta : bytes) (pos : Z) : bytes * Z :=
  let pos1 := find_from ":" parta pos in
  let host := substr parta pos (u64 (pos1 - pos)) in
  (host,
   if negb (pos1 =? npos) then atoi (c_str (substr parta (pos1 + 1) npos))
   else if bool_decide (host = []) then port_ Clear
   else if http then 80 else 443).

Definition cut_parameter (partb : bytes) : bytes * bytes :=
  let pos1 := find "?" partb in
  if pos1 =? npos then (partb, [])
  else (substr partb 0 pos1, substr partb (pos1 + 1) npos).

(** [Parse]: its result, and the object afterwards. *)
Definition Parse (text : bytes) : bool * Url :=
  let url := c_str text in
  let partial http user := mkUrl http user [] [] (-1) [] [] url [] [] in
  match protocol url with
  | None => (false, partial true [])
  | Some (http, pos) =>
      let '(parta, partb) := cut_slash url pos in
      match cut_user parta with
      | (user, None) => (false, partial http user)
      | (user, Some (password, pos)) =>
          let '(host, port) := cut_host http parta pos in
          let '(path, parameter) := cut_parameter partb in
          let u := mkUrl http user password (map lower host) port path parameter url [] [] in
          if Validate u then (true, UpdateUrl u) else (false, u)
      end
  end.

(** [Url::Validate(url)], the static one. *)
Definition Validate_text (text : bytes) : bool := Validate (Parse text).2.

(** ** Examples *)

Example parse_full :
  Parse (bs "HTTPS://me@secret:WWW.Example.org:100/a/b.html?q=1")
  = (true, mkUrl false (bs "me") (bs "secret") (bs "www.example.org") 100 (bs "/a/b.html") (bs "q=1")
       (bs "https://me@secret:www.example.org:100/a/b.html?q=1") (bs "https://www.example.org:100")
       (bs "/a/b.html?q=1")).
Proof. vm_compute. reflexivity. Qed.

Example parse_defaults :
  (fun t => let '(b, u) := Parse t in (b, host_ u, port_ u, path_ u, url_ u)) <$>
    [bs "www.google.com"; bs "https://h:443/x?"; bs ":100"; bs "/t.html"; bs "ftp://h/"; bs ""; bs "h?x"]
  = [(true, bs "www.google.com", 80, [], bs "http://www.google.com");
     (true, bs "h", 443, bs "/x", bs "https://h/x");
     (true, [], 100, [], bs ":100"); (true, [], -1, bs "/t.html", bs "/t.html");
     (false, [], -1, [], bs "ftp://h/"); (false, [], -1, [], []);
     (true, bs "h?x", 80, [], bs "http://h?x")].
Proof. vm_compute. reflexivity. Qed.

(** What the canonical form loses: a host with an at-sign behind an empty user,
    a path with a protocol in it behind an empty host, https without a host. *)
Example not_read_back :
  (fun t => let '(b, u) := Parse t in (b, url_ u, (Parse (url_ u)).1)) <$>
    [bs "http://@:h@x:80/"; bs "http:///a://b"]
  = [(true, bs "http://h@x/", false); (true, bs "/a://b", false)] /\
  (fun t => let u := (Parse t).2 in (http_ u, url_ u, (fun u => (http_ u, url_ u)) (Parse (url_ u)).2)) <$>
    [bs "https:///x"]
  = [(false, bs "/x", (true, bs "/x"))].
Proof. vm_compute. done. Qed.

(** The last two digits of [%41] are read although the text ends before them. *)
Example unescape_past_end : UnescapeUrlComponent (bs "a%41") 2 [] = Some (true, bs "aA").
Proof. vm_compute. reflexivity. Qed.

(** ** What the cuts do *)

(** A text falls in two at the first [c]. *)
Definition tail_from (c : Init.Byte.byte) (b : bytes) : Prop := b = [] \/ exists b', b = c :: b'.

Lemma cut_at c (s : bytes) : exists a b, s = a ++ b /\ (c ∉ a) /\ tail_from c b.
Proof.
  destruct (decide (c ∈ s)) as [(a & b & -> & Ha)%list_elem_of_split_l|N].
  - exists a, (c :: b). split_and!; [done|done|right; eauto].
  - exists s, []. rewrite app_nil_r. split_and!; [done|done|by left].
Qed.

Lemma cut_slash_read skip a b : "/"%byte ∉ a -> tail_from "/" b -> size (skip ++ a ++ b) < npos ->
  cut_slash (skip ++ a ++ b) (size skip) = (a, b).
Proof.
  intros Ha Hb L. rewrite !size_app in L. pose proof (size_nonneg skip). pose proof (size_nonneg a).
  pose proof (size_nonneg b). unfold cut_slash. destruct Hb as [->|[b' ->]].
  - rewrite app_nil_r, find_from_none, Z.eqb_refl by done. by rewrite substr_suffix by lia.
  - rewrite find_from_first by done. destruct (Z.eqb_spec (size skip + size a) npos); [lia|].
    rewrite substr_middle by lia. f_equal. rewrite app_assoc.
    apply substr_suffix; [by rewrite size_app|lia].
Qed.

Lemma cut_user_none h : "@"%byte ∉ h -> cut_user h = ([], Some ([], 0)).
Proof. intros H. unfold cut_user. by rewrite find_none, Z.eqb_refl. Qed.

Lemma cut_user_read user pw h : "@"%byte ∉ user -> ":"%byte ∉ pw ->
  size (user ++ "@"%byte :: pw ++ ":"%byte :: h) < npos ->
  cut_user (user ++ "@"%byte :: pw ++ ":"%byte :: h)
  = (user, Some (pw, size (user ++ "@"%byte :: pw ++ [":"%byte]))).
Proof.
  intros Hu Hp L. unfold cut_user. rewrite find_first by done.
  rewrite !size_app, !size_cons, !size_app, !size_cons in *. change (size []) with 0.
  pose proof (size_nonneg user). pose proof (size_nonneg pw). pose proof (size_nonneg h).
  destruct (Z.eqb_spec (size user) npos); [lia|].
  change ("@"%byte :: pw ++ ":"%byte :: h) with (("@"%byte :: pw) ++ ":"%byte :: h).
  rewrite find_from_first by (apply not_elem_of_cons; done). rewrite size_cons.
  destruct (Z.eqb_spec (size user + (1 + size pw)) npos); [lia|].
  rewrite substr_prefix by done. do 3 f_equal; [|lia].
  change (user ++ ("@"%byte :: pw) ++ ":"%byte :: h) with (user ++ ["@"%byte] ++ pw ++ ":"%byte :: h).
  rewrite app_assoc. apply substr_middle; [rewrite size_app; change (size ["@"%byte]) with 1; lia|lia].
Qed.

Lemma cut_user_stuck user rest : "@"%byte ∉ user -> ":"%byte ∉ rest ->
  size (user ++ "@"%byte :: rest) < npos ->
  cut_user (user ++ "@"%byte :: rest) = (user, None).
Proof.
  intros Hu Hr L. unfold cut_user. rewrite find_first by done.
  rewrite size_app, size_cons in L. pose proof (size_nonneg user). pose proof (size_nonneg rest).
  destruct (Z.eqb_spec (size user) npos); [lia|].
  rewrite find_from_none by (apply not_elem_of_cons; done). rewrite Z.eqb_refl.
  by rewrite substr_prefix.
Qed.

(** The port a text of a port, colon included, stands for. *)
Definition port_of_text (http : bool) (host p : bytes) : Z :=
  match p with
  | _ :: digits => atoi (c_str digits)
  | [] => if bool_decide (host = []) then -1 else if http then 80 else 443
  end.

Lemma cut_host_read http skip host p : ":"%byte ∉ host -> tail_from ":" p ->
  size (skip ++ host ++ p) < npos ->
  cut_host http (skip ++ host ++ p) (size skip) = (host, port_of_text http host p).
Proof.
  intros Hh Hp L. rewrite !size_app in L. pose proof (size_nonneg skip). pose proof (size_nonneg host).
  pose proof (size_nonneg p). unfold cut_host. destruct Hp as [->|[p' ->]].
  - rewrite app_nil_r, find_from_none, Z.eqb_refl by done. cbn [negb].
    rewrite substr_suffix; [done|done|]. rewrite wrap_small; unfold npos in *; lia.
  - rewrite find_from_first by done. destruct (Z.eqb_spec (size skip + size host) npos); [lia|].
    cbn [negb port_of_text]. rewrite Z.add_simpl_l, wrap_small by (unfold npos in *; lia).
    rewrite substr_middle by done. do 3 f_equal.
    change (skip ++ host ++ ":"%byte :: p') with (skip ++ host ++ [":"%byte] ++ p').
    rewrite !app_assoc. rewrite size_cons in *.
    apply substr_suffix; [rewrite !size_app; change (size [":"%byte]) with 1; lia|lia].
Qed.

Lemma cut_parameter_read path query : "?"%byte ∉ path -> tail_from "?" query ->
  size (path ++ query) < npos -> cut_parameter (path ++ query) = (path, tail query).
Proof.
  intros Hp Hq L. rewrite size_app in L. pose proof (size_nonneg path). pose proof (size_nonneg query).
  unfold cut_parameter. destruct Hq as [->|[q ->]].
  - by rewrite app_nil_r, find_none, Z.eqb_refl.
  - rewrite find_first by done. destruct (Z.eqb_spec (size path) npos); [lia|].
    rewrite substr_prefix by done. f_equal.
    change (path ++ "?"%byte :: q) with (path ++ ["?"%byte] ++ q). rewrite app_assoc.
    rewrite size_cons in L. apply substr_suffix; [by rewrite size_app|cbn [tail]; lia].
Qed.

(** Nests appends to the right. *)
Ltac flat_app := repeat first [rewrite <- app_assoc | progress cbn [app]].

(** ** What [Parse] makes of the parts of a text *)

Lemma protocol_size text http pos : protocol text = Some (http, pos) ->
  exists scheme t, text = scheme ++ t /\ size scheme = pos.
Proof.
  unfold protocol, starts_like. intros H.
  assert (forall p, map lower (take (length p) text) = p ->
    exists scheme t, text = scheme ++ t /\ size scheme = size p) as L.
  { intros p E. exists (take (length p) text), (drop (length p) text). rewrite take_drop. split; [done|].
    unfold size. rewrite <- E at 2. by rewrite length_map. }
  repeat case_bool_decide; simplify_eq; [by apply L in H0|by apply L in H1|].
  destruct (_ =? _); simplify_eq/=. by exists [], text.
Qed.

Lemma protocol_scheme (http : bool) t :
  protocol ((if http then bs "http://" else bs "https://") ++ t) = Some (http, if http then 7 else 8).
Proof. by destruct http. Qed.

(** The text in front of the host. *)
Definition cred_shape (cred user pw rest : bytes) : Prop :=
  (cred = [] /\ user = [] /\ pw = [] /\ "@"%byte ∉ rest) \/
  (cred = user ++ "@"%byte :: pw ++ [":"%byte] /\ ("@"%byte ∉ user) /\ ":"%byte ∉ pw).

Record parts := mkParts {
  p_scheme : bytes; p_http : bool; p_cred : bytes; p_user : bytes; p_pw : bytes; p_host : bytes;
  p_port : bytes; p_path : bytes; p_query : bytes }.

Record parts_of (p : parts) (text : bytes) : Prop := {
  po_text : text = p_scheme p ++ p_cred p ++ p_host p ++ p_port p ++ p_path p ++ p_query p;
  po_protocol : protocol text = Some (p_http p, size (p_scheme p));
  po_cred : cred_shape (p_cred p) (p_user p) (p_pw p) (p_host p ++ p_port p);
  po_slash : "/"%byte ∉ p_cred p ++ p_host p ++ p_port p;
  po_host : ":"%byte ∉ p_host p;
  po_port : tail_from ":" (p_port p);
  po_path : "?"%byte ∉ p_path p;
  po_rest : tail_from "/" (p_path p ++ p_query p);
  po_query : tail_from "?" (p_query p) }.

Definition url_of_parts (p : parts) (text : bytes) : Url :=
  mkUrl (p_http p) (p_user p) (p_pw p) (map lower (p_host p)) (port_of_text (p_http p) (p_host p) (p_port p))
    (p_path p) (tail (p_query p)) text [] [].

Lemma cut_user_shape cred user pw rest : cred_shape cred user pw rest -> size (cred ++ rest) < npos ->
  cut_user (cred ++ rest) = (user, Some (pw, size cred)).
Proof.
  intros [(-> & -> & -> & H)|(-> & Hu & Hp)] L; [by apply cut_user_none|].
  revert L. flat_app. by apply cut_user_read.
Qed.

Lemma Parse_parts p text : parts_of p (c_str text) -> size (c_str text) < npos ->
  Parse text = let u := url_of_parts p (c_str text) in
    if Validate u then (true, UpdateUrl u) else (false, u).
Proof.
  intros [T P C S H Q A R B] L. unfold Parse. rewrite P.
  assert (c_str text = p_scheme p ++ (p_cred p ++ p_host p ++ p_port p) ++ p_path p ++ p_query p)
    as T' by by rewrite T, <- !app_assoc.
  rewrite T' in L. rewrite T' at 1. rewrite cut_slash_read by done.
  rewrite (size_app (p_scheme p)), (size_app (p_cred p ++ _)) in L.
  pose proof (size_nonneg (p_scheme p)). pose proof (size_nonneg (p_path p ++ p_query p)).
  rewrite (cut_user_shape _ _ _ _ C) by (pose proof (size_nonneg (p_cred p ++ p_host p ++ p_port p)); lia).
  rewrite cut_host_read by (done || (pose proof (size_nonneg (p_cred p ++ p_host p ++ p_port p)); lia)).
  rewrite cut_parameter_read by (done || (pose proof (size_nonneg (p_cred p ++ p_host p ++ p_port p)); lia)).
  done.
Qed.

(** Every text has its parts, unless the protocol is foreign or a password does not end. *)
Lemma parts_exist text : size (c_str text) < npos ->
  (Parse text).1 = false \/ exists p, parts_of p (c_str text).
Proof.
  intros L. destruct (protocol (c_str text)) as [[http pos]|] eqn:P;
    [|left; unfold Parse; by rewrite P].
  destruct (protocol_size _ _ _ P) as (scheme & t & E & <-).
  destruct (cut_at "/" t) as (a & b & -> & Ha & Hb).
  destruct (cut_at "?" b) as (path & query & -> & Hp & Hq).
  destruct (cut_at "@" a) as (user & r & -> & Hu & [->|[r' ->]]).
  - rewrite app_nil_r in *. destruct (cut_at ":" user) as (host & port & -> & Hh & Hport). right.
    exists (mkParts scheme http [] [] [] host port path query).
    split; cbn; [by rewrite E, <- !app_assoc|done|by left|done..].
  - destruct (cut_at ":" r') as (pw & s & -> & Hpw & [->|[s' ->]]).
    + left. unfold Parse. rewrite P, E in *. rewrite app_nil_r in *. rewrite cut_slash_read by done.
      rewrite !size_app in L. pose proof (size_nonneg scheme). pose proof (size_nonneg path).
      pose proof (size_nonneg query). rewrite cut_user_stuck; [done|done|done|]. rewrite size_app. lia.
    + destruct (cut_at ":" s') as (host & port & -> & Hh & Hport). right.
      exists (mkParts scheme http (user ++ "@"%byte :: pw ++ [":"%byte]) user pw host port path query).
      split; cbn; try done.
      * rewrite E. by flat_app.
      * right. done.
      * flat_app. exact Ha.
Qed.

(** ** Accepted urls are well-formed, and canonical ones are read back *)

(** The fields [Parse] fills before [UpdateUrl] writes the three texts. *)
Definition fields (u : Url) : Url :=
  mkUrl (http_ u) (user_ u) (password_ u) (host_ u) (port_ u) (path_ u) (parameter_ u) [] [] [].

Record well_formed (u : Url) : Prop := {
  wf_nul : x00 ∉ user_ u ++ password_ u ++ host_ u ++ path_ u ++ parameter_ u;
  wf_slash : "/"%byte ∉ user_ u ++ password_ u ++ host_ u;
  wf_user : "@"%byte ∉ user_ u;
  wf_password : ":"%byte ∉ password_ u;
  wf_host : ":"%byte ∉ host_ u;
  wf_lower : map lower (host_ u) = host_ u;
  wf_path : tail_from "/" (path_ u);
  wf_question : "?"%byte ∉ path_ u;
  wf_parameter : path_ u = [] -> parameter_ u = [];
  wf_port : - 2 ^ 31 <= port_ u < 2 ^ 31;
  wf_host_port : host_ u <> [] -> 0 < port_ u < 65536;
  wf_no_host : host_ u = [] -> user_ u = [] /\ password_ u = [] /\ (path_ u = [] -> 0 <= port_ u < 65536);
  wf_texts : u = UpdateUrl (fields u) }.

Lemma lower_free d s : (97 <=? bval d) && (bval d <=? 122) = false -> d ∉ s -> d ∉ map lower s.
Proof.
  intros Hd Hs. induction s as [|c s IH]; cbn; [done|].
  apply not_elem_of_cons in Hs as [N Hs]. apply not_elem_of_cons. split; [|auto].
  intros ->. apply N. revert Hd. clear. by destruct c.
Qed.

Lemma lower_lower s : map lower (map lower s) = map lower s.
Proof. rewrite map_map. apply map_ext. by intros []. Qed.

Lemma atoi_range s : - 2 ^ 31 <= atoi s < 2 ^ 31.
Proof. apply (swrap_range 32). lia. Qed.

Lemma port_of_text_range http host p : - 2 ^ 31 <= port_of_text http host p < 2 ^ 31.
Proof.
  destruct p as [|c p]; [|apply atoi_range]. cbn.
  case_bool_decide; [lia|]. destruct http; lia.
Qed.

Lemma Validate_spec u : Validate u = true <->
  (host_ u = [] -> user_ u = [] /\ password_ u = [] /\ (path_ u = [] -> 0 <= port_ u < 65536)) /\
  (host_ u <> [] -> 0 < port_ u < 65536) /\ (path_ u = [] -> parameter_ u = []).
Proof.
  unfold Validate. repeat case_bool_decide; bool_cases; cbn; intuition (discriminate || congruence || lia).
Qed.

Lemma tail_from_app c a b : tail_from c (a ++ b) -> a = [] \/ tail_from c a.
Proof. destruct a as [|d a]; [by left|]. intros [|[b' E]]; [done|]. simplify_eq/=. right. right. eauto. Qed.

Lemma cred_shape_free d cred user pw rest : cred_shape cred user pw rest -> d ∉ cred -> d ∉ user ++ pw.
Proof.
  intros [(-> & -> & -> & _)|(-> & _)]; [done|]. rewrite !elem_of_app, elem_of_cons, elem_of_app. tauto.
Qed.

Lemma UpdateUrl_fields u : fields (UpdateUrl u) = fields u.
Proof. unfold UpdateUrl. by case_bool_decide. Qed.

(** Being well-formed, but for the texts, is a matter of the fields. *)
Lemma parts_well_formed p text : parts_of p text -> x00 ∉ text ->
  Validate (url_of_parts p text) = true -> well_formed (UpdateUrl (url_of_parts p text)).
Proof.
  intros [T P C S H Q A R B] N V. apply Validate_spec in V as (V1 & V2 & V3).
  pose proof (UpdateUrl_fields (url_of_parts p text)) as E.
  destruct (UpdateUrl (url_of_parts p text)) eqn:U. unfold fields in E. injection E as -> -> -> -> -> -> ->.
  rewrite T, !not_elem_of_app in N. destruct N as (_ & N1 & N2 & _ & N3 & N4).
  rewrite !not_elem_of_app in S. destruct S as (S1 & S2 & _).
  apply (cred_shape_free _ _ _ _ _ C), not_elem_of_app in N1, S1.
  assert (x00 ∉ tail (p_query p)) as N5 by (destruct B as [E|[q E]]; rewrite E in *; [done|by apply not_elem_of_cons in N4 as [_ ?]]).
  split; cbn; rewrite ?not_elem_of_app; try done.
  - split_and!; [apply N1..|by apply lower_free|done|done].
  - split_and!; [apply S1..|by apply lower_free].
  - destruct C as [(_ & -> & _)|(_ & ? & _)]; [apply not_elem_of_nil|done].
  - destruct C as [(_ & _ & -> & _)|(_ & _ & ?)]; [apply not_elem_of_nil|done].
  - by apply lower_free.
  - apply lower_lower.
  - by apply tail_from_app in R as [->|]; [left|].
  - apply port_of_text_range.
Qed.

Lemma size_c_str s : size (c_str s) <= size s.
Proof.
  induction s as [|c s IH]; cbn [c_str]; [done|]. rewrite size_cons. pose proof (size_nonneg s).
  destruct (Byte.eqb c x00); [change (size []) with 0; lia|rewrite size_cons; lia].
Qed.

(** What the canonical form can express. *)
Definition canonical (u : Url) : bool :=
  if bool_decide (host_ u = []) then
    http_ u && ((0 <? port_ u) && (port_ u <? 65536) || (port_ u =? -1) && negb (bool_decide (path_ u = [])))
    && (str_find (bs "://") (url_ u) 0 =? npos)
  else
    negb (bool_decide (user_ u = []) && bool_decide (password_ u = []))
    || negb (bool_decide ("@"%byte ∈ host_ u)).

(** Enough of it for the text to fall into the parts it is made of. *)
Definition divisible (u : Url) : bool :=
  if bool_decide (host_ u = []) then http_ u && (str_find (bs "://") (url_ u) 0 =? npos)
  else canonical u.

Lemma canonical_divisible u : canonical u = true -> divisible u = true.
Proof.
  unfold divisible, canonical. case_bool_decide; [|done]. rewrite !andb_true_iff. tauto.
Qed.

(** The parts of the text of a url. *)
Definition shown_parts (u : Url) : parts :=
  let no_host := bool_decide (host_ u = []) in
  mkParts (if no_host then [] else if http_ u then bs "http://" else bs "https://") (http_ u)
    (if no_host || (bool_decide (user_ u = []) && bool_decide (password_ u = [])) then []
     else user_ u ++ "@"%byte :: password_ u ++ [":"%byte])
    (user_ u) (password_ u) (host_ u) (shown_port u) (path_ u)
    (if bool_decide (parameter_ u = []) then [] else "?"%byte :: parameter_ u).

Lemma url_shown u : url_ (UpdateUrl u) =
  let p := shown_parts u in p_scheme p ++ p_cred p ++ p_host p ++ p_port p ++ p_path p ++ p_query p.
Proof.
  unfold UpdateUrl, shown_parts. case_bool_decide as E; cbn; [by rewrite E|].
  flat_app. case_match; flat_app; [done|]. cbn. by flat_app.
Qed.

Lemma shown_port_free d u : isdigit d = false -> d <> "-"%byte -> d <> ":"%byte -> d ∉ shown_port u.
Proof.
  intros Hd Hm Hc. unfold shown_port. case_match; [|apply not_elem_of_nil].
  apply not_elem_of_cons. split; [done|]. intros Hin.
  pose proof (proj1 (Forall_forall _ _) (dec_digits (port_ u)) _ Hin) as [?|?]; congruence.
Qed.

Lemma shown_port_read u : well_formed u -> canonical u = true ->
  port_of_text (http_ u) (host_ u) (shown_port u) = port_ u.
Proof.
  intros [N _ _ _ _ _ _ _ _ R HP HN _] C. unfold canonical in C. unfold shown_port.
  assert (0 < port_ u < 65536 -> atoi (c_str (dec (port_ u))) = port_ u) as A.
  { intros ?. unfold atoi. rewrite c_str_id, atol_dec, i32_small; [done|lia..|].
    intros Hin. pose proof (proj1 (Forall_forall _ _) (dec_digits (port_ u)) _ Hin) as [?|?]; done. }
  destruct (decide (host_ u = [])) as [E|E].
  - rewrite E, bool_decide_true in * by done. apply andb_true_iff in C as [C _].
    apply andb_true_iff in C as [_ C]. apply orb_true_iff in C as [C|C].
    + rewrite C. cbn. apply A. by zbool.
    + apply andb_true_iff in C as [C _]. zbool. by rewrite C.
  - rewrite bool_decide_false in * by done. specialize (HP E).
    destruct (Z.ltb_spec 0 (port_ u)); [|lia]. destruct (Z.ltb_spec (port_ u) 65536); [|lia]. cbn [andb orb].
    destruct (http_ u); cbn [negb andb orb].
    + destruct (Z.eqb_spec (port_ u) 80) as [->|]; cbn; [by rewrite bool_decide_false|by apply A].
    + destruct (Z.eqb_spec (port_ u) 443) as [->|]; cbn; [by rewrite bool_decide_false|by apply A].
Qed.

Lemma protocol_none text : str_find (bs "://") text 0 = npos -> tail_from ":" text \/ tail_from "/" text ->
  protocol text = Some (true, 0).
Proof.
  intros F H. unfold protocol, starts_like.
  assert (forall p, map lower (take (S (length p)) text) <> "h"%byte :: p) as L
    by (intros p; destruct H as [[->|[t ->]]|[->|[t ->]]]; done).
  rewrite (bool_decide_false _ (L (bs "ttp://"))), (bool_decide_false _ (L (bs "ttps://"))), F.
  by rewrite Z.eqb_refl.
Qed.

Lemma protocol_foreign text : str_find (bs "://") text 0 <> npos ->
  tail_from ":" text \/ tail_from "/" text -> protocol text = None.
Proof.
  intros F H. unfold protocol, starts_like.
  assert (forall p, map lower (take (S (length p)) text) <> "h"%byte :: p) as L
    by (intros p; destruct H as [[->|[t ->]]|[->|[t ->]]]; done).
  rewrite (bool_decide_false _ (L (bs "ttp://"))), (bool_decide_false _ (L (bs "ttps://"))).
  by destruct (Z.eqb_spec (str_find (bs "://") text 0) npos).
Qed.

Lemma shown_port_tail u : tail_from ":" (shown_port u).
Proof. unfold shown_port. destruct (_ && _); [right; eauto|by left]. Qed.

(** The text of a url without a host. *)
Lemma shown_tail u : tail_from "/" (path_ u) -> (path_ u = [] -> parameter_ u = []) ->
  let p := shown_parts u in
  tail_from "/" (p_path p ++ p_query p) /\
  (tail_from ":" (p_port p ++ p_path p ++ p_query p) \/ tail_from "/" (p_port p ++ p_path p ++ p_query p)).
Proof.
  intros A B. cbn. assert (tail_from "/" (path_ u ++ if bool_decide (parameter_ u = []) then []
    else "?"%byte :: parameter_ u)) as R.
  { destruct A as [A|[p A]]; rewrite A; [|right; cbn; eauto]. left. by rewrite (B A), bool_decide_true. }
  split; [done|]. destruct (shown_port_tail u) as [->|[b ->]]; [by right|left; right; cbn; eauto].
Qed.

Lemma shown_parts_of u : well_formed u -> divisible u = true -> parts_of (shown_parts u) (url_ u).
Proof.
  intros W C. pose proof (url_shown (fields u)) as T. rewrite <- (wf_texts u W) in T.
  change (shown_parts (fields u)) with (shown_parts u) in T.
  destruct W as [_ S U P H _ A Q B _ _ E _]. rewrite !not_elem_of_app in S. destruct S as (S1 & S2 & S3).
  unfold divisible, canonical in C. split; try done.
  - rewrite T. cbn. destruct (decide (host_ u = [])) as [Eh|Eh].
    + rewrite Eh, bool_decide_true in * by done. apply andb_true_iff in C as [-> D]. rewrite T in D. cbn in *.
      rewrite Eh, bool_decide_true in * by done. apply Z.eqb_eq in D.
      by apply protocol_none; [|apply (shown_tail u)].
    + rewrite bool_decide_false by done. rewrite protocol_scheme. by destruct (http_ u).
  - cbn. destruct (bool_decide (host_ u = []) || _) eqn:D; [left|by right].
    apply orb_true_iff in D as [D|D].
    + apply bool_decide_eq_true in D. destruct (E D) as (-> & -> & _). rewrite D. split_and!; try done.
      by apply shown_port_free.
    + rewrite D in C. apply andb_true_iff in D as [D1 D2]. apply bool_decide_eq_true in D1, D2.
      split_and!; try done. apply not_elem_of_app. split; [|by apply shown_port_free].
      case_bool_decide as D; [rewrite D; apply not_elem_of_nil|]. by apply negb_true_iff, bool_decide_eq_false in C.
  - cbn. rewrite !not_elem_of_app. split_and!; [|done|by apply shown_port_free].
    destruct (bool_decide (host_ u = []) || _); [apply not_elem_of_nil|]. rewrite not_elem_of_app, not_elem_of_cons, not_elem_of_app.
    split_and!; try done. by apply not_elem_of_cons; split; [|apply not_elem_of_nil].
  - apply shown_port_tail.
  - by apply (shown_tail u).
  - cbn. destruct (bool_decide (parameter_ u = [])); [by left|right; eauto].
Qed.

Lemma shown_no_nul u : x00 ∉ user_ u ++ password_ u ++ host_ u ++ path_ u ++ parameter_ u ->
  let p := shown_parts u in x00 ∉ p_scheme p ++ p_cred p ++ p_host p ++ p_port p ++ p_path p ++ p_query p.
Proof.
  rewrite !not_elem_of_app. intros (Hu & Hp & Hh & Ha & Hq). cbn.
  assert (forall c, c <> x00 -> x00 ∉ [c]) as S by (intros c N; apply not_elem_of_cons; split; [done|apply not_elem_of_nil]).
  split_and!; [| |done|by apply shown_port_free|done|].
  - destruct (bool_decide _); [apply not_elem_of_nil|]. by destruct (http_ u); apply (bool_decide_unpack (x00 ∉ _)); vm_compute.
  - destruct (_ || _); [apply not_elem_of_nil|]. rewrite not_elem_of_app, not_elem_of_cons, not_elem_of_app.
    by split_and!; [| | |apply S].
  - destruct (bool_decide _); [apply not_elem_of_nil|]. by apply not_elem_of_cons.
Qed.


Lemma shown_c_str u : well_formed u -> c_str (url_ u) = url_ u.
Proof.
  intros W. apply c_str_id. rewrite (wf_texts u W), url_shown. change (shown_parts (fields u)) with (shown_parts u).
  by apply shown_no_nul, (wf_nul u W).
Qed.

(** Without a host the text names no protocol. *)
Lemma hostless_protocol u : well_formed u -> host_ u = [] ->
  protocol (url_ u) = if str_find (bs "://") (url_ u) 0 =? npos then Some (true, 0) else None.
Proof.
  intros W E. pose proof (url_shown (fields u)) as T. rewrite <- (wf_texts u W) in T.
  change (shown_parts (fields u)) with (shown_parts u) in T. pose proof (shown_tail u (wf_path u W) (wf_parameter u W)) as [_ R].
  assert (tail_from ":" (url_ u) \/ tail_from "/" (url_ u)) as R'.
  { rewrite T. cbn in *. rewrite E, bool_decide_true in * by done. exact R. }
  destruct (Z.eqb_spec (str_find (bs "://") (url_ u) 0) npos); [by apply protocol_none|by apply protocol_foreign].
Qed.

Lemma Parse_http text u http pos : Parse text = (true, u) -> protocol (c_str text) = Some (http, pos) -> http_ u = http.
Proof.
  unfold Parse. intros Q P. rewrite P in Q. destruct (cut_slash _ _) as [parta partb].
  destruct (cut_user _) as [user [[pw pos']|]]; [|done]. destruct (cut_host _ _ _) as [host port].
  destruct (cut_parameter _) as [path query]. set (v := mkUrl _ _ _ _ _ _ _ _ _ _) in Q.
  destruct (Validate v); [|done]. injection Q as <-. pose proof (UpdateUrl_fields v) as F.
  by apply (f_equal http_) in F.
Qed.

(** What becomes of a text that falls into its parts: only the port can change. *)
Lemma Parse_divisible u : size (url_ u) < npos -> well_formed u -> divisible u = true ->
  Parse (url_ u) =
    let v := mkUrl (http_ u) (user_ u) (password_ u) (host_ u)
      (port_of_text (http_ u) (host_ u) (shown_port u)) (path_ u) (parameter_ u) (url_ u) [] [] in
    if Validate v then (true, UpdateUrl v) else (false, v).
Proof.
  intros L W C. pose proof (shown_parts_of u W C) as P. pose proof (shown_c_str u W) as E.
  rewrite (Parse_parts (shown_parts u)) by by rewrite E. cbn zeta. rewrite E.
  assert (url_of_parts (shown_parts u) (url_ u)
    = mkUrl (http_ u) (user_ u) (password_ u) (host_ u) (port_of_text (http_ u) (host_ u) (shown_port u))
        (path_ u) (parameter_ u) (url_ u) [] []) as ->; [|done].
  unfold url_of_parts. cbn. rewrite (wf_lower u W). f_equal. by case_bool_decide as Q; [rewrite Q|].
Qed.

Lemma Parse_shown u : size (url_ u) < npos -> well_formed u -> canonical u = true ->
  Parse (url_ u) = (true, u).
Proof.
  intros L W C. rewrite Parse_divisible by auto using canonical_divisible. rewrite (shown_port_read u W C).
  cbn zeta. destruct (Validate _) eqn:V.
  - f_equal. rewrite (wf_texts u W) at 9. done.
  - apply not_true_iff_false in V. destruct V. apply Validate_spec. cbn. by destruct W.
Qed.

(** The port of a url that is read back can be told from its text. *)
Lemma shown_port_told u : well_formed u -> host_ u = [] ->
  port_of_text (http_ u) (host_ u) (shown_port u) = port_ u ->
  (0 <? port_ u) && (port_ u <? 65536) || (port_ u =? -1) && negb (bool_decide (path_ u = [])) = true.
Proof.
  intros W E. unfold shown_port. rewrite E, bool_decide_true by done. cbn [orb andb].
  rewrite andb_true_r. destruct (_ && _); [done|]. cbn [port_of_text orb].
  rewrite bool_decide_true by done. intros Q. symmetry in Q. rewrite Q. cbn.
  apply negb_true_iff, bool_decide_eq_false. intros P. apply (wf_no_host u W) in E as (_ & _ & E).
  specialize (E P). lia.
Qed.

(** An at-sign in a host that no user is in front of is taken for the end of one. *)
Lemma at_sign_lost u : size (url_ u) < npos -> well_formed u -> host_ u <> [] ->
  user_ u = [] -> password_ u = [] -> "@"%byte ∈ host_ u -> Parse (url_ u) <> (true, u).
Proof.
  intros L W Eh Eu Ep (a & b & Hh & Ha)%list_elem_of_split_l Q.
  pose proof (url_shown (fields u)) as T. rewrite <- (wf_texts u W) in T.
  change (shown_parts (fields u)) with (shown_parts u) in T. cbn in T.
  rewrite Eu, Ep, bool_decide_false in T by done. cbn [orb] in T. rewrite !bool_decide_true in T by done.
  cbn [andb app] in T. set (rest := path_ u ++ _) in T. set (scheme := if http_ u then _ else _) in T.
  pose proof (proj1 (shown_tail u (wf_path u W) (wf_parameter u W))) as R. cbn in R. fold rest in R.
  pose proof (wf_slash u W) as S. rewrite !not_elem_of_app in S. destruct S as (_ & _ & S).
  pose proof (wf_host u W) as H. pose proof (wf_question u W) as A. pose proof (shown_c_str u W) as N.
  assert (protocol (url_ u) = Some (http_ u, size scheme)) as P
    by (rewrite T; unfold scheme; rewrite protocol_scheme; by destruct (http_ u)).
  rewrite Hh, not_elem_of_app, not_elem_of_cons in H. destruct H as (_ & _ & H).
  unfold shown_port in T. destruct (_ && _).
  - rewrite (Parse_parts (mkParts scheme (http_ u) (a ++ "@"%byte :: b ++ [":"%byte]) a b (dec (port_ u)) []
      (path_ u) (if bool_decide (parameter_ u = []) then [] else "?"%byte :: parameter_ u))) in Q.
    + cbn zeta in Q. destruct (Validate _); [|done]. injection Q as Q. apply (f_equal fields) in Q.
      rewrite UpdateUrl_fields in Q. apply (f_equal host_) in Q. cbn in Q. rewrite Hh in Q.
      assert ("@"%byte ∉ map lower (dec (port_ u))) as F.
      { apply lower_free; [done|]. intros D.
        pose proof (proj1 (Forall_forall _ _) (dec_digits (port_ u)) _ D) as [?|?]; done. }
      rewrite Q in F. apply F. rewrite elem_of_app, elem_of_cons. tauto.
    + rewrite N. assert (forall d, isdigit d = false -> d <> "-"%byte -> d ∉ dec (port_ u)) as F.
      { intros d Hd Hm D. pose proof (proj1 (Forall_forall _ _) (dec_digits (port_ u)) _ D) as [?|?]; congruence. }
      split; cbn; try done.
      * rewrite T, Hh. by flat_app.
      * right. done.
      * rewrite app_nil_r. rewrite Hh in S. revert S. rewrite !elem_of_app, !elem_of_cons, elem_of_app, elem_of_cons.
        intros S D. destruct D as [[D|[D|[D|[D|D]]]]|D]; try tauto; try done; [by apply not_elem_of_nil in D|by apply F in D].
      * by apply F.
      * by left.
      * destruct (bool_decide (parameter_ u = [])); [by left|right; eauto].
    + by rewrite N.
  - unfold Parse in Q. rewrite N, P, T in Q. cbn [app] in Q. rewrite T in L. cbn [app] in L.
    rewrite cut_slash_read in Q by done. rewrite Hh in Q. rewrite cut_user_stuck in Q; [done|done|done|].
    rewrite Hh, size_app, (size_app (a ++ _)) in L. pose proof (size_nonneg scheme). pose proof (size_nonneg rest). lia.
Qed.

(** C33: The text of a well-formed url (one that [Parse] could have made) is
    parsed to the same url exactly when the url is [canonical].  A url with a
    host is, unless it has neither user nor password and there is an at-sign in
    its host; a url without a host is if it is an http url, has a port between
    1 and 65535, or no port but a path, and has no [://] in its text.  So what
    [Parse] makes of a url is stable where it is canonical, and
    [http://@:h@x:80/], [https:///x] and [http:///a://b] are accepted but what
    becomes of them is refused or read as something else ([not_read_back]). *)
Theorem Parse_canonical u : size (url_ u) < npos -> well_formed u ->
  Parse (url_ u) = (true, u) <-> canonical u = true.
Proof.
  intros L W. split; [|by apply Parse_shown]. intros Q. unfold canonical. case_bool_decide as E.
  - assert (http_ u && (str_find (bs "://") (url_ u) 0 =? npos) = true) as D.
    { assert (protocol (url_ u) = Some (true, 0) /\ (str_find (bs "://") (url_ u) 0 =? npos) = true) as [P F].
      { pose proof (hostless_protocol u W E) as P. destruct (_ =? npos); [done|].
        unfold Parse in Q. by rewrite (shown_c_str u W), P in Q. }
      rewrite F, andb_true_r. apply (Parse_http _ _ true 0 Q). by rewrite (shown_c_str u W), P. }
    rewrite Parse_divisible in Q; [|done|done|unfold divisible; by rewrite bool_decide_true].
    cbn zeta in Q. destruct (Validate _); [|done]. injection Q as Q. apply (f_equal fields) in Q.
    rewrite UpdateUrl_fields in Q. apply (f_equal port_) in Q. cbn in Q.
    apply andb_true_iff in D as [-> ->]. by rewrite (shown_port_told u W E Q).
  - apply orb_true_iff. rewrite !negb_true_iff, andb_false_iff, !bool_decide_eq_false.
    destruct (decide (user_ u = [])) as [Eu|]; [|tauto]. destruct (decide (password_ u = [])) as [Ep|]; [|tauto].
    right. intros Ha. by destruct (at_sign_lost u L W E Eu Ep Ha).
Qed.

Lemma Validate_UpdateUrl u : Validate (UpdateUrl u) = Validate u.
Proof.
  change (Validate (fields (UpdateUrl u)) = Validate (fields u)). by rewrite UpdateUrl_fields.
Qed.

(** The static [Validate] says whether [Parse] accepts. *)
Lemma Validate_text_Parse text : Validate_text text = (Parse text).1.
Proof.
  unfold Validate_text, Parse. destruct (protocol _) as [[http pos]|]; [|done].
  destruct (cut_slash _ _) as [parta partb]. destruct (cut_user parta) as [user [[pw pos']|]].
  - destruct (cut_host _ _ _) as [host port]. destruct (cut_parameter partb) as [path parameter].
    set (u := mkUrl _ _ _ _ _ _ _ _ _ _). destruct (Validate u) eqn:V; [|exact V].
    cbn. by rewrite Validate_UpdateUrl.
  - unfold Validate. cbn. by rewrite andb_false_r.
Qed.

(** ** Escaping *)

(** The characters the comment above [kRFC2396ReservedCharMask] leaves alone. *)
Definition unreserved : bytes :=
  bs "-_.!~*'()0123456789ABCDEFGHIJKLMNOPQRSTUVWXYZabcdefghijklmnopqrstuvwxyz".

Lemma reserved_spec c : contains kRFC2396ReservedCharMask c = negb (bool_decide (c ∈ unreserved)).
Proof. by destruct c. Qed.

(** A path may hold what is unreserved but a tilde. *)
Lemma unreserved_safe c : contains kRFC2396ReservedCharMask c = false ->
  c <> "%"%byte /\ c <> x00 /\ c <> "?"%byte /\
  contains kSafePathCharMask c = negb (bool_decide ("~"%byte = c)).
Proof.
  intros H. split_and!; [by intros ->..|]. revert H. by destruct c.
Qed.

(** The digits of an escaped byte, checked for every byte. *)
Definition digits_fine (c : Init.Byte.byte) : bool :=
  let v := swrap 8 (bval c) in
  let a := int_to_hex_digit_high (Z.shiftr v 4) in let b := int_to_hex_digit_high (Z.land v 15) in
  (negb (hex_digit_to_int a =? -1) && negb (hex_digit_to_int b =? -1)
   && Byte.eqb (byt (Z.lor (Z.shiftl (hex_digit_to_int a) 4) (hex_digit_to_int b))) c)
  && (valid_chars true [a; b] && forallb (fun x => negb (Byte.eqb x "?") && negb (Byte.eqb x x00)) [a; b]).

Lemma digits_fine_all c : digits_fine c = true.
Proof. by destruct c. Qed.

Lemma eqb_byte_false a b : negb (Byte.eqb a b) = true -> a <> b.
Proof. by destruct (eqb_byte_spec a b). Qed.

Lemma escaped_digits c :
  let v := swrap 8 (bval c) in
  let a := int_to_hex_digit_high (Z.shiftr v 4) in let b := int_to_hex_digit_high (Z.land v 15) in
  hex_digit_to_int a <> -1 /\ hex_digit_to_int b <> -1 /\
  byt (Z.lor (Z.shiftl (hex_digit_to_int a) 4) (hex_digit_to_int b)) = c /\
  valid_chars true [a; b] = true /\ a <> "?"%byte /\ b <> "?"%byte /\ a <> x00 /\ b <> x00.
Proof.
  pose proof (digits_fine_all c) as H. unfold digits_fine in H. cbn [forallb] in H.
  rewrite !andb_true_iff in H. destruct H as (((Ha & Hb) & Hc) & Hv & (Ha1 & Ha2) & (Hb1 & Hb2) & _).
  apply negb_true_iff, Z.eqb_neq in Ha, Hb. apply Byte.byte_dec_bl in Hc.
  split_and!; first [done|by apply eqb_byte_false].
Qed.

(** What a byte is escaped to. *)
Definition escaped (c : Init.Byte.byte) : bytes :=
  let v := swrap 8 (bval c) in
  if contains kRFC2396ReservedCharMask c
  then ["%"%byte; int_to_hex_digit_high (Z.shiftr v 4); int_to_hex_digit_high (Z.land v 15)]
  else [c].

Lemma EscapeUrlComponent_cons c s : EscapeUrlComponent (c :: s) [] = escaped c ++ EscapeUrlComponent s [].
Proof. done. Qed.

Lemma Unescape_escaped c rest len dest :
  UnescapeUrlComponent (escaped c ++ rest) (length (escaped c) + len) dest
  = UnescapeUrlComponent rest len (dest ++ [c]).
Proof.
  unfold escaped. destruct (contains _ _) eqn:R; cbn [app length Nat.add UnescapeUrlComponent].
  - destruct (escaped_digits c) as (Ha & Hb & E & _). rewrite !(proj2 (Z.eqb_neq _ _)) by done.
    rewrite E. do 2 f_equal. lia.
  - destruct (unreserved_safe c R) as (N & _). destruct (eqb_byte_spec c "%"%byte); [done|].
    done.
Qed.

Lemma Unescape_Escape s rest dest :
  UnescapeUrlComponent (EscapeUrlComponent s [] ++ rest) (length (EscapeUrlComponent s [])) dest
  = Some (true, dest ++ s).
Proof.
  revert dest. induction s as [|c s IH]; intros dest; [by rewrite app_nil_r|].
  rewrite EscapeUrlComponent_cons, <- app_assoc, length_app, Unescape_escaped, IH, <- app_assoc. done.
Qed.

Lemma Escape_no_nul s : x00 ∉ EscapeUrlComponent s [].
Proof.
  induction s as [|c s IH]; [apply not_elem_of_nil|]. rewrite EscapeUrlComponent_cons, not_elem_of_app.
  split; [|done]. unfold escaped. destruct (contains _ _) eqn:R.
  - destruct (escaped_digits c) as (_ & _ & _ & _ & _ & _ & Ha & Hb).
    rewrite !not_elem_of_cons. split_and!; try done. apply not_elem_of_nil.
  - destruct (unreserved_safe c R) as (_ & N & _). apply not_elem_of_cons. split; [done|apply not_elem_of_nil].
Qed.

Lemma valid_escaped s : valid_chars true (EscapeUrlComponent s []) = negb (bool_decide ("~"%byte ∈ s)).
Proof.
  induction s as [|c s IH]; [done|]. rewrite EscapeUrlComponent_cons.
  assert (forall s' c', c' <> "?"%byte -> valid_chars true (c' :: s')
    = contains kSafePathCharMask c' && valid_chars true s') as V.
  { intros s' c' N. cbn. by destruct (eqb_byte_spec c' "?"%byte). }
  assert (bool_decide ("~"%byte ∈ c :: s) = bool_decide ("~"%byte = c) || bool_decide ("~"%byte ∈ s)) as ->.
  { rewrite <- bool_decide_or. apply bool_decide_ext. by rewrite elem_of_cons. }
  unfold escaped. destruct (contains kRFC2396ReservedCharMask c) eqn:R; cbn [app].
  - destruct (escaped_digits c) as (_ & _ & _ & D & Ha & Hb & _). rewrite !V, IH by done.
    rewrite !V in D by done. apply andb_true_iff in D as [-> D]. apply andb_true_iff in D as [-> _].
    by rewrite (bool_decide_false ("~"%byte = c)) by by intros <-.
  - destruct (unreserved_safe c R) as (_ & _ & N & S). by rewrite V, S, IH, negb_orb.
Qed.

(** Unescaping undoes the escaping of a component, whatever bytes it holds and
    whatever follows it; escaping touches exactly the characters the comment
    does not list, and leaves characters of a url only, unless there is a
    tilde, which the second table does not have. *)
Theorem Escape_Unescape s rest dest :
  UnescapeUrlComponent (EscapeUrlComponent s [] ++ rest) (length (EscapeUrlComponent s [])) dest
    = Some (true, dest ++ s) /\
  UnescapeUrl (EscapeUrlComponent s []) dest = Some (true, dest ++ s) /\
  (forall c, contains kRFC2396ReservedCharMask c = negb (bool_decide (c ∈ unreserved))) /\
  ValidateUrlChars (EscapeUrlComponent s []) = negb (bool_decide ("~"%byte ∈ s)).
Proof.
  unfold UnescapeUrl, ValidateUrlChars. rewrite c_str_id by apply Escape_no_nul. split_and!.
  - apply Unescape_Escape.
  - apply Unescape_Escape.
  - apply reserved_spec.
  - apply valid_escaped.
Qed.

(** ** Fingerprints *)

Lemma finger_step_low p c : 0 <= p.1 < 2 ^ 32 -> (finger_step p c).1 = u32 (p.1 * 31 + swrap 8 (bval c)).
Proof.
  destruct p as [low high]. cbn. intros _. unfold wrap. rewrite Z.shiftl_mul_pow2 by lia.
  rewrite <- Zplus_mod_idemp_l, Zminus_mod_idemp_l, Zplus_mod_idemp_l. f_equal. lia.
Qed.

Lemma finger_step_range p c : 0 <= (finger_step p c).1 < 2 ^ 32.
Proof. destruct p. apply wrap_range. lia. Qed.

Lemma finger_low_inj s p q : 0 <= p.1 < 2 ^ 32 -> 0 <= q.1 < 2 ^ 32 ->
  (fold_left finger_step s p).1 = (fold_left finger_step s q).1 -> p.1 = q.1.
Proof.
  revert p q. induction s as [|c s IH]; intros p q Hp Hq E; [done|].
  apply IH in E; [|apply finger_step_range..]. rewrite !finger_step_low in E by done.
  apply (mul_wrap_inj 32 31 3186588639); [lia|done..|]. unfold wrap in *.
  assert (forall x, (x * 31 + swrap 8 (bval c) - swrap 8 (bval c)) mod 2 ^ 32 = (x * 31) mod 2 ^ 32) as A
    by (intros x; f_equal; lia).
  rewrite <- (A p.1), <- (A q.1), <- (Zminus_mod_idemp_l (p.1 * 31 + _)), E, Zminus_mod_idemp_l. done.
Qed.

Lemma finger_low_range s : 0 <= (fold_left finger_step s (0, 0)).1 < 2 ^ 32.
Proof. induction s as [|c s _] using rev_ind; [done|]. rewrite fold_left_app. apply finger_step_range. Qed.

Lemma FingerPrint_low s : x00 ∉ s -> FingerPrint s mod 2 ^ 32 = (fold_left finger_step s (0, 0)).1.
Proof.
  intros N. unfold FingerPrint. rewrite c_str_id by done. pose proof (finger_low_range s).
  destruct (fold_left finger_step s (0, 0)) as [low high]. unfold wrap. cbn [fst] in *.
  rewrite Z.mod_mod_divide by by exists (2 ^ 32).
  rewrite Z.shiftl_mul_pow2, Z.add_comm, Z_mod_plus_full by lia. by apply Z.mod_small.
Qed.

Lemma signed_inj c d : swrap 8 (bval c) = swrap 8 (bval d) -> c = d.
Proof.
  intros E%(f_equal (wrap 8)). rewrite !wrap_swrap, !wrap_small in E by (lia || apply bval_range).
  by rewrite <- (byt_bval c), <- (byt_bval d), E.
Qed.

(** Texts that differ in one character have different fingerprints. *)
Lemma FingerPrint_one_change a b c d : x00 ∉ a ++ c :: b -> x00 ∉ a ++ d :: b ->
  FingerPrint (a ++ c :: b) = FingerPrint (a ++ d :: b) -> c = d.
Proof.
  intros Nc Nd E%(f_equal (fun z => z mod 2 ^ 32)). rewrite !FingerPrint_low, !fold_left_app in E by done.
  cbn [fold_left] in E. apply finger_low_inj in E; [|apply finger_step_range..].
  rewrite !finger_step_low in E by apply finger_low_range. apply signed_inj.
  pose proof (swrap_range 8 (bval c) ltac:(lia)). pose proof (swrap_range 8 (bval d) ltac:(lia)).
  unfold wrap in E. revert E. generalize ((fold_left finger_step a (0, 0)).1 * 31) as k. intros k E.
  pose proof (Z.div_mod (k + swrap 8 (bval c)) (2 ^ 32) ltac:(lia)).
  pose proof (Z.div_mod (k + swrap 8 (bval d)) (2 ^ 32) ltac:(lia)). lia.
Qed.

(** ** Witnesses *)

Definition sample_url : bytes := bs "HTTPS://me@secret:WWW.Example.org:100/a/b.html?q=1".


Lemma Parse_canonical_witness :
  url_ (Parse sample_url).2 = bs "https://me@secret:www.example.org:100/a/b.html?q=1" /\
  Parse (url_ (Parse sample_url).2) = (true, (Parse sample_url).2).
Proof.
  split; [by vm_compute|]. apply (Parse_canonical (Parse sample_url).2); [by vm_compute| |by vm_compute].
  split; try by apply (bool_decide_unpack _); vm_compute.
  - right. eexists. by vm_compute.
  - split; by vm_compute.
Defined.
