(* ===== verification/Escape.v ===== *)
(** * Escaping for pages, scripts and queries (src/base3/escape.h)

    The functors as functions of the text, which is shorter than 2^31, as their
    [int] counters need, and readers of what they write: the decoders of
    [StringEncode], and of string literals of JavaScript and JSON. *)

From S2P Require Import Prelude CString StringEncode Stl.

(** ** The functors *)

Definition LF : Init.Byte.byte := x0a.
Definition CR : Init.Byte.byte := x0d.
Definition BS : Init.Byte.byte := x08.
Definition FF : Init.Byte.byte := x0c.
Definition TAB : Init.Byte.byte := x09.
Definition VT : Init.Byte.byte := x0b.
Definition quot : Init.Byte.byte := x22.

(** [switch (in[i])]: the first case that matches, or the character itself. *)
Fixpoint switch (cases : list (Init.Byte.byte * bytes)) (c : Init.Byte.byte) : bytes :=
  match cases with
  | [] => [c]
  | (k, out) :: cases => if Byte.eqb c k then out else switch cases c
  end.

Definition pre_cases : list (Init.Byte.byte * bytes) :=
  [("&"%byte, bs "&amp;"); (quot, bs "&quot;"); ("'"%byte, bs "&#39;"); ("<"%byte, bs "&lt;");
   (">"%byte, bs "&gt;")].
Definition html_cases : list (Init.Byte.byte * bytes) :=
  pre_cases ++ [(CR, bs " "); (LF, bs " "); (VT, bs " "); (FF, bs " "); (TAB, bs " ")].
Definition javascript_cases : list (Init.Byte.byte * bytes) :=
  [(quot, ["\"%byte; quot]); ("'"%byte, bs "\'"); ("\"%byte, bs "\\"); (CR, bs "\r"); (LF, bs "\n");
   (BS, bs "\b"); ("&"%byte, bs "\x26"); ("<"%byte, bs "\x3c"); (">"%byte, bs "\x3e");
   ("="%byte, bs "\x3d")].
Definition json_cases : list (Init.Byte.byte * bytes) :=
  [(quot, ["\"%byte; quot]); ("\"%byte, bs "\\"); ("/"%byte, bs "\/"); (BS, bs "\b"); (FF, bs "\f");
   (LF, bs "\n"); (CR, bs "\r"); (TAB, bs "\t")].

Definition HtmlEscape (text : bytes) : bytes := flat_map (switch html_cases) text.
Definition PreEscape (text : bytes) : bytes := flat_map (switch pre_cases) text.
Definition JavascriptEscape (text : bytes) : bytes := flat_map (switch javascript_cases) text.
Definition JsonEscape (text : bytes) : bytes := flat_map (switch json_cases) text.

(** The loop of [XmlEscape]; [None]: out of fuel. *)
Fixpoint xml_escape_loop (fuel : nat) (out : bytes) (pos : Z) : option bytes :=
  match fuel with
  | O => None
  | S fuel =>
      let pos := str_find (bs "&nbsp;") out pos in
      if pos =? npos then Some out
      else xml_escape_loop fuel (take (Z.to_nat pos) out ++ bs "&#160;" ++ drop (Z.to_nat pos + 6) out) (pos + 6)
  end.
Definition XmlEscape (text : bytes) : option bytes := xml_escape_loop (S (length text)) text 0.

Definition _safe_characters : list Z :=
  [0x00000000; 0x03fff702; 0x87fffffe; 0x47fffffe; 0x00000000; 0x00000000; 0x00000000; 0x00000000].

Definition hex_upper (d : Z) : Init.Byte.byte := byt (if d <? 10 then d + 48 else d - 10 + 65).

Definition query_escaped (c : Init.Byte.byte) : bytes :=
  let v := bval c in
  if Byte.eqb c " " then bs "+"
  else if negb (Z.land (nth (Z.to_nat (Z.shiftr v 5)) _safe_characters 0) (Z.shiftl 1 (Z.land v 31)) =? 0)
  then [c]
  else ["%"%byte; hex_upper (Z.shiftr v 4); hex_upper (Z.land v 15)].

(** The buffer has [int max_string_length] bytes.  [None]: it cannot be made, or
    is too small for what is written. *)
Definition UrlQueryEscape (text : bytes) : option bytes :=
  let max_string_length := i32 (size text * 3 + 1) in
  let out := flat_map query_escaped text in
  if max_string_length <? size out + 1 then None else Some out.

(** ** Readers of literals *)

(** The value of a hexadecimal digit, in either case. *)
Definition hex_value (c : Init.Byte.byte) : option Z := digit_value 16 c.

(** What follows the opening quote of a JavaScript literal: its value, and what
    follows the closing quote. *)
Fixpoint js_literal (quote : Init.Byte.byte) (s : bytes) : option (bytes * bytes) :=
  let add c (r : option (bytes * bytes)) := (fun p => (c :: p.1, p.2)) <$> r in
  match s with
  | [] => None
  | c :: s =>
      if Byte.eqb c quote then Some ([], s)
      else if Byte.eqb c CR || Byte.eqb c LF then None
      else if Byte.eqb c "\" then
        match s with
        | [] => None
        | e :: s =>
            if Byte.eqb e "n" then add LF (js_literal quote s)
            else if Byte.eqb e "r" then add CR (js_literal quote s)
            else if Byte.eqb e "b" then add BS (js_literal quote s)
            else if Byte.eqb e "x" then
              match s with
              | a :: b :: s =>
                  match hex_value a, hex_value b with
                  | Some h, Some l => add (byt (16 * h + l)) (js_literal quote s)
                  | _, _ => None
                  end
              | _ => None
              end
            else add e (js_literal quote s)
        end
      else add c (js_literal quote s)
  end.

(** The escapes of a JSON string, but for [\u]. *)
Definition json_unescape (e : Init.Byte.byte) : option Init.Byte.byte :=
  if Byte.eqb e quot || Byte.eqb e "\" || Byte.eqb e "/" then Some e
  else if Byte.eqb e "b" then Some BS else if Byte.eqb e "f" then Some FF
  else if Byte.eqb e "n" then Some LF else if Byte.eqb e "r" then Some CR
  else if Byte.eqb e "t" then Some TAB else None.

(** Characters below 32 may not stand in a JSON string. *)
Fixpoint json_string (s : bytes) : option (bytes * bytes) :=
  match s with
  | [] => None
  | c :: s =>
      if Byte.eqb c quot then Some ([], s)
      else if bval c <? 32 then None
      else if Byte.eqb c "\" then
        match s with
        | [] => None
        | e :: s =>
            c ← json_unescape e; r ← json_string s; Some (c :: r.1, r.2)
        end
      else r ← json_string s; Some (c :: r.1, r.2)
  end.

(** The characters JSON strings have an escape for, or need none. *)
Definition json_plain (c : Init.Byte.byte) : bool :=
  (32 <=? bval c) || bool_decide (c ∈ [BS; FF; LF; CR; TAB]).

(** ** Examples *)

Example escapes :
  HtmlEscape (bs "<a>" ++ [LF] ++ bs "'&'") = bs "&lt;a&gt; &#39;&amp;&#39;" /\
  JavascriptEscape (bs "a='\'" ++ [CR]) = bs "a\x3d\'\\\'\r" /\
  XmlEscape (bs "a&nbsp;&nbsp;b&nbsp") = Some (bs "a&#160;&#160;b&nbsp") /\
  UrlQueryEscape (bs "a b:c/d@e") = Some (bs "a+b%3Ac/d%40e") /\
  JsonEscape (bs "a/b" ++ [TAB]) = bs "a\/b\t".
Proof. vm_compute. auto 10. Qed.

(** A control character without an escape of its own makes no JSON. *)
Example json_control : json_string (JsonEscape (bs "a" ++ [x01]) ++ [quot]) = None.
Proof. vm_compute. reflexivity. Qed.

(** ** Every byte is read back *)

Lemma js_literal_step quote c t : quote = quot \/ quote = "'"%byte ->
  js_literal quote (switch javascript_cases c ++ t) = (fun p => (c :: p.1, p.2)) <$> js_literal quote t.
Proof. intros [-> | ->]; by destruct c. Qed.

Lemma js_literal_read quote s rest : quote = quot \/ quote = "'"%byte ->
  js_literal quote (JavascriptEscape s ++ quote :: rest) = Some (s, rest).
Proof.
  intros Hq. induction s as [|c s IH]; [by destruct Hq as [-> | ->]|].
  cbn [JavascriptEscape flat_map]. rewrite <- app_assoc, js_literal_step by done.
  change (flat_map _ s) with (JavascriptEscape s). by rewrite IH.
Qed.

Lemma json_string_step c t :
  json_string (switch json_cases c ++ t)
  = if json_plain c then r ← json_string t; Some (c :: r.1, r.2) else None.
Proof. by destruct c. Qed.

Lemma json_string_read s rest :
  json_string (JsonEscape s ++ quot :: rest) = if forallb json_plain s then Some (s, rest) else None.
Proof.
  induction s as [|c s IH]; [done|]. cbn [JsonEscape flat_map forallb].
  rewrite <- app_assoc, json_string_step. change (flat_map _ s) with (JsonEscape s). rewrite IH.
  by destruct (json_plain c), (forallb json_plain s).
Qed.

(** What is read of a character that [HtmlEscape] wrote. *)
Definition spaced (c : Init.Byte.byte) : Init.Byte.byte :=
  if bool_decide (c ∈ [CR; LF; VT; FF; TAB]) then " "%byte else c.

Lemma xml_decode_number fuel r t : 1 < r ->
  xml_decode_loop (S fuel) r (bs "&#39;" ++ t) = "'"%byte :: xml_decode_loop fuel (r - 1) t.
Proof.
  intros Hr.
  change (bs "&#39;" ++ t) with ("&"%byte :: "#"%byte :: "3"%byte :: "9"%byte :: ";"%byte :: t).
  cbn [xml_decode_loop]. rewrite (proj2 (Z.leb_gt _ _)) by lia. change (negb (Byte.eqb "&" "&")) with false.
  repeat match goal with |- context [starts_with ?s ?p] =>
    let b := eval lazy in (starts_with s p) in change (starts_with s p) with b end.
  cbv iota. cbn [drop].
  change (strtoul (c_str ("3"%byte :: "9"%byte :: ";"%byte :: t)) 10) with (39, ";"%byte :: c_str t).
  cbv iota. replace (length (c_str ("3"%byte :: "9"%byte :: ";"%byte :: t)) - length (";"%byte :: c_str t))%nat
    with 2%nat by (cbn; lia).
  cbn [drop]. change (Byte.eqb ";" ";") with true.
  unfold utf8_encode. by rewrite (proj2 (Z.leb_le 1 r)) by lia.
Qed.

Lemma pre_byte c :
  (c = "'"%byte /\ switch pre_cases c = bs "&#39;") \/
  (unsafe XML_UNSAFE c = true /\ switch pre_cases c = entity (bs "&apos;") c) \/
  (unsafe XML_UNSAFE c = false /\ switch pre_cases c = [c]).
Proof. destruct c; first [by left|by right; left|by right; right]. Qed.

Lemma pre_decode c fuel r t : 1 < r ->
  xml_decode_loop (S fuel) r (switch pre_cases c ++ t) = c :: xml_decode_loop fuel (r - 1) t.
Proof.
  intros Hr. destruct (pre_byte c) as [[-> ->]|[[U ->]|[U ->]]].
  - by apply xml_decode_number.
  - by apply xml_decode_entity.
  - by apply xml_decode_plain.
Qed.

Lemma html_byte c :
  (spaced c = c /\ switch html_cases c = switch pre_cases c) \/
  (spaced c = " "%byte /\ switch html_cases c = bs " ").
Proof. destruct c; first [by left|by right]. Qed.

Lemma html_byte_decode c fuel r t : 1 < r ->
  xml_decode_loop (S fuel) r (switch html_cases c ++ t) = spaced c :: xml_decode_loop fuel (r - 1) t.
Proof.
  intros Hr. destruct (html_byte c) as [[-> ->]|[-> ->]]; [by apply pre_decode|by apply xml_decode_plain].
Qed.

(** An encoding that is taken back byte by byte is taken back. *)
Lemma xml_decode_each f g :
  (forall c fuel r t, 1 < r ->
     xml_decode_loop (S fuel) r (f c ++ t) = g c :: xml_decode_loop fuel (r - 1) t) ->
  (forall c, (1 <= length (f c))%nat) ->
  forall s room, size s < room -> xml_decode room (flat_map f s) = map g s.
Proof.
  intros Hf L s room Hr. unfold xml_decode. pose proof (size_nonneg s).
  rewrite (proj2 (Z.leb_gt _ _)) by lia.
  assert (length s <= length (flat_map f s))%nat as Hl.
  { clear Hr. induction s as [|c s IH]; [done|]. cbn. rewrite length_app. pose proof (L c).
    specialize (IH (size_nonneg s)). lia. }
  revert room Hr Hl. generalize (length (flat_map f s)) as fuel. clear H. induction s as [|c s IH].
  - by intros [].
  - intros [|fuel] room Hr Hl; cbn in Hl; [lia|]. rewrite size_cons in Hr. pose proof (size_nonneg s).
    cbn [flat_map map]. rewrite Hf by lia. f_equal. apply IH; lia.
Qed.

(** ** Queries *)

Lemma query_byte c :
  (c = " "%byte /\ query_escaped c = bs "+") \/
  (query_escaped c = [c] /\ c <> "+"%byte /\ c <> "%"%byte) \/
  (exists a b, query_escaped c = ["%"%byte; a; b] /\ hex_pair a b = c).
Proof.
  destruct c; try (by left); try (by right; left; split_and!); right; right; eexists _, _; by split.
Qed.

Lemma url_decode_query s r : size s < r -> url_decode_loop r (flat_map query_escaped s) = s.
Proof.
  revert r. induction s as [|c s IH]; intros r Hr; [done|]. rewrite size_cons in Hr.
  pose proof (size_nonneg s). cbn [flat_map].
  specialize (IH (r - 1) ltac:(lia)). set (t := flat_map query_escaped s) in *.
  destruct (query_byte c) as [[-> ->]|[(-> & N & M)|(a & b & -> & <-)]];
    change (bs "+") with ["+"%byte]; cbn [app url_decode_loop]; room_left.
  - by rewrite IH.
  - destruct (eqb_byte_spec c "+"%byte); [done|].
    destruct t as [|a [|b t]]; try by rewrite IH. destruct (eqb_byte_spec c "%"%byte); [done|]. by rewrite IH.
  - change (Byte.eqb "%" "+") with false. change (Byte.eqb "%" "%") with true. cbv iota. by rewrite IH.
Qed.

Lemma size_query s : size s <= size (flat_map query_escaped s) <= size s * 3.
Proof.
  induction s as [|c s IH]; [done|]. cbn [flat_map]. rewrite size_app, size_cons.
  assert (1 <= size (query_escaped c) <= 3); [|lia].
  destruct (query_byte c) as [[_ ->]|[(-> & _)|(a & b & -> & _)]]; unfold size; cbn; lia.
Qed.

Lemma UrlQueryEscape_fits s : size s < 715827882 ->
  UrlQueryEscape s = Some (flat_map query_escaped s).
Proof.
  intros Hs. unfold UrlQueryEscape. pose proof (size_query s). pose proof (size_nonneg s).
  rewrite i32_small by lia. by rewrite (proj2 (Z.ltb_ge _ _)) by lia.
Qed.

(** ** [XmlEscape] replaces every occurrence *)

(** The text with each [&nbsp;] replaced, from the left. *)
Fixpoint replace_nbsp (s : bytes) : bytes :=
  match s with
  | [] => []
  | c :: s' =>
      match s with
      | a1 :: a2 :: a3 :: a4 :: a5 :: a6 :: t =>
          if bool_decide ([a1; a2; a3; a4; a5; a6] = bs "&nbsp;") then bs "&#160;" ++ replace_nbsp t
          else c :: replace_nbsp s'
      | _ => c :: replace_nbsp s'
      end
  end.

Lemma replace_nbsp_match t : replace_nbsp (bs "&nbsp;" ++ t) = bs "&#160;" ++ replace_nbsp t.
Proof. reflexivity. Qed.

Lemma replace_nbsp_skip c s : starts_with (c :: s) (bs "&nbsp;") = false ->
  replace_nbsp (c :: s) = c :: replace_nbsp s.
Proof.
  intros H. cbn [replace_nbsp]. destruct s as [|a2 [|a3 [|a4 [|a5 [|a6 s]]]]]; try done.
  rewrite bool_decide_false; [done|]. intros E. unfold starts_with in H.
  rewrite bool_decide_true in H; [done|exact E].
Qed.

(** Where the search fails nothing is replaced; where it finds, what lies before is kept. *)
Lemma replace_nbsp_find s i : 0 <= i -> i + size s < npos ->
  (str_find_at (bs "&nbsp;") s i = npos /\ replace_nbsp s = s) \/
  exists a t, s = a ++ bs "&nbsp;" ++ t /\ str_find_at (bs "&nbsp;") s i = i + size a /\
    replace_nbsp s = a ++ bs "&#160;" ++ replace_nbsp t.
Proof.
  revert i. induction s as [|c s IH]; intros i Hi Hs; [by left|].
  rewrite size_cons in Hs. cbn [str_find_at]. destruct (starts_with _ _) eqn:E.
  - right. apply bool_decide_eq_true in E. exists [], (drop 6 (c :: s)).
    assert (c :: s = bs "&nbsp;" ++ drop 6 (c :: s)) as Es by (rewrite <- E at 1; by rewrite take_drop).
    split_and!; [done|change (size []) with 0; lia|]. rewrite Es at 1. by rewrite replace_nbsp_match.
  - rewrite replace_nbsp_skip by done.
    destruct (IH (i + 1)) as [[-> ->]|(a & t & -> & -> & ->)]; [lia|lia|by left|right].
    exists (c :: a), t. split_and!; [done|rewrite size_cons; lia|done].
Qed.

Lemma str_find_behind p kept s : str_find p (kept ++ s) (size kept) = str_find_at p s (size kept).
Proof.
  unfold str_find. pose proof (size_nonneg s). rewrite size_app, (proj2 (Z.ltb_ge _ _)) by lia.
  unfold size at 1. by rewrite Nat2Z.id, drop_app_length.
Qed.

Lemma xml_escape_loop_spec fuel kept s : (length s < fuel)%nat -> size kept + size s < npos ->
  xml_escape_loop fuel (kept ++ s) (size kept) = Some (kept ++ replace_nbsp s).
Proof.
  revert kept s. induction fuel as [|fuel IH]; intros kept s Hf Hs; [lia|]. cbn [xml_escape_loop].
  pose proof (size_nonneg kept). pose proof (size_nonneg s).
  rewrite str_find_behind.
  destruct (replace_nbsp_find s (size kept)) as [[-> ->]|(a & t & -> & -> & ->)]; [lia|lia|by rewrite Z.eqb_refl|].
  rewrite !size_app in Hs. change (size (bs "&nbsp;")) with 6 in Hs. pose proof (size_nonneg a).
  pose proof (size_nonneg t). destruct (Z.eqb_spec (size kept + size a) npos); [lia|].
  replace (take _ _ ++ _) with ((kept ++ a ++ bs "&#160;") ++ t).
  - replace (size kept + size a + 6) with (size (kept ++ a ++ bs "&#160;"))
      by (rewrite !size_app; change (size (bs "&#160;")) with 6; lia).
    rewrite IH; [by rewrite <- !app_assoc| |].
    + rewrite !length_app in Hf. cbn in Hf. lia.
    + rewrite !size_app. change (size (bs "&#160;")) with 6. lia.
  - assert (Z.to_nat (size kept + size a) = length (kept ++ a)) as -> by (rewrite length_app; unfold size; lia).
    rewrite !(app_assoc kept a), take_app_length, drop_app_add. by rewrite <- !app_assoc.
Qed.

(** What the functors write is read back by what it is written for: pages give
    the text, with blanks for line ends in the one case; a query gives the text;
    literals of JavaScript end at the quote behind them, and give the text, as
    JSON strings do unless there is a control character without an escape.  The
    entity for a space is replaced wherever it stands. *)
Theorem escapes_undone s :
  (forall room, size s < room -> xml_decode room (PreEscape s) = s) /\
  (forall room, size s < room -> xml_decode room (HtmlEscape s) = map spaced s) /\
  (size s < 715827882 ->
     (fun q => s_url_decode q) <$> UrlQueryEscape s = Some s) /\
  (forall quote rest, quote = quot \/ quote = "'"%byte ->
     js_literal quote (JavascriptEscape s ++ quote :: rest) = Some (s, rest)) /\
  (forall rest, json_string (JsonEscape s ++ quot :: rest)
     = if forallb json_plain s then Some (s, rest) else None) /\
  (size s < npos -> XmlEscape s = Some (replace_nbsp s)).
Proof.
  split_and!.
  - intros room Hr. rewrite <- (map_id s) at 2. unfold PreEscape.
    apply xml_decode_each; [by apply pre_decode| |done].
    intros c. destruct c; cbn; lia.
  - intros room Hr. apply xml_decode_each; [by apply html_byte_decode| |done].
    intros c. destruct c; cbn; lia.
  - intros Hs. rewrite UrlQueryEscape_fits by done. cbn. unfold s_url_decode, url_decode, url_decode_room.
    pose proof (size_query s). pose proof (size_nonneg s). rewrite (proj2 (Z.leb_gt _ _)) by lia.
    f_equal. apply url_decode_query. lia.
  - intros. by apply js_literal_read.
  - apply json_string_read.
  - intros Hs. apply (xml_escape_loop_spec _ []); [lia|done].
Qed.

Lemma escapes_undone_witness :
  xml_decode 6 (PreEscape (bs "<'&>")) = bs "<'&>" /\
  s_url_decode <$> UrlQueryEscape (bs "a b&c") = Some (bs "a b&c") /\
  js_literal quot (JavascriptEscape (bs "</script>") ++ quot :: bs ";") = Some (bs "</script>", bs ";").
Proof.
  split_and!.
  - apply (proj1 (escapes_undone (bs "<'&>"))). by vm_compute.
  - apply (proj1 (proj2 (proj2 (escapes_undone (bs "a b&c"))))). by vm_compute.
  - apply (proj1 (proj2 (proj2 (proj2 (escapes_undone (bs "</script>")))))). by left.
Defined.
