(* ===== verification/ThreadPool.v ===== *)
(** * The pool of threads (src/base3/threadpool.h, src/base3/threadpool.cc)

    [ThreadPool]: workers, each a thread with a [MessageQueue], and an iterator
    that goes round them.  Each function is one step of the pool; what the
    threads of the workers do in between is the step [Work].  Of a worker the
    pool sees the queue, how busy it is and whether it was closed. *)

From S2P Require Import Prelude.

Section ThreadPool.
Context {Message : Type}.
(** Whether the thread of the n-th worker can be started: boost throws if not. *)
Context (starts : nat -> bool).

(** [w_id] stands for the address; [w_log] is what was ever posted to it. *)
Record Worker := mkWorker {
  w_id : nat; w_queue : list Message; w_busy : Z; w_quit : bool; w_log : list Message }.

(** [i_] points to a worker, or is [end()] ([None]). *)
Record ThreadPool := mkThreadPool {
  max_size_ : Z; message_count_ : Z; workers_ : list Worker; i_ : option nat; next_id : nat }.

(** [Undefined]: an iterator to a worker that is gone, or [end()], is used. *)
Inductive outcome (A : Type) := Done (a : A) | Throws | Undefined.
#[global] Arguments Done {A} a.
#[global] Arguments Throws {A}.
#[global] Arguments Undefined {A}.

Definition bind {A B} (r : outcome A) (f : A -> outcome B) : outcome B :=
  match r with Done a => f a | Throws => Throws | Undefined => Undefined end.
#[local] Notation "x <- r ; k" := (bind r (fun x => k)) (at level 100, r at next level, right associativity).

Definition set_workers (ws : list Worker) (p : ThreadPool) : ThreadPool :=
  mkThreadPool (max_size_ p) (message_count_ p) ws (i_ p) (next_id p).
Definition set_i (i : option nat) (p : ThreadPool) : ThreadPool :=
  mkThreadPool (max_size_ p) (message_count_ p) (workers_ p) i (next_id p).
Definition add_count (n : Z) (p : ThreadPool) : ThreadPool :=
  mkThreadPool (max_size_ p) (i32 (message_count_ p + n)) (workers_ p) (i_ p) (next_id p).

Definition pool_size (p : ThreadPool) : Z := Z.of_nat (length (workers_ p)).

(** [workers_.begin()], and the worker an iterator points to with what follows it. *)
Definition begin (p : ThreadPool) : option nat := w_id <$> head (workers_ p).
Fixpoint from (i : nat) (ws : list Worker) : list Worker :=
  match ws with
  | [] => []
  | w :: ws' => if (w_id w =? i)%nat then ws else from i ws'
  end.

(** [*i_++], after a turn from [end()] to [begin()]. *)
Definition next_worker (p : ThreadPool) : outcome (Worker * ThreadPool) :=
  let i := match i_ p with None => begin p | Some i => Some i end in
  match i with
  | None => Undefined
  | Some i =>
      match from i (workers_ p) with
      | w :: rest => Done (w, set_i (w_id <$> head rest) p)
      | [] => Undefined
      end
  end.

Definition Create (p : ThreadPool) : outcome (nat * ThreadPool) :=
  let n := next_id p in
  if starts n then
    Done (n, mkThreadPool (max_size_ p) (message_count_ p) (workers_ p ++ [mkWorker n [] 0 false []])
               (i_ p) (S n))
  else Throws.

(** The search of [GetIdle] over [c] workers: an idle one, or the least busy of
    them with how busy it is. *)
Fixpoint search (c : nat) (best : option nat) (min_busy : Z) (p : ThreadPool)
  : outcome (option nat * option nat * ThreadPool) :=
  match c with
  | O => Done (None, best, p)
  | S c =>
      r <- next_worker p;
      let '(w, p) := r in
      if w_busy w =? 0 then Done (Some (w_id w), best, p)
      else if w_busy w <? min_busy then search c (Some (w_id w)) (w_busy w) p
      else search c best min_busy p
  end.

(** The worker a message goes to. *)
Definition GetIdle (p : ThreadPool) : outcome (nat * ThreadPool) :=
  let worker_count := length (workers_ p) in
  r <- search worker_count None 0xffff p;
  let '(idle, best, p) := r in
  match idle with
  | Some w => Done (w, p)
  | None =>
      if Z.of_nat worker_count <? max_size_ p then Create p
      else
        match best with
        | Some w => Done (w, p)
        | None =>
            match begin p with
            | Some w => Done (w, set_i (Some w) p)
            | None => Undefined
            end
        end
  end.

(** [MessageQueue::Post] of the worker [n]. *)
Definition give (n : nat) (ms : list Message) (w : Worker) : Worker :=
  if (w_id w =? n)%nat then mkWorker (w_id w) (w_queue w ++ ms) (w_busy w) (w_quit w) (w_log w ++ ms) else w.

Definition Post (m : Message) (p : ThreadPool) : outcome ThreadPool :=
  r <- GetIdle p;
  let '(w, p) := r in Done (add_count 1 (set_workers (map (give w [m]) (workers_ p)) p)).

Definition PostRange (ms : list Message) (p : ThreadPool) : outcome ThreadPool :=
  r <- GetIdle p;
  let '(w, p) := r in
  Done (add_count (Z.of_nat (length ms)) (set_workers (map (give w ms) (workers_ p)) p)).

(** A worker leaves the list; it is closed, joined and deleted.  [size] is a
    [size_t]. *)
Fixpoint shrink (size : Z) (ws : list Worker) : list Worker :=
  match ws with
  | [] => []
  | w :: ws =>
      match w_queue w with
      | [] => let size := u64 (size - 1) in if size =? 0 then ws else shrink size ws
      | _ => w :: shrink size ws
      end
  end.
Definition Shrunk (size : Z) (p : ThreadPool) : ThreadPool := set_workers (shrink size (workers_ p)) p.

Fixpoint create_all (n : nat) (p : ThreadPool) : outcome ThreadPool :=
  match n with
  | O => Done p
  | S n => r <- Create p; create_all n r.2
  end.

Definition set_size (size max_size : Z) (p : ThreadPool) : outcome ThreadPool :=
  let current := pool_size p in
  p <- (if size <? current then Done (Shrunk size p)
        else if current <? size then create_all (Z.to_nat (size - current)) p else Done p);
  Done (mkThreadPool (if max_size =? 0 then max_size_ p else max_size) (message_count_ p)
          (workers_ p) (i_ p) (next_id p)).

(** The constructor. *)
Definition new_pool (init_size max_size : Z) : outcome ThreadPool :=
  p <- set_size init_size 0 (mkThreadPool max_size 0 [] None 0);
  Done (set_i (begin p) p).

Definition close (w : Worker) : Worker := mkWorker (w_id w) (w_queue w) (w_busy w) true (w_log w).
Definition Stop (p : ThreadPool) : ThreadPool := set_workers (map close (workers_ p)) p.

(** Joining a thread waits until it was closed: [Join] and the destructor come
    back when every worker was. *)
Definition joins (p : ThreadPool) : bool := forallb w_quit (workers_ p).

(** The worker [n] has run its first [k] messages and says how busy it is. *)
Definition work (n k : nat) (busy : Z) (w : Worker) : Worker :=
  if (w_id w =? n)%nat then mkWorker (w_id w) (drop k (w_queue w)) busy (w_quit w) (w_log w) else w.

(** ** Going round *)

Definition ids (ws : list Worker) : list nat := map w_id ws.

(** The iterator stands in front of [b]. *)
Definition stands (p : ThreadPool) (a b : list Worker) : Prop :=
  workers_ p = a ++ b /\ i_ p = w_id <$> head b.

Record pool_ok (p : ThreadPool) : Prop := {
  ok_nodup : NoDup (ids (workers_ p));
  ok_fresh : Forall (fun n => (n < next_id p)%nat) (ids (workers_ p));
  ok_stands : exists a b, stands p a b }.

Lemma from_middle a w b : NoDup (ids (a ++ w :: b)) -> from (w_id w) (a ++ w :: b) = w :: b.
Proof.
  induction a as [|c a IH]; cbn; [by rewrite Nat.eqb_refl|].
  intros [Hc Ha]%NoDup_cons. rewrite (proj2 (Nat.eqb_neq _ _)); [by apply IH|].
  intros E. apply Hc. rewrite E. unfold ids. rewrite map_app. apply elem_of_app. right. by left.
Qed.

Lemma next_worker_at p a w b : NoDup (ids (workers_ p)) -> stands p a (w :: b) ->
  next_worker p = Done (w, set_i (w_id <$> head b) p).
Proof.
  intros N [E Hi]. unfold next_worker. rewrite Hi. cbn. rewrite E in *. by rewrite from_middle.
Qed.

Lemma next_worker_end p w b : NoDup (ids (workers_ p)) -> workers_ p = w :: b -> i_ p = None ->
  next_worker p = Done (w, set_i (w_id <$> head b) p).
Proof.
  intros N E Hi. unfold next_worker, begin. rewrite Hi, E. cbn. by rewrite Nat.eqb_refl.
Qed.

(** The least busy of some workers, starting from the best so far. *)
Definition better (best : option nat * Z) (w : Worker) : option nat * Z :=
  if w_busy w <? best.2 then (Some (w_id w), w_busy w) else best.

Definition busy_all (ws : list Worker) : Prop := Forall (fun w => w_busy w <> 0) ws.

Lemma set_i_i p : set_i (i_ p) p = p.
Proof. by destruct p. Qed.

(** Busy workers are passed by. *)
Lemma search_pass b k best m p a d : NoDup (ids (workers_ p)) -> stands p a (b ++ d) -> busy_all b ->
  search (length b + k) best m p =
  let r := fold_left better b (best, m) in search k r.1 r.2 (set_i (w_id <$> head d) p).
Proof.
  revert best m p a. induction b as [|w b IH]; intros best m p a N S B.
  - cbn. destruct S as [_ S]. cbn in S. by rewrite <- S, set_i_i.
  - apply Forall_cons in B as [Bw B]. cbn [length Nat.add search].
    rewrite (next_worker_at p a w (b ++ d)) by done. cbn [bind].
    rewrite (proj2 (Z.eqb_neq _ _)) by done.
    assert (stands (set_i (w_id <$> head (b ++ d)) p) (a ++ [w]) (b ++ d)) as S'.
    { destruct S as [E _]. split; [|done]. cbn. by rewrite E, <- app_assoc. }
    cbn zeta. cbn [fold_left].
    change (better (best, m) w) with (if w_busy w <? m then (Some (w_id w), w_busy w) else (best, m)).
    destruct (w_busy w <? m); by rewrite (IH _ _ (set_i _ p) _ N S' B).
Qed.

(** An idle one is taken. *)
Lemma search_hit k best m p a w d : NoDup (ids (workers_ p)) -> stands p a (w :: d) -> w_busy w = 0 ->
  search (S k) best m p = Done (Some (w_id w), best, set_i (w_id <$> head d) p).
Proof.
  intros N S B. cbn. rewrite (next_worker_at p a w d) by done. cbn. by rewrite (proj2 (Z.eqb_eq _ _)).
Qed.

(** At the end the search goes on at the beginning. *)
Lemma search_wrap k best m p : NoDup (ids (workers_ p)) -> i_ p = None -> workers_ p <> [] ->
  search (S k) best m p = search (S k) best m (set_i (begin p) p).
Proof.
  intros N Hi Hw. destruct (workers_ p) as [|w b] eqn:E; [done|]. cbn [search].
  rewrite (next_worker_end p w b) by (done || by rewrite E).
  rewrite (next_worker_at (set_i (begin p) p) [] w b); [done| |].
  - cbn. by rewrite E.
  - split; [exact E|]. cbn. unfold begin. by rewrite E.
Qed.

(** The second part of a round, from the end of the list. *)
Lemma search_second k best m p l d : NoDup (ids (workers_ p)) -> i_ p = None -> workers_ p = l ++ d ->
  busy_all l -> (0 < length l + k)%nat -> workers_ p <> [] ->
  search (length l + k) best m p =
  let r := fold_left better l (best, m) in search k r.1 r.2 (set_i (match l with [] => begin p | _ => w_id <$> head d end) p).
Proof.
  intros N Hi E B L Hw. destruct (length l + k)%nat as [|n] eqn:En; [lia|].
  rewrite search_wrap, <- En by done.
  rewrite (search_pass l k best m (set_i (begin p) p) [] d); [|done| |done].
  - cbn zeta. destruct l; [|done]. cbn in E |- *. unfold begin. by rewrite E.
  - split; [exact E|]. cbn. unfold begin. by rewrite E.
Qed.

(** A whole round: the first idle worker from the iterator on, or none, and the
    least busy.  The iterator then stands behind the worker taken. *)
Lemma search_idle p a b l w r : NoDup (ids (workers_ p)) -> stands p a b ->
  b ++ a = l ++ w :: r -> busy_all l -> w_busy w = 0 ->
  exists i best a' b', search (length (workers_ p)) None 0xffff p = Done (Some (w_id w), best, set_i i p) /\
    stands (set_i i p) a' b' /\ b' ++ a' = r ++ l ++ [w].
Proof.
  intros N S E B Bw. pose proof (proj1 S) as W. rewrite W, length_app, Nat.add_comm.
  assert ((exists k, b = l ++ w :: k /\ r = k ++ a) \/ (exists k, l = b ++ k /\ a = k ++ w :: r))
    as [(k & -> & ->)|(k & -> & ->)].
  { apply app_eq_inv in E as [([|c k] & -> & E)|(k & -> & ->)]; [right; exists []|left|right; eauto].
    - split; [by rewrite !app_nil_r|by cbn in E].
    - exists k. by simplify_eq/=. }
  - rewrite length_app. cbn [length]. rewrite <- Nat.add_assoc, Nat.add_succ_l.
    rewrite (search_pass l _ None 0xffff p a (w :: k)) by done. cbn zeta.
    rewrite (search_hit _ _ _ _ (a ++ l) w k) by (done || (split; cbn; [by rewrite W, <- app_assoc|done])).
    eexists _, _, (a ++ l ++ [w]), k. split_and!; [done| |by rewrite <- !app_assoc].
    split; [cbn; by rewrite W, <- !app_assoc|done].
  - apply Forall_app in B as [B1 B2]. rewrite (search_pass b _ None 0xffff p (k ++ w :: r) []);
      [|done|by rewrite app_nil_r|done]. cbn zeta. rewrite length_app. cbn [length].
    rewrite search_second with (d := w :: r ++ b); [|done|done|by cbn; rewrite W, <- app_assoc|done|lia|].
    2: { cbn. rewrite W. by destruct k. }
    cbn zeta. rewrite (search_hit _ _ _ _ k w (r ++ b)); [|done| |done].
    + eexists _, _, (k ++ [w]), (r ++ b). split_and!; [done| |by rewrite <- !app_assoc].
      split; [cbn; by rewrite W, <- !app_assoc|done].
    + split; [cbn; by rewrite W, <- app_assoc|]. cbn. destruct k; [unfold begin; cbn; by rewrite W|done].
Qed.

Lemma search_busy p a b : NoDup (ids (workers_ p)) -> stands p a b -> busy_all (b ++ a) ->
  exists i, search (length (workers_ p)) None 0xffff p
    = Done (None, (fold_left better (b ++ a) (None, 0xffff)).1, set_i i p) /\
    exists a' b', stands (set_i i p) a' b' /\ b' ++ a' = b ++ a.
Proof.
  intros N S [B1 B2]%Forall_app. pose proof (proj1 S) as W. rewrite W, length_app, Nat.add_comm.
  rewrite (search_pass b _ None 0xffff p a []); [|done|by rewrite app_nil_r|done]. cbn zeta.
  rewrite fold_left_app. destruct a as [|c a].
  - eexists. split; [done|]. exists b, []. split; [|by rewrite app_nil_r]. split; [cbn; by rewrite W, app_nil_r|done].
  - rewrite <- (Nat.add_0_r (length (c :: a))).
    rewrite search_second with (d := b); [|done|done|done|done|cbn; lia|by cbn; rewrite W].
    eexists. cbn zeta. split; [|by exists (c :: a), b]. cbn [search]. do 3 f_equal.
    by rewrite <- surjective_pairing.
Qed.

Lemma least_of ws best m : let r := fold_left better ws (best, m) in
  r.2 <= m /\ (forall w, w ∈ ws -> r.2 <= w_busy w) /\
  ((r.1 = best /\ r.2 = m) \/ exists w, w ∈ ws /\ r.1 = Some (w_id w) /\ r.2 = w_busy w).
Proof.
  revert best m. induction ws as [|w ws IH]; intros best m.
  - cbn. split_and!; [lia|intros w H; by apply not_elem_of_nil in H|by left].
  - cbn zeta. cbn [fold_left].
    change (better (best, m) w) with (if w_busy w <? m then (Some (w_id w), w_busy w) else (best, m)).
    destruct (Z.ltb_spec (w_busy w) m).
    + destruct (IH (Some (w_id w)) (w_busy w)) as (L & A & C). split_and!; [lia| |].
      * intros v [->|Hv]%elem_of_cons; [done|by apply A].
      * destruct C as [[C1 C2]|(v & Hv & C)]; right; [exists w|exists v]; rewrite elem_of_cons; auto.
    + destruct (IH best m) as (L & A & C). split_and!; [lia| |].
      * intros v [->|Hv]%elem_of_cons; [lia|by apply A].
      * destruct C as [C|(v & Hv & C)]; [by left|]. right. exists v. rewrite elem_of_cons. auto.
Qed.

(** Either all are busy or there is a first idle one. *)
Lemma first_idle ws : busy_all ws \/ exists l w r, ws = l ++ w :: r /\ busy_all l /\ w_busy w = 0.
Proof.
  induction ws as [|w ws [B|(l & v & r & -> & B & V)]]; [left; constructor|..].
  - destruct (decide (w_busy w = 0)); [right; exists [], w, ws; split_and!; [done|constructor|done]|left; by constructor].
  - right. destruct (decide (w_busy w = 0)); [eexists [], w, _; split_and!; [done|constructor|done]|].
    exists (w :: l), v, r. split_and!; [done|by constructor|done].
Qed.

Lemma busy_ring p a b : stands p a b -> busy_all (workers_ p) <-> busy_all (b ++ a).
Proof. intros [-> _]. unfold busy_all. by rewrite !Forall_app, (and_comm (Forall _ a)). Qed.

Lemma elem_ring p a b w : stands p a b -> w ∈ b ++ a <-> w ∈ workers_ p.
Proof. intros [-> _]. rewrite !elem_of_app. tauto. Qed.

(** Where a message goes.  To the first idle worker, going round from the one
    behind the last; if all are busy, to a new worker while there are fewer
    than the pool may have, and else to a worker no busier than any other (as
    long as somebody has less than 65535 messages). *)
Theorem GetIdle_spec p a b : pool_ok p -> stands p a b -> workers_ p <> [] ->
  (forall l w r, b ++ a = l ++ w :: r -> busy_all l -> w_busy w = 0 ->
     exists i a' b', GetIdle p = Done (w_id w, set_i i p) /\
       stands (set_i i p) a' b' /\ b' ++ a' = r ++ l ++ [w]) /\
  (busy_all (workers_ p) -> pool_size p < max_size_ p -> starts (next_id p) = true ->
     exists i, GetIdle p = Done (next_id p, mkThreadPool (max_size_ p) (message_count_ p)
       (workers_ p ++ [mkWorker (next_id p) [] 0 false []]) i (S (next_id p)))) /\
  (busy_all (workers_ p) -> max_size_ p <= pool_size p ->
     exists w i, w ∈ workers_ p /\ GetIdle p = Done (w_id w, set_i i p) /\
       ((exists v, v ∈ workers_ p /\ w_busy v < 0xffff) -> forall v, v ∈ workers_ p -> w_busy w <= w_busy v)).
Proof.
  intros O S Hw. pose proof (ok_nodup p O) as N. split_and!.
  - intros l w r E B Bw. destruct (search_idle p a b l w r N S E B Bw) as (i & best & a' & b' & R & S').
    exists i, a', b'. unfold GetIdle. by rewrite R.
  - intros B L T. destruct (search_busy p a b N S) as (i & R & _); [by apply (busy_ring p a b)|].
    exists i. unfold GetIdle, pool_size in *. rewrite R. cbn. rewrite (proj2 (Z.ltb_lt _ _)) by done.
    unfold Create. cbn. by rewrite T.
  - intros B L. destruct (search_busy p a b N S) as (i & R & _); [by apply (busy_ring p a b)|].
    unfold GetIdle, pool_size in *. rewrite R. cbn [bind]. rewrite (proj2 (Z.ltb_ge _ _)) by done.
    destruct (least_of (b ++ a) None 0xffff) as (_ & A & [[-> E]|(w & Hin & -> & E)]).
    + destruct (workers_ p) as [|w ws] eqn:W; [done|]. exists w, (Some (w_id w)). split_and!; [by left| |].
      * unfold begin. cbn. rewrite W. done.
      * intros (v & Hv & Lv). rewrite E in A. rewrite <- W, <- (elem_ring p a b) in Hv by done.
        specialize (A v Hv). cbn in A. lia.
    + exists w, i. rewrite (elem_ring p a b) in Hin by done. split_and!; [done|done|].
      intros _ v Hv. rewrite <- E. apply A. by rewrite (elem_ring p a b).
Qed.

(** ** What a pool does over its life *)

Definition new_worker (n : nat) : Worker := mkWorker n [] 0 false [].

Inductive command := CPost (m : Message) | CPostRange (ms : list Message) | CGrow (n max_size : Z)
  | CStop | CWork (n k : nat) (busy : Z).

Definition exec (c : command) (p : ThreadPool) : outcome ThreadPool :=
  match c with
  | CPost m => Post m p
  | CPostRange ms => PostRange ms p
  | CGrow n max_size => set_size (pool_size p + n) max_size p
  | CStop => Done (Stop p)
  | CWork n k busy => Done (set_workers (map (work n k busy) (workers_ p)) p)
  end.
Fixpoint execs (cs : list command) (p : ThreadPool) : outcome ThreadPool :=
  match cs with [] => Done p | c :: cs => p <- exec c p; execs cs p end.

(** The messages a command posts; and numbers that make sense. *)
Definition posts (c : command) : list Message :=
  match c with CPost m => [m] | CPostRange ms => ms | _ => [] end.
Definition grows (c : command) : Prop :=
  match c with CGrow n max_size => 0 <= n /\ 0 <= max_size | _ => True end.

(** Every posted message went to one worker, and waits there or was run. *)
Record pool_inv (posted : list Message) (p : ThreadPool) : Prop := {
  inv_ok : pool_ok p;
  inv_some : workers_ p <> [] \/ 0 < max_size_ p;
  inv_count : message_count_ p = i32 (Z.of_nat (length posted));
  inv_logs : concat (map w_log (workers_ p)) ≡ₚ posted;
  inv_queues : Forall (fun w => exists ran, w_log w = ran ++ w_queue w) (workers_ p) }.

Lemma ids_map f ws : (forall w, w_id (f w) = w_id w) -> ids (map f ws) = ids ws.
Proof. intros H. unfold ids. rewrite map_map. by apply map_ext. Qed.

Lemma ok_map f p : (forall w, w_id (f w) = w_id w) -> pool_ok p ->
  pool_ok (set_workers (map f (workers_ p)) p).
Proof.
  intros H [N F (a & b & E & Hi)]. split; cbn; [by rewrite ids_map..|].
  exists (map f a), (map f b). split; [cbn; by rewrite E, map_app|]. cbn. rewrite Hi.
  destruct b; cbn; [done|by rewrite H].
Qed.

Lemma map_give n ms ws : n ∉ ids ws -> map (give n ms) ws = ws.
Proof.
  induction ws as [|w ws IH]; cbn; [done|]. intros [H1 H2]%not_elem_of_cons. rewrite IH by done. f_equal.
  unfold give. by rewrite (proj2 (Nat.eqb_neq _ _)).
Qed.

Lemma give_logs n ms ws : NoDup (ids ws) -> n ∈ ids ws ->
  concat (map w_log (map (give n ms) ws)) ≡ₚ concat (map w_log ws) ++ ms.
Proof.
  induction ws as [|w ws IH]; cbn; [by intros _ H%not_elem_of_nil|].
  intros [Hw N]%NoDup_cons [->|Hn]%elem_of_cons.
  - rewrite map_give by done. unfold give. rewrite Nat.eqb_refl. cbn.
    rewrite <- !app_assoc. by rewrite (Permutation_app_comm ms).
  - rewrite IH by done. unfold give. rewrite (proj2 (Nat.eqb_neq _ _)); [by rewrite app_assoc|].
    intros E. apply Hw. by rewrite E.
Qed.

Lemma give_queue n ms w : (exists ran, w_log w = ran ++ w_queue w) ->
  exists ran, w_log (give n ms w) = ran ++ w_queue (give n ms w).
Proof.
  intros [ran E]. unfold give. case_match; [|by exists ran]. exists ran. cbn. by rewrite E, app_assoc.
Qed.

Lemma i32_add a b : i32 (i32 a + b) = i32 (a + b).
Proof.
  unfold swrap. f_equal. set (m := 2 ^ 32). set (h := 2 ^ (32 - 1)).
  replace ((a + h) mod m - h + b + h) with ((a + h) mod m + b) by lia.
  rewrite Zplus_mod_idemp_l. f_equal. lia.
Qed.

(** A pool with one more worker, its iterator where it was. *)
Definition grown (p : ThreadPool) : ThreadPool :=
  mkThreadPool (max_size_ p) (message_count_ p) (workers_ p ++ [new_worker (next_id p)]) (i_ p) (S (next_id p)).

Lemma ok_grown p : pool_ok p -> pool_ok (grown p).
Proof.
  intros [N F (a & b & E & Hi)]. split; cbn.
  - unfold ids. rewrite map_app. apply NoDup_app. split_and!; [done| |apply NoDup_singleton].
    intros n Hn ->%list_elem_of_singleton. pose proof (proj1 (Forall_forall _ _) F _ Hn). cbn in *. lia.
  - unfold ids. rewrite map_app. apply Forall_app. split; [|repeat constructor; cbn; lia].
    eapply Forall_impl; [exact F|]. cbn. lia.
  - destruct b as [|w b].
    + exists (workers_ p ++ [new_worker (next_id p)]), []. split; [by rewrite app_nil_r|done].
    + exists a, (w :: b ++ [new_worker (next_id p)]). split; [cbn; by rewrite E, <- app_assoc|done].
Qed.

Lemma Create_grown p : Create p = if starts (next_id p) then Done (next_id p, grown p) else Throws.
Proof. done. Qed.

(** Finding a worker changes nothing but the iterator, or adds a worker. *)
Lemma GetIdle_total p : pool_ok p -> workers_ p <> [] \/ 0 < max_size_ p ->
  (exists w p', GetIdle p = Done (w, p') /\ pool_ok p' /\ w ∈ ids (workers_ p') /\
     message_count_ p' = message_count_ p /\ max_size_ p' = max_size_ p /\
     (workers_ p' = workers_ p \/ workers_ p' = workers_ p ++ [new_worker (next_id p)])) \/
  GetIdle p = Throws.
Proof.
  intros O Hw. pose proof (ok_nodup p O) as N. destruct (ok_stands p O) as (a & b & S).
  assert (forall i, (exists a b, stands (set_i i p) a b) -> pool_ok (set_i i p)) as Oi by (intros i Hi; by destruct O).
  assert (forall w, w ∈ workers_ p -> w_id w ∈ ids (workers_ p)) as I by (intros w Hin; by apply list_elem_of_fmap_2).
  destruct (first_idle (b ++ a)) as [B|(l & w & r & E & B & Bw)].
  - destruct (search_busy p a b N S B) as (i & R & a1 & b1 & Si & _). unfold GetIdle. rewrite R. cbn [bind].
    change (max_size_ (set_i i p)) with (max_size_ p).
    destruct (Z.ltb_spec (Z.of_nat (length (workers_ p))) (max_size_ p)) as [L|L].
    + rewrite Create_grown. cbn. destruct (starts (next_id p)); [left|by right].
      eexists _, _. split_and!; [done| |cbn|done|done|by right].
      * by apply (ok_grown (set_i i p)), Oi; exists a1, b1.
      * unfold ids. rewrite map_app. apply elem_of_app. right. by left.
    + left. destruct (least_of (b ++ a) None 0xffff) as (_ & _ & [[-> _]|(w & Hin & -> & _)]).
      * destruct (workers_ p) as [|w ws] eqn:W; [cbn in *; destruct Hw; [done|lia]|].
        exists (w_id w), (set_i (Some (w_id w)) p). split_and!; [unfold begin; cbn; by rewrite W| |cbn; rewrite W; by left|done|done|by left].
        apply Oi. exists [], (w :: ws). by split.
      * rewrite (elem_ring p a b) in Hin by done. eexists _, _. split_and!; [done| |by apply I|done|done|by left].
        apply Oi. by exists a1, b1.
  - left. destruct (search_idle p a b l w r N S E B Bw) as (i & best & a' & b' & R & S' & _).
    exists (w_id w), (set_i i p). unfold GetIdle. rewrite R. split_and!; [done|by apply Oi; exists a', b'| |done|done|by left].
    apply I. rewrite <- (elem_ring p a b), E by done. apply elem_of_app. right. by left.
Qed.

Lemma post_inv ms p posted : pool_inv posted p ->
  let r := bind (GetIdle p) (fun r => let '(w, p) := r in
    Done (add_count (Z.of_nat (length ms)) (set_workers (map (give w ms) (workers_ p)) p))) in
  r <> Undefined /\ forall p', r = Done p' -> pool_inv (posted ++ ms) p'.
Proof.
  intros [O Hs C L Q]. destruct (GetIdle_total p O Hs) as [(w & q & -> & Oq & Hw & Cq & Mq & Wq)| ->]; [|done].
  cbn [bind]. split; [done|]. intros p' [= <-].
  assert (concat (map w_log (workers_ q)) ≡ₚ posted) as Lq.
  { rewrite <- L. destruct Wq as [-> | ->]; [done|]. rewrite map_app, concat_app. cbn. by rewrite app_nil_r. }
  assert (Forall (fun w => exists ran, w_log w = ran ++ w_queue w) (workers_ q)) as Qq.
  { destruct Wq as [-> | ->]; [done|]. apply Forall_app. split; [done|]. constructor; [by exists []|constructor]. }
  split; cbn.
  - assert (pool_ok (set_workers (map (give w ms) (workers_ q)) q)) as [? ? ?]; [|by split].
    apply ok_map; [|done]. intros v. unfold give. by case_match.
  - rewrite Mq. destruct Hs as [Hs|Hs]; [left|by right]. intros E%(f_equal length). rewrite length_map in E.
    destruct Wq as [W|W]; rewrite W in E; [|rewrite length_app in E; cbn in E; lia]. by destruct (workers_ p).
  - rewrite Cq, C, i32_add, length_app. f_equal. lia.
  - rewrite give_logs by (done || apply Oq). by rewrite Lq.
  - rewrite Forall_map. eapply Forall_impl; [exact Qq|]. intros v. apply give_queue.
Qed.

Lemma create_all_inv n p posted : pool_inv posted p ->
  create_all n p <> Undefined /\ forall p', create_all n p = Done p' -> pool_inv posted p'.
Proof.
  revert p. induction n as [|n IH]; intros p I; cbn; [by split; [|intros p' [= <-]]|].
  rewrite Create_grown. destruct (starts _); [cbn|done]. apply IH. destruct I as [O S C L Q].
  split; cbn; [by apply ok_grown|left; by destruct (workers_ p)|done| |].
  - rewrite map_app, concat_app. cbn. by rewrite app_nil_r.
  - apply Forall_app. split; [done|]. constructor; [by exists []|constructor].
Qed.

Lemma exec_inv c p posted : grows c -> pool_inv posted p ->
  exec c p <> Undefined /\ forall p', exec c p = Done p' -> pool_inv (posted ++ posts c) p'.
Proof.
  intros G I. destruct c as [m|ms|n max_size| |n k busy]; cbn [exec posts]; rewrite ?app_nil_r.
  - exact (post_inv [m] p posted I).
  - exact (post_inv ms p posted I).
  - destruct G as [Hn Hm]. unfold set_size. rewrite (proj2 (Z.ltb_ge _ _)) by lia.
    assert (forall q, pool_inv posted q -> pool_inv posted (mkThreadPool (if max_size =? 0 then max_size_ q else max_size)
      (message_count_ q) (workers_ q) (i_ q) (next_id q))) as A.
    { intros q [[N F S] Hs C L Q]. split; [by split|cbn|done..].
      destruct (Z.eqb_spec max_size 0); [done|right; lia]. }
    destruct (Z.ltb_spec (pool_size p) (pool_size p + n)); cbn [bind].
    + destruct (create_all_inv (Z.to_nat (pool_size p + n - pool_size p)) p posted I) as [U D].
      destruct (create_all _ _) as [q| |]; [|done..]. cbn. split; [done|]. intros p' [= <-]. by apply A, D.
    + split; [done|]. intros p' [= <-]. by apply A.
  - split; [done|]. intros p' [= <-]. destruct I as [O S C L Q]. split; cbn; [by apply ok_map| |done| |].
    + destruct S as [S|S]; [left; by destruct (workers_ p)|by right].
    + rewrite map_map. exact L.
    + by rewrite Forall_map.
  - split; [done|]. intros p' [= <-]. destruct I as [O S C L Q]. split; cbn; [| |done| |].
    + apply ok_map; [|done]. intros w. unfold work. by case_match.
    + destruct S as [S|S]; [left; by destruct (workers_ p)|by right].
    + rewrite map_map. rewrite (map_ext _ w_log); [exact L|]. intros w. unfold work. by case_match.
    + rewrite Forall_map. eapply Forall_impl; [exact Q|]. intros w [ran E]. unfold work.
      case_match; [|by exists ran]. exists (ran ++ take k (w_queue w)). cbn. by rewrite E, <- app_assoc, take_drop.
Qed.

Lemma inv_rewind p posted : pool_inv posted p -> pool_inv posted (set_i (begin p) p).
Proof.
  intros [[N F S] Hs C L Q]. split; [split|..]; try done. by exists [], (workers_ p).
Qed.

Lemma inv_empty max_size : 0 < max_size -> pool_inv [] (mkThreadPool max_size 0 [] None 0).
Proof.
  intros H. split; [split|by right|done|done|constructor]; [constructor|constructor|by exists [], []].
Qed.

Lemma inv_first max_size : pool_inv [] (grown (mkThreadPool max_size 0 [] None 0)).
Proof.
  split; [|by left|done|done|repeat constructor; by exists []].
  apply ok_grown. split; [constructor|constructor|by exists [], []].
Qed.

Lemma new_pool_inv init_size max_size : 0 <= init_size -> 0 < init_size \/ 0 < max_size ->
  new_pool init_size max_size <> Undefined /\
  forall p, new_pool init_size max_size = Done p -> pool_inv [] p.
Proof.
  intros Hi H. unfold new_pool, set_size. change (pool_size _) with 0. rewrite (proj2 (Z.ltb_ge _ _)) by lia.
  destruct (Z.ltb_spec 0 init_size) as [L|L]; cbn [bind].
  - rewrite Z.sub_0_r. destruct (Z.to_nat init_size) as [|n] eqn:E; [lia|]. cbn [create_all].
    rewrite Create_grown. destruct (starts _); [|done]. cbn [bind snd].
    destruct (create_all_inv n _ [] (inv_first max_size)) as [U D].
    destruct (create_all _ _) as [q| |]; [|done..]. cbn [bind]. split; [done|]. intros p [= <-].
    specialize (D q eq_refl). apply inv_rewind. by destruct q.
  - split; [done|]. intros p [= <-]. apply inv_rewind, inv_empty. lia.
Qed.

Lemma execs_inv cs p posted : Forall grows cs -> pool_inv posted p ->
  execs cs p <> Undefined /\ forall p', execs cs p = Done p' -> pool_inv (posted ++ flat_map posts cs) p'.
Proof.
  intros G. revert p posted. induction G as [|c cs Gc G IH]; intros p posted I; cbn.
  - rewrite app_nil_r. split; [done|]. by intros p' [= <-].
  - destruct (exec_inv c p posted Gc I) as [U D]. destruct (exec c p) as [q| |]; [|done..].
    cbn. rewrite app_assoc. by apply IH, D.
Qed.

(** C35: Whatever is posted, however the pool grows and whatever its workers do, no
    iterator is used where there is no worker, every message posted was given
    to exactly one worker, where it was run or waits in the order of posting,
    and the count of messages is right. *)
Theorem pool_runs init_size max_size cs : 0 <= init_size -> 0 < init_size \/ 0 < max_size ->
  Forall grows cs ->
  let r := bind (new_pool init_size max_size) (execs cs) in
  r <> Undefined /\
  forall p, r = Done p ->
    message_count_ p = i32 (Z.of_nat (length (flat_map posts cs))) /\
    concat (map w_log (workers_ p)) ≡ₚ flat_map posts cs /\
    (forall w, w ∈ workers_ p -> exists ran, w_log w = ran ++ w_queue w) /\
    NoDup (ids (workers_ p)).
Proof.
  intros Hi H G. destruct (new_pool_inv init_size max_size Hi H) as [U D].
  destruct (new_pool _ _) as [p| |]; [|done..]. cbn zeta. cbn [bind].
  destruct (execs_inv cs p [] G (D p eq_refl)) as [U' D']. split; [done|]. intros p' E.
  destruct (D' p' E) as [[N _ _] _ C L Q]. split_and!; [done|done| |done].
  intros w Hw. exact (proj1 (Forall_forall _ _) Q w Hw).
Qed.

End ThreadPool.

(** ** Examples *)

Definition always (n : nat) : bool := true.
Definition four : list (command (Message := nat)) :=
  [CPost 1%nat; CPostRange [2%nat; 3%nat]; CWork 0 1 1; CPost 4%nat; CGrow 1 0; CPost 5%nat].

(** What the workers hold after a life, and the iterator. *)
Definition held_by (r : outcome (ThreadPool (Message := nat))) : option (list (list nat) * option nat) :=
  match r with Done p => Some (map w_queue (workers_ p), i_ p) | _ => None end.

Example round_and_round :
  held_by (bind (new_pool always 2 4) (execs always four))
  = Some ([[]; [2; 3; 4; 5]; []]%nat, Some 2%nat).
Proof. vm_compute. reflexivity. Qed.

(** [set_size(3)] on ten idle workers leaves seven, and what is left of the
    iterator points to a worker that was deleted. *)
Example shrink_leaves_seven :
  match bind (new_pool (Message := nat) always 10 20) (set_size always 3 0) with
  | Done p => length (workers_ p) = 7%nat /\ GetIdle always p = Undefined
  | _ => False
  end.
Proof. vm_compute. split; reflexivity. Qed.

(** A pool of nothing that may have nothing uses [end()]. *)
Example empty_pool : bind (new_pool always 0 0) (Post always 1%nat) = Undefined.
Proof. vm_compute. reflexivity. Qed.

Definition two_workers : ThreadPool (Message := nat) :=
  mkThreadPool 4 0 [mkWorker 0 [] 1 false []; mkWorker 1 [] 0 false []] (Some 0%nat) 2.

Lemma GetIdle_spec_witness :
  GetIdle always two_workers = Done (1%nat, set_i None two_workers).
Proof.
  assert (pool_ok two_workers) as O.
  { split; [apply (bool_decide_unpack _); by vm_compute|repeat constructor|by exists [], (workers_ two_workers)]. }
  destruct (proj1 (GetIdle_spec always two_workers [] (workers_ two_workers) O ltac:(done) ltac:(done))
    [mkWorker 0 [] 1 false []] (mkWorker 1 [] 0 false []) [] eq_refl ltac:(by repeat constructor) eq_refl)
    as (i & a & b & E & S & _). rewrite E. by vm_compute in E; injection E as <-.
Defined.

Lemma pool_runs_witness :
  bind (new_pool always 2 4) (execs always four) <> Undefined /\
  forall p, bind (new_pool always 2 4) (execs always four) = Done p -> message_count_ p = 5.
Proof.
  destruct (pool_runs always 2 4 four ltac:(lia) ltac:(lia)) as [U D].
  - repeat constructor; cbn; lia.
  - split; [exact U|]. intros p E. by destruct (D p E) as [-> _].
Defined.
