(* ===== verification/JdbcUrl.v ===== *)
(** * JDBC urls (src/base3/jdbcurl.h, src/base3/jdbcurl.cc)

    [Parse] fills a [JdbcDriver] from
    jdbc:mysql://host,failoverhost:port/database?name=value&...; what it does
    not mention keeps its value. *)

From S2P Require Import Prelude CString StringEncode Stl.

Record JdbcDriver := mkJdbcDriver {
  host : bytes; failoverhost : bytes; port : Z; database : bytes; user : bytes; passwd : bytes;
  properties : list (bytes * bytes) }.

Definition set_port (n : Z) (d : JdbcDriver) : JdbcDriver :=
  mkJdbcDriver (host d) (failoverhost d) n (database d) (user d) (passwd d) (properties d).
Definition set_host (h : bytes) (d : JdbcDriver) : JdbcDriver :=
  mkJdbcDriver h (failoverhost d) (port d) (database d) (user d) (passwd d) (properties d).
Definition set_failover (h : bytes) (d : JdbcDriver) : JdbcDriver :=
  mkJdbcDriver (host d) h (port d) (database d) (user d) (passwd d) (properties d).
Definition set_database (t : bytes) (d : JdbcDriver) : JdbcDriver :=
  mkJdbcDriver (host d) (failoverhost d) (port d) t (user d) (passwd d) (properties d).

Definition scheme : bytes := bs "jdbc:mysql://".

(** A property goes where its name says. *)
Definition put_property (kv : bytes * bytes) (d : JdbcDriver) : JdbcDriver :=
  if bool_decide (kv.1 = bs "user") then
    mkJdbcDriver (host d) (failoverhost d) (port d) (database d) kv.2 (passwd d) (properties d)
  else if bool_decide (kv.1 = bs "password") then
    mkJdbcDriver (host d) (failoverhost d) (port d) (database d) (user d) kv.2 (properties d)
  else
    mkJdbcDriver (host d) (failoverhost d) (port d) (database d) (user d) (passwd d) (properties d ++ [kv]).

(** [A=B], or a name alone. *)
Definition cut_property (i : bytes) : bytes * bytes :=
  let pos_equal := find "=" i in
  if pos_equal =? npos then (i, []) else (substr i 0 pos_equal, substr i (pos_equal + 1) npos).

Section Parse.
(** [boost::lexical_cast<int>]; [None] when it throws. *)
Context (lexical_cast : bytes -> option Z).

(** The port: whether it is one, and the driver. *)
Definition parse_port (text : bytes) (pos_port pos_slash : Z) (d : JdbcDriver) : bool * JdbcDriver :=
  if pos_port =? npos then (true, set_port 3301 d)
  else if pos_port <? pos_slash then
    let p := substr text (pos_port + 1) (u64 (pos_slash - pos_port - 1)) in
    if bool_decide (p = []) then (false, d)
    else match lexical_cast p with
         | Some n => (negb (n =? 0), set_port n d)
         | None => (false, d)
         end
  else (true, d).

Definition parse_hosts (text : bytes) (pos_comma pos_port pos_slash : Z) (d : JdbcDriver) : JdbcDriver :=
  let pos_start := size scheme in
  let end_ := if pos_port =? npos then pos_slash else pos_port in
  if negb (pos_comma =? npos) then
    set_failover (substr text (pos_comma + 1) (u64 (end_ - pos_comma - 1)))
      (set_host (substr text pos_start (pos_comma - pos_start)) d)
  else set_host (substr text pos_start (u64 (end_ - pos_start))) d.

(** [pos_slash + 1] is 0 when there is no slash. *)
Definition parse_database (text : bytes) (pos_slash : Z) (d : JdbcDriver) : JdbcDriver :=
  let pos_question := find_from "?" text pos_slash in
  if pos_question =? npos then set_database (substr text (u64 (pos_slash + 1)) npos) d
  else
    let d := set_database (substr text (u64 (pos_slash + 1)) (u64 (pos_question - pos_slash - 1))) d in
    let p := substr text (pos_question + 1) npos in
    if bool_decide (p = []) then d
    else fold_left (fun d i => put_property (cut_property i) d) (split (bs "&") p) d.

Definition Parse (text : bytes) (d : JdbcDriver) : bool * JdbcDriver :=
  if negb (starts_with text scheme) then (false, d)
  else
    let pos_start := size scheme in
    let pos_comma := find_from "," text pos_start in
    let pos_port := find_from ":" text pos_start in
    let pos_slash := find_from "/" text pos_start in
    match parse_port text pos_port pos_slash d with
    | (false, d) => (false, d)
    | (true, d) => (true, parse_database text pos_slash (parse_hosts text pos_comma pos_port pos_slash d))
    end.

(** ** A driver as text, and back *)

(** [failover] is empty, or a comma and the hosts; [ptext] is empty, or a colon
    and the port. *)
Definition show_property (kv : bytes * bytes) : bytes := kv.1 ++ "="%byte :: kv.2.
Fixpoint show_properties (l : list (bytes * bytes)) : bytes :=
  match l with
  | [] => []
  | [kv] => show_property kv
  | kv :: l => show_property kv ++ "&"%byte :: show_properties l
  end.
Definition show_query (l : list (bytes * bytes)) : bytes :=
  match l with [] => [] | _ => "?"%byte :: show_properties l end.
Definition show_port (p : option Z) : bytes := match p with Some n => ":"%byte :: dec n | None => [] end.
Definition show_failover (f : bytes) : bytes := match f with [] => [] | _ => ","%byte :: f end.

Definition show (h f : bytes) (p : option Z) (db : bytes) (props : list (bytes * bytes)) : bytes :=
  scheme ++ h ++ show_failover f ++ show_port p ++ "/"%byte :: db ++ show_query props.

(** What can be told apart again: a comma is looked for in the whole text when
    there is no failover host, and a colon when there is no port. *)
Definition tellable (h f : bytes) (p : option Z) (db : bytes) (props : list (bytes * bytes)) : bool :=
  forallb (fun c => negb (bool_decide (c ∈ bs ",:/"))) h &&
  forallb (fun c => negb (bool_decide (c ∈ bs ":/"))) f &&
  (negb (bool_decide (f = [])) || negb (bool_decide (","%byte ∈ db ++ show_query props))) &&
  match p with
  | Some n => (0 <? n) && (n <? 2 ^ 31)
  | None => negb (bool_decide (":"%byte ∈ db ++ show_query props))
  end &&
  negb (bool_decide ("?"%byte ∈ db)) &&
  forallb (fun kv => negb (bool_decide ("="%byte ∈ kv.1)) && negb (bool_decide ("&"%byte ∈ kv.1 ++ kv.2))) props.

Definition expected (h f : bytes) (p : option Z) (db : bytes) (props : list (bytes * bytes)) (d : JdbcDriver)
  : JdbcDriver :=
  fold_left (fun d kv => put_property kv d) props
    (mkJdbcDriver h (if bool_decide (f = []) then failoverhost d else f) (default 3301 p) db (user d) (passwd d)
       (properties d)).
End Parse.

(** ** Examples *)

(** Of [lexical_cast]: decimal digits only. *)
Definition digits_only (s : bytes) : option Z :=
  if forallb isdigit s && negb (bool_decide (s = [])) then Some (atoi s) else None.
Definition fresh : JdbcDriver := mkJdbcDriver [] [] (-7) [] [] [] [].

Example parse_all :
  Parse digits_only (bs "jdbc:mysql://host,failoverhost:3001/database?user=b&password=cwf&d") fresh
  = (true, mkJdbcDriver (bs "host") (bs "failoverhost") 3001 (bs "database") (bs "b") (bs "cwf") [(bs "d", [])]).
Proof. vm_compute. reflexivity. Qed.

Example parse_short :
  Parse digits_only (bs "jdbc:mysql://h,f/database") fresh
  = (true, mkJdbcDriver (bs "h") (bs "f") 3301 (bs "database") [] [] []) /\
  (Parse digits_only (bs "Jdbc:mysql://h,f/database") fresh).1 = false /\
  (Parse digits_only (bs "jdbc:mysql://h:0/database") fresh).1 = false.
Proof. vm_compute. auto. Qed.

(** A colon behind the slash is taken for the one of the port: the host runs up
    to it, and the port is left as it was.  Without a slash the database is the
    whole url. *)
Example colon_behind_slash :
  Parse digits_only (bs "jdbc:mysql://h/db?t=12:30") fresh
  = (true, mkJdbcDriver (bs "h/db?t=12") [] (-7) (bs "db") [] [] [(bs "t", bs "12:30")]).
Proof. vm_compute. reflexivity. Qed.

Example no_slash :
  Parse digits_only (bs "jdbc:mysql://h") fresh
  = (true, mkJdbcDriver (bs "h") [] 3301 (bs "jdbc:mysql://h") [] [] []).
Proof. vm_compute. reflexivity. Qed.

(** ** Reading back *)

Lemma not_in_forallb (P : Init.Byte.byte -> bool) c s : forallb P s = true -> P c = false -> c ∉ s.
Proof.
  intros H Hc Hin%list_elem_of_In. rewrite (proj1 (forallb_forall _ _) H c Hin) in Hc. done.
Qed.

Lemma cut_property_show kv : "="%byte ∉ kv.1 -> size (show_property kv) < npos ->
  cut_property (show_property kv) = kv.
Proof.
  intros H L. destruct kv as [k v]. unfold cut_property, show_property in *. cbn [fst snd] in *. rewrite find_first by done.
  rewrite size_app, size_cons in L. pose proof (size_nonneg k). pose proof (size_nonneg v).
  destruct (Z.eqb_spec (size k) npos); [lia|]. rewrite substr_prefix by done. f_equal.
  change (k ++ "="%byte :: v) with (k ++ ["="%byte] ++ v). rewrite app_assoc.
  apply substr_suffix; [by rewrite size_app|lia].
Qed.

Definition prop_ok (kv : bytes * bytes) : Prop :=
  ("="%byte ∉ kv.1) /\ ("&"%byte ∉ kv.1 ++ kv.2).

Lemma show_property_token kv : prop_ok kv -> Forall (.∉ bs "&") (show_property kv).
Proof.
  intros [_ [H1 H2]%not_elem_of_app]. apply Forall_forall. intros c Hc E.
  apply list_elem_of_singleton in E as ->. unfold show_property in Hc.
  apply elem_of_app in Hc as [Hc|[Hc|Hc]%elem_of_cons]; [by apply H1|done|by apply H2].
Qed.

Lemma show_properties_cons kv kv' l :
  show_properties (kv :: kv' :: l) = show_property kv ++ "&"%byte :: show_properties (kv' :: l).
Proof. done. Qed.

Lemma split_properties l : l <> [] -> Forall prop_ok l ->
  split (bs "&") (show_properties l) = map show_property l.
Proof.
  intros N F. induction F as [|kv l Hk F IH]; [done|]. destruct l as [|kv' l].
  - by apply split_token, show_property_token.
  - rewrite show_properties_cons. cbn [map]. rewrite split_cons; [|by apply show_property_token|by left].
    f_equal. by apply IH.
Qed.

Lemma put_properties l d : Forall (fun kv => cut_property (show_property kv) = kv) l ->
  fold_left (fun d i => put_property (cut_property i) d) (map show_property l) d
  = fold_left (fun d kv => put_property kv d) l d.
Proof.
  intros F. revert d. induction F as [|kv l E F IH]; intros d; [done|]. cbn. by rewrite E, IH.
Qed.

Lemma size_show_property kv l : kv ∈ l -> size (show_property kv) <= size (show_properties l).
Proof.
  induction l as [|kv' l IH]; [by intros H%not_elem_of_nil|].
  intros [->|H]%elem_of_cons; destruct l as [|kv2 l]; rewrite ?show_properties_cons.
  - done.
  - rewrite size_app. pose proof (size_nonneg ("&"%byte :: show_properties (kv2 :: l))). lia.
  - by apply not_elem_of_nil in H.
  - rewrite size_app, size_cons. specialize (IH H). pose proof (size_nonneg (show_property kv')). lia.
Qed.

Lemma show_properties_nonempty kv l : show_properties (kv :: l) <> [].
Proof.
  intros E. pose proof (size_show_property kv (kv :: l) ltac:(by left)) as P. rewrite E in P.
  unfold show_property in P. rewrite size_app, size_cons in P. change (size []) with 0 in P.
  pose proof (size_nonneg kv.1). pose proof (size_nonneg kv.2). lia.
Qed.

(** The part of the text behind the slash. *)
Lemma parse_database_show front db props d :
  "?"%byte ∉ db -> Forall prop_ok props -> size (front ++ "/"%byte :: db ++ show_query props) < npos ->
  parse_database (front ++ "/"%byte :: db ++ show_query props) (size front) d
  = fold_left (fun d kv => put_property kv d) props (set_database db d).
Proof.
  intros Hdb F L. unfold parse_database. rewrite size_app, size_cons, size_app in L.
  pose proof (size_nonneg front). pose proof (size_nonneg db). pose proof (size_nonneg (show_query props)).
  assert (u64 (size front + 1) = size (front ++ ["/"%byte])) as S.
  { rewrite wrap_small by (unfold npos in *; lia). rewrite size_app. done. }
  rewrite S. destruct props as [|kv props]; cbn [show_query fold_left] in *.
  - rewrite app_nil_r in *. rewrite find_from_none; [|by apply not_elem_of_cons]. rewrite Z.eqb_refl.
    f_equal. change (front ++ "/"%byte :: db) with (front ++ ["/"%byte] ++ db). rewrite app_assoc.
    apply substr_suffix; [done|unfold size in *; lia].
  - set (q := show_properties (kv :: props)) in *.
    change ("/"%byte :: db ++ "?"%byte :: q) with (("/"%byte :: db) ++ "?"%byte :: q).
    rewrite find_from_first by by apply not_elem_of_cons.
    rewrite !size_cons in *. destruct (Z.eqb_spec (size front + (1 + size db)) npos); [lia|].
    replace (u64 (size front + (1 + size db) - size front - 1)) with (size db)
      by (rewrite wrap_small; unfold npos in *; lia).
    replace (front ++ ("/"%byte :: db) ++ "?"%byte :: q) with ((front ++ ["/"%byte]) ++ db ++ "?"%byte :: q)
      by by rewrite <- !app_assoc.
    rewrite (substr_middle (front ++ ["/"%byte]) db _ (size (front ++ ["/"%byte])) (size db)) by done.
    replace ((front ++ ["/"%byte]) ++ db ++ "?"%byte :: q) with ((front ++ "/"%byte :: db ++ ["?"%byte]) ++ q)
      by (rewrite <- !app_assoc; cbn; by rewrite <- app_assoc).
    rewrite substr_suffix; [| |lia].
    2: { rewrite size_app, size_cons, size_app. change (size ["?"%byte]) with 1. lia. }
    rewrite bool_decide_false by apply show_properties_nonempty.
    subst q. rewrite split_properties by done. rewrite put_properties; [done|]. apply Forall_forall. intros kv' Hkv.
    apply cut_property_show; [exact (proj1 (proj1 (Forall_forall _ _) F _ Hkv))|].
    pose proof (size_show_property _ _ Hkv). lia.
Qed.

(** The parts in front of the slash. *)
Definition plain_host (h : bytes) : Prop := (","%byte ∉ h) /\ (":"%byte ∉ h) /\ ("/"%byte ∉ h).
Definition plain_failover (f : bytes) : Prop := (":"%byte ∉ f) /\ ("/"%byte ∉ f).

Lemma dec_plain n c : isdigit c = false -> c <> "-"%byte -> c ∉ dec n.
Proof.
  intros Hc Hm Hin. pose proof (proj1 (Forall_forall _ _) (dec_digits n) _ Hin) as [?|?]; congruence.
Qed.

Lemma show_front_plain c f p : c <> ","%byte -> c <> ":"%byte -> c <> "-"%byte -> isdigit c = false ->
  c ∉ f -> c ∉ show_failover f ++ show_port p.
Proof.
  intros H1 H2 H3 H4 Hf. apply not_elem_of_app. split.
  - destruct f; [apply not_elem_of_nil|by apply not_elem_of_cons].
  - destruct p; [|apply not_elem_of_nil]. apply not_elem_of_cons. split; [done|by apply dec_plain].
Qed.

Lemma port_text_nonempty n : 0 < n < 2 ^ 31 -> dec n <> [].
Proof. intros H E. pose proof (atol_dec n ltac:(lia)) as A. rewrite E in A. change (atol []) with 0 in A. lia. Qed.

Lemma parse_port_show lexical_cast front p rest d :
  (forall n, 0 < n < 2 ^ 31 -> lexical_cast (dec n) = Some n) ->
  match p with Some n => 0 < n < 2 ^ 31 | None => True end ->
  size (front ++ show_port p ++ rest) < npos ->
  parse_port lexical_cast (front ++ show_port p ++ rest) (match p with Some _ => size front | None => npos end)
    (size (front ++ show_port p)) d = (true, set_port (default 3301 p) d).
Proof.
  intros Hl Hp L. unfold parse_port. destruct p as [n|]; [|done]. cbn [show_port] in *.
  rewrite !size_app, size_cons in *. pose proof (size_nonneg front). pose proof (size_nonneg rest).
  pose proof (size_nonneg (dec n)). destruct (Z.eqb_spec (size front) npos); [lia|].
  destruct (Z.ltb_spec (size front) (size front + (1 + size (dec n)))); [|lia].
  replace (u64 (size front + (1 + size (dec n)) - size front - 1)) with (size (dec n))
    by (rewrite wrap_small; unfold npos in *; lia).
  change (front ++ (":"%byte :: dec n) ++ rest) with (front ++ [":"%byte] ++ dec n ++ rest).
  rewrite app_assoc, substr_middle; [|by rewrite size_app|done].
  rewrite bool_decide_false, Hl by (done || by apply port_text_nonempty).
  by destruct (Z.eqb_spec n 0); [lia|].
Qed.

Lemma parse_hosts_show h f p rest d :
  let front := scheme ++ h ++ show_failover f in
  size (front ++ show_port p ++ rest) < npos ->
  parse_hosts (front ++ show_port p ++ rest)
    (match f with [] => npos | _ => size (scheme ++ h) end)
    (match p with Some _ => size front | None => npos end) (size (front ++ show_port p)) d
  = (match f with [] => fun d => d | _ => set_failover f end) (set_host h d).
Proof.
  cbn zeta. intros L. unfold parse_hosts.
  set (e := if _ =? npos then _ else _).
  assert (e = size (scheme ++ h ++ show_failover f)) as -> .
  { subst e. destruct p; [|by rewrite Z.eqb_refl; cbn; rewrite app_nil_r].
    destruct (Z.eqb_spec (size (scheme ++ h ++ show_failover f)) npos) as [E|]; [|done].
    rewrite size_app in L. pose proof (size_nonneg (show_port (Some z) ++ rest)). lia. }
  rewrite <- !app_assoc. set (t := show_port p ++ rest) in *. rewrite !size_app in *.
  pose proof (size_nonneg scheme). pose proof (size_nonneg h). pose proof (size_nonneg t).
  pose proof (size_nonneg (show_failover f)). destruct f as [|c f].
  - rewrite Z.eqb_refl. cbn [negb show_failover app] in *. change (size []) with 0 in *. rewrite wrap_small by (unfold npos in *; lia).
    rewrite substr_middle by lia. done.
  - destruct (Z.eqb_spec (size scheme + size h) npos); [lia|]. cbn [negb show_failover] in *.
    rewrite size_cons in *. pose proof (size_nonneg (c :: f)).
    rewrite wrap_small by (unfold npos in *; lia).
    rewrite (substr_middle scheme h _ (size scheme)) by lia.
    replace (scheme ++ h ++ (","%byte :: c :: f) ++ t) with ((scheme ++ h ++ [","%byte]) ++ (c :: f) ++ t)
      by by rewrite <- !app_assoc.
    rewrite substr_middle; [done| |lia]. rewrite !size_app. change (size [","%byte]) with 1. lia.
Qed.

(** What [tellable] says. *)
Lemma tellable_spec h f p db props : tellable h f p db props = true ->
  plain_host h /\ plain_failover f /\ (f = [] -> ","%byte ∉ db ++ show_query props) /\
  match p with Some n => 0 < n < 2 ^ 31 | None => ":"%byte ∉ db ++ show_query props end /\
  ("?"%byte ∉ db) /\ Forall prop_ok props.
Proof.
  unfold tellable. rewrite !andb_true_iff. intros (((((Hh & Hf) & Hc) & Hp) & Hq) & Hk). split_and!.
  - split_and!; eapply not_in_forallb; done.
  - split; eapply not_in_forallb; done.
  - intros ->. by apply negb_true_iff, bool_decide_eq_false in Hc.
  - destruct p; [zbool; lia|]. by apply negb_true_iff, bool_decide_eq_false in Hp.
  - by apply negb_true_iff, bool_decide_eq_false in Hq.
  - apply Forall_forall. intros kv Hkv%list_elem_of_In. apply (proj1 (forallb_forall _ _) Hk) in Hkv.
    apply andb_true_iff in Hkv as [H1 H2]. apply negb_true_iff, bool_decide_eq_false in H1, H2. by split.
Qed.

Section Positions.
Context (h f : bytes) (p : option Z) (rest : bytes).
Context (Hh : plain_host h) (Hf : plain_failover f).
Let text := scheme ++ h ++ show_failover f ++ show_port p ++ "/"%byte :: rest.

Lemma pos_comma_show : (f = [] -> ","%byte ∉ rest) ->
  find_from "," text (size scheme) = match f with [] => npos | _ => size (scheme ++ h) end.
Proof.
  intros Hc. subst text. destruct Hh as (H1 & _). destruct f as [|c f'].
  - apply find_from_none. cbn [show_failover app]. rewrite !not_elem_of_app. split_and!; [done| |].
    + destruct p; [|apply not_elem_of_nil]. apply not_elem_of_cons. split; [done|by apply dec_plain].
    + apply not_elem_of_cons. split; [done|by apply Hc].
  - cbn [show_failover app]. rewrite find_from_first by done. by rewrite size_app.
Qed.

Lemma pos_port_show : (p = None -> ":"%byte ∉ rest) ->
  find_from ":" text (size scheme)
  = match p with Some _ => size (scheme ++ h ++ show_failover f) | None => npos end.
Proof.
  intros Hc. subst text. destruct Hh as (_ & H1 & _), Hf as [H2 _].
  assert (":"%byte ∉ h ++ show_failover f) as N.
  { apply not_elem_of_app. split; [done|]. destruct f; [done|by apply not_elem_of_cons]. }
  rewrite (app_assoc h). destruct p as [n|].
  - cbn [show_port app]. rewrite find_from_first by done. by rewrite !size_app.
  - apply find_from_none. cbn [show_port app]. apply not_elem_of_app. split; [done|].
    apply not_elem_of_cons. split; [done|by apply Hc].
Qed.

Lemma pos_slash_show :
  find_from "/" text (size scheme) = size ((scheme ++ h ++ show_failover f) ++ show_port p).
Proof.
  subst text. destruct Hh as (_ & _ & H1), Hf as [_ H2]. rewrite (app_assoc _ (show_port p)), (app_assoc h).
  rewrite find_from_first; [by rewrite !size_app; lia|].
  apply not_elem_of_app. split; [done|by apply show_front_plain].
Qed.
End Positions.

(** A driver written as a url is parsed to that driver: hosts, port, database,
    user, password and properties, the default port where there is none; what
    the url does not mention is left as it was. *)
Theorem Parse_show lexical_cast h f p db props d :
  (forall n, 0 < n < 2 ^ 31 -> lexical_cast (dec n) = Some n) ->
  tellable h f p db props = true -> size (show h f p db props) < npos ->
  Parse lexical_cast (show h f p db props) d = (true, expected h f p db props d).
Proof.
  intros Hl (Hh & Hf & Hc & Hp & Hq & Hk)%tellable_spec L. unfold Parse.
  assert (starts_with (show h f p db props) scheme = true) as -> by apply starts_with_app. cbn [negb].
  unfold show in *. rewrite pos_comma_show, pos_port_show, pos_slash_show;
    [|done|done|done|done|by intros ->|done|done|done].
  set (rest := "/"%byte :: db ++ show_query props) in *.
  replace (scheme ++ h ++ show_failover f ++ show_port p ++ rest)
    with ((scheme ++ h ++ show_failover f) ++ show_port p ++ rest) in * by by rewrite <- !app_assoc.
  rewrite parse_port_show; [|done|by destruct p|done]. rewrite parse_hosts_show by done.
  rewrite app_assoc in *. subst rest. rewrite parse_database_show by done.
  unfold expected. do 2 f_equal. by destruct f.
Qed.

(** ** A concrete cast *)

Lemma digits_only_dec n : 0 < n < 2 ^ 31 -> digits_only (dec n) = Some n.
Proof.
  intros H. unfold digits_only. rewrite bool_decide_false by by apply port_text_nonempty.
  assert (forallb isdigit (dec n) = true) as ->.
  { unfold dec. rewrite (proj2 (Z.ltb_ge _ _)) by lia.
    apply forallb_forall. intros c Hc%list_elem_of_In.
    exact (proj1 (Forall_forall _ _) (dec_nonneg_digits n ltac:(lia)) c Hc). }
  cbn. unfold atoi. by rewrite atol_dec, i32_small by lia.
Qed.

Lemma Parse_show_witness :
  Parse digits_only (bs "jdbc:mysql://h,f:3306/db?user=u&a=b") fresh
  = (true, mkJdbcDriver (bs "h") (bs "f") 3306 (bs "db") (bs "u") [] [(bs "a", bs "b")]).
Proof.
  apply (Parse_show digits_only (bs "h") (bs "f") (Some 3306) (bs "db") [(bs "user", bs "u"); (bs "a", bs "b")] fresh);
    [exact digits_only_dec|by vm_compute..].
Defined.
