(* ===== verification/Async.v ===== *)
(** * Asynchronous calls (src/base3/asyncall.h, src/base3/asyncall.cc)

    What is posted becomes a handler of an [io_service] of boost, which threads
    run.  Of boost the model has what its documentation promises: a posted
    handler is run once, by some thread, at some time; the handler of a timer
    not before the timer expires.  A step of the machine is a call of [Post] or
    [SurePost], the start or the end of a handler, the expiry of a timer, or
    time going by; which step comes next is anybody's choice.  [AsyncRunner]'s
    counters and its number of threads are modelled as the code keeps them. *)

From S2P Require Import Prelude.

Section Async.
Context {Function : Type}.
(** Whether a call of the function ends with an exception. *)
Context (throws : Function -> bool).

(** The wrappers of the [detail] namespaces.  A [WrappedCountCall] is only ever
    called through a [WrappedDelayCall], and so is a [WrappedSureCall].  When a
    call is due, or was posted first, is not in the classes. *)
Inductive handler :=
| WrappedCall (func : Function)
| WrappedDelayCall (func : Function) (due : Z)
| WrappedCountCall (func : Function) (interval_milliseconds_ count_ called_ : Z) (posted_at : Z)
| WrappedSureCall (func : Function) (interval_ retry_ : Z) (due : Z).

(** [log]: the calls that were made, with their times and when they were due. *)
Record service := mkService {
  now : Z; timers : list (Z * handler); ready : list handler; running : list handler;
  busy_ : Z; task_ : Z; log : list (Function * Z * Z) }.

Definition init : service := mkService 0 [] [] [] 0 0 [].

Definition add_timer (millisec : Z) (h : handler) (s : service) : service :=
  mkService (now s) (timers s ++ [(now s + millisec, h)]) (ready s) (running s) (busy_ s) (task_ s) (log s).
Definition add_ready (h : handler) (s : service) : service :=
  mkService (now s) (timers s) (ready s ++ [h]) (running s) (busy_ s) (task_ s) (log s).
Definition TaskInc (s : service) : service :=
  mkService (now s) (timers s) (ready s) (running s) (busy_ s) (task_ s + 1) (log s).
Definition TaskDec (s : service) : service :=
  mkService (now s) (timers s) (ready s) (running s) (busy_ s) (task_ s - 1) (log s).
Definition BusyInc (s : service) : service :=
  mkService (now s) (timers s) (ready s) (running s) (busy_ s + 1) (task_ s) (log s).
Definition BusyDec (s : service) : service :=
  mkService (now s) (timers s) (ready s) (running s) (busy_ s - 1) (task_ s) (log s).
Definition called (f : Function) (due : Z) (s : service) : service :=
  mkService (now s) (timers s) (ready s) (running s) (busy_ s) (task_ s) (log s ++ [(f, now s, due)]).

(** ** Posting *)

Definition Post (f : Function) (s : service) : service := add_ready (WrappedCall f) (TaskInc s).
Definition Post_delay (f : Function) (interval : Z) (s : service) : service :=
  add_timer interval (WrappedDelayCall f (now s + interval)) s.
Definition Post_count (f : Function) (interval count : Z) (s : service) : service :=
  add_timer interval (WrappedCountCall f interval count 0 (now s)) s.
Definition SurePost (f : Function) (interval retry : Z) (s : service) : service :=
  add_timer interval (WrappedSureCall f interval retry (now s + interval)) (TaskInc s).

(** [left()]. *)
Definition left_ (count called : Z) : Z := if count =? 0 then 0 else u64 (count - called).

(** ** Handlers *)

Definition start (h : handler) (s : service) : service :=
  match h with WrappedCall _ => BusyInc s | _ => s end.

(** [WrappedSureCall::operator()]: exceptions are caught, and the result says
    whether to try again. *)
Definition sure_call (f : Function) (retry due : Z) (s : service) : service * bool :=
  let retry := u64 (retry - 1) in
  (TaskDec (called f due s), if throws f then 0 <? retry else false).

(** The end of a handler; [None]: the exception of the function leaves
    [io_service::run], and with it the program. *)
Definition finish (h : handler) (s : service) : option service :=
  match h with
  | WrappedCall f => if throws f then None else Some (TaskDec (BusyDec (called f (now s) s)))
  | WrappedDelayCall f due => if throws f then None else Some (called f due s)
  | WrappedCountCall f interval count n t =>
      if throws f then None
      else
        let n := n + 1 in
        let s := called f (t + n * interval) s in
        Some (if (count =? 0) || negb (left_ count n =? 0)
              then add_timer interval (WrappedCountCall f interval count n t) s else s)
  | WrappedSureCall f interval retry due =>
      (* [func_();] of [WrappedDelayCall] drops the result *)
      Some (sure_call f retry due s).1
  end.

Definition remove {A} (i : nat) (l : list A) : list A := take i l ++ drop (S i) l.

Inductive action :=
| APost (f : Function) | APost_delay (f : Function) (interval : Z)
| APost_count (f : Function) (interval count : Z) | ASurePost (f : Function) (interval retry : Z)
| ATime (d : Z)           (* milliseconds go by *)
| AExpire (i : nat)       (* the i-th timer, when its time has come *)
| AStart (i : nat)        (* a thread takes the i-th handler *)
| AFinish (i : nat).      (* the i-th handler under way ends *)

(** [None]: not possible now, or the end of the program. *)
Definition act (a : action) (s : service) : option service :=
  match a with
  | APost f => Some (Post f s)
  | APost_delay f i => Some (Post_delay f i s)
  | APost_count f i n => Some (Post_count f i n s)
  | ASurePost f i r => Some (SurePost f i r s)
  | ATime d =>
      if d <? 0 then None
      else Some (mkService (now s + d) (timers s) (ready s) (running s) (busy_ s) (task_ s) (log s))
  | AExpire i =>
      match timers s !! i with
      | Some (t, h) =>
          if now s <? t then None
          else Some (mkService (now s) (remove i (timers s)) (ready s ++ [h]) (running s) (busy_ s) (task_ s) (log s))
      | None => None
      end
  | AStart i =>
      match ready s !! i with
      | Some h =>
          Some (start h (mkService (now s) (timers s) (remove i (ready s)) (running s ++ [h]) (busy_ s) (task_ s) (log s)))
      | None => None
      end
  | AFinish i =>
      match running s !! i with
      | Some h => finish h (mkService (now s) (timers s) (ready s) (remove i (running s)) (busy_ s) (task_ s) (log s))
      | None => None
      end
  end.

Fixpoint acts (l : list action) (s : service) : option service :=
  match l with [] => Some s | a :: l => s ← act a s; acts l s end.

(** ** What a handler will do *)

Context `{EqDecision Function}.

(** How many calls of [f] it stands for, and how many calls altogether. *)
Definition units (h : handler) : Z :=
  match h with WrappedCountCall _ _ count n _ => count - n | _ => 1 end.
Definition func_of (h : handler) : Function :=
  match h with
  | WrappedCall f | WrappedDelayCall f _ | WrappedCountCall f _ _ _ _ | WrappedSureCall f _ _ _ => f
  end.
Definition owed (f : Function) (h : handler) : Z := if decide (func_of h = f) then units h else 0.
(** When its next call is due. *)
Definition due_of (h : handler) : option Z :=
  match h with
  | WrappedCall _ => None
  | WrappedDelayCall _ due | WrappedSureCall _ _ _ due => Some due
  | WrappedCountCall _ interval _ n t => Some (t + (n + 1) * interval)
  end.
(** Whether it counts as busy while it runs, and as a task until it ends. *)
Definition as_busy (h : handler) : Z := match h with WrappedCall _ => 1 | _ => 0 end.
Definition as_task (h : handler) : Z := match h with WrappedCall _ | WrappedSureCall _ _ _ _ => 1 | _ => 0 end.
Definition handler_ok (h : handler) : Prop :=
  match h with
  | WrappedCountCall _ interval count n _ => 0 <= interval /\ 0 <= n < count /\ count < 2 ^ 64
  | _ => True
  end.

Fixpoint total {A} (w : A -> Z) (l : list A) : Z :=
  match l with [] => 0 | a :: l => w a + total w l end.

Lemma total_app {A} (w : A -> Z) l l' : total w (l ++ l') = total w l + total w l'.
Proof. induction l as [|a l IH]; cbn; lia. Qed.

Lemma total_remove {A} (w : A -> Z) l i a : l !! i = Some a -> total w l = w a + total w (remove i l).
Proof.
  intros H. rewrite <- (take_drop_middle l i a H) at 1. unfold remove. rewrite !total_app. cbn. lia.
Qed.

Lemma remove_sub {A} i (l : list A) a : a ∈ remove i l -> a ∈ l.
Proof.
  unfold remove. rewrite elem_of_app. intros [H|H]; [by apply subseteq_take in H|by apply subseteq_drop in H].
Qed.

(** Over all handlers that wait or run. *)
Definition overall (w : handler -> Z) (s : service) : Z :=
  total (fun e => w e.2) (timers s) + total w (ready s) + total w (running s).

Definition calls (f : Function) (s : service) : Z :=
  total (fun e => if decide (e.1.1 = f) then 1 else 0) (log s).

Definition promised (f : Function) (a : action) : Z :=
  match a with
  | APost g | APost_delay g _ | ASurePost g _ _ => if decide (g = f) then 1 else 0
  | APost_count g _ n => if decide (g = f) then n else 0
  | _ => 0
  end.
Definition sensible (a : action) : Prop :=
  match a with
  | APost_delay _ i | ASurePost _ i _ => 0 <= i
  | APost_count _ i n => 0 <= i /\ 0 < n < 2 ^ 64
  | _ => True
  end.

Record service_ok (s : service) : Prop := {
  so_handlers : forall h, (exists t, (t, h) ∈ timers s) \/ h ∈ ready s \/ h ∈ running s -> handler_ok h;
  so_timers : forall t h, (t, h) ∈ timers s -> forall due, due_of h = Some due -> due <= t;
  so_due : forall h, h ∈ ready s \/ h ∈ running s -> forall due, due_of h = Some due -> due <= now s;
  so_log : forall f t due, (f, t, due) ∈ log s -> due <= t <= now s;
  so_busy : busy_ s = total as_busy (running s);
  so_task : task_ s = overall as_task s }.

(** ** Every step keeps the books *)

Lemma overall_timer w i t h s : timers s !! i = Some (t, h) ->
  overall w s = w h + (total (fun e => w e.2) (remove i (timers s)) + total w (ready s) + total w (running s)).
Proof. intros H. unfold overall. rewrite (total_remove _ _ i (t, h)) by done. cbn. lia. Qed.

Lemma left_zero count n : 0 < n <= count -> count < 2 ^ 64 ->
  (count =? 0) || negb (left_ count n =? 0) = negb (n =? count).
Proof.
  intros Hn Hc. unfold left_. rewrite (proj2 (Z.eqb_neq count 0)) by lia. cbn.
  rewrite wrap_small by lia. f_equal. destruct (Z.eqb_spec n count), (Z.eqb_spec (count - n) 0); lia.
Qed.

(** What the end of a handler does, for handlers that are in order. *)
Lemma finish_cases h s s' : handler_ok h -> finish h s = Some s' ->
  s' = mkService (now s)
    (timers s ++ match h with
                 | WrappedCountCall f i c n t =>
                     if n + 1 =? c then [] else [(now s + i, WrappedCountCall f i c (n + 1) t)]
                 | _ => [] end)
    (ready s) (running s) (busy_ s - as_busy h) (task_ s - as_task h)
    (log s ++ [(func_of h, now s, default (now s) (due_of h))]).
Proof.
  destruct s as [nw tm rd rn b tk lg]. intros O. destruct h as [f|f due|f i c n t|f i r due]; cbn.
  - destruct (throws f); [done|]. intros [= <-]. unfold BusyDec, TaskDec, called. cbn. by rewrite app_nil_r.
  - destruct (throws f); [done|]. intros [= <-]. unfold called. cbn. rewrite app_nil_r. f_equal; lia.
  - destruct (throws f); [done|]. intros [= <-]. destruct O as (Hi & Hn & Hc). rewrite left_zero by lia.
    destruct (n + 1 =? c); unfold called, add_timer; cbn; rewrite ?app_nil_r; f_equal; lia.
  - intros [= <-]. unfold TaskDec, called. cbn. rewrite app_nil_r. f_equal. lia.
Qed.

Lemma calls_snoc f g t due l : total (fun e : Function * Z * Z => if decide (e.1.1 = f) then 1 else 0) (l ++ [(g, t, due)])
  = total (fun e => if decide (e.1.1 = f) then 1 else 0) l + (if decide (g = f) then 1 else 0).
Proof. rewrite total_app. cbn. lia. Qed.

Lemma act_conserves f a s s' : sensible a -> service_ok s -> act a s = Some s' ->
  calls f s' + overall (owed f) s' = calls f s + overall (owed f) s + promised f a.
Proof.
  intros Ha O E. destruct a as [g|g i|g i n|g i r|d|i|i|i]; cbn in E.
  1-4: injection E as <-; unfold calls, overall; cbn; rewrite total_app; cbn; unfold owed; cbn;
    destruct (decide (g = f)); lia.
  - destruct (d <? 0); [done|]. injection E as <-. unfold calls, overall. cbn. lia.
  - destruct (timers s !! i) as [[t h]|] eqn:H; [|done]. destruct (now s <? t); [done|]. injection E as <-.
    rewrite (overall_timer _ i t h s) by done. unfold calls, overall. cbn. rewrite total_app. cbn. lia.
  - destruct (ready s !! i) as [h|] eqn:H; [|done]. injection E as <-.
    unfold calls, overall. rewrite (total_remove _ (ready s) i h) by done.
    destruct h; cbn; rewrite total_app; cbn; lia.
  - destruct (running s !! i) as [h|] eqn:H; [|done].
    assert (handler_ok h) as Hh by (apply (so_handlers s O); right; right; by eapply list_elem_of_lookup_2).
    apply finish_cases in E as ->; [|done]. unfold calls, overall. cbn.
    rewrite calls_snoc, total_app, (total_remove _ (running s) i h) by done. unfold owed.
    destruct h as [g|g due|g j c n t|g j r due]; cbn; try (destruct (decide (g = f)); lia).
    destruct (Z.eqb_spec (n + 1) c); cbn; destruct (decide (g = f)); lia.
Qed.

Lemma ok_timer h i k s : service_ok s -> handler_ok h -> (forall due, due_of h = Some due -> due <= now s + i) ->
  k = task_ s + as_task h ->
  service_ok (mkService (now s) (timers s ++ [(now s + i, h)]) (ready s) (running s) (busy_ s) k (log s)).
Proof.
  intros [H1 H2 H3 H4 H5 H6] Hh Hd ->. split; cbn; try done.
  - intros h' [[t Ht]|Hr]; [|apply H1; by right].
    apply elem_of_app in Ht as [Ht|Ht%list_elem_of_singleton]; [apply H1; left; eauto|by simplify_eq].
  - intros t h' [Ht|Ht%list_elem_of_singleton]%elem_of_app; [by apply H2|by simplify_eq].
  - rewrite H6. unfold overall. cbn. rewrite total_app. cbn. lia.
Qed.

Lemma ok_ready_posted f s : service_ok s -> service_ok (Post f s).
Proof.
  intros [H1 H2 H3 H4 H5 H6]. split; cbn; try done.
  - intros h [Ht|[[Hr|Hr%list_elem_of_singleton]%elem_of_app|Hr]]; [apply H1; by left| |by simplify_eq|];
      apply H1; auto.
  - intros h [[Hr|Hr%list_elem_of_singleton]%elem_of_app|Hr] due; [|by simplify_eq|]; apply H3; auto.
  - rewrite H6. unfold overall. cbn. rewrite total_app. cbn. lia.
Qed.

Lemma ok_expire s i t h : service_ok s -> timers s !! i = Some (t, h) -> t <= now s ->
  service_ok (mkService (now s) (remove i (timers s)) (ready s ++ [h]) (running s) (busy_ s) (task_ s) (log s)).
Proof.
  intros [H1 H2 H3 H4 H5 H6] Hi Ht. assert ((t, h) ∈ timers s) as Hin by by eapply list_elem_of_lookup_2.
  split; cbn; try done.
  - intros h' [[t' Hr%remove_sub]|[[Hr|Hr%list_elem_of_singleton]%elem_of_app|Hr]]; simplify_eq; apply H1; eauto.
  - intros t' h' Hr%remove_sub. by apply H2.
  - intros h' [[Hr|Hr%list_elem_of_singleton]%elem_of_app|Hr] due E; simplify_eq; [apply (H3 h'); auto| |apply (H3 h'); auto].
    specialize (H2 t h Hin due E). lia.
  - rewrite H6, (overall_timer _ i t h s) by done. unfold overall. cbn. rewrite total_app. cbn. lia.
Qed.

Lemma ok_start s i h : service_ok s -> ready s !! i = Some h ->
  service_ok (start h (mkService (now s) (timers s) (remove i (ready s)) (running s ++ [h]) (busy_ s) (task_ s) (log s))).
Proof.
  intros [H1 H2 H3 H4 H5 H6] Hi. assert (h ∈ ready s) as Hin by by eapply list_elem_of_lookup_2.
  set (s' := start _ _).
  assert (s' = mkService (now s) (timers s) (remove i (ready s)) (running s ++ [h]) (busy_ s + as_busy h) (task_ s) (log s))
    as -> by (subst s'; destruct h; cbn; unfold BusyInc; cbn; f_equal; lia).
  split; cbn; try done.
  - intros h' [Ht|[Hr%remove_sub|[Hr|Hr%list_elem_of_singleton]%elem_of_app]]; simplify_eq; apply H1; auto.
  - intros h' [Hr%remove_sub|[Hr|Hr%list_elem_of_singleton]%elem_of_app]; simplify_eq; apply H3; auto.
  - rewrite H5, total_app. cbn. lia.
  - rewrite H6. unfold overall. cbn. rewrite (total_remove _ (ready s) i h), total_app by done. cbn. lia.
Qed.

Lemma ok_finish s i h s' : service_ok s -> running s !! i = Some h ->
  finish h (mkService (now s) (timers s) (ready s) (remove i (running s)) (busy_ s) (task_ s) (log s)) = Some s' ->
  service_ok s'.
Proof.
  intros O Hi E. assert (h ∈ running s) as Hin by by eapply list_elem_of_lookup_2.
  assert (handler_ok h) as Hh by (apply (so_handlers s O); auto).
  apply finish_cases in E; [cbn in E|done].
  assert (service_ok (mkService (now s) (timers s) (ready s) (remove i (running s)) (busy_ s - as_busy h)
    (task_ s - as_task h) (log s ++ [(func_of h, now s, default (now s) (due_of h))]))) as O'.
  { destruct O as [H1 H2 H3 H4 H5 H6]. split; cbn; try done.
    - intros h' [Ht|[Hr|Hr%remove_sub]]; apply H1; auto.
    - intros h' [Hr|Hr%remove_sub]; apply H3; auto.
    - intros f t due [Hl|Hl%list_elem_of_singleton]%elem_of_app; [by eapply H4|]. simplify_eq.
      split; [|lia]. destruct (due_of h) as [due|] eqn:D; cbn; [|lia]. exact (H3 h (or_intror Hin) due D).
    - rewrite H5, (total_remove _ (running s) i h) by done. lia.
    - rewrite H6. unfold overall. cbn. rewrite (total_remove _ (running s) i h) by done. lia. }
  subst s'. destruct h as [f|f due|f j c n t|f j r due]; try by rewrite app_nil_r.
  destruct (Z.eqb_spec (n + 1) c) as [|N]; [by rewrite app_nil_r|].
  pose proof (so_due s O _ (or_intror Hin) _ eq_refl) as D. destruct Hh as (Hj & Hn & Hc).
  apply (ok_timer _ j (task_ s - 0) _ O'); cbn; [lia| |lia]. intros due [= <-]. lia.
Qed.

Lemma act_ok a s s' : sensible a -> service_ok s -> act a s = Some s' -> service_ok s'.
Proof.
  intros Ha O E. destruct a as [g|g i|g i n|g i r|d|i|i|i]; cbn in E, Ha.
  - injection E as <-. by apply ok_ready_posted.
  - injection E as <-. apply ok_timer; [done|done| |cbn; lia]. intros due [= <-]. lia.
  - injection E as <-. apply ok_timer; [done|cbn; lia| |cbn; lia]. intros due [= <-]. lia.
  - injection E as <-. apply (ok_timer _ i (task_ s + 1) s); [done|done| |done]. intros due [= <-]. lia.
  - destruct (Z.ltb_spec d 0); [done|]. injection E as <-. destruct O as [H1 H2 H3 H4 H5 H6]. split; cbn; try done.
    + intros h Hh due D. specialize (H3 h Hh due D). lia.
    + intros f t due Hl. specialize (H4 f t due Hl). lia.
  - destruct (timers s !! i) as [[t h]|] eqn:H; [|done]. destruct (Z.ltb_spec (now s) t); [done|].
    injection E as <-. by apply (ok_expire s i t h).
  - destruct (ready s !! i) as [h|] eqn:H; [|done]. injection E as <-. by apply ok_start.
  - destruct (running s !! i) as [h|] eqn:H; [|done]. by apply (ok_finish s i h).
Qed.

Lemma init_ok : service_ok init.
Proof.
  split; cbn; try done.
  - intros h [[t H]|[H|H]]; by apply not_elem_of_nil in H.
  - intros t h H. by apply not_elem_of_nil in H.
  - intros h [H|H]; by apply not_elem_of_nil in H.
  - intros f t due H. by apply not_elem_of_nil in H.
Qed.

Lemma acts_ok l s s' : Forall sensible l -> service_ok s -> acts l s = Some s' -> service_ok s'.
Proof.
  intros F. revert s. induction F as [|a l Ha F IH]; intros s O; cbn; [by intros [= <-]|].
  destruct (act a s) as [s1|] eqn:E; [|done]. cbn. apply IH. by apply (act_ok a s).
Qed.

Lemma acts_conserve f l s s' : Forall sensible l -> service_ok s -> acts l s = Some s' ->
  calls f s' + overall (owed f) s' = calls f s + overall (owed f) s + total (promised f) l.
Proof.
  intros F. revert s. induction F as [|a l Ha F IH]; intros s O; cbn; [intros [= <-]; lia|].
  destruct (act a s) as [s1|] eqn:E; [|done]. cbn. intros E'.
  rewrite (IH s1) by (done || by apply (act_ok a s)). rewrite (act_conserves f a s s1) by done. lia.
Qed.

(** In every run, with any number of threads and whatever their order: of every
    function the calls made and the calls to come are together what was
    posted, a counted post being that many calls and a sure one a single call;
    no call is made before it is due; and the two counters of [AsyncRunner] are
    the handlers under way and the tasks that are not done. *)
Theorem posted_calls l s : Forall sensible l -> acts l init = Some s ->
  (forall f, calls f s + overall (owed f) s = total (promised f) l) /\
  (forall f t due, (f, t, due) ∈ log s -> due <= t) /\
  busy_ s = total as_busy (running s) /\ task_ s = overall as_task s.
Proof.
  intros F E. pose proof (acts_ok l init s F init_ok E) as O. split_and!.
  - intros f. by rewrite (acts_conserve f l init s F init_ok E).
  - intros f t due H. exact (proj1 (so_log s O f t due H)).
  - apply O.
  - apply O.
Qed.

(** ** Everything posted gets done *)

(** Steps a handler still needs where it is. *)
Definition weight (s : service) : Z :=
  total (fun e => 3 * units e.2) (timers s) + total (fun h => 3 * units h - 1) (ready s)
  + total (fun h => 3 * units h - 2) (running s).

Definition posts_nothing (a : action) : bool :=
  match a with ATime _ | AExpire _ | AStart _ | AFinish _ => true | _ => false end.
Definition cost (a : action) : Z := match a with AExpire _ | AStart _ | AFinish _ => 1 | _ => 0 end.

Lemma act_weight a s s' : posts_nothing a = true -> service_ok s -> act a s = Some s' ->
  weight s' = weight s - cost a.
Proof.
  intros Pa O E. destruct a as [g|g i|g i n|g i r|d|i|i|i]; try done; cbn in E.
  - destruct (d <? 0); [done|]. injection E as <-. unfold weight. cbn. lia.
  - destruct (timers s !! i) as [[t h]|] eqn:H; [|done]. destruct (now s <? t); [done|]. injection E as <-.
    unfold weight. cbn. rewrite (total_remove _ (timers s) i (t, h)), total_app by done. cbn. lia.
  - destruct (ready s !! i) as [h|] eqn:H; [|done]. injection E as <-.
    unfold weight. rewrite (total_remove _ (ready s) i h) by done.
    destruct h; cbn; rewrite total_app; cbn; lia.
  - destruct (running s !! i) as [h|] eqn:H; [|done].
    assert (handler_ok h) as Hh by (apply (so_handlers s O); right; right; by eapply list_elem_of_lookup_2).
    apply finish_cases in E as ->; [|done]. unfold weight. cbn.
    rewrite total_app, (total_remove _ (running s) i h) by done.
    destruct h as [g|g due|g j c n t|g j r due]; cbn; try lia.
    destruct (Z.eqb_spec (n + 1) c); cbn; lia.
Qed.

Lemma total_positive {A} (w : A -> Z) l : (forall a, a ∈ l -> 0 < w a) -> 0 <= total w l /\ (total w l = 0 -> l = []).
Proof.
  induction l as [|a l IH]; cbn; intros H; [done|].
  assert (0 < w a) by (apply H; by left). destruct IH as [I _]; [intros b Hb; apply H; by right|]. split; [lia|]. lia.
Qed.

Lemma units_pos h : handler_ok h -> 1 <= units h.
Proof. destruct h; cbn; lia. Qed.

Lemma weight_zero s : service_ok s -> 0 <= weight s /\
  (weight s = 0 -> timers s = [] /\ ready s = [] /\ running s = []).
Proof.
  intros [H1 _ _ _ _ _]. unfold weight.
  destruct (total_positive (fun e => 3 * units e.2) (timers s)) as [A1 A2].
  { intros [t h] Hin. assert (handler_ok h) as Hh by (apply H1; left; eauto). pose proof (units_pos h Hh). cbn. lia. }
  destruct (total_positive (fun h => 3 * units h - 1) (ready s)) as [B1 B2].
  { intros h Hin. assert (handler_ok h) as Hh by (apply H1; auto). pose proof (units_pos h Hh). lia. }
  destruct (total_positive (fun h => 3 * units h - 2) (running s)) as [C1 C2].
  { intros h Hin. assert (handler_ok h) as Hh by (apply H1; auto). pose proof (units_pos h Hh). lia. }
  split; [lia|]. intros E. split_and!; [apply A2|apply B2|apply C2]; lia.
Qed.

(** Unless nothing is left, a step is possible, if need be after some time. *)
Lemma some_step s : service_ok s -> (forall f, throws f = false) -> weight s <> 0 ->
  exists d a s', cost a = 1 /\ acts [ATime d; a] s = Some s'.
Proof.
  intros O T W. destruct (running s) as [|h run] eqn:R; [destruct (ready s) as [|h rd] eqn:Q;
    [destruct (timers s) as [|[t h] tm] eqn:M|]|].
  - unfold weight in W. by rewrite R, Q, M in W.
  - exists (Z.max 0 (t - now s)), (AExpire 0). eexists. split; [done|]. cbn.
    destruct (Z.ltb_spec (Z.max 0 (t - now s)) 0); [lia|]. cbn. rewrite M. cbn.
    destruct (Z.ltb_spec (now s + Z.max 0 (t - now s)) t); [lia|done].
  - exists 0, (AStart 0). eexists. split; [done|]. cbn. by rewrite Q.
  - exists 0, (AFinish 0). cbn. rewrite R. cbn.
    destruct h as [f|f due|f i c n t|f i r due]; cbn; rewrite ?T; eexists; by split.
Qed.

(** Once nothing new is posted, the handlers make no more than a fixed number of
    steps; while something is left to do one of them can go on, if need be
    after a while (functions that throw end the program); and when no step is
    left to make, every function was called as often as it was posted. *)
Theorem posted_done l us s s' : Forall sensible l -> acts l init = Some s ->
  forallb posts_nothing us = true -> acts us s = Some s' ->
  total cost us + weight s' = weight s /\ 0 <= weight s' /\
  ((forall f, throws f = false) -> weight s' <> 0 ->
     exists d a s2, cost a = 1 /\ acts [ATime d; a] s' = Some s2) /\
  (weight s' = 0 -> forall f, calls f s' = total (promised f) l).
Proof.
  intros F E P E'. pose proof (acts_ok l init s F init_ok E) as O.
  assert (service_ok s' /\ total cost us + weight s' = weight s /\
    forall f, calls f s' + overall (owed f) s' = calls f s + overall (owed f) s) as (O' & W & C).
  { clear E F. revert s O E'. induction us as [|a us IH]; intros s O E'; cbn in *; [injection E' as <-; split_and!; [done|lia|done]|].
    apply andb_true_iff in P as [Pa P]. destruct (act a s) as [s1|] eqn:E; [|done]. cbn in E'.
    assert (sensible a) as Sa by by destruct a.
    destruct (IH P s1 (act_ok a s s1 Sa O E) E') as (O' & W & C). split; [done|].
    rewrite (act_weight a s s1 Pa O E) in W. split; [lia|]. intros f. rewrite C.
    rewrite (act_conserves f a s s1 Sa O E). assert (promised f a = 0) as -> by by destruct a. lia. }
  destruct (weight_zero s' O') as [Hpos Hz]. split_and!; [done|done| |].
  - intros T N. by apply some_step.
  - intros Z f. destruct (Hz Z) as (A & B & D). specialize (C f).
    rewrite (acts_conserve f l init s F init_ok E) in C. unfold overall in C at 1. rewrite A, B, D in C. cbn in C.
    change (calls f init) with 0 in C. change (overall (owed f) init) with 0 in C. lia.
Qed.

(** ** The number of threads *)

(** [threads]: the size of the group [g_], which threads that ended do not leave. *)
Record AsyncRunner := mkAsyncRunner {
  stop_ : bool; thread_size_ : Z; max_thread_size_ : Z; threads : Z }.

Definition new_runner : AsyncRunner := mkAsyncRunner false 4 100 0.
Definition CreateOne (r : AsyncRunner) : AsyncRunner :=
  mkAsyncRunner (stop_ r) (thread_size_ r) (max_thread_size_ r) (threads r + 1).
Fixpoint create (n : nat) (r : AsyncRunner) : AsyncRunner :=
  match n with O => r | S n => create n (CreateOne r) end.

Definition set_thread_size (c : Z) (r : AsyncRunner) : AsyncRunner :=
  if c <=? threads r then r
  else
    let r := create (Z.to_nat (c - threads r)) r in
    mkAsyncRunner (stop_ r) (threads r) (max_thread_size_ r) (threads r).
Definition set_max_thread_size (c : Z) (r : AsyncRunner) : AsyncRunner :=
  mkAsyncRunner (stop_ r) (thread_size_ r) c (threads r).

Definition Start (r : AsyncRunner) : AsyncRunner :=
  let r := mkAsyncRunner false (thread_size_ r) (max_thread_size_ r) (threads r) in
  create (Z.to_nat (thread_size_ r)) r.
Definition Stop (r : AsyncRunner) : AsyncRunner :=
  mkAsyncRunner true (thread_size_ r) (max_thread_size_ r) (threads r).

(** One turn of the loop of [Check], a second long. *)
Definition Check_turn (busy : Z) (r : AsyncRunner) : AsyncRunner :=
  if stop_ r then r
  else if (thread_size_ r <? busy + 2) && (thread_size_ r <? max_thread_size_ r)
  then set_thread_size (thread_size_ r + 1) r else r.

(** [task()]: never negative. *)
Definition task (s : service) : Z := if task_ s <? 0 then 0 else task_ s.

Lemma create_threads n r :
  create n r = mkAsyncRunner (stop_ r) (thread_size_ r) (max_thread_size_ r) (threads r + Z.of_nat n).
Proof.
  revert r. induction n as [|n IH]; intros r; [destruct r; cbn; f_equal; lia|].
  cbn [create]. rewrite IH. cbn. f_equal. lia.
Qed.

(** After [n] seconds in which [busy] threads were busy there is a thread more for
    each, until there are two more than busy ones, or the most there may be. *)
Lemma check_turns n busy r : stop_ r = false -> threads r = thread_size_ r ->
  Nat.iter n (Check_turn busy) r
  = let k := Z.max (thread_size_ r) (Z.min (thread_size_ r + Z.of_nat n) (Z.min (max_thread_size_ r) (busy + 2))) in
    mkAsyncRunner false k (max_thread_size_ r) k.
Proof.
  intros Hs Ht. induction n as [|n IH].
  - cbn. destruct r as [s t m k]. cbn in *. subst. f_equal; lia.
  - cbn [Nat.iter nat_rect]. change (nat_rect _ _ _ n) with (Nat.iter n (Check_turn busy) r). rewrite IH.
    cbn zeta. unfold Check_turn. cbn [stop_ thread_size_ max_thread_size_].
    set (k := Z.max _ _).
    destruct (Z.ltb_spec k (busy + 2)), (Z.ltb_spec k (max_thread_size_ r)); cbn [andb];
      try (f_equal; subst k; lia).
    unfold set_thread_size. cbn [threads]. rewrite (proj2 (Z.leb_gt _ _)) by lia. rewrite create_threads.
    cbn. f_equal; subst k; lia.
Qed.

(** After a restart the group still has the threads of before, and the number of
    threads never grows. *)
Lemma restarted_stuck busy r : thread_size_ r + 1 <= threads r -> Check_turn busy r = r.
Proof.
  intros H. unfold Check_turn, set_thread_size. rewrite (proj2 (Z.leb_le _ _)) by lia.
  destruct (stop_ r); [done|]. by destruct (_ && _).
Qed.

End Async.

(** ** Examples *)

(** Functions are numbers; the third throws. *)
Definition third_throws (f : nat) : bool := (f =? 3)%nat.

(** Three calls, ten milliseconds apart. *)
Definition three_times : list action :=
  [APost_count 1%nat 10 3; ATime 10; AExpire 0; AStart 0; AFinish 0; ATime 10; AExpire 0; AStart 0; AFinish 0;
   ATime 15; AExpire 0; AStart 0; AFinish 0].

Example counted : (fun s => (log s, timers s)) <$> acts third_throws three_times init
  = Some ([(1%nat, 10, 10); (1%nat, 20, 20); (1%nat, 35, 30)], []).
Proof. vm_compute. reflexivity. Qed.

(** A sure call that fails is not tried again: nothing is left to do. *)
Example sure_is_not_repeated :
  (fun s => (calls 3%nat s, timers s, ready s, task_ s)) <$>
    acts third_throws [ASurePost 3%nat 5 3; ATime 5; AExpire 0; AStart 0; AFinish 0] init
  = Some (1, [], [], 0).
Proof. vm_compute. reflexivity. Qed.

(** A function that throws takes the program with it. *)
Example throwing_ends : acts third_throws [APost 3%nat; AStart 0; AFinish 0] init = None.
Proof. vm_compute. reflexivity. Qed.

(** Restarted, the runner has eight threads, says four, and does not inflate. *)
Example restart_stuck :
  let r := Start (Stop (Start new_runner)) in
  threads r = 8 /\ thread_size_ r = 4 /\ Nat.iter 20 (Check_turn 8) r = r.
Proof. vm_compute. auto. Qed.

Lemma posted_calls_witness :
  acts third_throws three_times init <> None /\
  forall s, acts third_throws three_times init = Some s ->
    calls 1%nat s + overall (owed 1%nat) s = 3 /\ busy_ s = total as_busy (running s).
Proof.
  split; [by vm_compute|]. intros s E.
  destruct (posted_calls third_throws three_times s) as (C & _ & B & _); [|exact E|].
  - repeat constructor; cbn; lia.
  - split; [by rewrite C|exact B].
Defined.

Lemma posted_done_witness :
  acts third_throws three_times init <> None /\
  forall s, acts third_throws (tail three_times) (Post_count 1%nat 10 3 init) = Some s ->
    weight s = 0 -> calls 1%nat s = 3.
Proof.
  split; [by vm_compute|]. intros s E W.
  destruct (posted_done third_throws [APost_count 1%nat 10 3] (tail three_times) (Post_count 1%nat 10 3 init) s)
    as (_ & _ & _ & C); [repeat constructor; cbn; lia|reflexivity|reflexivity|exact E|].
  exact (C W 1%nat).
Defined.
