(* ===== verification/PCount.v ===== *)
(** * Counters for reports (src/base3/pcount.h, src/base3/pcount.cc)

    [pcount] keeps counters that are pushed and functions that are polled, in
    arrays of 60; [xar] writes them out as lines of columns.  The atomic counters
    of boost are numbers; what the system says of time and resources is a
    parameter.  [None]: an access past an array or through a pointer that was
    never set. *)

From S2P Require Import Prelude CString.

Section Counters.
(** What is polled, and its value now. *)
Context {Poll : Type} (poll : Poll -> Z).

Definition SIZE_ : Z := 60.
Definition align : nat := 10.

Record pcount := mkPcount {
  push_index_ : Z; push_name_ : list bytes; push_count_ : list (option Z);
  poll_index_ : Z; poll_name_ : list bytes; poll_count_ : list (option Poll) }.

Definition new_pcount : pcount :=
  mkPcount (-1) (replicate 60 []) (replicate 60 None) (-1) (replicate 60 []) (replicate 60 None).

(** [a[i]] and [a[i] = v]. *)
Definition get {A} (a : list A) (i : Z) : option A := if i <? 0 then None else a !! Z.to_nat i.
Definition put {A} (a : list A) (i : Z) (v : A) : option (list A) :=
  if (i <? 0) || (Z.of_nat (length a) <=? i) then None else Some (<[Z.to_nat i := v]> a).

(** [name ? name : ""]. *)
Definition push_add (name : option bytes) (init_count : Z) (p : pcount) : option (Z * pcount) :=
  let push_index := push_index_ p + 1 in
  let index := if SIZE_ <=? push_index then 0 else push_index in
  names ← put (push_name_ p) index (default [] name);
  counts ← put (push_count_ p) index (Some init_count);
  Some (index, mkPcount push_index names counts (poll_index_ p) (poll_name_ p) (poll_count_ p)).

Definition push_change (d index : Z) (p : pcount) : option (Z * pcount) :=
  c ← get (push_count_ p) index;
  n ← c;
  counts ← put (push_count_ p) index (Some (n + d));
  Some (n + d, mkPcount (push_index_ p) (push_name_ p) counts (poll_index_ p) (poll_name_ p) (poll_count_ p)).
Definition push_inc (index : Z) (p : pcount) : option (Z * pcount) := push_change 1 index p.
Definition push_dec (index : Z) (p : pcount) : option (Z * pcount) := push_change (-1) index p.

Definition push_size (p : pcount) : Z := 1 + push_index_ p.
Definition poll_size (p : pcount) : Z := 1 + poll_index_ p.

(** Nothing compares the index with the size. *)
Definition poll_add (name : option bytes) (func : Poll) (p : pcount) : option pcount :=
  let index := poll_index_ p + 1 in
  names ← put (poll_name_ p) index (default [] name);
  counts ← put (poll_count_ p) index (Some func);
  Some (mkPcount (push_index_ p) (push_name_ p) (push_count_ p) index names counts).

(** [setfill(' ') << setw(align)]. *)
Definition column (s : bytes) : bytes := replicate (align - length s) " "%byte ++ s.

Definition columns {A} (f : A -> option bytes) (a : list A) (n : Z) : option bytes :=
  cells ← mapM (fun i => x ← get a i; s ← f x; Some (column s)) (seqZ 0 n); Some (concat cells).

Definition push_title (p : pcount) : option bytes := columns Some (push_name_ p) (push_size p).
Definition push_stat (p : pcount) : option bytes := columns (fmap dec) (push_count_ p) (push_size p).
Definition poll_title (p : pcount) : option bytes := columns Some (poll_name_ p) (poll_size p).
Definition poll_stat (p : pcount) : option bytes :=
  columns (fmap (fun f => dec (poll f))) (poll_count_ p) (poll_size p).

(** ** Reports *)

Definition rusage_name : list bytes :=
  [bs "mem"; bs "us"; bs "sy"; bs "page"; bs "pfalt"; bs "swaps"; bs "in"; bs "out"; bs "signal"; bs "ctxsw";
   bs "ictxsw"].
Definition rusage_title : bytes := concat (map column rusage_name).

(** [struct rusage], and what [CurrentMemoryUsage] says; a failing [getrusage]
    gives no numbers. *)
Record usage := mkUsage {
  memory : Z; ru_utime : Z * Z; ru_stime : Z * Z; ru_minflt : Z; ru_majflt : Z; ru_nswap : Z;
  ru_inblock : Z; ru_oublock : Z; ru_nsignals : Z; ru_nvcsw : Z; ru_nivcsw : Z }.

Definition timeval2ms (tv : Z * Z) : Z := u64 (tv.1 * 1000 + tv.2 / 1000).

Definition rusage (getrusage : bool) (u : usage) : bytes :=
  column (dec (memory u / 1024)) ++
  if getrusage then
    concat (map (fun n => column (dec n))
      [timeval2ms (ru_utime u); timeval2ms (ru_stime u); ru_minflt u; ru_majflt u; ru_nswap u; ru_inblock u;
       ru_oublock u; ru_nsignals u; ru_nvcsw u; ru_nivcsw u])
  else [].

Record xar := mkXar { push_size_ : Z; interval_ : Z; line_ : Z }.
Definition new_xar : xar := mkXar 0 5 0.

(** [output]: the title again when there are new counters, and every 40 lines. *)
Definition output (time : bytes) (ok : bool) (u : usage) (p : pcount) (x : xar) : option (bytes * xar) :=
  let again := negb (push_size_ x =? push_size p) || (line_ x mod 40 =? 0) in
  title ← (if again then
             a ← poll_title p; b ← push_title p;
             Some (replicate 8 " "%byte ++ a ++ b ++ rusage_title ++ [x0a])
           else Some []);
  a ← poll_stat p; b ← push_stat p;
  Some (title ++ time ++ a ++ b ++ rusage ok u ++ [x0a],
        mkXar (if again then push_size p else push_size_ x) (interval_ x) (line_ x + 1)).
(** ** The counters as a list *)

(** The names and counts registered so far, in the order of registration. *)
Record rep (l : list (bytes * Z)) (p : pcount) : Prop := {
  rep_size : push_size p = Z.of_nat (length l);
  rep_names : length (push_name_ p) = 60%nat;
  rep_counts : length (push_count_ p) = 60%nat;
  rep_at : forall i n c, l !! i = Some (n, c) ->
    push_name_ p !! i = Some n /\ push_count_ p !! i = Some (Some c) }.

Lemma get_nat {A} (a : list A) (i : nat) : get a (Z.of_nat i) = a !! i.
Proof. unfold get. rewrite (proj2 (Z.ltb_ge _ _)) by lia. by rewrite Nat2Z.id. Qed.

Lemma put_nat {A} (a : list A) (i : nat) v : (i < length a)%nat -> put a (Z.of_nat i) v = Some (<[i := v]> a).
Proof.
  intros H. unfold put. rewrite (proj2 (Z.ltb_ge _ _)), (proj2 (Z.leb_gt _ _)) by lia. by rewrite Nat2Z.id.
Qed.

Lemma columns_cells {A} (f : A -> option bytes) (a : list A) (cells : list bytes) :
  (forall i c, cells !! i = Some c -> exists x, a !! i = Some x /\ f x = Some c) ->
  columns f a (Z.of_nat (length cells)) = Some (concat (map column cells)).
Proof.
  intros H. unfold columns.
  assert (mapM (fun i => x ← get a i; s ← f x; Some (column s)) (seqZ 0 (Z.of_nat (length cells)))
    = Some (map column cells)) as ->; [|done].
  apply mapM_Some, Forall2_same_length_lookup. split; [by rewrite length_map, length_seqZ, Nat2Z.id|].
  intros i x y Hx Hy. apply lookup_seqZ in Hx as [-> Hi].
  apply list_lookup_fmap_Some in Hy as (c & -> & Hc).
  destruct (H i c Hc) as (x & Ha & Hf). by rewrite Z.add_0_l, get_nat, Ha; cbn; rewrite Hf.
Qed.

(** The arrays and their index are a list of names and counts while there are no
    more than 60: registering appends and gives the place, counting changes
    one entry, and the two lines of a report have a column for each, in order. *)
Theorem pcount_list l p : rep l p ->
  (forall name c, (length l < 60)%nat -> exists p',
     push_add name c p = Some (Z.of_nat (length l), p') /\ rep (l ++ [(default [] name, c)]) p') /\
  (forall i n c d, (i < 60)%nat -> l !! i = Some (n, c) -> exists p',
     push_change d (Z.of_nat i) p = Some (c + d, p') /\ rep (<[i := (n, c + d)]> l) p') /\
  push_title p = Some (concat (map (fun e => column e.1) l)) /\
  push_stat p = Some (concat (map (fun e => column (dec e.2)) l)).
Proof.
  intros [S N C A]. split_and!.
  - intros name c L. unfold push_add, SIZE_. unfold push_size in S.
    rewrite (proj2 (Z.leb_gt _ _)) by lia. replace (push_index_ p + 1) with (Z.of_nat (length l)) by lia.
    rewrite !put_nat by lia. eexists. split; [done|].
    split; unfold push_size; cbn; rewrite ?length_insert; [rewrite length_app; cbn; lia|done|done|].
    intros i n k H. apply lookup_app_Some in H as [H|[Hi H]].
    + pose proof (lookup_lt_Some _ _ _ H). rewrite !list_lookup_insert_ne by lia. by apply A.
    + destruct (i - length l)%nat eqn:E; [|done]. cbn in H. simplify_eq. assert (i = length l) as -> by lia.
      by rewrite !list_lookup_insert_eq by lia.
  - intros i n c d Hi H. destruct (A i n c H) as [A1 A2]. unfold push_change.
    rewrite get_nat, A2. cbn. rewrite put_nat by lia. eexists. split; [done|].
    split; unfold push_size in *; cbn; rewrite ?length_insert; [done..|].
    intros j m k Hj. apply list_lookup_insert_Some in Hj as [(<- & E & _)|[Hn Hj]].
    + simplify_eq. split; [done|]. apply list_lookup_insert_eq. lia.
    + rewrite list_lookup_insert_ne by done. by apply A.
  - unfold push_title. rewrite S. replace (map (fun e => column e.1) l) with (map column (map fst l)) by apply map_map.
    rewrite <- (length_map fst l). apply columns_cells. intros i c H.
    apply list_lookup_fmap_Some in H as ([n k] & -> & H). destruct (A i n k H) as [-> _]. by eexists.
  - unfold push_stat. rewrite S.
    replace (map (fun e => column (dec e.2)) l) with (map column (map (fun e => dec e.2) l)) by apply map_map.
    rewrite <- (length_map (fun e => dec e.2) l). apply columns_cells. intros i c H.
    apply list_lookup_fmap_Some in H as ([n k] & -> & H). destruct (A i n k H) as [_ ->]. by eexists.
Qed.

Lemma rep_new : rep [] new_pcount.
Proof. split; done. Qed.
End Counters.

(** ** Examples *)

Definition two_counters : option (pcount (Poll := Z)) :=
  r ← push_add (Some (bs "post")) 0 new_pcount; r ← push_add (Some (bs "delaypost")) 7 r.2;
  r ← push_inc 0 r.2; r ← push_inc 0 r.2; r ← push_dec 1 r.2; poll_add (Some (bs "busy")) 5 r.2.

Example a_report :
  (fun p => (push_stat p, push_title p, poll_stat id p)) <$> two_counters
  = Some (Some (bs "         2         6"), Some (bs "      post delaypost"), Some (bs "         5")).
Proof. vm_compute. reflexivity. Qed.

(** The 61st counter takes the place of the first, whose count is lost, and
    reports then read past the arrays; the 61st poll is written past its own. *)
Definition add_n (n : nat) (p : pcount (Poll := Z)) : option pcount :=
  Nat.iter n (fun r => p ← r; q ← push_add (Some (bs "c")) 1 p; Some q.2) (Some p).
Example sixty_one :
  (fun p => (push_size p, push_title p)) <$> add_n 61 new_pcount = Some (61, None) /\
  (p ← add_n 60 new_pcount; r ← push_add None 9 p; Some r.1) = Some 0.
Proof. vm_compute. auto. Qed.
Example sixty_one_polls :
  Nat.iter 61 (fun r => p ← r; poll_add None 0 p) (Some (new_pcount (Poll := Z))) = None.
Proof. vm_compute. reflexivity. Qed.
