(* ===== verification/Pickle.v ===== *)
(** * Pickles (src/base3/pickle.h, src/base3/pickle.cc)

    A [Pickle] packs values into one block: a header, whose first word is the
    size of the payload, and the payload, in which every value begins at a
    multiple of four.  Addresses are modelled as numbers, 0 being NULL; the
    block is the bytes at the address [header_].  [None] is a behaviour the
    language leaves undefined (an access outside the block) or the end of the
    program (a CHECK that fails); what DCHECK tests is not tested in a release
    build.  What [realloc] answers is an argument of the calls that may need it:
    no memory, or the new address and what the fresh bytes hold. *)

From S2P Require Import Prelude CString.

Definition sizeof_int : Z := 4.
Definition sizeof_Header : Z := 4.
Definition sizeof_wchar : Z := 4.
Definition INT_MAX : Z := 2 ^ 31 - 1.
Definition kPayloadUnit : Z := 64.
Definition kCapacityReadOnly : Z := 2 ^ 64 - 1.

Record Pickle := mkPickle {
  header_ : Z; block : bytes;
  header_size_ : Z; capacity_ : Z; variable_buffer_offset_ : Z }.

Definition realloc_t : Type := Z -> option (Z * bytes).

(** ** Access to the block *)

Definition inside (p : Pickle) (a n : Z) : bool := (header_ p <=? a) && (a + n <=? header_ p + size (block p)).
Definition with_block (p : Pickle) (b : bytes) : Pickle :=
  mkPickle (header_ p) b (header_size_ p) (capacity_ p) (variable_buffer_offset_ p).

Definition load (p : Pickle) (a n : Z) : option bytes :=
  if n =? 0 then Some [] else if inside p a n then Some (range (block p) (a - header_ p) n) else None.
Definition store (a : Z) (d : bytes) (p : Pickle) : option Pickle :=
  if size d =? 0 then Some p
  else if inside p a (size d) then Some (with_block p (splice (block p) (a - header_ p) d)) else None.
Definition word (p : Pickle) (a : Z) : option Z := l ← load p a 4; Some (le_combine l).

(** ** Sizes *)

Definition AlignInt (i alignment : Z) : Z := u64 (i + (alignment - i mod alignment) mod alignment).

(** [header_->payload_size]: NULL is in no block. *)
Definition payload_size (p : Pickle) : option Z := if header_ p =? 0 then None else word p (header_ p).
Definition payload (p : Pickle) : Z := u64 (header_ p + header_size_ p).
Definition end_of_payload (p : Pickle) : option Z :=
  if header_ p =? 0 then Some 0 else s ← payload_size p; Some (u64 (payload p + s)).
Definition pickle_size (p : Pickle) : option Z := s ← payload_size p; Some (i32 (header_size_ p + s)).

Definition Resize (r : realloc_t) (new_capacity : Z) (p : Pickle) : option (bool * Pickle) :=
  let new_capacity := AlignInt new_capacity kPayloadUnit in
  if capacity_ p =? kCapacityReadOnly then None
  else if new_capacity =? 0 then None  (* frees the block *)
  else
    match r new_capacity with
    | None => Some (false, p)
    | Some (a, fresh) =>
        let n := Z.to_nat new_capacity in
        Some (true, mkPickle a (take n (take n (block p) ++ fresh ++ replicate n x00))
                      (header_size_ p) new_capacity (variable_buffer_offset_ p))
    end.

(** ** Construction *)

Definition set_payload_size (s : Z) (p : Pickle) : option Pickle :=
  if header_ p =? 0 then None else store (header_ p) (le_split 4 s) p.

(** [Pickle(header_size)]; when there is no memory, NULL is written to. *)
Definition new_with (r : realloc_t) (header_size : Z) : option Pickle :=
  '(_, p) ← Resize r kPayloadUnit (mkPickle 0 [] (AlignInt header_size 4) 0 0);
  set_payload_size 0 p.
Definition new_pickle (r : realloc_t) : option Pickle :=
  '(_, p) ← Resize r kPayloadUnit (mkPickle 0 [] sizeof_Header 0 0);
  set_payload_size 0 p.

(** [Pickle(data, data_len)]; [mem]: the bytes that are really at [data]. *)
Definition from_data (data : Z) (mem : bytes) (data_len : Z) : option Pickle :=
  let p := mkPickle data mem 0 kCapacityReadOnly 0 in
  hs ← (if sizeof_Header <=? data_len then s ← payload_size p; Some (u32 (data_len - s)) else Some 0);
  let hs := if u32 data_len <? hs then 0 else hs in
  let hs := if hs =? AlignInt hs 4 then hs else 0 in
  Some (mkPickle (if hs =? 0 then 0 else data) mem hs kCapacityReadOnly 0).

(** What the copies share: room for the other's header and payload, and these
    copied into it. *)
Definition take_over (r : realloc_t) (other p : Pickle) : option Pickle :=
  s ← payload_size other;
  '(ok, p) ← Resize r (u64 (header_size_ other + s)) p;
  if negb ok then None
  else d ← load other (header_ other) (u64 (header_size_ other + s)); store (header_ p) d p.

Definition copy_of (r : realloc_t) (other : Pickle) : option Pickle :=
  take_over r other (mkPickle 0 [] (header_size_ other) 0 (variable_buffer_offset_ other)).

(** [p = other], for two different pickles. *)
Definition assign (r : realloc_t) (other p : Pickle) : option Pickle :=
  let p := if capacity_ p =? kCapacityReadOnly
           then mkPickle 0 [] (header_size_ p) 0 (variable_buffer_offset_ p) else p in
  let p := if header_size_ p =? header_size_ other then p
           else mkPickle 0 [] (header_size_ other) (capacity_ p) (variable_buffer_offset_ p) in
  p ← take_over r other p;
  Some (mkPickle (header_ p) (block p) (header_size_ p) (capacity_ p) (variable_buffer_offset_ other)).

(** ** Reading: the value ([None]: false), and where the iterator is then *)

Definition IteratorHasRoomFor (p : Pickle) (iter len : Z) : option bool :=
  if (len <? 0) || (iter <? header_ p) then Some false
  else
    e ← end_of_payload p;
    if e <? iter then Some false
    else let end_of_region := u64 (iter + len) in Some ((iter <=? end_of_region) && (end_of_region <=? e)).

Definition UpdateIter (iter n : Z) : Z := u64 (iter + AlignInt (u64 n) 4).

Definition begin (p : Pickle) (iter : Z) : Z := if iter =? 0 then payload p else iter.

(** The readers of numbers are alike, but for the type. *)
Definition read_fixed (n : Z) (p : Pickle) (iter : Z) : option (option Z * Z) :=
  let iter := begin p iter in
  room ← IteratorHasRoomFor p iter n;
  if negb room then Some (None, iter)
  else l ← load p iter n; Some (Some (le_combine l), UpdateIter iter n).

Definition as_type (f : Z -> Z) (x : option (option Z * Z)) : option (option Z * Z) :=
  match x with Some (v, iter) => Some (option_map f v, iter) | None => None end.

Definition ReadInt (p : Pickle) (iter : Z) := as_type i32 (read_fixed sizeof_int p iter).
Definition ReadLong (p : Pickle) (iter : Z) := as_type i64 (read_fixed 8 p iter).
Definition ReadSize (p : Pickle) (iter : Z) := read_fixed 8 p iter.
Definition ReadUInt32 (p : Pickle) (iter : Z) := read_fixed 4 p iter.
Definition ReadInt64 (p : Pickle) (iter : Z) := as_type i64 (read_fixed 8 p iter).
Definition ReadUInt64 (p : Pickle) (iter : Z) := read_fixed 8 p iter.

Definition ReadBool (p : Pickle) (iter : Z) : option (option bool * Z) :=
  '(v, iter) ← ReadInt p iter; Some (option_map (fun t => negb (t =? 0)) v, iter).

Definition ReadLength (p : Pickle) (iter : Z) : option (option Z * Z) :=
  '(v, iter) ← ReadInt p iter;
  Some (match v with Some n => if 0 <=? n then Some n else None | None => None end, iter).

Definition ReadString (p : Pickle) (iter : Z) : option (option bytes * Z) :=
  '(v, iter) ← ReadLength p iter;
  match v with
  | None => Some (None, iter)
  | Some len =>
      room ← IteratorHasRoomFor p iter len;
      if negb room then Some (None, iter)
      else l ← load p iter len; Some (Some l, UpdateIter iter len)
  end.

(** The characters of a wide string, each four bytes. *)
Fixpoint wchars (n : nat) (l : bytes) : list Z :=
  match n with O => [] | S n => le_combine (take 4 l) :: wchars n (drop 4 l) end.

Definition ReadWString (p : Pickle) (iter : Z) : option (option (list Z) * Z) :=
  '(v, iter) ← ReadLength p iter;
  match v with
  | None => Some (None, iter)
  | Some len =>
      if INT_MAX / sizeof_wchar <? len then Some (None, iter)
      else
        room ← IteratorHasRoomFor p iter (i32 (u64 (len * sizeof_wchar)));
        if negb room then Some (None, iter)
        else
          l ← load p iter (len * sizeof_wchar);
          Some (Some (wchars (Z.to_nat len) l), UpdateIter iter (i32 (u64 (len * sizeof_wchar))))
  end.

(** The answer is the address of the bytes. *)
Definition ReadBytes (p : Pickle) (iter length : Z) : option (option Z * Z) :=
  let iter := begin p iter in
  room ← IteratorHasRoomFor p iter length;
  Some (if negb room then (None, iter) else (Some iter, UpdateIter iter length)).

Definition ReadData (p : Pickle) (iter : Z) : option (option (Z * Z) * Z) :=
  '(v, iter) ← ReadLength p iter;
  match v with
  | None => Some (None, iter)
  | Some length =>
      '(data, iter) ← ReadBytes p iter length;
      Some (option_map (fun a => (a, length)) data, iter)
  end.

(** ** Writing *)

(** The address to write to, 0 when there is no memory. *)
Definition BeginWrite (r : realloc_t) (length : Z) (p : Pickle) : option (Z * Pickle) :=
  s ← payload_size p;
  let offset := AlignInt s 4 in
  let new_size := u64 (offset + length) in
  let needed_size := u64 (header_size_ p + new_size) in
  '(ok, p) ← (if capacity_ p <? needed_size then Resize r (Z.max (u64 (capacity_ p * 2)) needed_size) p
              else Some (true, p));
  if negb ok then Some (0, p)
  else p ← set_payload_size (u32 new_size) p; Some (u64 (payload p + offset), p).

Definition EndWrite (dest length : Z) (p : Pickle) : option Pickle :=
  let rest := u64 length mod 4 in
  if rest =? 0 then Some p
  else store (u64 (dest + length)) (replicate (Z.to_nat (4 - rest)) x00) p.

Definition WriteBytes (r : realloc_t) (data : bytes) (data_len : Z) (p : Pickle) : option (bool * Pickle) :=
  '(dest, p) ← BeginWrite r (u64 data_len) p;
  if dest =? 0 then Some (false, p)
  else if size data <? u64 data_len then None
  else
    p ← store dest (take (Z.to_nat (u64 data_len)) data) p;
    p ← EndWrite dest data_len p; Some (true, p).

Definition WriteInt (r : realloc_t) (v : Z) := WriteBytes r (le_split 4 (u32 v)) sizeof_int.
Definition WriteBool (r : realloc_t) (b : bool) := WriteInt r (if b then 1 else 0).
Definition WriteLong (r : realloc_t) (v : Z) := WriteBytes r (le_split 8 (u64 v)) 8.
Definition WriteSize (r : realloc_t) (v : Z) := WriteBytes r (le_split 8 v) 8.
Definition WriteUInt32 (r : realloc_t) (v : Z) := WriteBytes r (le_split 4 v) 4.
Definition WriteInt64 (r : realloc_t) (v : Z) := WriteBytes r (le_split 8 (u64 v)) 8.
Definition WriteUInt64 (r : realloc_t) (v : Z) := WriteBytes r (le_split 8 v) 8.

(** Two memory requests may be made, so there are two answers. *)
Definition WriteString (r r' : realloc_t) (value : bytes) (p : Pickle) : option (bool * Pickle) :=
  let n := i32 (size value) in
  '(ok, p) ← WriteInt r n p;
  if negb ok then Some (false, p) else WriteBytes r' value n p.

Definition wide (l : list Z) : bytes := concat (map (le_split 4) l).

Definition WriteWString (r r' : realloc_t) (value : list Z) (p : Pickle) : option (bool * Pickle) :=
  let n := Z.of_nat (length value) in
  '(ok, p) ← WriteInt r (i32 n) p;
  if negb ok then Some (false, p) else WriteBytes r' (wide value) (i32 (u64 (n * sizeof_wchar))) p.

Definition WriteData (r r' : realloc_t) (data : bytes) (length : Z) (p : Pickle) : option (bool * Pickle) :=
  if length <? 0 then Some (false, p)
  else
    '(ok, p) ← WriteInt r length p;
    if negb ok then Some (false, p) else WriteBytes r' data length p.

Definition BeginWriteData (r r' : realloc_t) (length : Z) (p : Pickle) : option (Z * Pickle) :=
  if length <? 0 then Some (0, p)
  else
    '(ok, p) ← WriteInt r length p;
    if negb ok then Some (0, p)
    else
      '(data_ptr, p) ← BeginWrite r' length p;
      if data_ptr =? 0 then Some (0, p)
      else
        let p := mkPickle (header_ p) (block p) (header_size_ p) (capacity_ p)
                   (u64 (data_ptr - header_ p - sizeof_int)) in
        p ← EndWrite data_ptr length p; Some (data_ptr, p).

Definition TrimWriteData (new_length : Z) (p : Pickle) : option Pickle :=
  let a := u64 (header_ p + variable_buffer_offset_ p) in
  w ← word p a;
  let cur_length := i32 w in
  if (new_length <? 0) || (cur_length <? new_length) then Some p
  else
    s ← payload_size p;
    p ← set_payload_size (u32 (s - (cur_length - new_length))) p;
    store a (le_split 4 new_length) p.

(** [FindNext] on the bytes [mem] at [start]; 0 is NULL. *)
Definition FindNext (header_size start : Z) (mem : bytes) (end_ : Z) : option Z :=
  s ← payload_size (mkPickle start mem header_size 0 0);
  let payload_base := u64 (start + header_size) in
  let payload_end := u64 (payload_base + s) in
  Some (if payload_end <? payload_base then 0 else if end_ <? payload_end then 0 else payload_end).

(** ** Values and their kinds *)

Inductive item :=
| Bool (b : bool) | Int (v : Z) | Long (v : Z) | Size (v : Z) | UInt32 (v : Z) | Int64 (v : Z) | UInt64 (v : Z)
| String (s : bytes) | WString (l : list Z) | Data (d : bytes) | Bytes (d : bytes).

Inductive kind :=
| KBool | KInt | KLong | KSize | KUInt32 | KInt64 | KUInt64 | KString | KWString | KData | KBytes (n : Z).

Definition kind_of (it : item) : kind :=
  match it with
  | Bool _ => KBool | Int _ => KInt | Long _ => KLong | Size _ => KSize | UInt32 _ => KUInt32
  | Int64 _ => KInt64 | UInt64 _ => KUInt64 | String _ => KString | WString _ => KWString
  | Data _ => KData | Bytes d => KBytes (size d)
  end.

Definition write_item (r r' : realloc_t) (it : item) (p : Pickle) : option (bool * Pickle) :=
  match it with
  | Bool b => WriteBool r b p | Int v => WriteInt r v p | Long v => WriteLong r v p | Size v => WriteSize r v p
  | UInt32 v => WriteUInt32 r v p | Int64 v => WriteInt64 r v p | UInt64 v => WriteUInt64 r v p
  | String s => WriteString r r' s p | WString l => WriteWString r r' l p
  | Data d => WriteData r r' d (size d) p | Bytes d => WriteBytes r d (size d) p
  end.

Definition answer {A} (f : A -> item) (x : option (option A * Z)) : option (option item * Z) :=
  match x with Some (v, iter) => Some (option_map f v, iter) | None => None end.

(** What a caller gets; of [ReadData] and [ReadBytes] the bytes at the address. *)
Definition read_item (k : kind) (p : Pickle) (iter : Z) : option (option item * Z) :=
  match k with
  | KBool => answer Bool (ReadBool p iter) | KInt => answer Int (ReadInt p iter)
  | KLong => answer Long (ReadLong p iter) | KSize => answer Size (ReadSize p iter)
  | KUInt32 => answer UInt32 (ReadUInt32 p iter) | KInt64 => answer Int64 (ReadInt64 p iter)
  | KUInt64 => answer UInt64 (ReadUInt64 p iter) | KString => answer String (ReadString p iter)
  | KWString => answer WString (ReadWString p iter)
  | KData =>
      '(v, iter) ← ReadData p iter;
      match v with
      | None => Some (None, iter)
      | Some (a, n) => d ← load p a n; Some (Some (Data d), iter)
      end
  | KBytes n =>
      '(v, iter) ← ReadBytes p iter n;
      match v with
      | None => Some (None, iter)
      | Some a => d ← load p a n; Some (Some (Bytes d), iter)
      end
  end.

(** Writing until something fails; reading until something fails. *)
Fixpoint write_all (l : list (realloc_t * realloc_t * item)) (p : Pickle) : option (bool * Pickle) :=
  match l with
  | [] => Some (true, p)
  | (r, r', it) :: l =>
      '(ok, p) ← write_item r r' it p;
      if negb ok then Some (false, p) else write_all l p
  end.

Fixpoint read_all (ks : list kind) (p : Pickle) (iter : Z) : option (list item * Z) :=
  match ks with
  | [] => Some ([], iter)
  | k :: ks =>
      '(v, iter) ← read_item k p iter;
      match v with
      | None => Some ([], iter)
      | Some it => '(its, iter) ← read_all ks p iter; Some (it :: its, iter)
      end
  end.

(** ** What a payload means *)

Definition encode (it : item) : bytes :=
  match it with
  | Bool b => le_split 4 (if b then 1 else 0)
  | Int v => le_split 4 (u32 v) | UInt32 v => le_split 4 v
  | Long v | Int64 v => le_split 8 (u64 v) | Size v | UInt64 v => le_split 8 v
  | String s | Data s => le_split 4 (size s) ++ s
  | WString l => le_split 4 (Z.of_nat (length l)) ++ wide l
  | Bytes d => d
  end.

Definition item_ok (it : item) : Prop :=
  match it with
  | Bool _ => True
  | Int v => - 2 ^ 31 <= v < 2 ^ 31 | UInt32 v => 0 <= v < 2 ^ 32
  | Long v | Int64 v => - 2 ^ 63 <= v < 2 ^ 63 | Size v | UInt64 v => 0 <= v < 2 ^ 64
  | String s | Data s | Bytes s => size s < 2 ^ 31
  | WString l => Z.of_nat (length l) < 2 ^ 29 /\ Forall (fun c => 0 <= c < 2 ^ 32) l
  end.

Definition align4 (z : Z) : Z := z + (- z) mod 4.

(** From [o] on the payload holds the items. *)
Fixpoint holds (P : bytes) (o : Z) (its : list item) : Prop :=
  match its with
  | [] => True
  | it :: its =>
      o + size (encode it) <= size P /\ range P o (size (encode it)) = encode it /\
      holds P (align4 (o + size (encode it))) its
  end.

Fixpoint end_of (o : Z) (its : list item) : Z :=
  match its with [] => o | it :: its => end_of (align4 (o + size (encode it))) its end.

Definition all_wchars (d : bytes) : list Z := wchars (length d / 4) d.
Arguments all_wchars : simpl never.

(** What reading at the offset [o] of a payload gives, and the next offset. *)
Definition decode_number (n : Z) (f : Z -> item) (P : bytes) (o : Z) : option item * Z :=
  if o + n <=? size P then (Some (f (le_combine (range P o n))), o + align4 n) else (None, o).
Definition decode_bytes (n : Z) (f : bytes -> item) (P : bytes) (o : Z) : option item * Z :=
  if (0 <=? n) && (o + n <=? size P) then (Some (f (range P o n)), o + align4 n) else (None, o).
Definition decode_counted (unit : Z) (f : bytes -> item) (P : bytes) (o : Z) : option item * Z :=
  if o + 4 <=? size P then
    let n := i32 (le_combine (range P o 4)) in
    if (n <? 0) || (INT_MAX / unit <? n) then (None, o + 4) else decode_bytes (n * unit) f P (o + 4)
  else (None, o).

Definition decode (k : kind) : bytes -> Z -> option item * Z :=
  match k with
  | KBool => decode_number 4 (fun v => Bool (negb (i32 v =? 0)))
  | KInt => decode_number 4 (fun v => Int (i32 v)) | KUInt32 => decode_number 4 UInt32
  | KLong => decode_number 8 (fun v => Long (i64 v)) | KInt64 => decode_number 8 (fun v => Int64 (i64 v))
  | KSize => decode_number 8 Size | KUInt64 => decode_number 8 UInt64
  | KString => decode_counted 1 String | KData => decode_counted 1 Data
  | KWString => decode_counted 4 (fun d => WString (all_wchars d))
  | KBytes n => decode_bytes n Bytes
  end.

(** ** Well-formed pickles *)

Definition ps (p : Pickle) : Z := le_combine (range (block p) 0 4).
Definition contents (p : Pickle) : bytes := range (block p) (header_size_ p) (ps p).
Definition pos (p : Pickle) (o : Z) : Z := header_ p + header_size_ p + o.

Record readable (p : Pickle) : Prop := {
  rd_header : 0 < header_ p;
  rd_top : header_ p + header_size_ p + ps p + 4 <= 2 ^ 64;
  rd_size : 4 <= header_size_ p; rd_align : header_size_ p mod 4 = 0;
  rd_room : header_size_ p + ps p <= size (block p) }.

Record writable (p : Pickle) : Prop := {
  wr_readable : readable p;
  wr_header_size : header_size_ p < 2 ^ 31;
  wr_top : header_ p + capacity_ p + 4 <= 2 ^ 64;
  wr_block : size (block p) = capacity_ p;
  wr_unit : capacity_ p mod 64 = 0;
  wr_capacity : capacity_ p <= 2 ^ 34 }.

(** Memory is not at NULL and not beyond the end of the addresses. *)
Definition sane (r : realloc_t) : Prop :=
  forall n a fresh, r n = Some (a, fresh) -> 0 < a /\ a + n + 4 <= 2 ^ 64.
Definition grants (r : realloc_t) : Prop := forall n, 0 < n <= 2 ^ 34 -> r n <> None.
