(* ===== verification/PickleSpec.v ===== *)
(** * What is packed is unpacked

    Reading from a pickle is decoding its payload ([read_item_at]); writing
    appends what [encode] gives at the next multiple of four, or fails and leaves
    the pickle as it was, but for a count ([write_item_at]).  From these: every
    value is read back, from the pickle, its copies and its bytes; on any bytes
    reading stays inside; a buffer that is trimmed is as one written short; and
    [FindNext] finds the end of a pickle. *)

From S2P Require Import Prelude CString Pickle.

(** ** Alignment *)

Lemma align4_bounds z : z <= align4 z < z + 4.
Proof. unfold align4. euclid. Qed.

Lemma align4_mod z : align4 z mod 4 = 0.
Proof. unfold align4. euclid. Qed.

Lemma align4_id z : z mod 4 = 0 -> align4 z = z.
Proof. unfold align4. intros. euclid. Qed.

Lemma align4_add o z : o mod 4 = 0 -> o + align4 z = align4 (o + z).
Proof. unfold align4. intros. euclid. Qed.

Lemma AlignInt_4 z : 0 <= z < 2 ^ 63 -> AlignInt z 4 = align4 z.
Proof.
  intros H. unfold AlignInt. replace ((4 - z mod 4) mod 4) with ((- z) mod 4) by euclid.
  pose proof (align4_bounds z). unfold align4 in *. apply wrap_small. lia.
Qed.

Lemma AlignInt_64 z : 0 < z < 2 ^ 63 -> z <= AlignInt z 64 < z + 64 /\ AlignInt z 64 mod 64 = 0.
Proof.
  intros H. unfold AlignInt. rewrite wrap_small by euclid. split; euclid.
Qed.

(** ** Ranges *)

Lemma range_split l a x y : 0 <= a -> 0 <= x -> 0 <= y -> range l a (x + y) = range l a x ++ range l (a + x) y.
Proof.
  intros. unfold range. rewrite !Z2Nat.inj_add by lia. rewrite <- drop_drop.
  generalize (drop (Z.to_nat a) l). intros l'. rewrite <- (take_drop (Z.to_nat x) l') at 1.
  rewrite take_app. f_equal; [rewrite take_take; f_equal; lia|].
  rewrite length_take. destruct (Nat.le_gt_cases (Z.to_nat x) (length l')).
  - f_equal. lia.
  - rewrite drop_ge by lia. by rewrite !take_nil.
Qed.

Lemma range_sub l a n o m : 0 <= a <= o -> 0 <= m -> o + m <= a + n -> range l o m = range (range l a n) (o - a) m.
Proof. intros. rewrite range_range by lia. f_equal. lia. Qed.

Lemma splice_nil l o : 0 <= o <= size l -> splice l o [] = l.
Proof.
  intros H. unfold splice, size in *. cbn [length app]. rewrite Nat.add_0_r.
  replace (Z.to_nat o - length l)%nat with 0%nat by lia. cbn. apply take_drop.
Qed.

(** ** Access inside the block *)

Lemma load_at p o n : 0 <= o -> 0 <= n -> o + n <= size (block p) -> load p (header_ p + o) n = Some (range (block p) o n).
Proof.
  intros. unfold load, inside. destruct (Z.eqb_spec n 0) as [->|]; [done|].
  rewrite (proj2 (Z.leb_le _ _)), (proj2 (Z.leb_le _ _)) by lia. cbn [andb]. do 2 f_equal. lia.
Qed.

Lemma store_at p o d : 0 <= o -> o + size d <= size (block p) ->
  store (header_ p + o) d p = Some (with_block p (splice (block p) o d)).
Proof.
  intros Ho Hs. unfold store, inside. destruct (Z.eqb_spec (size d) 0) as [E|].
  - assert (d = []) as -> by (destruct d; unfold size in E; cbn in E; [done|lia]).
    rewrite splice_nil by lia. by destruct p.
  - rewrite (proj2 (Z.leb_le _ _)), (proj2 (Z.leb_le _ _)) by lia. cbn [andb].
    do 3 f_equal. lia.
Qed.

Lemma ps_range p : 4 <= size (block p) -> 0 <= ps p < 2 ^ 32.
Proof.
  intros H. unfold ps. pose proof (le_combine_range (range (block p) 0 4)) as R.
  pose proof (size_range (block p) 0 4 ltac:(lia) ltac:(lia) ltac:(lia)) as L. unfold size in L.
  rewrite L in R. exact R.
Qed.

Section Readable.
Context (p : Pickle) (R : readable p).

Lemma rd_ps : 0 <= ps p < 2 ^ 32.
Proof.
  apply ps_range. destruct R. pose proof (le_combine_range (range (block p) 0 4)). unfold ps in *. lia.
Qed.

Lemma payload_size_ps : payload_size p = Some (ps p).
Proof.
  pose proof rd_ps. destruct R. unfold payload_size. rewrite (proj2 (Z.eqb_neq _ _)) by lia.
  unfold word. rewrite <- (Z.add_0_r (header_ p)), load_at by lia. done.
Qed.

Lemma payload_pos : payload p = pos p 0.
Proof. pose proof rd_ps. destruct R. unfold payload, pos. rewrite wrap_small by lia. lia. Qed.

Lemma end_pos : end_of_payload p = Some (pos p (ps p)).
Proof.
  pose proof rd_ps. pose proof payload_pos as P. pose proof payload_size_ps as S. destruct R.
  unfold end_of_payload. rewrite (proj2 (Z.eqb_neq _ _)) by lia. rewrite S. cbn. rewrite P.
  unfold pos. rewrite wrap_small by lia. f_equal. lia.
Qed.

Lemma room_at o n : 0 <= o <= ps p + 3 -> n < 2 ^ 31 ->
  IteratorHasRoomFor p (pos p o) n = Some ((0 <=? n) && (o + n <=? ps p)).
Proof.
  intros Ho Hn. pose proof rd_ps. unfold IteratorHasRoomFor. rewrite end_pos. cbn. destruct R. unfold pos.
  destruct (Z.ltb_spec n 0); cbn [orb]; [by rewrite (proj2 (Z.leb_gt _ _))|].
  rewrite (proj2 (Z.ltb_ge _ _)) by lia. rewrite (proj2 (Z.leb_le 0 n)) by lia. cbn [andb].
  destruct (Z.ltb_spec (header_ p + header_size_ p + ps p) (header_ p + header_size_ p + o)).
  { by rewrite (proj2 (Z.leb_gt _ _)) by lia. }
  destruct (Z.leb_spec (o + n) (ps p)) as [L|L].
  - rewrite wrap_small by lia. rewrite !(proj2 (Z.leb_le _ _)) by lia. done.
  - destruct (Z.lt_ge_cases (header_ p + header_size_ p + o + n) (2 ^ 64)).
    + rewrite wrap_small by lia. rewrite (proj2 (Z.leb_le _ _)), (proj2 (Z.leb_gt _ _)) by lia. done.
    + assert (u64 (header_ p + header_size_ p + o + n) = header_ p + header_size_ p + o + n - 2 ^ 64) as ->
        by (symmetry; apply (Zmod_unique _ _ 1); lia).
      rewrite (proj2 (Z.leb_gt _ _)) by lia. done.
Qed.

Lemma update_at o n : 0 <= o -> 0 <= n < 2 ^ 31 -> o + n <= ps p -> UpdateIter (pos p o) n = pos p (o + align4 n).
Proof.
  intros. pose proof (align4_bounds n). destruct R. unfold UpdateIter, pos.
  rewrite (wrap_small 64 n), AlignInt_4, wrap_small by lia. lia.
Qed.

Lemma load_payload o n : 0 <= o -> 0 <= n -> o + n <= ps p -> load p (pos p o) n = Some (range (contents p) o n).
Proof.
  intros. destruct R. unfold pos, contents. rewrite <- Z.add_assoc, load_at by lia. rewrite range_range by lia. done.
Qed.

Lemma begin_0 : begin p 0 = pos p 0.
Proof. unfold begin. cbn. apply payload_pos. Qed.

Lemma begin_pos o : 0 <= o -> begin p (pos p o) = pos p o.
Proof. intros. destruct R. unfold begin. rewrite (proj2 (Z.eqb_neq _ _)) by (unfold pos; lia). done. Qed.

End Readable.

(** ** Reading is decoding *)

Definition kind_ok (k : kind) : Prop := match k with KBytes n => - 2 ^ 31 <= n < 2 ^ 31 | _ => True end.

Section Reading.
Context (p : Pickle) (R : readable p) (iter o : Z).
Context (Hb : begin p iter = pos p o) (Ho : 0 <= o <= ps p + 3).

Lemma size_contents : size (contents p) = ps p.
Proof. pose proof (rd_ps p R). destruct R. unfold contents. apply size_range; lia. Qed.

Lemma read_fixed_at n : 0 < n < 2 ^ 31 ->
  read_fixed n p iter = Some (if o + n <=? ps p then (Some (le_combine (range (contents p) o n)), pos p (o + align4 n))
                              else (None, pos p o)).
Proof.
  intros Hn. unfold read_fixed. rewrite Hb, room_at by (done || lia). cbn.
  rewrite (proj2 (Z.leb_le 0 n)) by lia. cbn [andb].
  destruct (Z.leb_spec (o + n) (ps p)); cbn [negb]; [|done].
  rewrite load_payload by (done || lia). cbn. by rewrite update_at by (done || lia).
Qed.

Lemma read_number_at n f : 0 < n < 2 ^ 31 ->
  answer f (read_fixed n p iter) = Some (prod_map id (pos p) (decode_number n f (contents p) o)).
Proof.
  intros Hn. rewrite read_fixed_at by done. unfold decode_number. rewrite size_contents.
  by destruct (o + n <=? ps p).
Qed.

Lemma ReadLength_at :
  ReadLength p iter = Some (if o + 4 <=? ps p
    then (let n := i32 (le_combine (range (contents p) o 4)) in if n <? 0 then None else Some n, pos p (o + 4))
    else (None, pos p o)).
Proof.
  unfold ReadLength, ReadInt. rewrite read_fixed_at by (unfold sizeof_int; lia). unfold sizeof_int.
  destruct (o + 4 <=? ps p); [|done]. cbn. unfold align4. cbn. rewrite Z.leb_antisym. by destruct (_ <? 0).
Qed.

Lemma INT_MAX_div u : 0 < u -> INT_MAX / u < 2 ^ 31.
Proof. intros. unfold INT_MAX. apply (Z.le_lt_trans _ (2 ^ 31 - 1)); [|lia]. apply Z.div_le_upper_bound; lia. Qed.

Lemma i32_range z : - 2 ^ 31 <= i32 z < 2 ^ 31.
Proof. apply (swrap_range 32). lia. Qed.

End Reading.

Lemma read_bytes_at p o n f : readable p -> 0 <= o <= ps p + 3 -> n < 2 ^ 31 ->
  (room ← IteratorHasRoomFor p (pos p o) n;
   if negb room then Some (None, pos p o)
   else l ← load p (pos p o) n; Some (Some (f l), UpdateIter (pos p o) n))
  = Some (prod_map id (pos p) (decode_bytes n f (contents p) o)).
Proof.
  intros R Ho Hn. rewrite room_at by done. cbn. unfold decode_bytes. rewrite size_contents by done.
  destruct (Z.leb_spec 0 n), (Z.leb_spec (o + n) (ps p)); cbn; try done.
  rewrite load_payload by (done || lia). cbn. by rewrite update_at by (done || lia).
Qed.

Ltac comparisons :=
  repeat match goal with
  | |- context [?a <? ?b] => first [rewrite (proj2 (Z.ltb_lt a b)) by lia | rewrite (proj2 (Z.ltb_ge a b)) by lia]
  | |- context [?a <=? ?b] => first [rewrite (proj2 (Z.leb_le a b)) by lia | rewrite (proj2 (Z.leb_gt a b)) by lia]
  | |- context [?a =? ?b] => first [rewrite (proj2 (Z.eqb_eq a b)) by lia | rewrite (proj2 (Z.eqb_neq a b)) by lia]
  end; cbn [andb orb negb].

(** The bytes [ReadBytes] points to. *)
Lemma read_pointer_at p o n f : readable p -> 0 <= o <= ps p + 3 -> n < 2 ^ 31 ->
  ('(v, iter) ← ReadBytes p (pos p o) n;
   match v with None => Some (None, iter) | Some a => d ← load p a n; Some (Some (f d), iter) end)
  = Some (prod_map id (pos p) (decode_bytes n f (contents p) o)).
Proof.
  intros R Ho Hn. rewrite <- (read_bytes_at p o n f) by done. unfold ReadBytes. rewrite (begin_pos p R) by lia.
  rewrite room_at by done. cbn. destruct (_ && _) eqn:E; [|done]. cbn. by destruct (load p (pos p o) n).
Qed.

Lemma all_wchars_length (P : bytes) o n : 0 <= o -> 0 <= n -> o + n * 4 <= size P ->
  (length (range P o (n * 4)) / 4)%nat = Z.to_nat n.
Proof.
  intros. pose proof (size_range P o (n * 4)) as S. specialize (S ltac:(lia) ltac:(lia) ltac:(lia)).
  unfold size in S at 1. apply Nat2Z.inj. rewrite Nat2Z.inj_div, S. rewrite Z2Nat.id by lia. apply Z.div_mul. lia.
Qed.

Lemma read_item_at k p iter o : readable p -> kind_ok k -> begin p iter = pos p o -> 0 <= o <= ps p + 3 ->
  read_item k p iter = Some (prod_map id (pos p) (decode k (contents p) o)).
Proof.
  intros R K Hb Ho.
  destruct k as [| | | | | | | | | |n]; cbn [read_item decode];
    try (unfold ReadSize, ReadUInt32, ReadUInt64; by apply read_number_at).
  1-3, 4: unfold ReadBool, ReadInt, ReadLong, ReadInt64, sizeof_int; rewrite (read_fixed_at p R iter o Hb Ho) by lia;
    unfold decode_number; rewrite (size_contents p R); by destruct (_ <=? ps p).
  - unfold ReadString, decode_counted. rewrite (ReadLength_at p R iter o Hb Ho), (size_contents p R).
    destruct (Z.leb_spec (o + 4) (ps p)); [|done]. cbn zeta. cbn [mbind option_bind].
    set (n := i32 _). assert (- 2 ^ 31 <= n < 2 ^ 31) by apply i32_range.
    destruct (Z.ltb_spec n 0); [done|]. cbn [orb]. change (INT_MAX / 1) with (2 ^ 31 - 1). comparisons.
    rewrite Z.mul_1_r, <- read_bytes_at by (done || lia).
    destruct (IteratorHasRoomFor p (pos p (o + 4)) n) as [[]|]; cbn; [|done|done].
    by destruct (load p _ n).
  - unfold ReadWString, decode_counted. rewrite (ReadLength_at p R iter o Hb Ho), (size_contents p R).
    destruct (Z.leb_spec (o + 4) (ps p)); [|done]. cbn zeta. cbn [mbind option_bind].
    set (n := i32 _). assert (- 2 ^ 31 <= n < 2 ^ 31) by apply i32_range.
    destruct (Z.ltb_spec n 0); [done|]. cbn [orb]. change (INT_MAX / sizeof_wchar) with (INT_MAX / 4).
    destruct (Z.ltb_spec (INT_MAX / 4) n) as [|L]; [done|]. change (INT_MAX / 4) with (2 ^ 29 - 1) in L.
    change sizeof_wchar with 4. rewrite (wrap_small 64), i32_small by lia.
    rewrite <- read_bytes_at by (done || lia).
    destruct (IteratorHasRoomFor p (pos p (o + 4)) (n * 4)) as [[]|] eqn:E; cbn; [|done|done].
    destruct (load p _ (n * 4)) as [l|] eqn:El; [|done]. cbn. do 4 f_equal. unfold all_wchars.
    rewrite room_at in E by (done || lia). injection E as E. apply andb_true_iff in E as [E1 E2].
    apply Z.leb_le in E1, E2. rewrite load_payload in El by (done || lia). injection El as <-.
    rewrite all_wchars_length by (rewrite ?(size_contents p R); lia). done.
  - unfold ReadData, decode_counted. rewrite (ReadLength_at p R iter o Hb Ho), (size_contents p R).
    destruct (Z.leb_spec (o + 4) (ps p)); [|done]. cbn zeta. cbn [mbind option_bind].
    set (n := i32 _). assert (- 2 ^ 31 <= n < 2 ^ 31) by apply i32_range.
    destruct (Z.ltb_spec n 0); [done|]. cbn [orb]. change (INT_MAX / 1) with (2 ^ 31 - 1). comparisons.
    rewrite Z.mul_1_r, <- read_pointer_at by (done || lia).
    by destruct (ReadBytes p (pos p (o + 4)) n) as [[[a|] i]|].
  - cbn in K. rewrite <- (read_pointer_at p o n Bytes) by (done || lia).
    unfold ReadBytes. rewrite Hb, (begin_pos p R) by lia. done.
Qed.

Lemma decode_number_bound n f P o : 0 < n -> 0 <= o <= size P + 3 -> 0 <= (decode_number n f P o).2 <= size P + 3.
Proof.
  intros. unfold decode_number. destruct (Z.leb_spec (o + n) (size P)); cbn; [|lia].
  pose proof (align4_bounds n). lia.
Qed.

Lemma decode_bytes_bound n f P o : 0 <= o <= size P + 3 -> 0 <= (decode_bytes n f P o).2 <= size P + 3.
Proof.
  intros. unfold decode_bytes. destruct (Z.leb_spec 0 n), (Z.leb_spec (o + n) (size P)); cbn; try lia.
  pose proof (align4_bounds n). lia.
Qed.

Lemma decode_bound k P o : 0 <= o <= size P + 3 -> 0 <= (decode k P o).2 <= size P + 3.
Proof.
  intros H. destruct k; cbn [decode]; try (apply decode_number_bound; lia); try by apply decode_bytes_bound.
  all: unfold decode_counted; destruct (Z.leb_spec (o + 4) (size P)); cbn zeta; [|cbn; lia];
    destruct (_ || _); [cbn; lia|apply decode_bytes_bound; lia].
Qed.

Fixpoint decode_all (ks : list kind) (P : bytes) (o : Z) : list item * Z :=
  match ks with
  | [] => ([], o)
  | k :: ks =>
      match decode k P o with
      | (None, o) => ([], o)
      | (Some it, o) => let '(its, o) := decode_all ks P o in (it :: its, o)
      end
  end.

Lemma read_all_at ks p : readable p -> Forall kind_ok ks -> forall iter o,
  begin p iter = pos p o -> 0 <= o <= ps p + 3 -> (ks = [] -> iter = pos p o) ->
  read_all ks p iter = Some (prod_map id (pos p) (decode_all ks (contents p) o)).
Proof.
  intros R. induction 1 as [|k ks K F IH]; intros iter o Hb Ho Hn; cbn; [by rewrite Hn|].
  rewrite (read_item_at k p iter o) by done. cbn.
  pose proof (decode_bound k (contents p) o) as B. rewrite (size_contents p R) in B. specialize (B Ho).
  destruct (decode k (contents p) o) as [[it|] o']; cbn in *; [|done].
  rewrite (IH (pos p o') o') by (done || apply begin_pos; (done || lia)). cbn.
  by destruct (decode_all ks (contents p) o').
Qed.

(** ** Decoding undoes encoding *)

Lemma le_combine_split_small n v : 0 <= v < 2 ^ (Z.of_nat n * 8) -> le_combine (le_split n v) = v.
Proof. intros. rewrite le_combine_split. by apply Z.mod_small. Qed.

Lemma size_le_split n v : size (le_split n v) = Z.of_nat n.
Proof. unfold size. by rewrite length_le_split. Qed.

Lemma size_wide l : size (wide l) = 4 * Z.of_nat (length l).
Proof.
  unfold wide. induction l as [|c l IH]; [done|]. cbn [map concat length]. rewrite size_app, IH, size_le_split. lia.
Qed.

Lemma wchars_wide l : Forall (fun c => 0 <= c < 2 ^ 32) l -> wchars (length l) (wide l) = l.
Proof.
  induction 1 as [|c l Hc F IH]; [done|]. unfold wide in *. cbn [map concat length wchars].
  rewrite take_app_length', drop_app_length' by (by rewrite length_le_split).
  rewrite IH. f_equal. by apply le_combine_split_small.
Qed.

Lemma decode_number_holds n v (f : Z -> item) P o : 0 <= v < 2 ^ (Z.of_nat n * 8) -> o mod 4 = 0 ->
  o + Z.of_nat n <= size P -> range P o (Z.of_nat n) = le_split n v ->
  decode_number (Z.of_nat n) f P o = (Some (f v), align4 (o + Z.of_nat n)).
Proof.
  intros Hv Ha Hs E. unfold decode_number. rewrite E, (proj2 (Z.leb_le _ _)) by done.
  by rewrite le_combine_split_small, align4_add.
Qed.

Lemma decode_counted_holds u n d (f : bytes -> item) P o : 0 < u -> 0 <= n <= INT_MAX / u -> size d = n * u ->
  o mod 4 = 0 -> 0 <= o -> o + (4 + size d) <= size P -> range P o (4 + size d) = le_split 4 n ++ d ->
  decode_counted u f P o = (Some (f d), align4 (o + (4 + size d))).
Proof.
  intros Hu Hn Hd Ha Ho Hs E. pose proof (size_nonneg d). pose proof (INT_MAX_div u Hu).
  rewrite range_split in E by lia.
  apply app_inj_1 in E as [E1 E2].
  2: { pose proof (size_range P o 4 ltac:(lia) ltac:(lia) ltac:(lia)) as S. unfold size in S.
       rewrite length_le_split. lia. }
  unfold decode_counted. rewrite E1, le_combine_split_small, i32_small by lia. comparisons.
  unfold decode_bytes. rewrite <- Hd. comparisons. rewrite E2. do 2 f_equal.
  rewrite align4_add by euclid. f_equal. lia.
Qed.

Lemma decode_holds it P o : item_ok it -> o mod 4 = 0 -> 0 <= o -> o + size (encode it) <= size P ->
  range P o (size (encode it)) = encode it ->
  decode (kind_of it) P o = (Some it, align4 (o + size (encode it))).
Proof.
  intros K Ha Ho Hs E.
  destruct it as [b|v|v|v|v|v|v|s|l|d|d]; cbn [encode kind_of decode item_ok] in *;
    try (rewrite !size_app, size_le_split in *; change (Z.of_nat 4) with 4 in * ).
  - rewrite size_le_split in *. rewrite (decode_number_holds 4 (if b then 1 else 0)) by (done || (destruct b; lia)).
    by destruct b.
  - rewrite size_le_split in *. rewrite (decode_number_holds 4 (u32 v)) by (done || (apply wrap_range; lia)).
    do 3 f_equal. unfold swrap, wrap. rewrite Zplus_mod_idemp_l. apply (swrap_small 32); lia.
  - rewrite size_le_split in *. rewrite (decode_number_holds 8 (u64 v)) by (done || (apply wrap_range; lia)).
    do 3 f_equal. unfold swrap, wrap. rewrite Zplus_mod_idemp_l. apply (swrap_small 64); lia.
  - rewrite size_le_split in *. by rewrite (decode_number_holds 8 v).
  - rewrite size_le_split in *. by rewrite (decode_number_holds 4 v).
  - rewrite size_le_split in *. rewrite (decode_number_holds 8 (u64 v)) by (done || (apply wrap_range; lia)).
    do 3 f_equal. unfold swrap, wrap. rewrite Zplus_mod_idemp_l. apply (swrap_small 64); lia.
  - rewrite size_le_split in *. by rewrite (decode_number_holds 8 v).
  - pose proof (size_nonneg s). apply (decode_counted_holds 1 (size s)); try done; [|lia].
    change (INT_MAX / 1) with (2 ^ 31 - 1). lia.
  - destruct K as [K F]. rewrite (decode_counted_holds 4 (Z.of_nat (length l)) (wide l)); try done.
    + do 3 f_equal. unfold all_wchars. pose proof (size_wide l) as S. unfold size in S.
      replace (length (wide l)) with (length l * 4)%nat by lia. rewrite Nat.div_mul by done. by apply wchars_wide.
    + change (INT_MAX / 4) with (2 ^ 29 - 1). lia.
    + rewrite size_wide. lia.
  - pose proof (size_nonneg d). apply (decode_counted_holds 1 (size d)); try done; [|lia].
    change (INT_MAX / 1) with (2 ^ 31 - 1). lia.
  - pose proof (size_nonneg d). unfold decode_bytes. comparisons. by rewrite E, align4_add.
Qed.

Lemma decode_all_holds its P o : Forall item_ok its -> o mod 4 = 0 -> 0 <= o -> holds P o its ->
  decode_all (map kind_of its) P o = (its, end_of o its).
Proof.
  intros F. revert o. induction F as [|it its K F IH]; intros o Ha Ho H; [done|]. destruct H as (Hs & E & H).
  cbn [map decode_all end_of]. rewrite decode_holds by done. pose proof (size_nonneg (encode it)).
  rewrite IH; [done|apply align4_mod|pose proof (align4_bounds (o + size (encode it))); lia|done].
Qed.

(** ** Writing appends *)

(** [p'] has what [p] has in its header and in the first [n] bytes of its payload. *)
Definition keeps (n : Z) (p p' : Pickle) : Prop :=
  header_size_ p' = header_size_ p /\ variable_buffer_offset_ p' = variable_buffer_offset_ p /\
  range (block p') 4 (header_size_ p - 4 + n) = range (block p) 4 (header_size_ p - 4 + n).

Lemma keeps_refl n p : keeps n p p.
Proof. by split_and!. Qed.

Lemma keeps_trans n p p' p'' : keeps n p p' -> keeps n p' p'' -> keeps n p p''.
Proof. intros (A & B & C) (D & E & F). rewrite A in *. split_and!; congruence. Qed.

Lemma keeps_less m n p p' : 4 <= header_size_ p -> 0 <= m <= n -> keeps n p p' -> keeps m p p'.
Proof.
  intros H Hm (A & B & C). split_and!; [done|done|].
  rewrite (range_sub (block p') 4 (header_size_ p - 4 + n)), (range_sub (block p) 4 (header_size_ p - 4 + n)) by lia.
  by rewrite C.
Qed.

Lemma keeps_payload n p p' : 4 <= header_size_ p -> 0 <= n -> keeps n p p' ->
  range (block p') (header_size_ p) n = range (block p) (header_size_ p) n.
Proof.
  intros H Hn (A & B & C). 
  rewrite (range_sub (block p') 4 (header_size_ p - 4 + n)), (range_sub (block p) 4 (header_size_ p - 4 + n)) by lia.
  by rewrite C.
Qed.

Lemma keeps_contents n o m p p' : 4 <= header_size_ p -> 0 <= o -> 0 <= m -> o + m <= n -> n <= ps p -> n <= ps p' ->
  keeps n p p' -> range (contents p') o m = range (contents p) o m.
Proof.
  intros H Ho Hm Hn Hp Hp' K. pose proof (keeps_payload n p p' H ltac:(lia) K) as Q. destruct K as (Hh & _).
  unfold contents. rewrite Hh, !(range_range _ (header_size_ p)) by lia.
  rewrite (range_sub (block p') (header_size_ p) n), (range_sub (block p) (header_size_ p) n) by lia. by rewrite Q.
Qed.

(** Storing beyond the first [n] bytes of payload, or the size. *)
Lemma keeps_store n p o d : 4 <= header_size_ p -> 0 <= n -> 0 <= o ->
  header_size_ p + n <= size (block p) -> o + size d <= 4 \/ header_size_ p + n <= o ->
  keeps n p (with_block p (splice (block p) o d)).
Proof. intros. split_and!; [done|done|]. cbn. apply range_splice_other; lia. Qed.

Lemma writable_block p b : writable p -> size b = size (block p) ->
  header_size_ p + le_combine (range b 0 4) <= capacity_ p -> writable (with_block p b).
Proof.
  intros [[] ] Hb Hp. unfold ps in *. split; [split|..]; cbn; unfold ps; cbn; try done; lia.
Qed.

Lemma size_splice_inside l o d : 0 <= o -> o + size d <= size l -> size (splice l o d) = size l.
Proof. intros. rewrite length_splice by lia. lia. Qed.

Lemma Resize_at r n p : writable p -> sane r -> 0 < n <= 2 ^ 34 - 64 -> header_size_ p + ps p <= n ->
  exists ok p1, Resize r n p = Some (ok, p1) /\ (grants r -> ok = true) /\
    if ok then writable p1 /\ n <= capacity_ p1 /\ keeps (ps p) p p1 /\ ps p1 = ps p else p1 = p.
Proof.
  intros W S Hn Hr. pose proof (rd_ps p (wr_readable p W)) as Hps. unfold Resize.
  destruct (AlignInt_64 n ltac:(lia)) as [B M]. change kPayloadUnit with 64.
  set (m := AlignInt n 64) in *. destruct W as [[] H1 H2 H3 H4 H5].
  unfold kCapacityReadOnly. rewrite !(proj2 (Z.eqb_neq _ _)) by lia.
  destruct (r m) as [[a fresh]|] eqn:E.
  2: { exists false, p. split_and!; [done| |done]. intros G. by destruct (G m ltac:(lia)). }
  destruct (S m a fresh E) as [A1 A2]. eexists true, _. split; [done|]. split; [done|].
  set (b := take _ _).
  assert (forall o k, 0 <= o -> 0 <= k -> o + k <= header_size_ p + ps p -> range b o k = range (block p) o k) as K.
  { intros o k Ho Hk Hs. unfold b, range, size in *. apply list_eq. intros i.
    rewrite !lookup_take. case_decide; [|done]. rewrite !lookup_drop, lookup_take. case_decide; [|lia].
    rewrite lookup_app_l by len. rewrite lookup_take. case_decide; [done|lia]. }
  assert (size b = m) as L by (unfold b, size; len).
  assert (ps (mkPickle a b (header_size_ p) m (variable_buffer_offset_ p)) = ps p) as P
    by (unfold ps; cbn; rewrite K by lia; done).
  split_and!; [|cbn; lia| |done].
  - split; cbn; try lia. split; cbn; rewrite ?P; lia.
  - split_and!; [done|done|]. cbn. apply K; lia.
Qed.

Lemma payload_size_set s p : writable p -> 0 <= s < 2 ^ 32 -> header_size_ p + s <= capacity_ p ->
  exists p1, set_payload_size s p = Some p1 /\ writable p1 /\ ps p1 = s /\ capacity_ p1 = capacity_ p /\ header_ p1 = header_ p /\
    forall n, 0 <= n -> header_size_ p + n <= capacity_ p -> keeps n p p1.
Proof.
  intros W Hs Hc. pose proof W as [[] H1 H2 H3 H4 H5]. unfold set_payload_size. comparisons.
  pose proof (store_at p 0 (le_split 4 s)) as St. rewrite Z.add_0_r in St.
  rewrite St by (rewrite ?size_le_split; lia). eexists. split; [done|].
  assert (le_combine (range (splice (block p) 0 (le_split 4 s)) 0 4) = s) as E.
  { pose proof (range_splice_same (block p) 0 (le_split 4 s) ltac:(lia)) as Q.
    rewrite size_le_split in Q. change (Z.of_nat 4) with 4 in Q. rewrite Q. by apply le_combine_split_small. }
  split_and!; [|exact E|done|done|].
  - apply writable_block; [done|rewrite size_splice_inside; rewrite ?size_le_split; lia|rewrite E; lia].
  - intros n Hn Hk. apply keeps_store; rewrite ?size_le_split; lia.
Qed.

(** Room for [len] bytes more at the next multiple of four. *)
Lemma BeginWrite_at r len p : writable p -> sane r -> 0 <= len < 2 ^ 31 ->
  header_size_ p + align4 (ps p) + len < 2 ^ 32 ->
  exists (ok : bool) p1, BeginWrite r len p = Some (if ok then pos p1 (align4 (ps p)) else 0, p1) /\ (grants r -> ok = true) /\
    if ok then writable p1 /\ keeps (ps p) p p1 /\ ps p1 = align4 (ps p) + len else p1 = p.
Proof.
  intros W S Hl Ht. pose proof (rd_ps p (wr_readable p W)) as Hps. pose proof (align4_bounds (ps p)).
  pose proof W as [[] H1 H2 H3 H4 H5]. unfold BeginWrite. rewrite (payload_size_ps p (wr_readable p W)). cbn.
  rewrite AlignInt_4, (wrap_small 64 (align4 (ps p) + len)), (wrap_small 64 (header_size_ p + _)),
    (wrap_small 64 (capacity_ p * 2)) by lia.
  set (needed := header_size_ p + (align4 (ps p) + len)).
  assert (exists (ok : bool) p1, (if capacity_ p <? needed then Resize r (Z.max (capacity_ p * 2) needed) p else Some (true, p))
    = Some (ok, p1) /\ (grants r -> ok = true) /\
    if ok then writable p1 /\ needed <= capacity_ p1 /\ keeps (ps p) p p1 /\ ps p1 = ps p else p1 = p) as R.
  { destruct (Z.ltb_spec (capacity_ p) needed) as [L|L].
    - destruct (Resize_at r (Z.max (capacity_ p * 2) needed) p W S) as (ok & p1 & E & G & C); [lia|lia|].
      exists ok, p1. split; [done|]. split; [done|]. destruct ok; [|done].
      destruct C as (C1 & C2 & C3 & C4). split_and!; [done|lia|done|done].
    - exists true, p. split; [done|]. split; [done|]. split_and!; [done|lia|apply keeps_refl|done]. }
  destruct R as (ok & p1 & -> & G & C). cbn. destruct ok; cbn [negb]; [|by exists false, p1].
  destruct C as (W1 & Hc & K1 & P1). pose proof K1 as (Hh & _).
  destruct (payload_size_set (u32 (align4 (ps p) + len)) p1 W1) as (p2 & -> & W2 & P2 & C2 & A2 & K2);
    [apply wrap_range; lia|rewrite wrap_small by lia; lia|]. cbn.
  rewrite wrap_small in P2 by lia. rewrite (payload_pos p2 (wr_readable _ W2)).
  pose proof (K2 (ps p) ltac:(lia) ltac:(lia)) as K. assert (keeps (ps p) p p2) as K' by by eapply keeps_trans.
  pose proof K' as (Hh' & _). pose proof W2 as [[] ? ? ? ? ?]. exists true, p2. split.
  - unfold pos. rewrite wrap_small by lia. by rewrite Z.add_0_r.
  - split; [done|]. split_and!; [done|done|lia].
Qed.

Lemma EndWrite_at p n len : writable p -> 0 <= len < 2 ^ 31 -> n mod 4 = 0 -> 0 <= n -> n + len = ps p ->
  exists p1, EndWrite (pos p n) len p = Some p1 /\ writable p1 /\ keeps (ps p) p p1 /\ ps p1 = ps p /\ header_ p1 = header_ p.
Proof.
  intros W Hl Hn H0 He. pose proof (rd_ps p (wr_readable p W)) as Hps. pose proof W as [[] H1 H2 H3 H4 H5].
  unfold EndWrite. rewrite (wrap_small 64 len) by lia.
  destruct (Z.eqb_spec (len mod 4) 0) as [|N]; [exists p; split_and!; (done || apply keeps_refl)|].
  assert (header_size_ p + ps p + (4 - len mod 4) <= capacity_ p) by euclid.
  rewrite wrap_small by (unfold pos; lia). replace (pos p n + len) with (header_ p + (header_size_ p + ps p)) by (unfold pos; lia).
  assert (size (replicate (Z.to_nat (4 - len mod 4)) x00) = 4 - len mod 4) as L by (unfold size; len; euclid).
  rewrite store_at by (rewrite ?L; lia). eexists. split; [done|].
  set (b := splice _ _ _). assert (range b 0 4 = range (block p) 0 4) as P by (apply range_splice_other; lia).
  assert (ps (with_block p b) = ps p) as P' by (unfold ps; cbn; by rewrite P).
  split_and!; [|apply keeps_store; lia|done|done].
  apply writable_block; [done|apply size_splice_inside; lia|]. rewrite P. fold (ps p). lia.
Qed.

(** What a write of [d] comes to: nothing, or the bytes behind the payload, at a
    multiple of four. *)
Definition appended (d : bytes) (p p' : Pickle) : Prop :=
  writable p' /\ keeps (ps p) p p' /\ ps p' = align4 (ps p) + size d /\
  range (contents p') (align4 (ps p)) (size d) = d.

Lemma WriteBytes_at r d n p : writable p -> sane r -> size d = n -> n < 2 ^ 31 ->
  header_size_ p + align4 (ps p) + n < 2 ^ 32 ->
  exists (ok : bool) p', WriteBytes r d n p = Some (ok, p') /\ (grants r -> ok = true) /\
    if ok then appended d p p' else p' = p.
Proof.
  intros W S <- Hn Ht. pose proof (size_nonneg d). pose proof (rd_ps p (wr_readable p W)).
  pose proof (align4_bounds (ps p)). pose proof (align4_mod (ps p)) as M. unfold WriteBytes. rewrite (wrap_small 64) by lia.
  destruct (BeginWrite_at r (size d) p W S) as (ok & p1 & -> & G & C); [lia|lia|]. cbn.
  destruct ok; cbn; [|by exists false, p1]. destruct C as (W1 & K1 & P1). pose proof K1 as (Hh & Hv & _).
  pose proof W1 as [[] ? ? ? ? ?].
  rewrite (proj2 (Z.eqb_neq _ _)) by (unfold pos; lia). rewrite Z.ltb_irrefl. rewrite take_ge by (unfold size; lia).
  replace (store (pos p1 _)) with (store (header_ p1 + (header_size_ p1 + align4 (ps p)))) by (unfold pos; f_equal; lia).
  rewrite store_at by lia. cbn.
  set (o := header_size_ p1 + align4 (ps p)). set (b := splice _ _ _).
  assert (size b = size (block p1)) as Hb by (apply size_splice_inside; lia).
  assert (ps (with_block p1 b) = ps p1) as P2 by (unfold ps; cbn; unfold b; rewrite range_splice_other by lia; done).
  assert (keeps (ps p) p1 (with_block p1 b)) as K2 by (apply keeps_store; lia).
  assert (writable (with_block p1 b)) as W2.
  { apply writable_block; [done|done|]. change (le_combine (range b 0 4)) with (ps (with_block p1 b)). lia. }
  destruct (EndWrite_at (with_block p1 b) (align4 (ps p)) (size d) W2) as (p3 & E3 & W3 & K3 & P3 & _); [lia|done|lia|lia|].
  change (pos (with_block p1 b) (align4 (ps p))) with (pos p1 (align4 (ps p))) in E3. rewrite E3. cbn.
  rewrite P2 in K3.
  exists true, p3. split; [done|]. split; [done|]. split_and!; [done| |lia|].
  - eapply keeps_trans; [done|]. eapply keeps_trans; [done|]. eapply keeps_less, K3; cbn; lia.
  - unfold contents. pose proof (keeps_payload (ps p1) (with_block p1 b) p3 ltac:(cbn; lia) ltac:(lia) K3) as Q. destruct K3 as (Hh3 & _).
    rewrite P3, P2, Hh3. cbn [header_size_ with_block block] in *. rewrite Q, range_range by lia. apply range_splice_same. lia.
Qed.

(** One write after the other. *)
Lemma appended_app c d p p1 p2 : readable p -> size c mod 4 = 0 -> appended c p p1 -> appended d p1 p2 -> appended (c ++ d) p p2.
Proof.
  intros R M (W1 & K1 & P1 & C1) (W2 & K2 & P2 & C2). pose proof (rd_ps p R). pose proof (rd_size p R).
  pose proof (align4_bounds (ps p)). pose proof (align4_mod (ps p)). pose proof (size_nonneg c). pose proof (size_nonneg d).
  assert (align4 (ps p1) = ps p1) as A by (apply align4_id; rewrite P1; euclid). rewrite A in *.
  pose proof K1 as (Hh & _). pose proof (size_contents p1 (wr_readable _ W1)) as L1.
  split_and!; [done| |rewrite size_app; lia|].
  - eapply keeps_trans; [done|]. eapply keeps_less, K2; lia.
  - rewrite size_app, range_split by lia. f_equal; [|by rewrite P1 in C2].
    transitivity (range (contents p1) (align4 (ps p)) (size c)); [|exact C1]. pose proof (keeps_payload (ps p1) p1 p2 ltac:(lia) ltac:(lia) K2) as Q. destruct K2 as (Hh2 & _).
    unfold contents at 1. rewrite Hh2, P2, range_range by lia.
    rewrite (range_sub _ (header_size_ p1) (ps p1)), Q by lia. unfold contents. f_equal. lia.
Qed.

Lemma WriteInt_at r v p : writable p -> sane r -> header_size_ p + align4 (ps p) + 4 < 2 ^ 32 ->
  exists (ok : bool) p', WriteInt r v p = Some (ok, p') /\ (grants r -> ok = true) /\
    if ok then appended (le_split 4 (u32 v)) p p' else p' = p.
Proof. intros. apply WriteBytes_at; rewrite ?size_le_split; done. Qed.

(** Strings and data: the count may be written and the rest not. *)
Lemma write_counted_at r r' n d m p : writable p -> sane r -> sane r' -> size d = m -> m < 2 ^ 31 ->
  header_size_ p + align4 (ps p) + 4 + m < 2 ^ 32 ->
  exists (ok : bool) p', ('(ok, p) ← WriteInt r n p; if negb ok then Some (false, p) else WriteBytes r' d m p) = Some (ok, p') /\
    (grants r -> grants r' -> ok = true) /\
    if ok then appended (le_split 4 (u32 n) ++ d) p p' else p' = p \/ appended (le_split 4 (u32 n)) p p'.
Proof.
  intros W S S' Hd Hm Ht. pose proof (size_nonneg d).
  destruct (WriteInt_at r n p W S) as (ok & p1 & -> & G & C); [lia|]. cbn.
  destruct ok; cbn; [|exists false, p1; split_and!; [done|intros; by apply G|auto]].
  pose proof C as (W1 & (Hh & _) & P1 & _). rewrite size_le_split in P1.
  assert (align4 (ps p1) = ps p1) as A by (apply align4_id; rewrite P1; pose proof (align4_mod (ps p)); euclid).
  destruct (WriteBytes_at r' d m p1 W1 S' Hd) as (ok & p2 & -> & G' & C'); [lia|lia|].
  exists ok, p2. split; [done|]. split; [intros; by apply G'|]. destruct ok; [|subst; auto].
  eapply appended_app; [apply W|by rewrite size_le_split|done|done].
Qed.

(** [encode] is what is written; on failure perhaps the count alone. *)
Lemma write_item_at r r' it p : writable p -> sane r -> sane r' -> item_ok it ->
  header_size_ p + align4 (ps p) + size (encode it) < 2 ^ 32 ->
  exists (ok : bool) p', write_item r r' it p = Some (ok, p') /\ (grants r -> grants r' -> ok = true) /\
    if ok then appended (encode it) p p' else p' = p \/ exists n, appended (le_split 4 n) p p'.
Proof.
  intros W S S' K Ht.
  assert (forall d n, size d = n -> n < 2 ^ 31 -> encode it = d -> exists (ok : bool) p',
    WriteBytes r d n p = Some (ok, p') /\ (grants r -> grants r' -> ok = true) /\
    if ok then appended (encode it) p p' else p' = p \/ exists n, appended (le_split 4 n) p p') as One.
  { intros d n Hd Hn E. rewrite E in *. destruct (WriteBytes_at r d n p W S Hd Hn) as (ok & p' & E' & G & C); [lia|].
    exists ok, p'. split; [done|]. split; [auto|]. destruct ok; auto. }
  assert (forall v n d m, u32 n = v -> size d = m -> m < 2 ^ 31 -> encode it = le_split 4 v ++ d -> exists (ok : bool) p',
    ('(ok, p) ← WriteInt r n p; if negb ok then Some (false, p) else WriteBytes r' d m p) = Some (ok, p') /\
    (grants r -> grants r' -> ok = true) /\
    if ok then appended (encode it) p p' else p' = p \/ exists n, appended (le_split 4 n) p p') as Two.
  { intros v n d m <- Hd Hm E. rewrite E in *. rewrite size_app, size_le_split in Ht.
    destruct (write_counted_at r r' n d m p W S S' Hd Hm) as (ok & p' & E' & G & C); [lia|].
    exists ok, p'. split; [done|]. split; [done|]. destruct ok; [done|]. destruct C; eauto. }
  destruct it as [b|v|v|v|v|v|v|s|l|d|d]; cbn [write_item encode item_ok] in *;
    try (apply One; rewrite ?size_le_split; (done || by destruct b)).
  - pose proof (size_nonneg s). unfold WriteString. rewrite i32_small by lia.
    apply (Two (size s)); [apply wrap_small; lia|done|done|done].
  - pose proof (size_wide l). unfold WriteWString. change sizeof_wchar with 4.
    rewrite (i32_small (Z.of_nat (length l))), (wrap_small 64), i32_small by lia.
    apply (Two (Z.of_nat (length l))); [apply wrap_small; lia|lia|lia|done].
  - pose proof (size_nonneg d). unfold WriteData. comparisons. apply (Two (size d)); [apply wrap_small; lia|done|done|done].
Qed.

(** ** Whole pickles *)

Lemma end_of_ge its o : o <= end_of o its.
Proof.
  revert o. induction its as [|it its IH]; intros o; cbn; [lia|].
  pose proof (size_nonneg (encode it)). pose proof (align4_bounds (o + size (encode it))).
  specialize (IH (align4 (o + size (encode it)))). lia.
Qed.

Definition good_answers (x : realloc_t * realloc_t * item) : Prop :=
  sane x.1.1 /\ grants x.1.1 /\ sane x.1.2 /\ grants x.1.2 /\ item_ok x.2.

Lemma write_all_at l : Forall good_answers l -> forall p, writable p ->
  header_size_ p + end_of (align4 (ps p)) (map snd l) < 2 ^ 32 ->
  exists p', write_all l p = Some (true, p') /\ writable p' /\ keeps (ps p) p p' /\ ps p <= ps p' /\
    holds (contents p') (align4 (ps p)) (map snd l) /\ align4 (ps p') = end_of (align4 (ps p)) (map snd l).
Proof.
  induction 1 as [|[[r r'] it] l (S1 & G1 & S2 & G2 & K) F IH]; intros p W Hs; cbn in *.
  { exists p. split_and!; try done; apply keeps_refl. }
  pose proof (end_of_ge (map snd l) (align4 (align4 (ps p) + size (encode it)))) as Hge.
  pose proof (align4_bounds (align4 (ps p) + size (encode it))). pose proof (align4_bounds (ps p)).
  pose proof (size_nonneg (encode it)). pose proof (rd_ps p (wr_readable p W)). pose proof (rd_size p (wr_readable p W)).
  destruct (write_item_at r r' it p W S1 S2 K) as (ok & p1 & -> & G & C); [lia|]. rewrite (G G1 G2) in C |- *. cbn.
  destruct C as (W1 & K1 & P1 & C1). pose proof K1 as (Hh & _).
  destruct (IH p1 W1) as (p' & -> & W' & K' & P' & Hl & Hend); [rewrite P1, Hh; lia|].
  pose proof (rd_ps p' (wr_readable p' W')). pose proof K' as (Hh' & _).
  exists p'. rewrite P1 in *. split_and!; [done|done| |lia| | |done|done].
  - eapply keeps_trans; [done|]. eapply keeps_less, K'; lia.
  - rewrite (size_contents p' (wr_readable p' W')). lia.
  - pose proof (keeps_payload (align4 (ps p) + size (encode it)) p1 p' ltac:(lia) ltac:(lia) K') as Q.
    rewrite <- C1 at 2. unfold contents. rewrite Hh', P1, !range_range by lia.
    rewrite !(range_sub _ (header_size_ p1) (align4 (ps p) + size (encode it)) (header_size_ p1 + align4 (ps p))) by lia.
    by rewrite Q.
Qed.

(** A block for a pickle that has none. *)
Lemma Resize_fresh r n hs vo : sane r -> grants r -> 0 < n <= 2 ^ 34 - 64 ->
  exists p, Resize r n (mkPickle 0 [] hs 0 vo) = Some (true, p) /\ 0 < header_ p /\ header_ p + capacity_ p + 4 <= 2 ^ 64 /\
    header_size_ p = hs /\ variable_buffer_offset_ p = vo /\ size (block p) = capacity_ p /\ capacity_ p mod 64 = 0 /\
    n <= capacity_ p <= 2 ^ 34.
Proof.
  intros S G Hn. unfold Resize, kPayloadUnit, kCapacityReadOnly. cbn [capacity_].
  destruct (AlignInt_64 n ltac:(lia)) as [B M]. set (m := AlignInt n 64) in *. comparisons.
  destruct (r m) as [[a fresh]|] eqn:E; [|by destruct (G m ltac:(lia))]. destruct (S m a fresh E).
  eexists. split; [done|]. cbn. split_and!; try done; try lia. unfold size. len.
Qed.

Lemma new_with_at r hs : sane r -> grants r -> 4 <= hs <= 64 ->
  exists p, new_with r hs = Some p /\ writable p /\ header_size_ p = align4 hs /\ ps p = 0.
Proof.
  intros S G Hs. unfold new_with. rewrite AlignInt_4 by lia. pose proof (align4_bounds hs). pose proof (align4_mod hs).
  destruct (Resize_fresh r kPayloadUnit (align4 hs) 0 S G) as (p & -> & H1 & H2 & H3 & H4 & H5 & H6 & H7); [unfold kPayloadUnit; lia|].
  change kPayloadUnit with 64 in H7. assert (align4 hs <= 64) by (unfold align4 in *; euclid). cbn.
  unfold set_payload_size. comparisons.
  pose proof (store_at p 0 (le_split 4 0)) as St. rewrite Z.add_0_r in St. rewrite St by (rewrite ?size_le_split; lia).
  eexists. split; [done|].
  assert (ps (with_block p (splice (block p) 0 (le_split 4 0))) = 0) as P.
  { unfold ps. cbn [block with_block].
    pose proof (range_splice_same (block p) 0 (le_split 4 0) ltac:(lia)) as Q. rewrite size_le_split in Q.
    change (Z.of_nat 4) with 4 in Q. by rewrite Q. }
  assert (size (splice (block p) 0 (le_split 4 0)) = capacity_ p) as L
    by (rewrite size_splice_inside; rewrite ?size_le_split; lia).
  split_and!; [|done|done]. split; [split|..]; rewrite ?P; cbn; rewrite ?L, ?H3; try lia.
Qed.

(** The bytes a pickle is sent as: [size()] of them at [data()]. *)
Definition image (p : Pickle) : bytes := range (block p) 0 (header_size_ p + ps p).

Lemma size_image p : readable p -> size (image p) = header_size_ p + ps p.
Proof. intros R. pose proof (rd_ps p R). destruct R. apply size_range; lia. Qed.

(** What [Pickle(data, data_len)] accepts, and what the payload is then. *)
Lemma from_data_at a mem : 0 < a -> a + size mem + 4 <= 2 ^ 64 -> size mem < 2 ^ 31 ->
  exists q, from_data a mem (size mem) = Some q /\ block q = mem /\
    let s := le_combine (range mem 0 4) in let hs := size mem - s in
    if (4 <=? hs) && (hs mod 4 =? 0) && (4 <=? size mem)
    then readable q /\ header_size_ q = hs /\ contents q = range mem hs s /\ ps q = s
    else header_ q = 0 /\ header_size_ q = 0.
Proof.
  intros Ha Ht Hl. unfold from_data, sizeof_Header. pose proof (size_nonneg mem). cbn zeta.
  pose proof (le_combine_range (range mem 0 4)) as Hs0. set (s := le_combine (range mem 0 4)) in *.
  destruct (Z.leb_spec 4 (size mem)) as [L|L].
  2: { cbn [mbind option_bind]. rewrite (wrap_small 32) by lia. comparisons. eexists. split_and!; done. }
  pose proof (ps_range (mkPickle a mem 0 kCapacityReadOnly 0) L) as Hs.
  unfold payload_size. cbn [header_]. comparisons.
  unfold word. pose proof (load_at (mkPickle a mem 0 kCapacityReadOnly 0) 0 4) as Ld. cbn [header_ block] in Ld.
  rewrite Z.add_0_r in Ld. rewrite Ld by lia. cbn [mbind option_bind]. fold s. unfold ps in Hs. cbn [block] in Hs. fold s in Hs.
  rewrite andb_true_r, (wrap_small 32 (size mem)) by lia.
  destruct (Z.le_gt_cases s (size mem)) as [Le|Gt].
  - rewrite wrap_small, (proj2 (Z.ltb_ge _ _)), AlignInt_4 by lia. set (hs := size mem - s).
    destruct (Z.eqb_spec hs (align4 hs)) as [A|A].
    + assert (hs mod 4 = 0) by (rewrite A; apply align4_mod). rewrite (proj2 (Z.eqb_eq (hs mod 4) 0)), andb_true_r by done.
      eexists. split; [done|]. split; [done|].
      destruct (Z.leb_spec 4 hs); [|assert (hs = 0) as -> by euclid; done]. comparisons.
      assert (forall q, ps (mkPickle a mem hs q 0) = s) as P by done.
      split_and!; [|done|unfold contents; by rewrite P|done].
      split; rewrite ?P; cbn; lia.
    + rewrite (proj2 (Z.eqb_neq (hs mod 4) 0)), andb_false_r by (intros E; apply A; by rewrite align4_id). cbn.
      eexists. split_and!; done.
  - assert (u32 (size mem - s) = size mem - s + 2 ^ 32) as -> by (symmetry; apply (Zmod_unique _ _ (-1)); lia).
    comparisons. cbn. eexists. split_and!; done.
Qed.

Lemma decode_all_bound ks P o : 0 <= o <= size P + 3 -> 0 <= (decode_all ks P o).2 <= size P + 3.
Proof.
  revert o. induction ks as [|k ks IH]; intros o H; cbn; [lia|]. pose proof (decode_bound k P o H) as B.
  destruct (decode k P o) as [[it|] o']; cbn in *; [|lia]. specialize (IH o' B). by destruct (decode_all ks P o').
Qed.

Lemma image_reads p a : writable p -> 0 < a -> a + 2 ^ 31 + 4 <= 2 ^ 64 -> header_size_ p + ps p < 2 ^ 31 ->
  exists q, from_data a (image p) (size (image p)) = Some q /\ readable q /\ contents q = contents p.
Proof.
  intros W Ha Ht Hs. pose proof (wr_readable p W) as R. pose proof (rd_ps p R). pose proof (size_image p R) as L.
  destruct (from_data_at a (image p) Ha) as (q & E & Hb & C); [lia|lia|]. cbn zeta in C. pose proof R as [].
  assert (range (image p) 0 4 = range (block p) 0 4) as I by (unfold image; rewrite range_range by lia; done).
  rewrite I, L in C. fold (ps p) in C. replace (header_size_ p + ps p - ps p) with (header_size_ p) in C by lia.
  rewrite (proj2 (Z.eqb_eq _ _)) in C by done. rewrite !(proj2 (Z.leb_le 4 _)) in C by lia. cbn [andb] in C.
  destruct C as (Rq & Hh & Cq & _). exists q. split; [done|]. split; [done|]. rewrite Cq. unfold image.
  rewrite range_range by lia. done.
Qed.

Lemma copy_reads p r : writable p -> sane r -> grants r -> header_size_ p + ps p < 2 ^ 31 ->
  exists c, copy_of r p = Some c /\ readable c /\ contents c = contents p.
Proof.
  intros W S G Hs. pose proof (wr_readable p W) as R. pose proof (rd_ps p R). pose proof R as [].
  unfold copy_of, take_over. rewrite (payload_size_ps p R). cbn [mbind option_bind]. rewrite wrap_small by lia.
  destruct (Resize_fresh r (header_size_ p + ps p) (header_size_ p) (variable_buffer_offset_ p) S G)
    as (c & -> & H1 & H2 & H3 & H4 & H5 & H6 & H7); [lia|]. cbn [negb mbind option_bind].
  pose proof (load_at p 0 (header_size_ p + ps p)) as Ld. rewrite Z.add_0_r in Ld. rewrite Ld by lia. cbn [mbind option_bind].
  fold (image p). pose proof (size_image p R) as L.
  pose proof (store_at c 0 (image p)) as St. rewrite Z.add_0_r in St. rewrite St by lia. eexists. split; [done|].
  assert (forall o n, 0 <= o -> 0 <= n -> o + n <= header_size_ p + ps p ->
    range (splice (block c) 0 (image p)) o n = range (block p) o n) as K.
  { intros o n Ho Hn Hb. pose proof (range_splice_same (block c) 0 (image p) ltac:(lia)) as Q. rewrite L in Q.
    rewrite (range_sub _ 0 (header_size_ p + ps p)), Q by lia. unfold image. rewrite range_range by lia. f_equal. lia. }
  assert (ps (with_block c (splice (block c) 0 (image p))) = ps p) as P by (unfold ps; cbn; by rewrite K by lia).
  split.
  - split; rewrite ?P; cbn; rewrite ?H3, ?size_splice_inside by lia; lia.
  - unfold contents. rewrite P. cbn. rewrite H3. apply K; lia.
Qed.

(** Reading from the pickle of data that was not accepted: nothing is touched. *)
Lemma null_read k q : header_ q = 0 -> header_size_ q = 0 -> kind_ok k ->
  exists v, read_item k q 0 = Some (v, 0).
Proof.
  intros H1 H2 K.
  assert (begin q 0 = 0) as B by (unfold begin, payload; by rewrite H1, H2).
  assert (forall n, - 2 ^ 31 <= n < 2 ^ 31 -> IteratorHasRoomFor q 0 n = Some (n =? 0)) as Room.
  { intros n Hn. unfold IteratorHasRoomFor, end_of_payload. rewrite H1. cbn.
    destruct (Z.ltb_spec n 0), (Z.eqb_spec n 0); cbn; try done; try lia; [by subst|].
    rewrite Z.add_0_l, wrap_small by lia. by comparisons. }
  assert (forall n, 0 < n < 2 ^ 31 -> read_fixed n q 0 = Some (None, 0)) as Fixed.
  { intros n Hn. unfold read_fixed. rewrite B, Room by lia. by comparisons. }
  destruct k as [| | | | | | | | | |n]; cbn [read_item];
    unfold ReadBool, ReadLong, ReadSize, ReadUInt32, ReadInt64, ReadUInt64, ReadString, ReadWString, ReadData, ReadLength, ReadInt, sizeof_int;
    try (rewrite Fixed by lia; cbn; eauto).
  unfold ReadBytes. rewrite B, Room by done. cbn. destruct (Z.eqb_spec n 0) as [->|]; cbn; eauto.
Qed.

Lemma null_reads ks q : header_ q = 0 -> header_size_ q = 0 -> Forall kind_ok ks ->
  exists its, read_all ks q 0 = Some (its, 0).
Proof.
  intros H1 H2. induction 1 as [|k ks K F IH]; cbn; [eauto|].
  destruct (null_read k q H1 H2 K) as (v & ->). cbn. destruct v; [|eauto]. destruct IH as (its & ->). cbn. eauto.
Qed.

(** C24: Whatever bytes a pickle is made from, and whatever is then read from it in
    whatever order: no read leaves the bytes, and every value is the one the
    payload holds at the iterator; data with a wrong size in its header gives
    a pickle from which nothing is read. *)
Theorem pickle_any_data a mem ks : 0 < a -> a + size mem + 4 <= 2 ^ 64 -> size mem < 2 ^ 31 -> Forall kind_ok ks ->
  let s := le_combine (range mem 0 4) in
  exists q its iter, from_data a mem (size mem) = Some q /\ read_all ks q 0 = Some (its, iter) /\
    (if (4 <=? size mem - s) && ((size mem - s) mod 4 =? 0) && (4 <=? size mem)
     then its = (decode_all ks (range mem (size mem - s) s) 0).1 /\ a <= iter <= a + size mem + 3 \/ ks = []
     else iter = 0).
Proof.
  intros Ha Ht Hl F s. destruct (from_data_at a mem Ha Ht Hl) as (q & E & Hb & C). cbn zeta in C. fold s in C.
  destruct (_ && _ && _).
  - destruct C as (R & Hh & Hc & P). destruct ks as [|k ks]; [exists q, [], 0; auto|].
    pose proof (rd_ps q R) as Hps.
    rewrite <- Hc. pose proof (read_all_at (k :: ks) q R F 0 0 (begin_0 q R) ltac:(lia) ltac:(done)) as E'.
    eexists q, _, _. split; [exact E|]. split; [exact E'|]. left. split; [done|].
    pose proof (decode_all_bound (k :: ks) (contents q) 0) as B. rewrite (size_contents q R) in B. specialize (B ltac:(lia)).
    assert (header_ q = a) as A.
    { unfold from_data in E. destruct (if sizeof_Header <=? size mem then _ else _); [|done]. cbn in E. injection E as <-.
      cbn in *. pose proof (rd_size _ R). pose proof (rd_header _ R). cbn in *. by destruct (_ =? 0) in *. }
    pose proof (rd_size q R). cbn [prod_map snd id]. unfold pos. rewrite P in B. rewrite A, Hh in *. lia.
  - destruct C as (H1 & H2). destruct (null_reads ks q H1 H2 F) as (its & E'). exists q, its, 0. auto.
Qed.

(** C23: Whatever values are written to a fresh pickle, with whatever header size and
    however often its block moves: all are read back in their order, from the
    pickle, from a copy of it, and from a pickle made from its bytes. *)
Theorem pickle_roundtrip r hs l rc a : sane r -> grants r -> 4 <= hs <= 64 -> Forall good_answers l ->
  align4 hs + end_of 0 (map snd l) < 2 ^ 31 -> sane rc -> grants rc -> 0 < a -> a + 2 ^ 31 + 4 <= 2 ^ 64 ->
  let its := map snd l in
  exists p0 p c q i1 i2 i3, new_with r hs = Some p0 /\ write_all l p0 = Some (true, p) /\
    copy_of rc p = Some c /\ from_data a (image p) (size (image p)) = Some q /\ pickle_size p = Some (size (image p)) /\
    read_all (map kind_of its) p 0 = Some (its, i1) /\
    read_all (map kind_of its) c 0 = Some (its, i2) /\
    read_all (map kind_of its) q 0 = Some (its, i3).
Proof.
  intros S G Hs F Ht Sc Gc Ha Hta its.
  destruct (new_with_at r hs S G Hs) as (p0 & E0 & W0 & H0 & P0). pose proof (align4_bounds hs). pose proof (align4_mod hs).
  destruct (write_all_at l F p0 W0) as (p & E1 & W & K & _ & Hl & He); [rewrite P0, H0; change (align4 0) with 0; lia|].
  rewrite P0 in *. change (align4 0) with 0 in *. pose proof K as (Hh & Hv & _). rewrite H0 in Hh.
  pose proof (wr_readable p W) as R. pose proof (rd_ps p R). pose proof (align4_bounds (ps p)). pose proof (size_image p R) as Li.
  assert (Forall item_ok its) as Fi.
  { unfold its. apply Forall_map. eapply Forall_impl; [exact F|]. intros x Hx. apply Hx. }
  assert (Forall kind_ok (map kind_of its)) as Fk.
  { apply Forall_map. eapply Forall_impl; [exact Fi|]. intros [] Hx; cbn in *; try done. pose proof (size_nonneg d). lia. }
  assert (forall q, readable q -> contents q = contents p -> its <> [] ->
    read_all (map kind_of its) q 0 = Some (its, pos q (end_of 0 its))) as Read.
  { intros q Rq Eq Hn. pose proof (rd_ps q Rq).
    rewrite (read_all_at _ q Rq Fk 0 0 (begin_0 q Rq)) by (lia || by destruct its).
    rewrite Eq, decode_all_holds by done. done. }
  destruct (copy_reads p rc W Sc Gc) as (c & Ec & Rc & Cc); [lia|].
  destruct (image_reads p a W Ha) as (q & Eq & Rq & Cq); [lia|lia|].
  assert (pickle_size p = Some (size (image p))) as Z.
  { unfold pickle_size. rewrite (payload_size_ps p R). cbn. rewrite Li. f_equal. apply i32_small. lia. }
  exists p0, p, c, q. destruct (decide (its = [])) as [N|N].
  - exists 0, 0, 0. rewrite N. by split_and!.
  - exists (pos p (end_of 0 its)), (pos c (end_of 0 its)), (pos q (end_of 0 its)). split_and!; by try apply Read.
Qed.

(** ** A buffer the caller fills, and trims *)

Lemma BeginWriteData_at r r' n p : writable p -> sane r -> grants r -> sane r' -> grants r' -> 0 <= n < 2 ^ 31 ->
  header_size_ p + align4 (ps p) + 4 + n < 2 ^ 32 ->
  exists p1, BeginWriteData r r' n p = Some (pos p1 (align4 (ps p) + 4), p1) /\ writable p1 /\
    header_size_ p1 = header_size_ p /\ ps p1 = align4 (ps p) + 4 + n /\
    variable_buffer_offset_ p1 = header_size_ p + align4 (ps p) /\
    range (contents p1) 0 (ps p) = contents p /\ range (contents p1) (align4 (ps p)) 4 = le_split 4 n.
Proof.
  intros W S G S' G' Hn Ht. pose proof (rd_ps p (wr_readable p W)). pose proof (align4_bounds (ps p)).
  pose proof (rd_size p (wr_readable p W)).
  unfold BeginWriteData. comparisons.
  destruct (WriteInt_at r n p W S) as (ok & p1 & -> & Gr & C); [lia|]. rewrite (Gr G) in C |- *. cbn [mbind option_bind negb].
  destruct C as (W1 & K1 & P1 & C1). rewrite size_le_split in P1, C1. change (Z.of_nat 4) with 4 in P1, C1.
  assert (align4 (ps p1) = ps p1) as A by (apply align4_id; rewrite P1; pose proof (align4_mod (ps p)); euclid).
  pose proof K1 as (Hh1 & _).
  destruct (BeginWrite_at r' n p1 W1 S' Hn) as (ok' & p2 & -> & Gr' & C'); [lia|]. rewrite (Gr' G') in C' |- *. cbn [mbind option_bind].
  destruct C' as (W2 & K2 & P2). rewrite A, P1 in *. pose proof K2 as (Hh2 & _). pose proof W2 as [[] ? ? ? ? ?].
  rewrite (proj2 (Z.eqb_neq _ _)) by (unfold pos; lia).
  change sizeof_int with 4. rewrite wrap_small by (unfold pos; lia).
  set (p3 := mkPickle _ _ _ _ _).
  assert (writable p3) as W3 by (split; [split|..]; cbn; done).
  destruct (EndWrite_at p3 (align4 (ps p) + 4) n W3 Hn) as (p4 & E4 & W4 & K4 & P4 & A4);
    [pose proof (align4_mod (ps p)); euclid|lia|by change (ps p3) with (ps p2); lia|].
  change (pos p3) with (pos p2) in E4. rewrite E4. cbn [mbind option_bind]. change (ps p3) with (ps p2) in K4, P4.
  assert (header_size_ p4 = header_size_ p) as Hh4 by (destruct K4 as (-> & _); cbn; lia).
  assert (forall o m, 0 <= o -> 0 <= m -> o + m <= ps p1 -> range (contents p4) o m = range (contents p1) o m) as Old.
  { intros o m Ho Hm Hb. rewrite <- (keeps_contents (ps p1) o m p1 p2) by (lia || by rewrite P1).
    apply (keeps_contents (ps p2) o m p3 p4); cbn; try lia; [|done]. change (ps p3) with (ps p2). lia. }
  exists p4. pose proof K4 as (_ & Hv & _). split_and!; [|done|done|lia| | |].
  - do 2 f_equal. unfold pos. rewrite Hh4, A4. cbn. lia.
  - rewrite Hv. cbn. unfold pos. lia.
  - rewrite Old by lia. rewrite (keeps_contents (ps p) 0 (ps p) p p1) by (try lia; done).
    rewrite <- (size_contents p (wr_readable p W)) at 1. apply range_all.
  - rewrite Old by lia. rewrite C1, (wrap_small 32) by lia. done.
Qed.

Lemma word_at p o v : 0 <= o -> o + 4 <= size (block p) -> 0 <= v < 2 ^ 32 -> range (block p) o 4 = le_split 4 v ->
  word p (header_ p + o) = Some v.
Proof. intros. unfold word. rewrite load_at by lia. cbn. f_equal. rewrite H2. by apply le_combine_split_small. Qed.

(** What is stored in a part of the payload stands there, and what is before stays. *)
Lemma store_payload p o d : writable p -> 0 <= o -> o + size d <= ps p ->
  exists p', store (pos p o) d p = Some p' /\ writable p' /\ keeps o p p' /\ ps p' = ps p /\
    header_ p' = header_ p /\ capacity_ p' = capacity_ p /\ range (contents p') o (size d) = d /\
    forall o' k, o + size d <= o' -> 0 <= k -> o' + k <= ps p -> range (contents p') o' k = range (contents p) o' k.
Proof.
  intros W Ho Hs. pose proof (rd_ps p (wr_readable p W)). pose proof (size_nonneg d). pose proof W as [[] ? ? ? ? ?].
  unfold pos. rewrite <- Z.add_assoc, store_at by lia. eexists. split; [done|].
  set (b := splice _ _ _). assert (range b 0 4 = range (block p) 0 4) as P by (apply range_splice_other; lia).
  assert (ps (with_block p b) = ps p) as P' by (unfold ps; cbn; by rewrite P).
  split_and!; [|apply keeps_store; lia|done|done|done| |].
  - apply writable_block; [done|apply size_splice_inside; lia|]. rewrite P. fold (ps p). lia.
  - unfold contents. rewrite P'. cbn. rewrite range_range by lia. apply range_splice_same. lia.
  - intros o' k Hk Hk0 Hb. unfold contents. rewrite P'. cbn. rewrite !(range_range _ (header_size_ p)) by lia.
    apply range_splice_other; lia.
Qed.

(** A buffer of [n] bytes, filled with [d], and trimmed to [m] is as [WriteData] of the
    first [m] bytes. *)
Theorem buffer_trimmed r r' n m d p : writable p -> sane r -> grants r -> sane r' -> grants r' ->
  size d = n -> n < 2 ^ 31 -> 0 <= m <= n -> header_size_ p + align4 (ps p) + 4 + n < 2 ^ 32 ->
  exists ptr p1 p2 p3, BeginWriteData r r' n p = Some (ptr, p1) /\ store ptr d p1 = Some p2 /\
    TrimWriteData m p2 = Some p3 /\ writable p3 /\ ps p3 = align4 (ps p) + 4 + m /\
    range (contents p3) 0 (ps p) = contents p /\
    range (contents p3) (align4 (ps p)) (4 + m) = encode (Data (take (Z.to_nat m) d)).
Proof.
  intros W S G S' G' Hd Hn Hm Ht. pose proof (rd_ps p (wr_readable p W)). pose proof (align4_bounds (ps p)).
  destruct (BeginWriteData_at r r' n p W S G S' G') as (p1 & E1 & W1 & H1 & P1 & V1 & C1 & L1); [lia|lia|].
  destruct (store_payload p1 (align4 (ps p) + 4) d W1) as (p2 & E2 & W2 & K2 & P2 & A2 & Ca2 & D2 & _); [lia|lia|].
  pose proof K2 as (H2 & V2 & _). pose proof W2 as [[] ? ? ? ? ?].
  assert (forall o k, 0 <= o -> 0 <= k -> o + k <= align4 (ps p) + 4 -> range (contents p2) o k = range (contents p1) o k) as Old2.
  { intros o k Ho Hk Hb. apply (keeps_contents (align4 (ps p) + 4)); (done || lia). }
  assert (TrimWriteData m p2 =
    p3 ← set_payload_size (u32 (ps p2 - (n - m))) p2; store (pos p2 (align4 (ps p))) (le_split 4 m) p3) as T.
  { unfold TrimWriteData. rewrite V2, V1, wrap_small by lia. rewrite (word_at p2 _ n); try lia.
    2: { rewrite <- L1, <- Old2 by lia. unfold contents. rewrite range_range by lia. f_equal. lia. }
    cbn [mbind option_bind]. rewrite i32_small by lia. comparisons.
    rewrite (payload_size_ps p2 (wr_readable p2 W2)). cbn [mbind option_bind]. unfold pos. by rewrite H2, H1, Z.add_assoc. }
  rewrite P2, P1, wrap_small in T by lia.
  destruct (payload_size_set (align4 (ps p) + 4 + n - (n - m)) p2 W2) as (p3 & E3 & W3 & P3 & C3 & A3 & K3); [lia|lia|].
  rewrite E3 in T. cbn [mbind option_bind] in T.
  destruct (store_payload p3 (align4 (ps p)) (le_split 4 m) W3) as (p4 & E4 & W4 & K4 & P4 & A4 & Ca4 & D4 & O4); [lia|rewrite size_le_split; lia|].
  assert (pos p3 (align4 (ps p)) = pos p2 (align4 (ps p))) as Ep by (unfold pos; destruct (K3 0) as (-> & _); [lia|lia|lia]).
  rewrite Ep in E4. rewrite E4 in T.
  assert (forall o k, 0 <= o -> 0 <= k -> o + k <= align4 (ps p) + 4 + m -> range (contents p3) o k = range (contents p2) o k) as Old3.
  { intros o k Ho Hk Hb. apply (keeps_contents (align4 (ps p) + 4 + m)); try lia. apply K3; lia. }
  exists (pos p1 (align4 (ps p) + 4)), p1, p2, p4. split_and!; try done; [lia| |].
  - rewrite (keeps_contents (align4 (ps p)) 0 (ps p) p3 p4); try lia; [|destruct (K3 0) as (-> & _); lia|done].
    rewrite Old3, Old2 by lia. done.
  - cbn [encode]. replace (size (take (Z.to_nat m) d)) with m by (unfold size in *; len).
    rewrite size_le_split in D4, O4. change (Z.of_nat 4) with 4 in D4, O4.
    rewrite range_split, D4, O4, Old3 by lia. f_equal.
    transitivity (take (Z.to_nat m) (range (contents p2) (align4 (ps p) + 4) (size d))); [|by rewrite D2].
    unfold range. rewrite take_take. f_equal. lia.
Qed.

(** ** Pickles one after the other *)

(** The first pickle of a range ends where its image does; of a part of an image
    nothing is found. *)
Theorem FindNext_image p start rest : writable p -> 0 < start ->
  start + size (image p ++ rest) < 2 ^ 64 ->
  FindNext (header_size_ p) start (image p ++ rest) (start + size (image p ++ rest)) = Some (start + size (image p)) /\
  (forall n, 4 <= n < size (image p) -> FindNext (header_size_ p) start (take (Z.to_nat n) (image p)) (start + n) = Some 0).
Proof.
  intros W Hs Ht. pose proof (wr_readable p W) as R. pose proof (rd_ps p R). pose proof (size_image p R) as L.
  pose proof W as [[] ? ? ? ? ?]. pose proof (size_nonneg rest). rewrite size_app in *.
  assert (forall mem e, 4 <= size mem -> range mem 0 4 = range (block p) 0 4 ->
    FindNext (header_size_ p) start mem e
    = Some (if e <? start + header_size_ p + ps p then 0 else start + header_size_ p + ps p)) as K.
  { intros mem e Hm E. unfold FindNext, payload_size. cbn [header_]. comparisons.
    pose proof (word_at (mkPickle start mem (header_size_ p) 0 0) 0 (ps p)) as Wd. cbn [header_ block] in Wd.
    rewrite Z.add_0_r in Wd. rewrite Wd; [|lia|lia|lia|].
    - cbn [mbind option_bind]. rewrite (wrap_small 64 (start + header_size_ p)), wrap_small by lia.
      by rewrite (proj2 (Z.ltb_ge (start + header_size_ p + ps p) _)) by lia.
    - rewrite E. unfold ps. symmetry.
      pose proof (size_range (block p) 0 4 ltac:(lia) ltac:(lia) ltac:(lia)) as S. unfold size in S.
      replace 4%nat with (length (range (block p) 0 4)) by lia. apply split_le_combine. }
  assert (range (image p) 0 4 = range (block p) 0 4) as I by (unfold image; by rewrite range_range by lia).
  split.
  - rewrite K; [|rewrite size_app; lia|rewrite range_app_l by lia; done]. comparisons. f_equal. lia.
  - intros n Hn. assert (size (take (Z.to_nat n) (image p)) = n) as S by (unfold size in *; len).
    rewrite K; [by comparisons|lia|]. rewrite <- I. unfold range. cbn. rewrite !drop_0, take_take. f_equal. lia.
Qed.

(** ** Examples *)

(** One allocator moves the block each time, one has no memory. *)
Definition moving (n : Z) : option (Z * bytes) := if (0 <=? n) && (n <=? 2 ^ 40) then Some (65536 + n, [xff; xff]) else None.
Definition no_memory (n : Z) : option (Z * bytes) := None.

Definition some_items : list item :=
  [Bool true; String (bs "hello"); Int (-7); WString [8364; 120]; Data (bs "abc"); UInt64 (2 ^ 63); Bytes (bs "xyzw1"); Long (-1)].
Definition with_moving (it : item) : realloc_t * realloc_t * item := (moving, moving, it).

(** Without memory for the text, a string leaves its count, and what is written
    next is not what is read next. *)
Example lost_count :
  (p ← new_pickle moving; '(ok, p) ← WriteString moving no_memory (replicate 100 "x"%byte) p;
   '(ok2, p) ← WriteInt moving 7 p; v ← ReadInt p 0; Some (ok, ok2, v.1)) = Some (false, true, Some 100).
Proof. vm_compute. reflexivity. Qed.

(** Trimming a buffer behind which something was written cuts that off. *)
Example trim_cuts :
  (p ← new_pickle moving; '(_, p) ← BeginWriteData moving moving 8 p; '(_, p) ← WriteInt moving 7 p;
   p ← TrimWriteData 4 p; '(its, _) ← read_all [KData; KInt; KInt] p 0; Some its)
  = Some [Data [x00; x00; x00; x00]; Int 0].
Proof. vm_compute. reflexivity. Qed.

(** Two bytes hold no size, but the size is read. *)
Example FindNext_short : FindNext 4 4096 [x01; x00] (4096 + 2) = None.
Proof. vm_compute. reflexivity. Qed.

Lemma moving_grants : sane moving /\ grants moving.
Proof.
  split.
  - intros n a f. unfold moving. destruct (Z.leb_spec 0 n), (Z.leb_spec n (2 ^ 40)); try done. intros [= <- <-]. lia.
  - intros n Hn. unfold moving. by rewrite !(proj2 (Z.leb_le _ _)) by lia.
Qed.

Lemma some_items_good : Forall good_answers (map with_moving some_items).
Proof.
  destruct moving_grants as [S G]. apply Forall_map. unfold some_items.
  repeat (apply Forall_cons; split; [split_and!; try done; cbn; try lia; repeat constructor; lia|]). constructor.
Qed.

Lemma pickle_roundtrip_witness :
  Forall good_answers (map with_moving some_items) /\
  exists p0 p i, new_with moving 8 = Some p0 /\ write_all (map with_moving some_items) p0 = Some (true, p) /\
    read_all (map kind_of some_items) p 0 = Some (some_items, i).
Proof.
  split; [exact some_items_good|].
  destruct (pickle_roundtrip moving 8 (map with_moving some_items) moving 1048576) as (p0 & p & c & q & i1 & i2 & i3 & A & B & _ & _ & _ & C & _);
    [apply moving_grants|apply moving_grants|lia|exact some_items_good|vm_compute; reflexivity|apply moving_grants|apply moving_grants|lia|lia|].
  exists p0, p, i1. split; [exact A|]. split; [exact B|exact C].
Defined.

(** Twelve bytes with a header of four that promise eight bytes of payload, and
    hold a number and a string of a thousand characters. *)
Definition hostile : bytes := [x08; x00; x00; x00; x2a; x00; x00; x00; xe8; x03; x00; x00].

Lemma pickle_any_data_witness :
  0 < 4096 /\ exists q iter, from_data 4096 hostile 12 = Some q /\ read_all [KInt; KString; KInt] q 0 = Some ([Int 42], iter) /\
    4096 <= iter <= 4096 + 12 + 3.
Proof.
  split; [lia|].
  destruct (pickle_any_data 4096 hostile [KInt; KString; KInt]) as (q & its & iter & A & B & [[-> C]|C]);
    [lia|vm_compute; discriminate|vm_compute; reflexivity|repeat constructor|exists q, iter; auto|discriminate C].
Defined.

Lemma buffer_trimmed_witness :
  size (bs "hello") = 5 /\ exists p ptr p1 p2 p3, new_with moving 4 = Some p /\
    BeginWriteData moving moving 5 p = Some (ptr, p1) /\ store ptr (bs "hello") p1 = Some p2 /\
    TrimWriteData 2 p2 = Some p3 /\ range (contents p3) 0 6 = encode (Data (bs "he")).
Proof.
  split; [reflexivity|]. destruct moving_grants as [S G].
  destruct (new_with_at moving 4 S G) as (p & E & W & H & P); [lia|].
  destruct (buffer_trimmed moving moving 5 2 (bs "hello") p W S G S G) as (ptr & p1 & p2 & p3 & A & B & C & _ & _ & _ & D);
    [reflexivity|lia|lia|rewrite H, P; vm_compute; reflexivity|].
  rewrite P in D. exists p, ptr, p1, p2, p3. split; [exact E|]. split; [exact A|]. split; [exact B|]. split; [exact C|exact D].
Defined.

Lemma FindNext_image_witness :
  0 < 4096 /\ exists p, new_with moving 4 = Some p /\
    FindNext (header_size_ p) 4096 (image p ++ [x01]) (4096 + size (image p ++ [x01])) = Some (4096 + size (image p)).
Proof.
  split; [lia|]. destruct moving_grants as [S G].
  destruct (new_with_at moving 4 S G) as (p & E & W & H & P); [lia|]. exists p. split; [exact E|].
  apply (FindNext_image p 4096 [x01] W); [lia|].
  rewrite size_app, (size_image p (wr_readable p W)), H, P. vm_compute. reflexivity.
Defined.
