(* ===== verification/Md5.v ===== *)
(** * MD5 (src/base3/md5.h, src/base3/md5.cc)

    The code of the repository as it is written: a context of four words, a bit
    count in two words and a block of 64 bytes, that is fed in pieces.  Beside it
    the algorithm of RFC 1321 on a whole message; the theorem is that the two
    agree however the message is cut. *)

From S2P Require Import Prelude CString.

Record Context := mkContext { buf : Z * Z * Z * Z; bits : Z * Z; inb : bytes }.

(** On a little-endian machine [byteReverse] leaves the bytes as they are. *)
Definition words (n : nat) (l : bytes) : list Z := map (fun i => le_combine (take 4 (drop (4 * i) l))) (seq 0 n).

Definition not32 (x : Z) : Z := Z.lxor x (2 ^ 32 - 1).
Definition F1 (x y z : Z) : Z := Z.lxor z (Z.land x (Z.lxor y z)).
Definition F2 (x y z : Z) : Z := F1 z x y.
Definition F3 (x y z : Z) : Z := Z.lxor (Z.lxor x y) z.
Definition F4 (x y z : Z) : Z := Z.lxor y (Z.lor x (not32 z)).

Definition rotl (w s : Z) : Z := Z.lor (u32 (Z.shiftl w s)) (Z.shiftr w (32 - s)).

(** [MD5STEP(f, w, x, y, z, data, s)]: the new [w]. *)
Definition MD5STEP (f : Z -> Z -> Z -> Z) (w x y z data s : Z) : Z :=
  let w := u32 (w + (f x y z + data)) in
  let w := rotl w s in
  u32 (w + x).

(** The steps of [MD5Transform]: which word of the block, the constant, the shift. *)
Definition round1 : list (Z * Z * Z) :=
  [(0, 0xd76aa478, 7); (1, 0xe8c7b756, 12); (2, 0x242070db, 17); (3, 0xc1bdceee, 22);
   (4, 0xf57c0faf, 7); (5, 0x4787c62a, 12); (6, 0xa8304613, 17); (7, 0xfd469501, 22);
   (8, 0x698098d8, 7); (9, 0x8b44f7af, 12); (10, 0xffff5bb1, 17); (11, 0x895cd7be, 22);
   (12, 0x6b901122, 7); (13, 0xfd987193, 12); (14, 0xa679438e, 17); (15, 0x49b40821, 22)].
Definition round2 : list (Z * Z * Z) :=
  [(1, 0xf61e2562, 5); (6, 0xc040b340, 9); (11, 0x265e5a51, 14); (0, 0xe9b6c7aa, 20);
   (5, 0xd62f105d, 5); (10, 0x02441453, 9); (15, 0xd8a1e681, 14); (4, 0xe7d3fbc8, 20);
   (9, 0x21e1cde6, 5); (14, 0xc33707d6, 9); (3, 0xf4d50d87, 14); (8, 0x455a14ed, 20);
   (13, 0xa9e3e905, 5); (2, 0xfcefa3f8, 9); (7, 0x676f02d9, 14); (12, 0x8d2a4c8a, 20)].
Definition round3 : list (Z * Z * Z) :=
  [(5, 0xfffa3942, 4); (8, 0x8771f681, 11); (11, 0x6d9d6122, 16); (14, 0xfde5380c, 23);
   (1, 0xa4beea44, 4); (4, 0x4bdecfa9, 11); (7, 0xf6bb4b60, 16); (10, 0xbebfbc70, 23);
   (13, 0x289b7ec6, 4); (0, 0xeaa127fa, 11); (3, 0xd4ef3085, 16); (6, 0x04881d05, 23);
   (9, 0xd9d4d039, 4); (12, 0xe6db99e5, 11); (15, 0x1fa27cf8, 16); (2, 0xc4ac5665, 23)].
Definition round4 : list (Z * Z * Z) :=
  [(0, 0xf4292244, 6); (7, 0x432aff97, 10); (14, 0xab9423a7, 15); (5, 0xfc93a039, 21);
   (12, 0x655b59c3, 6); (3, 0x8f0ccc92, 10); (10, 0xffeff47d, 15); (1, 0x85845dd1, 21);
   (8, 0x6fa87e4f, 6); (15, 0xfe2ce6e0, 10); (6, 0xa3014314, 15); (13, 0x4e0811a1, 21);
   (4, 0xf7537e82, 6); (11, 0xbd3af235, 10); (2, 0x2ad7d2bb, 15); (9, 0xeb86d391, 21)].

(** The macro is called with [a, b, c, d], then [d, a, b, c] and so on. *)
Fixpoint steps (f : Z -> Z -> Z -> Z) (l : list (Z * Z * Z)) (inw : list Z) (s : Z * Z * Z * Z) : Z * Z * Z * Z :=
  match l with
  | [] => s
  | (k, c, r) :: l =>
      let '(a, b, cc, d) := s in
      let a := MD5STEP f a b cc d (u32 (nth (Z.to_nat k) inw 0 + c)) r in
      steps f l inw (d, a, b, cc)
  end.

Definition MD5Transform (b : Z * Z * Z * Z) (inw : list Z) : Z * Z * Z * Z :=
  let s := steps F4 round4 inw (steps F3 round3 inw (steps F2 round2 inw (steps F1 round1 inw b))) in
  let '(b0, b1, b2, b3) := b in
  let '(a, bb, c, d) := s in
  (u32 (b0 + a), u32 (b1 + bb), u32 (b2 + c), u32 (b3 + d)).

Definition initial : Z * Z * Z * Z := (0x67452301, 0xefcdab89, 0x98badcfe, 0x10325476).

(** [in] is not set. *)
Definition MD5Init (garbage : bytes) : Context := mkContext initial (0, 0) garbage.

(** [memcpy(ctx->in + o, d, n)]. *)
Definition put (o : nat) (d : bytes) (l : bytes) : bytes := take o l ++ d ++ drop (o + length d) l.

Definition transform_in (ctx : Context) : Context :=
  mkContext (MD5Transform (buf ctx) (words 16 (inb ctx))) (bits ctx) (inb ctx).
Definition with_in (l : bytes) (ctx : Context) : Context := mkContext (buf ctx) (bits ctx) l.

(** [while (len >= 64)], then the rest; a turn takes 64 bytes. *)
Fixpoint update_chunks (fuel : nat) (d : bytes) (ctx : Context) : Context :=
  match fuel with
  | O => ctx
  | S fuel =>
      if 64 <=? size d
      then update_chunks fuel (drop 64 d) (transform_in (with_in (put 0 (take 64 d) (inb ctx)) ctx))
      else with_in (put 0 d (inb ctx)) ctx
  end.

Definition MD5Update (d : bytes) (ctx : Context) : Context :=
  let len := size d in
  let t := (bits ctx).1 in
  let b0 := u32 (t + u32 (Z.shiftl (u32 len) 3)) in
  let b1 := if b0 <? t then u32 ((bits ctx).2 + 1) else (bits ctx).2 in
  let b1 := u32 (b1 + u32 (Z.shiftr len 29)) in
  let ctx := mkContext (buf ctx) (b0, b1) (inb ctx) in
  let t := Z.land (Z.shiftr t 3) 0x3f in
  if t =? 0 then update_chunks (S (length d)) d ctx
  else
    let room := 64 - t in
    if len <? room then with_in (put (Z.to_nat t) d (inb ctx)) ctx
    else
      let n := Z.to_nat room in
      let ctx := transform_in (with_in (put (Z.to_nat t) (take n d) (inb ctx)) ctx) in
      update_chunks (S (length d)) (drop n d) ctx.

Definition digest_of (b : Z * Z * Z * Z) : bytes :=
  let '(a, bb, c, d) := b in le_split 4 a ++ le_split 4 bb ++ le_split 4 c ++ le_split 4 d.

Definition MD5Final (ctx : Context) : bytes :=
  let count := Z.land (Z.shiftr (bits ctx).1 3) 0x3F in
  let l := put (Z.to_nat count) [x80] (inb ctx) in
  let p := S (Z.to_nat count) in
  let count := 64 - 1 - count in
  let ctx :=
    if count <? 8 then
      let ctx := transform_in (with_in (put p (replicate (Z.to_nat count) x00) l) ctx) in
      with_in (put 0 (replicate 56 x00) (inb ctx)) ctx
    else with_in (put p (replicate (Z.to_nat (count - 8)) x00) l) ctx in
  let ctx := with_in (put 56 (le_split 4 (bits ctx).1) (inb ctx)) ctx in
  let ctx := with_in (put 60 (le_split 4 (bits ctx).2) (inb ctx)) ctx in
  digest_of (buf (transform_in ctx)).

Definition zEncode : bytes := bs "0123456789abcdef".
Definition MD5DigestToBase16 (digest : bytes) : bytes :=
  flat_map (fun a => [nth (Z.to_nat (Z.land (Z.shiftr (bval a) 4) 15)) zEncode x00;
                      nth (Z.to_nat (Z.land (bval a) 15)) zEncode x00]) digest.

Definition MD5Sum (garbage data : bytes) : bytes := MD5Final (MD5Update data (MD5Init garbage)).
Definition MD5String (garbage str : bytes) : bytes := MD5DigestToBase16 (MD5Sum garbage str).

(** ** The algorithm of RFC 1321 *)

Definition rfc_F (x y z : Z) : Z := Z.lor (Z.land x y) (Z.land (not32 x) z).
Definition rfc_G (x y z : Z) : Z := Z.lor (Z.land x z) (Z.land y (not32 z)).
Definition rfc_H (x y z : Z) : Z := Z.lxor (Z.lxor x y) z.
Definition rfc_I (x y z : Z) : Z := Z.lxor y (Z.lor x (not32 z)).

(** The sine of [x], as a multiple of 2 ^ -256, by its Taylor series; from the
    third hundred on the terms are zero. *)
Fixpoint taylor (terms : nat) (x n term : Z) : Z :=
  match terms with
  | O => 0
  | S terms => term + taylor terms x (n + 2) (- (term * x * x / ((n + 1) * (n + 2))))
  end.
Definition sine (x : Z) : Z := taylor 300 x 1 (x * 2 ^ 256).

(** The table T: the integer part of 2 ^ 32 times the absolute sine of 1 to 64. *)
Definition rfc_T : list Z := map (fun i => Z.abs (sine (Z.of_nat i)) / 2 ^ 224) (seq 1 64).

(** Word and rotation of step [i] of the 64. *)
Definition rfc_k (i : nat) : nat :=
  match (i / 16)%nat with
  | 0 => i | 1 => (1 + 5 * i) mod 16 | 2 => (5 + 3 * i) mod 16 | _ => (7 * i) mod 16
  end%nat.
Definition rfc_s (i : nat) : Z :=
  nth (i mod 4) (match (i / 16)%nat with
                 | 0%nat => [7; 12; 17; 22] | 1%nat => [5; 9; 14; 20] | 2%nat => [4; 11; 16; 23] | _ => [6; 10; 15; 21]
                 end) 0.
Definition rfc_f (i : nat) : Z -> Z -> Z -> Z :=
  match (i / 16)%nat with 0%nat => rfc_F | 1%nat => rfc_G | 2%nat => rfc_H | _ => rfc_I end.

(** A left rotation is multiplication by a power of two modulo 2 ^ 32 - 1 on
    words; here as the RFC says it: the bits shifted out come in on the right. *)
Definition rfc_rot (x s : Z) : Z := (x * 2 ^ s) mod 2 ^ 32 + (x * 2 ^ s) / 2 ^ 32.

(** a = b + ((a + f(b,c,d) + X[k] + T[i]) <<< s), and the registers go round. *)
Definition rfc_step (X : list Z) (s : Z * Z * Z * Z) (i : nat) : Z * Z * Z * Z :=
  let '(a, b, c, d) := s in
  (d, (b + rfc_rot ((a + rfc_f i b c d + nth (rfc_k i) X 0 + nth i rfc_T 0) mod 2 ^ 32) (rfc_s i)) mod 2 ^ 32, b, c).

Definition rfc_block (s : Z * Z * Z * Z) (block : bytes) : Z * Z * Z * Z :=
  let '(a, b, c, d) := s in
  let '(a', b', c', d') := fold_left (rfc_step (words 16 block)) (seq 0 64) s in
  ((a + a') mod 2 ^ 32, (b + b') mod 2 ^ 32, (c + c') mod 2 ^ 32, (d + d') mod 2 ^ 32).

(** A one bit, zeros up to 448 modulo 512 bits, the length in bits modulo 2 ^ 64. *)
Definition rfc_pad (m : bytes) : bytes :=
  m ++ [x80] ++ replicate (Z.to_nat ((55 - size m) mod 64)) x00 ++ le_split 8 ((8 * size m) mod 2 ^ 64).

Fixpoint rfc_blocks (n : nat) (l : bytes) (s : Z * Z * Z * Z) : Z * Z * Z * Z :=
  match n with O => s | S n => rfc_blocks n (drop 64 l) (rfc_block s (take 64 l)) end.

Definition rfc_md5 (m : bytes) : bytes :=
  digest_of (rfc_blocks (length (rfc_pad m) / 64) (rfc_pad m) initial).

(** ** One block *)

Definition word32 (x : Z) : Prop := 0 <= x < 2 ^ 32.
Definition state_ok (s : Z * Z * Z * Z) : Prop :=
  let '(a, b, c, d) := s in word32 a /\ word32 b /\ word32 c /\ word32 d.

Lemma testbit_word x i : word32 x -> 32 <= i -> Z.testbit x i = false.
Proof.
  intros H ?. destruct (Z.eq_dec x 0) as [->|]; [apply Z.testbit_0_l|]. apply Z.bits_above_log2; [apply H|].
  apply (Z.lt_le_trans _ 32); [|done]. apply Z.log2_lt_pow2; unfold word32 in H; lia.
Qed.

Lemma testbit_ones32 i : 0 <= i -> Z.testbit (2 ^ 32 - 1) i = (i <? 32).
Proof. intros. change (2 ^ 32 - 1) with (Z.ones 32). apply Z.testbit_ones_nonneg; lia. Qed.

Ltac bitwise :=
  apply Z.bits_inj'; intros i Hi; unfold not32;
  repeat first [rewrite Z.lxor_spec | rewrite Z.land_spec | rewrite Z.lor_spec]; rewrite ?testbit_ones32 by done;
  destruct (Z.ltb_spec i 32); [|repeat match goal with H : word32 ?x |- _ => rewrite (testbit_word x i H) by lia; clear H end];
  repeat match goal with |- context [Z.testbit ?x i] => destruct (Z.testbit x i) end; reflexivity.

Lemma F1_rfc x y z : word32 x -> word32 y -> word32 z -> F1 x y z = rfc_F x y z.
Proof. intros. unfold F1, rfc_F. bitwise. Qed.

Lemma F2_rfc x y z : word32 x -> word32 y -> word32 z -> F2 x y z = rfc_G x y z.
Proof. intros. unfold F2, F1, rfc_G. bitwise. Qed.

Lemma rotl_rfc w s : word32 w -> 0 < s < 32 -> rotl w s = rfc_rot w s.
Proof.
  intros Hw Hs. unfold rotl, rfc_rot. rewrite Z.shiftl_mul_pow2, Z.shiftr_div_pow2 by lia. fold (wrap 32 (w * 2 ^ s)).
  assert (2 ^ 32 = 2 ^ s * 2 ^ (32 - s)) as E by (rewrite <- Z.pow_add_r by lia; f_equal; lia).
  assert (w * 2 ^ s / 2 ^ 32 = w / 2 ^ (32 - s)) as -> by (rewrite E, Z.mul_comm; apply Z.div_mul_cancel_l; lia).
  assert (u32 (w * 2 ^ s) = Z.shiftl (w mod 2 ^ (32 - s)) s) as ->.
  { unfold wrap. rewrite E, (Z.mul_comm w), Z.mul_mod_distr_l by lia. rewrite Z.shiftl_mul_pow2 by lia. lia. }
  rewrite Z.lor_comm, lor_shiftl_add, Z.shiftl_mul_pow2; [lia|lia|lia|].
  split; [apply Z.div_pos; unfold word32 in Hw; lia|]. apply Z.div_lt_upper_bound; [lia|].
  rewrite Z.mul_comm, <- E. apply Hw.
Qed.

(** The table of the source is the table of the sine. *)
Lemma rounds_sine : rfc_T = map (fun e => e.1.2) (round1 ++ round2 ++ round3 ++ round4).
Proof. vm_compute. reflexivity. Qed.

Definition step1 (inw : list Z) (s : Z * Z * Z * Z) (e : (Z -> Z -> Z -> Z) * (Z * Z * Z)) : Z * Z * Z * Z :=
  let '(a, b, c, d) := s in
  let '(f, (k, t, r)) := e in
  (d, MD5STEP f a b c d (u32 (nth (Z.to_nat k) inw 0 + t)) r, b, c).

Definition all_steps : list ((Z -> Z -> Z -> Z) * (Z * Z * Z)) :=
  map (pair F1) round1 ++ map (pair F2) round2 ++ map (pair F3) round3 ++ map (pair F4) round4.

Lemma steps_fold f l inw s : steps f l inw s = fold_left (step1 inw) (map (pair f) l) s.
Proof. revert s. induction l as [|[[k c] r] l IH]; intros s; [done|]. destruct s as [[[a b] cc] d]. cbn. apply IH. Qed.

Lemma Transform_fold b inw : MD5Transform b inw =
  let '(b0, b1, b2, b3) := b in
  let '(a, bb, c, d) := fold_left (step1 inw) all_steps b in
  (u32 (b0 + a), u32 (b1 + bb), u32 (b2 + c), u32 (b3 + d)).
Proof. unfold MD5Transform, all_steps. by rewrite !fold_left_app, !steps_fold. Qed.

(** An entry of the table against a step of the RFC. *)
Definition same_step (e : (Z -> Z -> Z -> Z) * (Z * Z * Z)) (i : nat) : Prop :=
  let '(f, (k, t, r)) := e in
  (forall x y z, word32 x -> word32 y -> word32 z -> f x y z = rfc_f i x y z) /\
  Z.to_nat k = rfc_k i /\ t = nth i rfc_T 0 /\ r = rfc_s i /\ 0 < r < 32.

Lemma all_steps_same : Forall2 same_step all_steps (seq 0 64).
Proof.
  unfold all_steps, round1, round2, round3, round4. cbn [map app seq].
  repeat (apply List.Forall2_cons; [unfold same_step; rewrite rounds_sine; split; [intros x y z Hx Hy Hz|repeat split; reflexivity || lia]|]);
    [..|apply List.Forall2_nil]; first [by apply F1_rfc|by apply F2_rfc|reflexivity].
Qed.

Lemma word32_mod x : word32 (x mod 2 ^ 32).
Proof. apply Z.mod_pos_bound. lia. Qed.

Lemma same_step_eq inw s e i : state_ok s -> same_step e i ->
  step1 inw s e = rfc_step inw s i /\ state_ok (rfc_step inw s i).
Proof.
  destruct s as [[[a b] c] d], e as [f [[k t] r]]. intros (Ha & Hb & Hc & Hd) (Hf & Hk & -> & -> & Hr). unfold step1, rfc_step, state_ok.
  split; [|split_and!; try done; apply word32_mod]. unfold MD5STEP. rewrite Hf, Hk by done. do 3 f_equal.
  rewrite rotl_rfc by (done || apply word32_mod). unfold wrap.
  rewrite (Z.add_comm b). f_equal. f_equal. f_equal. rewrite Z.add_assoc, Zplus_mod_idemp_r. by rewrite !Z.add_assoc.
Qed.

Lemma steps_rfc inw l li s : state_ok s -> Forall2 same_step l li ->
  fold_left (step1 inw) l s = fold_left (rfc_step inw) li s.
Proof.
  intros O F. revert s O. induction F as [|e i l li H F IH]; intros s O; [done|]. cbn.
  destruct (same_step_eq inw s e i O H) as [-> O']. by apply IH.
Qed.

Lemma Transform_rfc b l : state_ok b -> MD5Transform b (words 16 l) = rfc_block b l.
Proof. intros O. rewrite Transform_fold. rewrite (steps_rfc _ _ (seq 0 64)) by (done || apply all_steps_same). done. Qed.

Lemma rfc_block_ok s l : state_ok (rfc_block s l).
Proof.
  destruct s as [[[a b] c] d]. unfold rfc_block. destruct (fold_left _ _ _) as [[[a' b'] c'] d'].
  split_and!; apply word32_mod.
Qed.

(** ** Feeding the context *)

Lemma words_prefix n l l' : (4 * n <= length l)%nat -> words n (l ++ l') = words n l.
Proof.
  intros H. unfold words. apply map_ext_in. intros i [_ Hi]%in_seq. do 1 f_equal.
  rewrite drop_app_le, take_app_le by (len; lia). done.
Qed.

Lemma put_all (l d : bytes) : length l = length d -> put 0 d l = d.
Proof. intros H. unfold put. cbn. rewrite drop_ge by lia. by rewrite app_nil_r. Qed.

Lemma length_put o d l : (o + length d <= length l)%nat -> length (put o d l) = length l.
Proof. intros. unfold put. len. Qed.

(** Writing behind what is there. *)
Lemma take_put o d l : (o + length d <= length l)%nat -> take (o + length d) (put o d l) = take o l ++ d.
Proof.
  intros. unfold put. rewrite app_assoc. apply take_app_length'. len.
Qed.

Lemma rfc_blocks_snoc n p l s : (length p = 64 * n)%nat -> (64 <= length l)%nat ->
  rfc_blocks (S n) (p ++ l) s = rfc_block (rfc_blocks n p s) (take 64 l).
Proof.
  revert p s. induction n as [|n IH]; intros p s Hp Hl.
  - destruct p; [done|cbn in Hp; lia].
  - cbn [rfc_blocks]. rewrite take_app_le, drop_app_le by lia.
    change (rfc_blocks n (drop 64 (drop 64 p ++ l)) (rfc_block (rfc_block s (take 64 p)) (take 64 (drop 64 p ++ l))))
      with (rfc_blocks (S n) (drop 64 p ++ l) (rfc_block s (take 64 p))).
    apply IH; len.
Qed.

Lemma rfc_blocks_ok n l s : state_ok s -> state_ok (rfc_blocks n l s).
Proof. revert l s. induction n as [|n IH]; intros l s O; [done|]. cbn. apply IH, rfc_block_ok. Qed.

Lemma initial_ok : state_ok initial.
Proof. unfold initial, state_ok, word32. lia. Qed.

(** The context after the blocks of [p], with [t] waiting. *)
Record holding (p t : bytes) (ctx : Context) : Prop := {
  hd_blocks : exists n, length p = (64 * n)%nat /\ buf ctx = rfc_blocks n p initial;
  hd_in : length (inb ctx) = 64%nat;
  hd_rest : (length t <= 64)%nat /\ take (length t) (inb ctx) = t }.

Lemma holding_whole p t ctx : holding p t ctx -> exists n, length p = (64 * n)%nat.
Proof. intros [(n & H & _) _ _]. eauto. Qed.

Definition bits_of (n : Z) : Z * Z := ((8 * n) mod 2 ^ 32, (8 * n) / 2 ^ 32 mod 2 ^ 32).

Lemma transform_holding p t ctx : holding p t ctx -> length t = 64%nat -> holding (p ++ t) [] (transform_in ctx).
Proof.
  intros [(n & Hp & Hb) Hi (Ht & Hr)] L. rewrite L, take_ge in Hr by lia. split; cbn [buf bits inb transform_in]; [|done|split; [cbn; lia|done]].
  exists (S n). split; [rewrite length_app; lia|]. rewrite Hr, Hb, Transform_rfc by apply rfc_blocks_ok, initial_ok.
  rewrite rfc_blocks_snoc by lia. by rewrite take_ge by lia.
Qed.

Lemma put_holding p t d ctx : holding p t ctx -> (length t + length d <= 64)%nat ->
  holding p (t ++ d) (with_in (put (length t) d (inb ctx)) ctx).
Proof.
  intros [Hb Hi (Ht & Hr)] L. split; cbn; [done|by rewrite length_put by lia|].
  split; [len|]. rewrite length_app, take_put by lia. by rewrite Hr.
Qed.

Lemma holding_bits p t ctx b : holding p t (mkContext (buf ctx) b (inb ctx)) <-> holding p t ctx.
Proof. by split; intros []. Qed.

Lemma update_chunks_holding fuel p d ctx : holding p [] ctx -> (length d < fuel)%nat ->
  exists p' t, holding p' t (update_chunks fuel d ctx) /\ p' ++ t = p ++ d /\ (length t < 64)%nat /\
    bits (update_chunks fuel d ctx) = bits ctx.
Proof.
  revert p d ctx. induction fuel as [|fuel IH]; intros p d ctx H L; [lia|]. cbn [update_chunks].
  unfold size. destruct (Z.leb_spec 64 (Z.of_nat (length d))) as [G|G].
  - pose proof (put_holding p [] (take 64 d) ctx H) as H1. cbn [length app] in H1.
    apply transform_holding in H1; [|len|len].
    destruct (IH _ (drop 64 d) _ H1) as (p' & t & Hh & E & Lt & Hb); [len|].
    exists p', t. split_and!; [done|rewrite E, <- app_assoc, take_drop; done|done|by rewrite Hb].
  - pose proof (put_holding p [] d ctx H) as H1. cbn [length app] in H1.
    exists p, d. split_and!; [apply H1; lia|done|lia|done].
Qed.

Lemma bits_add n m : 0 <= n -> 0 <= m ->
  let t := (bits_of n).1 in
  let b0 := u32 (t + u32 (Z.shiftl (u32 m) 3)) in
  (b0, u32 ((if b0 <? t then u32 ((bits_of n).2 + 1) else (bits_of n).2) + u32 (Z.shiftr m 29))) = bits_of (n + m).
Proof.
  intros Hn Hm. cbn zeta. unfold bits_of, wrap. cbn [fst snd]. rewrite Z.shiftl_mul_pow2, Z.shiftr_div_pow2 by lia.
  change (2 ^ 3) with 8. rewrite (Z.mul_comm _ 8), Zmult_mod_idemp_r.
  assert (m / 2 ^ 29 = 8 * m / 2 ^ 32) as -> by (change (2 ^ 32) with (8 * 2 ^ 29); by rewrite Z.div_mul_cancel_l).
  rewrite Z.mul_add_distr_l. generalize (8 * n) (8 * m) (Z.mul_nonneg_nonneg 8 n ltac:(lia) Hn) (Z.mul_nonneg_nonneg 8 m ltac:(lia) Hm).
  clear. intros x y Hx Hy. f_equal.
  - by rewrite <- Zplus_mod.
  - rewrite Zplus_mod_idemp_r.
    assert (((x mod 2 ^ 32 + y mod 2 ^ 32) mod 2 ^ 32 <? x mod 2 ^ 32) = (2 ^ 32 <=? x mod 2 ^ 32 + y mod 2 ^ 32)) as ->.
    { pose proof (Z.mod_pos_bound x (2 ^ 32) ltac:(lia)). pose proof (Z.mod_pos_bound y (2 ^ 32) ltac:(lia)).
      set (a := x mod 2 ^ 32) in *. set (b := y mod 2 ^ 32) in *. destruct (Z.leb_spec (2 ^ 32) (a + b)).
      - apply Z.ltb_lt. rewrite <- (Zmod_unique (a + b) (2 ^ 32) 1 (a + b - 2 ^ 32)) by lia. lia.
      - apply Z.ltb_ge. rewrite Z.mod_small by lia. lia. }
    assert ((x + y) / 2 ^ 32 = x / 2 ^ 32 + y / 2 ^ 32 + (if 2 ^ 32 <=? x mod 2 ^ 32 + y mod 2 ^ 32 then 1 else 0)) as ->.
    { destruct (Z.leb_spec (2 ^ 32) (x mod 2 ^ 32 + y mod 2 ^ 32)); euclid. }
    rewrite (Z.add_comm (x / 2 ^ 32)), <- Z.add_assoc, (Z.add_comm (y / 2 ^ 32)). generalize (x / 2 ^ 32) (y / 2 ^ 32). intros u v.
    destruct (_ <=? _).
    + by rewrite Zplus_mod_idemp_l, <- Z.add_assoc, Zplus_mod_idemp_l, Z.add_assoc.
    + by rewrite Zplus_mod_idemp_l, Z.add_0_r.
Qed.

(** The context after the message [m]. *)
Definition after (m : bytes) (ctx : Context) : Prop :=
  bits ctx = bits_of (size m) /\ exists p t, m = p ++ t /\ (length t < 64)%nat /\ holding p t ctx.

Lemma low_six p t : (exists n, length p = (64 * n)%nat) -> (length t < 64)%nat ->
  Z.land (Z.shiftr (bits_of (size (p ++ t))).1 3) 0x3f = Z.of_nat (length t).
Proof.
  intros [n Hn] Ht. unfold bits_of. cbn [fst]. change 0x3f with (Z.ones 6). rewrite Z.land_ones, Z.shiftr_div_pow2 by lia.
  rewrite size_app. unfold size. change (2 ^ 3) with 8. rewrite (Z.mul_comm 8).
  change (2 ^ 32) with (2 ^ 29 * 8). rewrite Z.mul_mod_distr_r, Z.div_mul by lia. rewrite Hn. euclid.
Qed.

Lemma MD5Update_after m d ctx : after m ctx -> after (m ++ d) (MD5Update d ctx).
Proof.
  intros (Hb & p & t & -> & Ht & H). unfold MD5Update. rewrite Hb.
  pose proof (bits_add (size (p ++ t)) (size d) (size_nonneg _) (size_nonneg _)) as B. cbn zeta in B |- *.
  rewrite B, <- size_app. clear B. set (ctx' := mkContext _ _ _).
  assert (holding p t ctx') as H' by by apply holding_bits. rewrite (low_six p t) by (done || by eapply holding_whole).
  destruct (Z.eqb_spec (Z.of_nat (length t)) 0) as [E|N].
  - assert (t = []) as -> by (destruct t; [done|cbn in E; lia]). rewrite app_nil_r in *.
    destruct (update_chunks_holding (S (length d)) p d ctx' H') as (p' & t' & Hh & E' & L & Hb'); [lia|].
    split; [rewrite Hb'; cbn [bits ctx']; by rewrite app_nil_r|]. exists p', t'. by rewrite E'.
  - replace (Z.to_nat (64 - Z.of_nat (length t))) with (64 - length t)%nat by lia. rewrite Nat2Z.id.
    unfold size at 1. destruct (Z.ltb_spec (Z.of_nat (length d)) (64 - Z.of_nat (length t))) as [L|L].
    + pose proof (put_holding p t d ctx' H' ltac:(lia)) as H1. split; [done|].
      exists p, (t ++ d). split_and!; [by rewrite app_assoc|len|exact H1].
    + pose proof (put_holding p t (take (64 - length t) d) ctx' H') as H1.
      apply transform_holding in H1; [|len|len].
      destruct (update_chunks_holding (S (length d)) _ (drop (64 - length t) d) _ H1) as (p' & t' & Hh & E' & L' & Hb'); [len|].
      split; [exact Hb'|]. exists p', t'. split_and!; [|done|exact Hh].
      rewrite E', <- !app_assoc. by rewrite take_drop.
Qed.

Lemma MD5Init_after g : length g = 64%nat -> after [] (MD5Init g).
Proof.
  intros Hg. split; [done|]. exists [], []. split_and!; [done|cbn; lia|]. split; [by exists 0%nat|done|]. split; [cbn; lia|done].
Qed.

(** The bytes of the padded message behind the whole blocks. *)
Lemma rfc_pad_tail p t : (exists n, length p = (64 * n)%nat) -> (length t < 64)%nat ->
  rfc_pad (p ++ t) = p ++ (t ++ [x80] ++ replicate (Z.to_nat ((55 - Z.of_nat (length t)) mod 64)) x00)
    ++ le_split 4 (bits_of (size (p ++ t))).1 ++ le_split 4 (bits_of (size (p ++ t))).2.
Proof.
  intros [n Hn] Ht. unfold rfc_pad. rewrite <- !app_assoc. do 2 f_equal.
  replace ((55 - size (p ++ t)) mod 64) with ((55 - Z.of_nat (length t)) mod 64) by (rewrite size_app; unfold size; rewrite Hn; euclid).
  cbn [app]. do 2 f_equal. unfold bits_of. cbn [fst snd]. set (b := 8 * size (p ++ t)).
  apply le_combine_inj; [by rewrite length_app, !length_le_split|].
  rewrite le_combine_app_add, !le_combine_split, length_le_split. change (Z.of_nat 8 * 8) with 64.
  change (8 * Z.of_nat 4) with 32. change (Z.of_nat 4 * 8) with 32. rewrite !Zmod_mod. clearbody b. euclid.
Qed.

(** Padding fills the block that waits up to 56 bytes, if need be over a block. *)
Lemma pad_holding p t ctx : holding p t ctx -> (length t < 64)%nat ->
  let l := put (length t) [x80] (inb ctx) in
  let count := 63 - Z.of_nat (length t) in
  let ctx' := if count <? 8 then
      let ctx := transform_in (with_in (put (S (length t)) (replicate (Z.to_nat count) x00) l) ctx) in
      with_in (put 0 (replicate 56 x00) (inb ctx)) ctx
    else with_in (put (S (length t)) (replicate (Z.to_nat (count - 8)) x00) l) ctx in
  bits ctx' = bits ctx /\ exists p' t', holding p' t' ctx' /\ length t' = 56%nat /\
    p' ++ t' = p ++ t ++ [x80] ++ replicate (Z.to_nat ((55 - Z.of_nat (length t)) mod 64)) x00.
Proof.
  intros H L l count ctx'. pose proof (put_holding p t [x80] ctx H) as H1. cbn [length] in H1. specialize (H1 ltac:(lia)).
  fold l in H1. assert (length (t ++ [x80]) = S (length t)) as L1 by len.
  assert (forall k, (S (length t) + k <= 64)%nat -> holding p ((t ++ [x80]) ++ replicate k x00)
    (with_in (put (S (length t)) (replicate k x00) l) ctx)) as Pad.
  { intros k Hk. pose proof (put_holding p (t ++ [x80]) (replicate k x00) _ H1) as H2.
    rewrite L1, length_replicate in H2. exact (H2 Hk). }
  subst ctx'. destruct (Z.ltb_spec count 8) as [C|C]; cbn zeta; (split; [done|]).
  - pose proof (Pad (Z.to_nat count) ltac:(lia)) as H2. apply transform_holding in H2; [|len].
    pose proof (put_holding _ [] (replicate 56 x00) _ H2) as H3. cbn [length app] in H3.
    specialize (H3 ltac:(rewrite length_replicate; lia)). eexists _, _. split; [exact H3|]. split; [by rewrite length_replicate|].
    replace (Z.to_nat ((55 - Z.of_nat (length t)) mod 64)) with (Z.to_nat count + 56)%nat by euclid.
    rewrite replicate_add, <- !app_assoc. done.
  - pose proof (Pad (Z.to_nat (count - 8)) ltac:(lia)) as H2. eexists _, _. split; [exact H2|]. split; [len|].
    replace (Z.to_nat ((55 - Z.of_nat (length t)) mod 64)) with (Z.to_nat (count - 8)) by euclid.
    by rewrite <- !app_assoc.
Qed.

Lemma MD5Final_after m ctx : after m ctx -> MD5Final ctx = rfc_md5 m.
Proof.
  intros (Hb & p & t & -> & Ht & H). unfold MD5Final. rewrite Hb.
  rewrite (low_six p t) by (done || by eapply holding_whole). rewrite Nat2Z.id.
  pose proof (pad_holding p t ctx H Ht) as P. cbn zeta in P. change (64 - 1 - Z.of_nat (length t)) with (63 - Z.of_nat (length t)).
  cbn zeta. set (ctx' := if _ <? 8 then _ else _) in *. clearbody ctx'. destruct P as (Hb' & p' & t' & H' & L' & E).
  pose proof (put_holding p' t' (le_split 4 (bits ctx').1) ctx' H') as H1. rewrite L', length_le_split in H1.
  specialize (H1 ltac:(lia)). set (ctx1 := with_in (put 56 _ _) ctx') in *.
  pose proof (put_holding p' _ (le_split 4 (bits ctx1).2) ctx1 H1) as H2.
  rewrite length_app, L', !length_le_split in H2. specialize (H2 ltac:(lia)). cbn [Nat.add] in H2.
  apply transform_holding in H2; [|rewrite !length_app, L', !length_le_split; lia].
  change (bits ctx1) with (bits ctx') in *. rewrite Hb', Hb in H2.
  destruct H2 as [(n & Hn & Hbuf) _ _]. rewrite Hb', Hb. rewrite Hbuf. unfold rfc_md5.
  rewrite rfc_pad_tail by (done || by eapply holding_whole).
  rewrite !app_assoc in Hn |- *. rewrite E in Hn |- *. rewrite <- !app_assoc in Hn |- *. rewrite Hn, Nat.mul_comm, Nat.div_mul by done. done.
Qed.

(** C22: However a message is cut into the pieces [MD5Update] is given, and whatever was
    in the context before: the digest is the one RFC 1321 defines, its table
    computed from the sine; in particular the bit count is right over 2 ^ 32
    bits and more. *)
Theorem MD5_rfc g pieces : length g = 64%nat ->
  MD5Final (fold_left (fun ctx d => MD5Update d ctx) pieces (MD5Init g)) = rfc_md5 (concat pieces).
Proof.
  intros Hg. apply MD5Final_after. rewrite <- (app_nil_l (concat pieces)).
  pose proof (MD5Init_after g Hg) as H. revert H. generalize (MD5Init g) ([] : bytes).
  induction pieces as [|d pieces IH]; intros ctx m H; cbn; [by rewrite app_nil_r|].
  rewrite app_assoc. apply IH, MD5Update_after, H.
Qed.

(** ** Examples *)

(** Two of the test vectors of the RFC. *)
Example md5_abc : MD5String (replicate 64 xff) (bs "abc") = bs "900150983cd24fb0d6963f7d28e17f72".
Proof. vm_compute. reflexivity. Qed.
Example md5_80 : MD5String (replicate 64 x00)
  (bs "12345678901234567890123456789012345678901234567890123456789012345678901234567890") = bs "57edf4a22be3c955ac49da2e2107b67a".
Proof. vm_compute. reflexivity. Qed.

Lemma MD5_rfc_witness : length (replicate 64 xff) = 64%nat /\
  MD5Final (MD5Update (bs "c") (MD5Update (bs "ab") (MD5Init (replicate 64 xff)))) = rfc_md5 (bs "abc").
Proof. split; [reflexivity|]. exact (MD5_rfc (replicate 64 xff) [bs "ab"; bs "c"] eq_refl). Defined.
