(* ===== verification/Numbers.v ===== *)
(** * Numbers and text (src/base3/string_number_conversions.cc)

    The templates are instantiated for [int] and [int64] in base 10 and for [int]
    in base 16; here width, base and the limits the traits give are arguments.
    An arithmetic operation on a signed type that leaves it wraps round, as
    the machines the program runs on do; the language leaves it undefined, and
    the theorems say where it does not happen. *)

From S2P Require Import Prelude CString.

(** ** Printing *)

(** [ToUnsigned] of a signed and of an unsigned type. *)
Definition ToUnsigned (w : Z) (neg : bool) (value : Z) : Z :=
  if neg then wrap w (if value <? 0 then swrap w (- value) else value) else wrap w value.

(** The loop that writes from the end of [outbuf]; [room] is what is left of the
    buffer, [None] a write in front of it. *)
Fixpoint print_loop (room : nat) (res : Z) (out : bytes) : option (nat * bytes) :=
  match room with
  | O => None
  | S room =>
      let out := byt (res mod 10 + 48) :: out in
      let res := res / 10 in
      if res =? 0 then Some (room, out) else print_loop room res out
  end.

Definition IntToStringT (w : Z) (neg : bool) (value : Z) : option bytes :=
  let kOutputBufSize := 3 * (w / 8) + 1 in
  let is_neg := if neg then value <? 0 else false in
  '(room, out) ← print_loop (Z.to_nat kOutputBufSize) (ToUnsigned w neg value) [];
  if is_neg then match room with O => None | S _ => Some ("-"%byte :: out) end else Some out.

Definition IntToString := IntToStringT 32 true.
Definition UintToString := IntToStringT 32 false.
Definition Int64ToString := IntToStringT 64 true.
Definition Uint64ToString := IntToStringT 64 false.

(** ** Digits *)

(** [BaseCharToDigit]: bases up to 10, and above. *)
Definition CharToDigit (base : Z) (c : Init.Byte.byte) : option Z :=
  let v := bval c in
  if base <=? 10 then if (48 <=? v) && (v <? 48 + base) then Some (v - 48) else None
  else if (48 <=? v) && (v <=? 57) then Some (v - 48)
  else if (97 <=? v) && (v <? 97 + base - 10) then Some (v - 97 + 10)
  else if (65 <=? v) && (v <? 65 + base - 10) then Some (v - 65 + 10)
  else None.

(** ** Reading *)

(** [IteratorRangeToNumberTraits]: the width of [value_type], the base, and what
    [min()] and [max()] return. *)
Record traits := mkTraits { t_width : Z; kBase : Z; t_min : Z; t_max : Z }.

Definition IntTraits : traits := mkTraits 32 10 (- 2 ^ 31) (2 ^ 31 - 1).
Definition Int64Traits : traits := mkTraits 64 10 (- 2 ^ 63) (2 ^ 63 - 1).
(** [max()] is that of [unsigned int], the values are of [int]. *)
Definition HexIntTraits : traits := mkTraits 32 16 (- 2 ^ 31) (2 ^ 32 - 1).

Arguments CharToDigit : simpl never.

Section Traits.
Context (T : traits).

Definition value_type (z : Z) : Z := swrap (t_width T) z.

(** [CheckBounds]: false, and what the output is then. *)
Definition Positive_CheckBounds (output new_digit : Z) : option Z :=
  let q := value_type (Z.quot (t_max T) (kBase T)) in
  if (q <? output) || ((output =? q) && (Z.rem (t_max T) (kBase T) <? new_digit))
  then Some (value_type (t_max T)) else None.
Definition Negative_CheckBounds (output new_digit : Z) : option Z :=
  let q := Z.quot (t_min T) (kBase T) in
  if (output <? q) || ((output =? q) && (0 - Z.rem (t_min T) (kBase T) <? new_digit))
  then Some (t_min T) else None.

Definition Increment (negative : bool) (new_digit output : Z) : Z :=
  value_type (if negative then output - new_digit else output + new_digit).

(** The loop; [first]: [current == begin]. *)
Fixpoint Base_loop (negative first : bool) (s : bytes) (output : Z) : bool * Z :=
  match s with
  | [] => (true, output)
  | c :: s =>
      match CharToDigit (kBase T) c with
      | None => (false, output)
      | Some new_digit =>
          let bad := if first then None
                     else (if negative then Negative_CheckBounds else Positive_CheckBounds) output new_digit in
          match bad with
          | Some output => (false, output)
          | None =>
              let output := if first then output else value_type (output * kBase T) in
              Base_loop negative false s (Increment negative new_digit output)
          end
      end
  end.

Definition Base_Invoke (negative : bool) (s : bytes) : bool * Z :=
  match s with
  | [] => (false, 0)
  | c :: s' =>
      let skip := match s' with
                  | d :: _ => (kBase T =? 16) && Byte.eqb c "0" && (Byte.eqb d "x" || Byte.eqb d "X")
                  | [] => false
                  end in
      Base_loop negative true (if skip then drop 2 s else s) 0
  end.

(** [Invoke]: whether the text is a number, and the output. *)
Definition Invoke (s : bytes) : bool * Z :=
  let s' := skip_space s in
  let valid := bool_decide (s' = s) in
  let '(ok, v) :=
    match s' with
    | c :: r => if Byte.eqb c "-" then Base_Invoke true r
                else if Byte.eqb c "+" then Base_Invoke false r else Base_Invoke false s'
    | [] => Base_Invoke false s'
    end in
  (valid && ok, v).
End Traits.

Definition StringToInt : bytes -> bool * Z := Invoke IntTraits.
Definition StringToInt64 : bytes -> bool * Z := Invoke Int64Traits.
Definition HexStringToInt : bytes -> bool * Z := Invoke HexIntTraits.

(** ** Bytes *)

Definition kHexChars : bytes := bs "0123456789ABCDEF".
Definition HexEncode (s : bytes) : bytes :=
  flat_map (fun b => [nth (Z.to_nat (Z.land (Z.shiftr (swrap 8 (bval b)) 4) 15)) kHexChars x00;
                      nth (Z.to_nat (Z.land (swrap 8 (bval b)) 15)) kHexChars x00]) s.

(** What was pushed before a character that is no digit stays in [output]. *)
Fixpoint hex_pairs (s : bytes) (output : bytes) : bool * bytes :=
  match s with
  | a :: b :: s =>
      match CharToDigit 16 a, CharToDigit 16 b with
      | Some msb, Some lsb => hex_pairs s (output ++ [byt (Z.lor (u8 (Z.shiftl msb 4)) lsb)])
      | _, _ => (false, output)
      end
  | _ => (true, output)
  end.
Definition HexStringToBytes (input : bytes) : bool * bytes :=
  if (size input =? 0) || negb (size input mod 2 =? 0) then (false, []) else hex_pairs input [].

(** ** What a text says *)

(** The values of the digits at its start, and whether there is nothing else. *)
Fixpoint digits (base : Z) (s : bytes) : list Z :=
  match s with
  | [] => []
  | c :: s => match CharToDigit base c with Some d => d :: digits base s | None => [] end
  end.
Definition all_digits (base : Z) (s : bytes) : bool := forallb (fun c => bool_decide (CharToDigit base c <> None)) s.

Definition signed (neg : bool) (v : Z) : Z := if neg then - v else v.

Definition sign_of (s : bytes) : bool * bytes :=
  match s with
  | c :: r => if Byte.eqb c "-" then (true, r) else if Byte.eqb c "+" then (false, r) else (false, s)
  | [] => (false, [])
  end.

(** A decimal number between [lo] and [hi]: no blanks in front, a sign, at least
    one digit, digits only, and in range; the output is the number its
    first digits say, brought into the range. *)
Definition text_number (lo hi : Z) (s : bytes) : bool * Z :=
  let s' := skip_space s in
  let '(neg, r) := sign_of s' in
  let v := signed neg (radix_value 10 (digits 10 r)) in
  (bool_decide (s' = s) && (negb (bool_decide (r = [])) && all_digits 10 r && (lo <=? v) && (v <=? hi)), clamp lo hi v).

Lemma CharToDigit_range base c d : 0 <= base -> CharToDigit base c = Some d -> 0 <= d /\ (2 <= base <= 36 -> d < base).
Proof.
  unfold CharToDigit. intros Hb H.
  repeat match type of H with context [if ?x then _ else _] => destruct x eqn:?; zbool end; try done; simplify_eq; lia.
Qed.

(** Reading on from a value. *)
Definition further (base : Z) (neg : bool) (ds : list Z) (out : Z) : Z :=
  fold_left (fun a d => if neg then a * base - d else a * base + d) ds out.

Lemma further_signed base neg ds v : further base neg ds (signed neg v) = signed neg (fold_left (fun a d => a * base + d) ds v).
Proof.
  unfold further. revert v. induction ds as [|d ds IH]; intros v; [done|]. cbn. rewrite <- IH. f_equal.
  destruct neg; cbn; lia.
Qed.

Section Decimal.
Context (T : traits) (Hbase : kBase T = 10) (Hlo : t_min T <= -9) (Hhi : 9 <= t_max T).
Context (Hval : forall z, t_min T <= z <= t_max T -> value_type T z = z).

(** The output so far: on the side of its sign, and in range. *)
Definition side (neg : bool) (z : Z) : Prop := t_min T <= z <= t_max T /\ if neg then z <= 0 else 0 <= z.

#[local] Instance side_dec neg z : Decision (side neg z).
Proof. unfold side. destruct neg; apply _. Defined.

Definition next (neg : bool) (out d : Z) : Z := if neg then out * 10 - d else out * 10 + d.

Lemma check_bounds (neg : bool) out d : side neg out -> 0 <= d < 10 ->
  (if neg then Negative_CheckBounds T else Positive_CheckBounds T) out d
  = if bool_decide (side neg (next neg out d)) then None else Some (if neg then t_min T else t_max T).
Proof.
  intros [H S] Hd. unfold side, next in *. destruct neg.
  - unfold Negative_CheckBounds. rewrite Hbase. case_bool_decide as B.
    + rewrite (proj2 (orb_false_iff _ _)); [done|]. split; [apply Z.ltb_ge; euclid|].
      apply andb_false_iff. destruct (Z.eqb_spec out (Z.quot (t_min T) 10)); [right; apply Z.ltb_ge; euclid|by left].
    + rewrite (proj2 (orb_true_iff _ _)); [done|]. destruct (Z.ltb_spec out (Z.quot (t_min T) 10)); [by left|right].
      apply andb_true_iff. split; [apply Z.eqb_eq; euclid|apply Z.ltb_lt; euclid].
  - unfold Positive_CheckBounds. rewrite Hbase, (Hval (Z.quot _ _)) by euclid. rewrite (Hval (t_max T)) by lia. case_bool_decide as B.
    + rewrite (proj2 (orb_false_iff _ _)); [done|]. split; [apply Z.ltb_ge; euclid|].
      apply andb_false_iff. destruct (Z.eqb_spec out (Z.quot (t_max T) 10)); [right; apply Z.ltb_ge; euclid|by left].
    + rewrite (proj2 (orb_true_iff _ _)); [done|]. destruct (Z.ltb_spec (Z.quot (t_max T) 10) out); [by left|right].
      apply andb_true_iff. split; [apply Z.eqb_eq; euclid|apply Z.ltb_lt; euclid].
Qed.

Lemma further_away (neg : bool) ds out : digits_ok 10 ds -> (if neg then out <= 0 else 0 <= out) ->
  if neg then further 10 neg ds out <= out else out <= further 10 neg ds out.
Proof.
  intros F. unfold further. revert out. induction F as [|d ds Hd F IH]; intros out H; cbn; [destruct neg; lia|].
  destruct neg; [specialize (IH (out * 10 - d))|specialize (IH (out * 10 + d))]; lia.
Qed.

Lemma digits_are_ok s : digits_ok 10 (digits 10 s).
Proof.
  induction s as [|c s IH]; [constructor|]. cbn [digits]. destruct (CharToDigit 10 c) as [d|] eqn:E; [|constructor].
  apply CharToDigit_range in E; [|lia]. constructor; [lia|exact IH].
Qed.

Lemma Base_loop_spec neg first s out : side neg out -> (first = true -> out = 0) ->
  Base_loop T neg first s out =
    let v := further 10 neg (digits 10 s) out in
    (all_digits 10 s && (t_min T <=? v) && (v <=? t_max T), clamp (t_min T) (t_max T) v).
Proof.
  revert first out. induction s as [|c s IH]; intros first out S F; cbn zeta.
  { cbn. destruct S as [S _]. rewrite !(proj2 (Z.leb_le _ _)) by lia. f_equal. unfold clamp. lia. }
  cbn [Base_loop digits all_digits forallb]. rewrite Hbase.
  destruct (CharToDigit 10 c) as [d|] eqn:E; [|cbn; f_equal; unfold clamp; destruct S as [S _]; lia].
  apply CharToDigit_range in E as [Hd1 Hd2]; [|lia]. specialize (Hd2 ltac:(lia)).
  rewrite (bool_decide_eq_true_2 (Some d <> None)) by done. cbn [andb further fold_left].
  fold (further 10 neg (digits 10 s)). fold (next neg out d).
  assert (first = true -> side neg (next neg out d)) as Fi.
  { intros ->. rewrite F by done. unfold side, next. destruct neg; lia. }
  assert ((if first then None else (if neg then Negative_CheckBounds T else Positive_CheckBounds T) out d)
    = if bool_decide (side neg (next neg out d)) then None else Some (if neg then t_min T else t_max T)) as ->.
  { destruct first; [by rewrite bool_decide_eq_true_2 by auto|]. by apply check_bounds. }
  case_bool_decide as B.
  - assert (Increment T neg d (if first then out else value_type T (out * 10)) = next neg out d) as ->.
    { unfold Increment. destruct first; [rewrite F by done|rewrite (Hval (out * 10)) by (unfold side, next in *; destruct neg; lia)];
        unfold side, next in *; destruct neg; rewrite Hval; lia. }
    apply IH; [exact B|done].
  - pose proof (further_away neg (digits 10 s) (next neg out d) (digits_are_ok s)) as A.
    unfold further in A. set (v := fold_left _ _ _) in *. destruct S as [S1 S2].
    unfold side, next, clamp in *. destruct neg; (specialize (A ltac:(lia)); f_equal; [|lia]); symmetry; apply andb_false_iff.
    + left. apply andb_false_iff. right. apply Z.leb_gt. lia.
    + right. apply Z.leb_gt. lia.
Qed.

Lemma Base_Invoke_spec neg s :
  Base_Invoke T neg s =
    let v := signed neg (radix_value 10 (digits 10 s)) in
    (negb (bool_decide (s = [])) && all_digits 10 s && (t_min T <=? v) && (v <=? t_max T), clamp (t_min T) (t_max T) v).
Proof.
  destruct s as [|c s]; [cbn; unfold clamp; destruct neg; f_equal; cbn; lia|].
  unfold Base_Invoke. rewrite Hbase. cbn [Z.eqb Pos.eqb andb].
  replace (match s with [] => false | _ :: _ => false end) with false by by destruct s.
  rewrite Base_loop_spec; [|unfold side; destruct neg; lia|done]. cbn zeta.
  pose proof (further_signed 10 neg (digits 10 (c :: s)) 0) as E. unfold radix_value. rewrite <- E. by destruct neg.
Qed.

Lemma Invoke_spec s : Invoke T s = text_number (t_min T) (t_max T) s.
Proof.
  unfold Invoke, text_number, sign_of. set (s' := skip_space s). destruct s' as [|c r].
  - rewrite Base_Invoke_spec. done.
  - destruct (Byte.eqb c "-"), (Byte.eqb c "+"); by rewrite Base_Invoke_spec.
Qed.
End Decimal.

(** [StringToInt] and [StringToInt64] say of every text whether it is a number
    (no blanks, an optional sign, digits only, at least one, and in the range
    of the type), and put out the number its first digits say, brought into
    the range. *)
Theorem StringToInt_spec s :
  StringToInt s = text_number (- 2 ^ 31) (2 ^ 31 - 1) s /\ StringToInt64 s = text_number (- 2 ^ 63) (2 ^ 63 - 1) s.
Proof.
  split; apply Invoke_spec; cbn; try lia; intros z Hz; apply swrap_small; cbn; lia.
Qed.

(** ** Printing and reading back *)

Lemma print_loop_dec room n out : 0 <= n < 10 ^ Z.of_nat room -> (0 < room)%nat ->
  print_loop room n out = Some ((room - length (dec_nonneg n))%nat, dec_nonneg n ++ out).
Proof.
  intros Hn Hr. unfold dec_nonneg, radix_digits. rewrite length_map.
  rewrite (radix_loop_fuel 10 (S (Z.to_nat (Z.log2 n))) room) by (lia || apply log2_fuel; lia).
  revert n out Hn. induction room as [|room IH]; intros n out Hn; [lia|]. cbn [print_loop radix_loop].
  assert (byt (n mod 10 + 48) = digit_char (n mod 10)) as -> by (unfold digit_char; f_equal; lia).
  destruct (Z.eqb_spec (n / 10) 0) as [E0|N0]; [cbn; do 2 f_equal; lia|].
  rewrite Nat2Z.inj_succ, Z.pow_succ_r in Hn by lia.
  assert (0 <= n / 10 < 10 ^ Z.of_nat room) as Hn' by (split; [apply Z.div_pos; lia|apply Z.div_lt_upper_bound; lia]).
  assert (0 < room)%nat by (destruct room; [cbn in Hn'; lia|lia]).
  rewrite IH by done. rewrite (radix_loop_acc room 10 (n / 10) [_]), map_app, length_app, <- app_assoc. cbn. do 2 f_equal. lia.
Qed.

(** A number below [10 ^ k] has at most [k] digits. *)
Lemma length_dec_nonneg n k : 0 <= n < 10 ^ Z.of_nat k -> (0 < k)%nat -> (0 < length (dec_nonneg n) <= k)%nat.
Proof.
  intros Hn Hk. unfold dec_nonneg, radix_digits. rewrite length_map.
  rewrite (radix_loop_fuel 10 (S (Z.to_nat (Z.log2 n))) k) by (lia || apply log2_fuel; lia).
  destruct (radix_loop_spec 10 k n [] ltac:(lia) Hn Hk) as (ds & -> & _ & _ & L & _). by rewrite app_nil_r.
Qed.

Lemma IntToStringT_dec w neg v : w = 32 \/ w = 64 ->
  (if neg : bool then - 2 ^ (w - 1) <= v < 2 ^ (w - 1) else 0 <= v < 2 ^ w) -> IntToStringT w neg v = Some (dec v).
Proof.
  intros Hw Hv. unfold IntToStringT, dec.
  assert (ToUnsigned w neg v = Z.abs v /\ 0 <= Z.abs v < 10 ^ 20) as [-> Ha].
  { unfold ToUnsigned, wrap, swrap. destruct neg.
    - destruct (Z.ltb_spec v 0); destruct Hw as [-> | ->]; cbn [Z.sub Z.add Z.opp Z.pos_sub Pos.pred_double Pos.pred_N] in *; split; euclid.
    - destruct Hw as [-> | ->]; split; try lia; rewrite Z.mod_small; lia. }
  assert (exists k, Z.to_nat (3 * (w / 8) + 1) = S k /\ (k = 12%nat /\ Z.abs v < 10 ^ 10 \/ k = 24%nat)) as (k & -> & Hk).
  { destruct Hw as [-> | ->]; [exists 12%nat|exists 24%nat]; split; try reflexivity; [left|by right]. split; [done|]. destruct neg; lia. }
  rewrite print_loop_dec by first [lia | split; [lia|destruct Hk as [[-> ?]| ->]; cbn; lia]].
  cbn [mbind option_bind]. rewrite app_nil_r.
  assert ((length (dec_nonneg (Z.abs v)) < S k)%nat) as L.
  { destruct Hk as [[-> ?]| ->]; [pose proof (length_dec_nonneg (Z.abs v) 10)|pose proof (length_dec_nonneg (Z.abs v) 20)]; cbn in *; lia. }
  destruct neg.
  - destruct (Z.ltb_spec v 0); [|by rewrite Z.abs_eq by lia].
    destruct (S k - _)%nat eqn:E; [lia|]. by rewrite Z.abs_neq by lia.
  - rewrite (proj2 (Z.ltb_ge v 0)) by lia. by rewrite Z.abs_eq by lia.
Qed.

Lemma digits_app base ds rest : digits_ok 10 ds -> base = 10 ->
  digits base (map digit_char ds ++ rest) = ds ++ digits base rest /\
  all_digits base (map digit_char ds ++ rest) = all_digits base rest.
Proof.
  intros F ->. induction F as [|d ds Hd F [IH1 IH2]]; [done|]. cbn [map app digits all_digits forallb].
  assert (CharToDigit 10 (digit_char d) = Some d) as ->.
  { unfold CharToDigit. rewrite bval_digit_char by done. cbn. rewrite (proj2 (Z.leb_le _ _)), (proj2 (Z.ltb_lt _ _)) by lia. cbn. f_equal. lia. }
  rewrite IH1. split; [done|]. by rewrite bool_decide_eq_true_2 by done.
Qed.

Lemma text_number_dec lo hi v : lo <= v <= hi -> text_number lo hi (dec v) = (true, v).
Proof.
  intros Hv.
  assert (forall n, 0 <= n -> digits 10 (dec_nonneg n) = radix_digits 10 n /\ all_digits 10 (dec_nonneg n) = true) as D.
  { intros n Hn. destruct (radix_digits_spec 10 n) as (_ & Hok & _); [lia|done|].
    destruct (digits_app 10 (radix_digits 10 n) [] Hok eq_refl) as [E1 E2]. rewrite !app_nil_r in *. done. }
  destruct (dec_nonneg_cons (Z.abs v) ltac:(lia)) as (d & ds & E & Hd & Hok & Hval).
  pose proof (bval_digit_char d Hd) as Bd. destruct (atol_sign_false (digit_char d)) as [M P]; [lia|].
  destruct (D (Z.abs v) ltac:(lia)) as [D1 D2]. destruct (radix_digits_spec 10 (Z.abs v)) as (R & _); [lia|lia|].
  assert ((bool_decide (dec v = dec v) && (negb (bool_decide (dec_nonneg (Z.abs v) = [])) && all_digits 10 (dec_nonneg (Z.abs v))
    && (lo <=? v) && (v <=? hi)), clamp lo hi v) = (true, v)) as Fin.
  { rewrite bool_decide_eq_true_2, bool_decide_eq_false_2, D2 by (done || by rewrite E).
    rewrite !(proj2 (Z.leb_le _ _)) by lia. cbn. f_equal. unfold clamp. lia. }
  unfold text_number. unfold dec in *. destruct (Z.ltb_spec v 0).
  - cbn [skip_space]. rewrite isspace_false by (vm_compute; discriminate). unfold sign_of.
    change (Byte.eqb "-" "-") with true. cbv beta iota.
    rewrite Z.abs_neq in * by lia. rewrite D1, R. cbn [signed]. rewrite Z.opp_involutive. exact Fin.
  - rewrite Z.abs_eq in * by lia. rewrite E in *. cbn [skip_space]. rewrite isspace_false by lia.
    unfold sign_of. rewrite M, P. rewrite <- E in *. rewrite D1, R. cbn [signed]. exact Fin.
Qed.

(** Every [int] and [int64] is printed in decimal, inside the buffer, and what is
    printed is read back as the same number; the smallest ones included. *)
Theorem print_parse v :
  (- 2 ^ 31 <= v < 2 ^ 31 -> IntToString v = Some (dec v) /\ StringToInt (dec v) = (true, v)) /\
  (- 2 ^ 63 <= v < 2 ^ 63 -> Int64ToString v = Some (dec v) /\ StringToInt64 (dec v) = (true, v)) /\
  (0 <= v < 2 ^ 32 -> UintToString v = Some (dec v)) /\ (0 <= v < 2 ^ 64 -> Uint64ToString v = Some (dec v)).
Proof.
  assert (forall s, StringToInt s = text_number (- 2 ^ 31) (2 ^ 31 - 1) s) as A
    by (intros s; apply Invoke_spec; cbn; try lia; intros z Hz; apply swrap_small; cbn; lia).
  assert (forall s, StringToInt64 s = text_number (- 2 ^ 63) (2 ^ 63 - 1) s) as B
    by (intros s; apply Invoke_spec; cbn; try lia; intros z Hz; apply swrap_small; cbn; lia).
  split_and!; intros Hv; try split; try (apply IntToStringT_dec; [auto|exact Hv]).
  - rewrite A. apply text_number_dec. lia.
  - rewrite B. apply text_number_dec. lia.
Qed.

(** ** Hexadecimal *)

Definition hex_high (b : Init.Byte.byte) : Init.Byte.byte := nth (Z.to_nat (Z.land (Z.shiftr (swrap 8 (bval b)) 4) 15)) kHexChars x00.
Definition hex_low (b : Init.Byte.byte) : Init.Byte.byte := nth (Z.to_nat (Z.land (swrap 8 (bval b)) 15)) kHexChars x00.

Lemma hex_pair b :
  match CharToDigit 16 (hex_high b), CharToDigit 16 (hex_low b) with
  | Some m, Some l => byt (Z.lor (u8 (Z.shiftl m 4)) l) = b
  | _, _ => False
  end.
Proof. by destruct b; vm_compute. Qed.

(** Bytes in hexadecimal are read back; no text at all is not accepted. *)
Theorem HexStringToBytes_HexEncode s : s <> [] -> HexStringToBytes (HexEncode s) = (true, s).
Proof.
  intros N. unfold HexStringToBytes.
  assert (size (HexEncode s) = 2 * size s) as ->.
  { clear N. unfold size. induction s as [|b s IH]; [done|]. cbn [HexEncode flat_map app length] in *.
    unfold HexEncode in IH. lia. }
  assert (0 < size s) by (destruct s; [done|unfold size; cbn; lia]).
  rewrite (proj2 (Z.eqb_neq _ _)), (proj2 (Z.eqb_eq _ _)) by euclid. cbn [orb negb].
  enough (forall out, hex_pairs (HexEncode s) out = (true, out ++ s)) as -> by done. clear.
  induction s as [|b s IH]; intros out; [cbn; by rewrite app_nil_r|].
  change (HexEncode (b :: s)) with (hex_high b :: hex_low b :: HexEncode s). cbn [hex_pairs].
  pose proof (hex_pair b) as P. destruct (CharToDigit 16 (hex_high b)), (CharToDigit 16 (hex_low b)); try done.
  rewrite IH, P, <- app_assoc. done.
Qed.

(** Up to eight digits, in either sign's half of the range, give the [int] with those
    bits. *)
Lemma Hex_loop s first out : Forall (fun c => CharToDigit 16 c <> None) s ->
  0 <= out -> (first = true -> out = 0) -> out * 16 ^ size s + 16 ^ size s <= 2 ^ 32 ->
  Base_loop HexIntTraits false first s (i32 out) = (true, i32 (fold_left (fun a d => a * 16 + d) (digits 16 s) out)).
Proof.
  intros F. revert first out. induction F as [|c s Hc F IH]; intros first out Ho Hf Hb; [done|].
  cbn [Base_loop digits]. change (kBase HexIntTraits) with 16.
  destruct (CharToDigit 16 c) as [d|] eqn:E; [|done].
  apply CharToDigit_range in E as [Hd1 Hd2]; [|lia]. specialize (Hd2 ltac:(lia)).
  rewrite size_cons, Z.pow_add_r in Hb by (pose proof (size_nonneg s); lia). change (16 ^ 1) with 16 in Hb.
  pose proof (Z.pow_pos_nonneg 16 (size s) ltac:(lia) (size_nonneg s)).
  assert (out < 2 ^ 28) by nia.
  assert ((if first then None else Positive_CheckBounds HexIntTraits (i32 out) d) = None) as ->.
  { destruct first; [done|]. unfold Positive_CheckBounds. rewrite i32_small by lia.
    change (value_type HexIntTraits (Z.quot (t_max HexIntTraits) (kBase HexIntTraits))) with (2 ^ 28 - 1).
    change (Z.rem (t_max HexIntTraits) (kBase HexIntTraits)) with 15.
    rewrite (proj2 (Z.ltb_ge _ _)), (proj2 (Z.ltb_ge 15 d)) by lia. by rewrite andb_false_r. }
  assert (Increment HexIntTraits false d (if first then i32 out else value_type HexIntTraits (i32 out * 16)) = i32 (out * 16 + d)) as ->.
  { unfold Increment, value_type. cbn [t_width HexIntTraits]. rewrite (i32_small out) by lia. destruct first.
    - rewrite Hf by done. done.
    - unfold swrap.
      change (2 ^ (32 - 1)) with (2 ^ 31). f_equal.
      replace ((out * 16 + 2 ^ 31) mod 2 ^ 32 - 2 ^ 31 + d + 2 ^ 31) with ((out * 16 + 2 ^ 31) mod 2 ^ 32 + d) by lia.
      rewrite Zplus_mod_idemp_l. f_equal. lia. }
  cbn [fold_left]. apply IH; [nia|done|nia].
Qed.

Theorem HexStringToInt_eight s : s <> [] -> Forall (fun c => CharToDigit 16 c <> None) s -> size s <= 8 ->
  HexStringToInt s = (true, i32 (radix_value 16 (digits 16 s))).
Proof.
  intros N F L. assert (forall c, CharToDigit 16 c <> None -> 48 <= bval c /\ isspace c = false /\ Byte.eqb c "-" = false /\ Byte.eqb c "+" = false
    /\ Byte.eqb c "x" = false /\ Byte.eqb c "X" = false) as C by (intros c; destruct c; vm_compute; (done || intuition congruence)).
  unfold HexStringToInt, Invoke. assert (skip_space s = s) as ->.
  { destruct s as [|c s]; [done|]. inversion F; subst. cbn. by destruct (C c) as (_ & -> & _). }
  rewrite bool_decide_eq_true_2 by done. destruct s as [|c s]; [done|]. pose proof F as F'. inversion F' as [|? ? Hc Fs]; subst.
  destruct (C c Hc) as (_ & _ & -> & -> & _). unfold Base_Invoke.
  assert ((match s with d :: _ => (kBase HexIntTraits =? 16) && Byte.eqb c "0" && (Byte.eqb d "x" || Byte.eqb d "X") | [] => false end) = false) as ->.
  { destruct s as [|d s]; [done|]. inversion Fs; subst. destruct (C d) as (_ & _ & _ & _ & -> & ->); [done|]. by rewrite andb_false_r. }
  pose proof (Hex_loop (c :: s) true 0 F ltac:(lia) ltac:(done)) as E. change (i32 0) with 0 in E. rewrite E; [done|].
  apply (Z.pow_le_mono_r 16) in L; [|lia]. lia.
Qed.

(** ** Examples *)

(** Nine digits: the first eight make a negative number, which passes the test for
    overflow; the ninth is taken in. *)
Example hex_nine_digits : HexStringToInt (bs "0x800000001") = (true, 1).
Proof. vm_compute. reflexivity. Qed.
(** The prefix alone is a number. *)
Example hex_no_digits : HexStringToInt (bs "0x") = (true, 0).
Proof. vm_compute. reflexivity. Qed.
Example int_overflow : StringToInt (bs "2147483648x") = (false, 2 ^ 31 - 1).
Proof. vm_compute. reflexivity. Qed.
Example int_smallest : IntToString (- 2 ^ 31) = Some (bs "-2147483648").
Proof. vm_compute. reflexivity. Qed.

Lemma HexStringToBytes_HexEncode_witness : bs "az" <> [] /\ HexStringToBytes (bs "617A") = (true, bs "az").
Proof. split; [discriminate|]. exact (HexStringToBytes_HexEncode (bs "az") ltac:(discriminate)). Defined.

Lemma HexStringToInt_eight_witness : size (bs "fFffFfF0") <= 8 /\ HexStringToInt (bs "fFffFfF0") = (true, -16).
Proof.
  split; [vm_compute; discriminate|].
  refine (HexStringToInt_eight (bs "fFffFfF0") _ _ _); [discriminate| |vm_compute; discriminate].
  repeat constructor; vm_compute; discriminate.
Defined.
