(* ===== verification/BundleWrite.v ===== *)
(** * The program that stores its input (src/bundle/bundlewrite.cc)

    It reads its standard input to the end, stores it through an allocated
    writer under a prefix of the day, and prints the url (and how long that
    took, which is not modelled).  The input is what is left to read, and
    whether reading then fails instead of coming to an end. *)

From S2P Require Import Prelude CString Http Posix BundleUrl FileLock Format Bundle Allocate BundleAction.

Record input := mkInput { left_to_read : bytes; broken : bool; feof : bool }.

(** [fread(ss, 1, n, stdin)]: at the end of the input the end-of-file mark is
    set, after an error another one, for which the program does not look. *)
Definition fread (n : nat) (i : input) : bytes * input :=
  let chunk := take n (left_to_read i) in
  (chunk, mkInput (drop n (left_to_read i)) (broken i)
            (feof i || ((length chunk <? n)%nat && negb (broken i)))).

(** [while(!feof(stdin))]; [None]: still reading. *)
Fixpoint read_stdin (fuel : nat) (i : input) (fcontent : bytes) : option bytes :=
  match fuel with
  | O => None
  | S fuel =>
      if feof i then Some fcontent
      else let '(chunk, i) := fread 1024 i in read_stdin fuel i (fcontent ++ chunk)
  end.

(** The rest of [Write]: the url, empty when there was no writer. *)
Definition store_input (st : Setting) (fuel : nat) (prefix postfix storage fcontent : bytes) : P bytes :=
  let file_size := i32 (size fcontent) in
  w ← Allocate st fuel prefix postfix (u64 file_size) storage None None;
  match w with
  | None => mret []
  | Some writer =>
      if file_size <? 0 then halt Undef  (* more bytes than there are *)
      else
        Write writer (take (Z.to_nat file_size) fcontent) None;;
        let url := EnsureUrl writer in
        Release writer;;
        mret url
  end.

Definition Write_stdin (st : Setting) (fuel turns : nat) (prefix postfix storage : bytes) (stdin : input) : P bytes :=
  match read_stdin turns stdin [] with
  | None => halt Fuel
  | Some fcontent => store_input st fuel prefix postfix storage fcontent
  end.

(** [tm_buf]: a prefix like b/20120512 *)
Definition tm_buf (ts : tm) : bytes :=
  snprintf 32 (bs "b/" ++ dec_pad 4 (i32 (tm_year ts + 1900)) ++ dec_pad 2 (i32 (tm_mon ts + 1))
               ++ dec_pad 2 (tm_mday ts)).

(** [main], with the argument that names the storage: the url that is printed. *)
Definition main (st : Setting) (fuel turns : nat) (ts : tm) (argv1 : option bytes) (stdin : input) : P bytes :=
  Write_stdin st fuel turns (tm_buf ts) (bs ".jpg") (default [] argv1) stdin.

(** ** Reading the input *)

Lemma read_stdin_whole turns content acc : (length content < 1024 * (turns - 1))%nat ->
  read_stdin turns (mkInput content false false) acc = Some (acc ++ content).
Proof.
  revert content acc. induction turns as [|turns IH]; intros content acc H; [lia|]. cbn [read_stdin feof fread left_to_read broken].
  unfold fread. cbn [feof left_to_read broken orb negb]. rewrite andb_true_r, length_take.
  destruct (Nat.ltb_spec (1024 `min` length content) 1024) as [L|L].
  - destruct turns as [|turns]; [lia|]. cbn [read_stdin feof]. by rewrite take_ge by lia.
  - rewrite IH by (rewrite length_drop; lia). by rewrite <- app_assoc, take_drop.
Qed.

(** When reading fails the program never stops trying. *)
Lemma read_stdin_broken turns content acc : read_stdin turns (mkInput content true false) acc = None.
Proof.
  revert content acc. induction turns as [|turns IH]; intros content acc; [done|]. cbn [read_stdin feof].
  unfold fread. cbn [feof left_to_read broken orb negb]. rewrite andb_false_r. apply IH.
Qed.

(** C8: The program on a calm system, from its start, when it has not allocated
    anything yet, to a later [Read]: it reads all of its input, prints the url
    of a record, and reading that url gives back what was on the input.  The
    first bundle it tries is named by the last digit of its process number, so
    from each [id] below ten on there has to be, after [k id] busy bundles, one
    with room whose url is readable (its hash is not the reserved one); the
    content is shorter than 2 ^ 31 - 1536 bytes, and the format is the encoded
    one ([storable]). *)
Theorem main_stores {W} `{Posix W benign} (st : Setting) (k : Z -> nat) (fuel turns : nat) (ts : tm)
    (storage content : bytes) (off : Z -> Z) (ql q : Z -> path) (s : proc) (w : W) :
  last_id_ s = -1 ->
  (forall id, 0 <= id < 10 -> (k id < fuel)%nat /\
     storable st (k id) (tm_buf ts) (bs ".jpg") content storage None id (off id) (ql id) (q id) (view w)) ->
  (length content < 1024 * (turns - 1))%nat ->
  exists id user_data,
    let info := mkInfo (id + Z.of_nat (k id)) [] (off id) (size content) []
      (skip_slash (c_str (tm_buf ts))) (bs ".jpg") in
    0 <= id < 10 /\
    fst (fst (runP (url ← main st fuel turns ts (Some storage) (mkInput content false false);
                    x ← Read_url st url storage None; mret (url, x)) s w)) =
      inr (BuildWithEncode info, (0, Some (content, user_data))).
Proof.
  intros Hs Hall Ht. set (info id := mkInfo (id + Z.of_nat (k id)) [] (off id) (size content) []
    (skip_slash (c_str (tm_buf ts))) (bs ".jpg")).
  destruct (Hall 0 ltac:(lia)) as [_ Hst0]. pose proof (st_size _ _ _ _ _ _ _ _ _ _ _ _ Hst0) as Hsz.
  pose proof (size_nonneg content). clear Hst0.
  assert (wpP benign never (url ← main st fuel turns ts (Some storage) (mkInput content false false);
    x ← Read_url st url storage None; mret (url, x))
    (fun r _ _ => exists id ud, 0 <= id < 10 /\ r = (BuildWithEncode (info id), (0, Some (content, ud)))) s (view w)) as Hwp.
  { apply wpP_bind. unfold main, Write_stdin. rewrite read_stdin_whole by done.
    change (default [] (Some storage)) with storage. cbn [app].
    unfold store_input. rewrite i32_small, wrap_small by lia.
    apply wpP_bind, Allocate_first; [done|]. intros id Hid. destruct (Hall id Hid) as [Hfuel Hst].
    eapply wpP_mono; [by eapply Allocate_calm; [done|done|..]|].
    cbn beta. intros wr s1 f1 (-> & Hal). rewrite (proj2 (Z.ltb_ge _ _)) by lia.
    rewrite take_ge by (unfold size; lia).
    apply wpP_bind. eapply wpP_mono; [by eapply Write_calm|].
    cbn beta. intros r s2 f2 (-> & Hin & Hlk). apply wpP_bind. eapply wpP_mono; [by eapply Release_calm|].
    cbn beta. intros _ s3 f3 [Hin3 _]. rewrite (writer_url _ _ _ _ _ _ _ _ _ _ _ _ Hst). apply wpP_ret.
    apply wpP_bind. eapply wpP_mono; [eapply fetch_calm; [done|done|by eapply url_c_str]|].
    cbn beta. intros x s4 f4 (_ & heap & _ & ->). apply wpP_ret. unfold info. eauto. }
  apply wpP_run in Hwp. destruct (runP _ s w) as [[[e|r] s'] w']; [done|].
  destruct Hwp as (id & ud & Hid & ->). by exists id, ud.
Qed.

(** ** Examples *)

Definition write_day : tm := Tm 0 0 12 12 4 112.
Definition write_dir : path := [bs "s"; bs "b"; bs "20120512"; bs "00000000"].

(** A storage with one bundle for the day. *)
Definition write_fs : fs :=
  Fs {[ [] := NDir; [bs "s"] := NDir; [bs "s"; bs ".lock"] := NDir; [bs "s"; bs "b"] := NDir;
        [bs "s"; bs "b"; bs "20120512"] := NDir; write_dir := NDir;
        write_dir ++ [bs "00000000"] := NFile (replicate 1024 x00) ]} ∅ 3 [].

(** The bundle and the lock the program tries first. *)
Definition write_bundle (id : Z) : path := write_dir ++ [hex08 id].
Definition write_lock (id : Z) : path := [bs "s"; bs ".lock"; dec id].

Lemma write_storable id : 0 <= id < 10 ->
  storable g_default_setting 0 (tm_buf write_day) (bs ".jpg") (bs "JFIF--data") (bs "/s") None id
    1024 (write_lock id) (write_bundle id) write_fs.
Proof.
  intros Hid. split.
  - apply fs_ok_fresh; [lia|vm_compute; reflexivity].
  - exact default_levels.
  - done.
  - done.
  - exists [bs "s"; bs ".lock"], NDir. split; vm_compute; reflexivity.
  - lia.
  - lia.
  - done.
  - intros j Hj. lia.
  - rewrite Z.add_0_r. destruct (decide (id = 0)) as [->|Hne].
    + exists (nodes write_fs). repeat (split; [vm_compute; reflexivity || done|]). left.
      exists (replicate 1024 x00). repeat (split; [vm_compute; reflexivity|]). reflexivity.
    + exists (<[write_bundle id := NFile (preamble (take 99 []))]> (nodes write_fs)).
      assert (id ∈ [1; 2; 3; 4; 5; 6; 7; 8; 9]) as Hin by (rewrite !elem_of_cons; lia).
      clear Hid Hne. revert id Hin. apply Forall_forall.
      repeat apply Forall_cons_2; try apply Forall_nil_2;
        (split; [vm_compute; reflexivity|split; [vm_compute; reflexivity|split; [vm_compute; reflexivity|]]]);
        (split; [discriminate|]); right; (split; [vm_compute; reflexivity|split; [reflexivity|]]);
        (split; [exists write_dir, NDir; split; vm_compute; reflexivity|by eexists]).
  - assert (id ∈ [0; 1; 2; 3; 4; 5; 6; 7; 8; 9]) as Hin by (rewrite !elem_of_cons; lia).
    clear Hid. revert id Hin. apply Forall_forall. repeat apply Forall_cons_2; try apply Forall_nil_2; vm_compute; reflexivity.
  - assert (id ∈ [0; 1; 2; 3; 4; 5; 6; 7; 8; 9]) as Hin by (rewrite !elem_of_cons; lia).
    clear Hid. revert id Hin. apply Forall_forall. repeat apply Forall_cons_2; try apply Forall_nil_2; vm_compute; congruence.
  - lia.
  - vm_compute. reflexivity.
Qed.

Lemma main_stores_witness :
  (length (bs "JFIF--data") < 1024 * (2 - 1))%nat /\
  exists id user_data,
    let info := mkInfo (id + 0) [] 1024 10 [] (bs "b/20120512") (bs ".jpg") in
    0 <= id < 10 /\
    fst (fst (runP (C := benign) (url ← main g_default_setting 1 2 write_day (Some (bs "/s")) (mkInput (bs "JFIF--data") false false);
                    x ← Read_url g_default_setting url (bs "/s") None; mret (url, x)) (Proc 0 (-1)) (MkLocal write_fs []))) =
      inr (BuildWithEncode info, (0, Some (bs "JFIF--data", user_data))).
Proof.
  split; [cbn; lia|].
  exact (main_stores (H := calm_local) g_default_setting (fun _ => 0%nat) 1 2 write_day (bs "/s") (bs "JFIF--data")
    (fun _ => 1024) write_lock write_bundle (Proc 0 (-1)) (MkLocal write_fs []) eq_refl
    (fun id Hid => conj (Nat.lt_0_succ 0) (write_storable id Hid)) ltac:(cbn; lia)).
Defined.

(** On a disk that takes three bytes of the record the url is printed all the same,
    and reading it fails with EIO. *)
Example url_without_record :
  match fst (fst (runP (C := any_choice) (url ← main g_default_setting 1 2 write_day (Some (bs "/s")) (mkInput (bs "JFIF--data") false false);
      x ← Read_url g_default_setting url (bs "/s") None; mret (url, x.1))
      (Proc 0 (-1)) (MkLocal write_fs (replicate 8 (Choice None (Some 3%nat) 0 []))))) with
  | inr (url, ret) => Some (url, ret)
  | inl _ => None
  end = Some (bs "b/20120512/A_SE_L_EOWDv2.jpg", EIO).
Proof. vm_compute. reflexivity. Qed.
