(* ===== verification/Spawn.v ===== *)
(** * Minding processes: the master (src/cwf/cwfmain.cc)

    The master process forks children that serve requests, replaces those that
    end, and passes signals on.  It is modelled as a machine: a step is one
    stretch of [MasterCycle] between the points where a signal matters, a signal
    that is delivered, or something that happens to a child.  Which comes next
    is anybody's choice.  A handler runs whole: a second one inside it would read
    [children_] too, and only the order of the calls of [kill] depends on that.
    A handler that reads [children_] while [push_back] changes it is undefined;
    what the handlers write to the log is left out. *)

From S2P Require Import Prelude.

Definition SIGINT : Z := 2.
Definition SIGUSR1 : Z := 10.

(** ** The master *)

(** Where [MasterCycle] is: before [pause], in it, behind it, in [Fork] for a
    child, before [push_back], inside it, before [fork_count_ = 0], at the test
    of [quit_], after the loop; or behind undefined behaviour, where nothing is
    known any more. *)
Inductive place :=
| BeforePause | Paused | Woken | InFork (child : Z) | Push (child : Z) | Pushing (child : Z) | Clear
| TestQuit | Done | Undefined.

(** Where the vector cannot be read. *)
Definition torn (l : place) : bool := match l with Pushing _ | Undefined => true | _ => false end.

#[export] Instance place_eq_dec : EqDecision place.
Proof. solve_decision. Defined.

(** [alive], [zombies]: the children that run, and those that ended and were not
    waited for; [chld]: a SIGCHLD waits to be delivered; [sent]: the calls of
    [kill]. *)
Record master := mkMaster {
  children_ : list Z; fork_count_ : bool; quit_ : bool; at_ : place;
  alive : list Z; zombies : list Z; chld : bool; sent : list (Z * Z) }.

Definition set_place (l : place) (m : master) : master :=
  mkMaster (children_ m) (fork_count_ m) (quit_ m) l (alive m) (zombies m) (chld m) (sent m).

(** A handler that runs while the master is in [pause] ends it. *)
Definition wake (m : master) : master := match at_ m with Paused => set_place Woken m | _ => m end.

Definition KillChildren (sig : Z) (m : master) : master :=
  if torn (at_ m) then set_place Undefined m else
  mkMaster (children_ m) (fork_count_ m) (quit_ m) (at_ m) (alive m) (zombies m) (chld m)
    (sent m ++ map (fun pid => (pid, sig)) (children_ m)).

Definition SignalTerminate (m : master) : master :=
  KillChildren SIGINT (mkMaster (children_ m) (fork_count_ m) true (at_ m) (alive m) (zombies m) (chld m) (sent m)).

Definition SignalReopen (m : master) : master := KillChildren SIGUSR1 m.

(** The loop waits for every child that ended. *)
Definition SignalChildren (m : master) : master :=
  mkMaster (children_ m) true (quit_ m) (at_ m) (alive m) [] (chld m) (sent m).

(** [fork()] answers a pid that is not in use, or -1. *)
Definition fork (answer : Z) (m : master) : option master :=
  if answer =? -1 then Some (set_place (Push (-1)) m)
  else if (answer <=? 0) || bool_decide (answer ∈ alive m ++ zombies m) then None
  else Some (mkMaster (children_ m) (fork_count_ m) (quit_ m) (InFork answer) (alive m ++ [answer]) (zombies m) (chld m) (sent m)).

Definition without (pid : Z) (l : list Z) : list Z := filter (fun x => x <> pid) l.

(** The next stretch of [MasterCycle]; [answer] is what [fork] gives, if it is called. *)
Definition cycle (answer : Z) (m : master) : option master :=
  match at_ m with
  | BeforePause => Some (set_place Paused m)
  | Paused => None
  | Woken => if fork_count_ m then fork answer m else Some (set_place TestQuit m)
  | InFork child =>
      (* [waitpid(child, &status, WNOHANG)] *)
      Some (mkMaster (children_ m) (fork_count_ m) (quit_ m) (Push child) (alive m) (without child (zombies m)) (chld m) (sent m))
  | Push child => Some (set_place (Pushing child) m)
  | Pushing child =>
      Some (mkMaster (children_ m ++ [child]) (fork_count_ m) (quit_ m) Clear (alive m) (zombies m) (chld m) (sent m))
  | Clear => Some (mkMaster (children_ m) false (quit_ m) TestQuit (alive m) (zombies m) (chld m) (sent m))
  | TestQuit => Some (set_place (if quit_ m then Done else BeforePause) m)
  | Done | Undefined => None
  end.

Inductive event :=
| Cycle (answer : Z)   (* the master goes on *)
| Ends (pid : Z)       (* a child ends *)
| Stops (pid : Z)      (* a child is stopped or goes on, which also raises SIGCHLD *)
| Deliver              (* SIGCHLD is delivered *)
| Terminate            (* SIGINT or SIGTERM *)
| Reopen.              (* SIGUSR1 *)

Definition happen (e : event) (m : master) : option master :=
  if bool_decide (at_ m = Undefined) then None else
  match e with
  | Cycle answer => cycle answer m
  | Ends pid =>
      if bool_decide (pid ∈ alive m)
      then Some (mkMaster (children_ m) (fork_count_ m) (quit_ m) (at_ m) (without pid (alive m)) (pid :: zombies m) true (sent m))
      else None
  | Stops pid =>
      if bool_decide (pid ∈ alive m)
      then Some (mkMaster (children_ m) (fork_count_ m) (quit_ m) (at_ m) (alive m) (zombies m) true (sent m))
      else None
  | Deliver =>
      if chld m
      then Some (wake (SignalChildren (mkMaster (children_ m) (fork_count_ m) (quit_ m) (at_ m) (alive m) (zombies m) false (sent m))))
      else None
  | Terminate => Some (wake (SignalTerminate m))
  | Reopen => Some (wake (SignalReopen m))
  end.

Fixpoint happens (l : list event) (m : master) : option master :=
  match l with [] => Some m | e :: l => m ← happen e m; happens l m end.

(** The start of [MasterCycle]: [main] has forked the children and noted what
    [Fork] gave; some may have ended before there was a handler. *)
Definition start (pids live ended : list Z) : master :=
  mkMaster pids false false BeforePause live ended false [].

(** ** What holds in every run *)

Definition in_fork (l : place) (pid : Z) : Prop := l = InFork pid \/ l = Push pid \/ l = Pushing pid.

(** A fork is on its way that the flag asked for. *)
Definition wanted (m : master) : nat :=
  match at_ m with InFork _ | Push _ | Pushing _ | Clear | Undefined => 0 | _ => if fork_count_ m then 1 else 0 end.

Fixpoint stops (l : list event) : nat :=
  match l with [] => 0 | Stops _ :: l => S (stops l) | _ :: l => stops l end.

Definition fork_fails (e : event) : bool := match e with Cycle a => a =? -1 | _ => false end.

Record master_ok (n : nat) (m : master) : Prop := {
  mo_nodup : NoDup (alive m);
  mo_known : at_ m <> Undefined -> forall pid, pid ∈ alive m -> pid ∈ children_ m \/ in_fork (at_ m) pid;
  mo_count : (length (alive m) + (if chld m then 1 else 0) + wanted m <= n)%nat }.

Definition pids_positive (m : master) : Prop :=
  Forall (fun p => 0 < p) (children_ m) /\ (forall p, in_fork (at_ m) p -> 0 < p) /\ Forall (fun s => 0 < s.1) (sent m).

Lemma without_shorter pid l : pid ∈ l -> (S (length (without pid l)) <= length l)%nat.
Proof.
  unfold without. induction l as [|x l IH]; [by intros ?%elem_of_nil|]. intros H. cbn [length].
  destruct (decide (x <> pid)) as [N|N]; [rewrite filter_cons_True by done|rewrite filter_cons_False by done].
  - apply elem_of_cons in H as [->|H]; [done|]. specialize (IH H). cbn. lia.
  - pose proof (length_filter (fun x => x <> pid) l). lia.
Qed.

Lemma elem_of_without pid x l : x ∈ without pid l -> x ∈ l.
Proof. unfold without. rewrite list_elem_of_filter. tauto. Qed.

Lemma NoDup_without pid l : NoDup l -> NoDup (without pid l).
Proof. apply NoDup_filter. Qed.

Lemma wake_same m : alive (wake m) = alive m /\ children_ (wake m) = children_ m /\ chld (wake m) = chld m /\
  sent (wake m) = sent m /\ wanted (wake m) = wanted m /\ (forall p, in_fork (at_ (wake m)) p <-> in_fork (at_ m) p).
Proof.
  unfold wake, wanted, in_fork. destruct (at_ m) eqn:E; rewrite ?E; cbn; rewrite ?E; repeat split; try done; intros [?|[?|?]]; congruence.
Qed.

Lemma wake_ok n m : master_ok n m -> master_ok n (wake m).
Proof.
  destruct (wake_same m) as (A & B & C & _ & D & E). intros [H1 H2 H3]. split; rewrite ?A, ?B, ?C, ?D; try done.
  intros U pid Hp. rewrite E. apply H2; [|done]. intros L. apply U. unfold wake. by rewrite L.
Qed.

(** The children stay known where no fork is on its way. *)
Lemma known_still m l : ~ (exists p, in_fork (at_ m) p) ->
  (forall pid, pid ∈ alive m -> pid ∈ children_ m \/ in_fork (at_ m) pid) ->
  forall pid, pid ∈ alive m -> pid ∈ children_ m \/ in_fork l pid.
Proof. intros N H pid Hp. destruct (H pid Hp) as [|Q]; [by left|]. destruct N. by exists pid. Qed.

Ltac no_fork L := rewrite L; intros (? & [?|[?|?]]); congruence.

Lemma fork_ok n a m m' : at_ m = Woken -> fork_count_ m = true -> master_ok n m -> fork a m = Some m' -> master_ok n m'.
Proof.
  intros L Fk [H1 H2 H3] E. specialize (H2 ltac:(by rewrite L)). unfold fork in E. assert (K := known_still m (Push a) ltac:(no_fork L) H2).
  unfold wanted in H3. rewrite L, Fk in H3. destruct (Z.eqb_spec a (-1)) as [->|N]; [injection E as <-|].
  - split; cbn; [done|by intros _|unfold wanted; cbn; lia].
  - destruct (a <=? 0); [done|]. cbn [orb] in E. case_bool_decide as F; [done|]. injection E as <-.
    rewrite not_elem_of_app in F. destruct F as [F _]. split; cbn; [| |unfold wanted; cbn; rewrite length_app; cbn; lia].
    + apply NoDup_app. split; [done|]. split; [|apply NoDup_singleton]. by intros x Hx ->%list_elem_of_singleton.
    + intros _ pid [Hp| ->%list_elem_of_singleton]%elem_of_app; [|by right; left].
      by apply (known_still m (InFork a) ltac:(no_fork L) H2).
Qed.

Lemma cycle_ok n a m m' : master_ok n m -> cycle a m = Some m' -> master_ok n m'.
Proof.
  intros O E. unfold cycle in E. destruct (at_ m) eqn:L; try done.
  2: destruct (fork_count_ m) eqn:Fk; [by apply (fork_ok n a m m')|].
  all: injection E as <-; destruct O as [H1 H2 H3]; unfold wanted in H3; specialize (H2 ltac:(by rewrite L));
    rewrite L in H3;
    (split; cbn; [done|intros _|unfold wanted; cbn; try rewrite Fk in *; try destruct (quit_ m); lia]).
  1, 2, 6, 7: apply (known_still m); [no_fork L|done].
  all: intros pid Hp; rewrite L in H2; destruct (H2 pid Hp) as [Hc|[Q|[Q|Q]]]; try congruence.
  1, 3: by left.
  - right; right; left. congruence.
  - right; right; right. congruence.
  - left. apply elem_of_app. by left.
  - left. apply elem_of_app. right. apply list_elem_of_singleton. congruence.
Qed.

Lemma KillChildren_ok n sig m : master_ok n m -> master_ok n (KillChildren sig m).
Proof.
  intros [H1 H2 H3]. unfold KillChildren. destruct (torn (at_ m)) eqn:T; [|by split].
  split; cbn; [done|done|]. unfold wanted. cbn. lia.
Qed.

Lemma happen_ok n e m m' : master_ok n m -> happen e m = Some m' -> master_ok (n + stops [e]) m'.
Proof.
  intros O E. unfold happen in E. case_bool_decide as U; [done|].
  destruct e as [a|pid|pid| | |]; cbn [stops] in *; rewrite ?Nat.add_0_r.
  - by eapply cycle_ok.
  - case_bool_decide as B; [|done]. injection E as <-. destruct O as [H1 H2 H3].
    pose proof (without_shorter pid (alive m) B). split; cbn; [by apply NoDup_without| |].
    + intros _ p Hp%elem_of_without. by apply H2.
    + unfold wanted in *. cbn. destruct (chld m); lia.
  - case_bool_decide as B; [|done]. injection E as <-. destruct O as [H1 H2 H3]. split; cbn; try done.
    unfold wanted in *. cbn. destruct (chld m); lia.
  - destruct (chld m) eqn:C; [|done]. injection E as <-. apply wake_ok. destruct O as [H1 H2 H3]. rewrite C in H3.
    split; cbn; try done. unfold wanted in *. cbn. destruct (at_ m), (fork_count_ m); lia.
  - injection E as <-. apply wake_ok, KillChildren_ok. destruct O. by split.
  - injection E as <-. by apply wake_ok, KillChildren_ok.
Qed.

Lemma happens_ok n l m m' : master_ok n m -> happens l m = Some m' -> master_ok (n + stops l) m'.
Proof.
  revert n m. induction l as [|e l IH]; intros n m O E; cbn in E; [injection E as <-; by rewrite Nat.add_0_r|].
  destruct (happen e m) as [m1|] eqn:E1; [|done]. cbn in E. apply happen_ok with (n := n) in E1; [|done].
  apply (IH _ _ E1) in E. destruct e; cbn [stops] in *; rewrite ?Nat.add_0_r in *; try done.
  by replace (n + S (stops l))%nat with (n + 1 + stops l)%nat by lia.
Qed.

Lemma start_ok pids live ended : NoDup live -> live ⊆ pids -> master_ok (length live) (start pids live ended).
Proof. intros N S. split; cbn; [done| |lia]. intros _ pid Hp. left. by apply S. Qed.

Lemma wake_positive m : pids_positive m -> pids_positive (wake m).
Proof.
  destruct (wake_same m) as (_ & B & _ & D & _ & E). intros (P1 & P2 & P3). unfold pids_positive. rewrite B, D.
  split; [done|]. split; [|done]. intros p Hp%E. by apply P2.
Qed.

Lemma KillChildren_positive sig m : pids_positive m -> pids_positive (KillChildren sig m).
Proof.
  intros (P1 & P2 & P3). unfold KillChildren. destruct (torn _).
  - split; [done|]. split; [|done]. by intros p [|[|]].
  - split; [done|]. split; [done|]. cbn. apply Forall_app. split; [done|].
    apply Forall_map. by apply (Forall_impl _ _ _ P1).
Qed.

Lemma cycle_positive a m m' : (a =? -1) = false -> pids_positive m -> cycle a m = Some m' -> pids_positive m'.
Proof.
  unfold pids_positive. intros N (P1 & P2 & P3) E. unfold cycle in E. destruct (at_ m) eqn:L; try done.
  2: destruct (fork_count_ m); [unfold fork in E; rewrite N in E; destruct (Z.leb_spec a 0) as [|Pos]; [done|];
     cbn [orb] in E; case_bool_decide; [done|]|].
  all: injection E as <-; cbn; try (split; [done|]; split; [|done]; intros p [Q|[Q|Q]]; destruct (quit_ m); congruence).
  - split; [done|]. split; [|done]. intros p [Q|[[= <-]|Q]]; [congruence| |congruence]. apply P2. by left.
  - split; [done|]. split; [|done]. intros p [Q|[Q|[= <-]]]; [congruence..|]. apply P2. right. by left.
  - split; [|by split; [intros p [Q|[Q|Q]]|]]. apply Forall_app. split; [done|]. constructor; [|done]. apply P2. by right; right.
Qed.

Lemma happen_positive e m m' : fork_fails e = false -> pids_positive m -> happen e m = Some m' -> pids_positive m'.
Proof.
  intros F P E. unfold happen in E. case_bool_decide; [done|]. destruct e as [a|pid|pid| | |]; cbn in F.
  - by apply (cycle_positive a m m').
  - case_bool_decide; [|done]. by injection E as <-.
  - case_bool_decide; [|done]. by injection E as <-.
  - destruct (chld m); [|done]. injection E as <-. by apply wake_positive.
  - injection E as <-. apply wake_positive, KillChildren_positive, P.
  - injection E as <-. apply wake_positive, KillChildren_positive, P.
Qed.

Lemma happens_positive l m m' : existsb fork_fails l = false -> pids_positive m -> happens l m = Some m' -> pids_positive m'.
Proof.
  revert m. induction l as [|e l IH]; intros m F P E; cbn in E; [by injection E as <-|].
  destruct (happen e m) as [m1|] eqn:E1; [|done]. cbn in F. apply orb_false_iff in F as [F1 F2].
  apply (IH m1); [done| |done]. by apply (happen_positive e m m1).
Qed.

(** C37: However signals, ends of children and answers of fork interleave, as long
    as no handler that reads [children_] comes inside [push_back] (which is
    undefined behaviour: [torn_vector]), the master of [MasterCycle] runs at most
    as many children as it started with and one more for each time a child was
    stopped or continued, which its SIGCHLD handler takes for an end
    ([stop_adds]); each running child is in [children_], so that SIGTERM's
    handler signals it, except the one a fork on its way has just made; and as
    long as no fork fails, [kill] is called for single processes only. *)
Theorem MasterCycle_children pids live ended l m :
  NoDup live -> live ⊆ pids -> happens l (start pids live ended) = Some m ->
  (length (alive m) <= length live + stops l)%nat /\
  (forall pid, pid ∈ alive m -> torn (at_ m) = false -> ~ in_fork (at_ m) pid ->
    exists m', happen Terminate m = Some m' /\ quit_ m' = true /\ (pid, SIGINT) ∈ sent m') /\
  (Forall (fun p => 0 < p) pids -> existsb fork_fails l = false -> Forall (fun s => 0 < s.1) (sent m)).
Proof.
  intros N S E. pose proof (happens_ok _ _ _ _ (start_ok pids live ended N S) E) as [_ K C]. split; [lia|]. split.
  - intros pid Hp T F. assert (U : at_ m <> Undefined) by by intros U; rewrite U in T.
    destruct (K U pid Hp) as [Hc|]; [|done]. eexists. split; [unfold happen; by rewrite bool_decide_false|].
    assert (W : forall q, quit_ (wake q) = quit_ q /\ sent (wake q) = sent q)
      by (intros q; unfold wake; by destruct (at_ q)).
    destruct (W (SignalTerminate m)) as [-> ->]. unfold SignalTerminate, KillChildren. cbn. rewrite T. split; [done|].
    cbn. apply elem_of_app. right. by apply (list_elem_of_fmap_2 (fun p => (p, SIGINT))).
  - intros P F. apply (happens_positive _ _ _ F) in E; [apply E|]. split; [done|]. by split; [intros p [|[|]]|constructor].
Qed.

Lemma MasterCycle_children_witness :
  happens [Cycle 0; Ends 5; Deliver; Cycle 7; Stops 6; Cycle 0; Cycle 0; Cycle 0] (start [5; 6] [5; 6] []) =
    Some (mkMaster [5; 6; 7] true false Clear [6; 7] [] true []) /\ (2 <= 2 + 1)%nat.
Proof.
  split; [vm_compute; reflexivity|].
  apply (MasterCycle_children [5; 6] [5; 6] [] [Cycle 0; Ends 5; Deliver; Cycle 7; Stops 6; Cycle 0; Cycle 0; Cycle 0]
    (mkMaster [5; 6; 7] true false Clear [6; 7] [] true [])); [by apply (bool_decide_unpack _)|done|vm_compute; reflexivity].
Defined.

(** ** How a run ends *)

Definition rank (l : place) : nat :=
  match l with
  | BeforePause | Paused | Woken => 6 | InFork _ => 5 | Push _ => 4 | Pushing _ => 3 | Clear => 2 | TestQuit => 1
  | Done | Undefined => 0
  end.

Definition asleep (l : place) : bool := match l with BeforePause | Paused => true | _ => false end.

Fixpoint cycles (l : list event) : nat :=
  match l with [] => 0 | Cycle _ :: l => S (cycles l) | _ :: l => cycles l end.

(** A master that is to quit and is not asleep goes on to the end, whatever is
    delivered meanwhile. *)
Lemma happen_rank e m m' : quit_ m = true -> asleep (at_ m) = false -> happen e m = Some m' ->
  quit_ m' = true /\ asleep (at_ m') = false /\ (cycles [e] + rank (at_ m') <= rank (at_ m))%nat.
Proof.
  intros Q A E. unfold happen in E. case_bool_decide; [done|]. destruct e as [a|pid|pid| | |]; cbn [cycles].
  - unfold cycle, fork in E. rewrite Q in E. destruct (at_ m); try done.
    2-6: injection E as <-; cbn; repeat split; (done || lia).
    destruct (fork_count_ m); [|injection E as <-; cbn; repeat split; (done || lia)].
    destruct (a =? -1); [injection E as <-; cbn; repeat split; (done || lia)|].
    destruct (_ || _); [done|]. injection E as <-; cbn; repeat split; (done || lia).
  - case_bool_decide; [|done]. by injection E as <-.
  - case_bool_decide; [|done]. by injection E as <-.
  - destruct (chld m); [|done]. injection E as <-. unfold wake. cbn. destruct (at_ m) eqn:L; cbn; rewrite ?L; done.
  - injection E as <-. unfold wake, SignalTerminate, KillChildren. cbn.
    destruct (at_ m) eqn:L; cbn; rewrite ?L; cbn; repeat split; (done || lia).
  - injection E as <-. unfold wake, SignalReopen, KillChildren.
    destruct (at_ m) eqn:L; cbn; rewrite ?L; cbn; repeat split; (done || lia).
Qed.

Lemma happens_rank l m m' : quit_ m = true -> asleep (at_ m) = false -> happens l m = Some m' ->
  quit_ m' = true /\ asleep (at_ m') = false /\ (cycles l + rank (at_ m') <= rank (at_ m))%nat.
Proof.
  revert m. induction l as [|e l IH]; intros m Q A E; cbn in E; [by injection E as <-|].
  destruct (happen e m) as [m1|] eqn:E1; [|done]. destruct (happen_rank _ _ _ Q A E1) as (Q1 & A1 & R1).
  destruct (IH m1 Q1 A1 E) as (Q2 & A2 & R2). repeat split; [done|done|]. destruct e; cbn in *; lia.
Qed.

(** When SIGINT or SIGTERM comes and the master is not just before [pause],
    it leaves the loop of [MasterCycle]: whatever signals, ends of children and
    failures of fork come then, it takes at most six more steps, none
    of them waits, and only the end of the loop stops them, or a handler that
    came inside [push_back]. *)
Theorem MasterCycle_quits m m1 l m2 :
  at_ m <> BeforePause -> happen Terminate m = Some m1 -> happens l m1 = Some m2 ->
  (cycles l <= 6)%nat /\
  (at_ m2 = Done \/ at_ m2 = Undefined \/ exists answer m3, happen (Cycle answer) m2 = Some m3).
Proof.
  intros B H E. unfold happen in H. case_bool_decide; [done|]. injection H as <-.
  assert (A : asleep (at_ (wake (SignalTerminate m))) = false)
    by (unfold wake, SignalTerminate, KillChildren; cbn; destruct (at_ m) eqn:L; cbn; rewrite ?L; done).
  assert (Q : quit_ (wake (SignalTerminate m)) = true)
    by (unfold wake, SignalTerminate, KillChildren; cbn; destruct (at_ m) eqn:L; cbn; rewrite ?L; done).
  destruct (happens_rank _ _ _ Q A E) as (_ & A2 & R). split.
  - revert R. unfold rank at 2. destruct (at_ (wake _)); lia.
  - destruct (decide (at_ m2 = Undefined)) as [|U]; [by right; left|]. unfold happen.
    rewrite bool_decide_false by done.
    destruct (at_ m2) eqn:L; try done; [| | | | | |by left]; right; right; exists (-1); cbn; unfold cycle; rewrite L; eauto.
    destruct (fork_count_ m2); cbn; eauto.
Qed.

Lemma MasterCycle_quits_witness :
  exists m2, happens [Ends 5; Deliver; Cycle 7; Cycle 0; Cycle 0; Cycle 0; Cycle 0; Cycle 0]
    (mkMaster [5] false true Woken [5] [] false [(5, 2)]) = Some m2 /\ (6 <= 6)%nat /\ at_ m2 = Done.
Proof.
  eexists. split; [vm_compute; reflexivity|]. split; [|reflexivity].
  apply (MasterCycle_quits (mkMaster [5] false false Paused [5] [] false [])
    (mkMaster [5] false true Woken [5] [] false [(5, 2)]) [Ends 5; Deliver; Cycle 7; Cycle 0; Cycle 0; Cycle 0; Cycle 0; Cycle 0]
    (mkMaster [5; 7] false true Done [7] [] false [(5, 2)])); [done|reflexivity|vm_compute; reflexivity].
Defined.

(** ** What goes wrong *)

Definition seen (l : list event) (m : master) : option (place * list Z * list (Z * Z)) :=
  m ← happens l m; Some (at_ m, alive m, sent m).

(** A fork that fails leaves -1 among the children: SIGTERM then interrupts every
    process the master may signal. *)
Example kill_everybody :
  seen [Cycle 0; Ends 5; Deliver; Cycle (-1); Cycle 0; Cycle 0; Cycle 0; Cycle 0; Terminate] (start [5] [5] []) =
  Some (BeforePause, [], [(5, SIGINT); (-1, SIGINT)]).
Proof. reflexivity. Qed.

(** Children that ended stay in [children_] and are signalled, whoever has their
    number now. *)
Example dead_child_signalled :
  seen [Cycle 0; Ends 5; Deliver; Cycle 7; Cycle 0; Cycle 0; Cycle 0; Cycle 0; Cycle 0; Cycle 0; Terminate] (start [5] [5] []) =
  Some (Woken, [7], [(5, SIGINT); (7, SIGINT)]).
Proof. reflexivity. Qed.

(** SIGTERM comes while [push_back] moves the vector its handler goes through. *)
Example torn_vector :
  seen [Cycle 0; Ends 5; Deliver; Cycle 7; Cycle 0; Cycle 0; Terminate] (start [5] [5] []) = Some (Undefined, [7], []).
Proof. reflexivity. Qed.

(** Two children end, one is replaced. *)
Example one_replacement :
  seen [Cycle 0; Ends 5; Ends 6; Deliver; Cycle 7; Cycle 0; Cycle 0; Cycle 0; Cycle 0; Cycle 0; Cycle 0] (start [5; 6] [5; 6] []) =
  Some (Paused, [7], []).
Proof. reflexivity. Qed.

(** So it is when the second ends while the first is replaced: the flag is
    cleared after the fork. *)
Example flag_lost :
  seen [Cycle 0; Ends 5; Deliver; Cycle 7; Ends 6; Deliver; Cycle 0; Cycle 0; Cycle 0; Cycle 0; Cycle 0; Cycle 0] (start [5; 6] [5; 6] []) =
  Some (Paused, [7], []).
Proof. reflexivity. Qed.

(** Stopping a child adds one. *)
Example stop_adds :
  seen [Cycle 0; Stops 5; Deliver; Cycle 7; Cycle 0; Cycle 0; Cycle 0; Cycle 0; Cycle 0] (start [5] [5] []) =
  Some (BeforePause, [5; 7], []).
Proof. reflexivity. Qed.

(** SIGTERM between the test of [quit_] and [pause] does not end the master: it
    sleeps till something else happens. *)
Example terminate_slept_through :
  seen [Terminate; Cycle 0] (start [5] [5] []) = Some (Paused, [5], [(5, SIGINT)]) /\
  happens [Terminate; Cycle 0; Cycle 0] (start [5] [5] []) = None.
Proof. by split. Qed.

(** A child that is forked after SIGTERM's handler ran outlives the master. *)
Example orphan :
  seen [Cycle 0; Terminate; Ends 5; Deliver; Cycle 7; Cycle 0; Cycle 0; Cycle 0; Cycle 0; Cycle 0] (start [5] [5] []) =
  Some (Done, [7], [(5, SIGINT)]).
Proof. reflexivity. Qed.
