(* ===== verification/Start.v ===== *)
(** * Starting (src/cwf/cwfmain.cc, src/cwf/connect.cc)

    [main] of the web framework's server: its options, the socket the children
    share ([bind_socket]), going to the background ([Daemon]) and the forks.
    They are programs over the system's calls: a program is given the calls made
    so far with their answers, and returns its own; what a call answers is up to
    a function of the calls before it.  A failing call answers a negative
    number, which stands for -1 with its [errno]. *)

From S2P Require Import Prelude CString Spawn.

Definition AF_UNIX : Z := 1.
Definition AF_INET : Z := 2.
Definition ENOENT : Z := 2.
Definition FCGI_LISTENSOCK_FILENO : Z := 0.
Definition UNIX_PATH_LEN : Z := 108.
Definition sizeof_sockaddr_in : Z := 16.

(** [sockaddr_un] and [sockaddr_in] (in host order), with the length passed. *)
Inductive address := Un (sun_path : bytes) (servlen : Z) | In (s_addr port servlen : Z).

Inductive call :=
| Socket (domain : Z) | Connect (fd : Z) (a : address) | Unlink (path : bytes) | Close (fd : Z)
| SetReuse (fd : Z) | Bind (fd : Z) (a : address) | Listen (fd backlog : Z)
| Chown (path : bytes) (uid gid : Z) | Chmod (path : bytes) (mode : Z)
| Chdir (path : bytes) | Setsid | Umask (mask : Z) | OpenRdwr (path : bytes) | Dup2 (from to : Z)
| ForkCall | Waitpid (pid : Z) | Signal (sig : Z) | WritePid (path : bytes)
| FastcgiMain (thread_count fd : Z).

Definition trace : Type := list (call * Z).

(** The ways a program stops: [exit] or a return from [main]; undefined behaviour;
    the bound on a loop reached. *)
Inductive stop := Exit (rc : Z) | Undef | Fuel.

Definition io (A : Type) : Type := trace -> (stop + A) * trace.

#[export] Instance io_ret : MRet io := fun A a t => (inr a, t).
#[export] Instance io_bind : MBind io := fun A B k m t =>
  match m t with (inr a, t) => k a t | (inl e, t) => (inl e, t) end.

Definition halt {A} (e : stop) : io A := fun t => (inl e, t).
Definition failed (r : Z) : bool := r <? 0.

(** ** Options *)

(** [strtol]: blanks, sign, a prefix if [base] allows it, digits; the value,
    saturated, and where it stopped, which is the start if there was no digit. *)
Definition digit_value (c : Init.Byte.byte) : Z :=
  let v := bval c in
  if (48 <=? v) && (v <=? 57) then v - 48
  else if (97 <=? v) && (v <=? 122) then v - 87
  else if (65 <=? v) && (v <=? 90) then v - 55 else 36.

Fixpoint digits (base : Z) (s : bytes) (acc : Z) : Z * bytes :=
  match s with
  | c :: r => if digit_value c <? base then digits base r (acc * base + digit_value c) else (acc, s)
  | [] => (acc, s)
  end.

Definition is_x (c : Init.Byte.byte) : bool := (bval c =? 120) || (bval c =? 88).

Definition radix (base : Z) (s : bytes) : Z * bytes :=
  match s with
  | z :: x :: d :: r =>
      if ((base =? 0) || (base =? 16)) && (bval z =? 48) && is_x x && (digit_value d <? 16) then (16, d :: r)
      else if base =? 0 then (if bval z =? 48 then 8 else 10, s) else (base, s)
  | z :: _ => if base =? 0 then (if bval z =? 48 then 8 else 10, s) else (base, s)
  | [] => (if base =? 0 then 10 else base, s)
  end.

Definition strtol (base : Z) (str : bytes) : Z * bytes :=
  let s := skip_space str in
  let '(neg, s) := match s with
    | c :: t => if Byte.eqb c "-" then (true, t) else if Byte.eqb c "+" then (false, t) else (false, s)
    | [] => (false, s)
    end in
  let '(b, s) := radix base s in
  let '(v, r) := digits b s 0 in
  if (length r =? length s)%nat then (0, str)
  else (clamp (- 2 ^ 63) (2 ^ 63 - 1) (if neg : bool then - v else v), r).

Record options := mkOptions {
  port : Z; addr : bytes; unixsocket : option bytes; sockmode : Z; fcgi_dir : option bytes; log_filename : option bytes;
  pid_file : option bytes; thread_count : Z; nofork : bool; fork_count : Z }.

Definition defaults : options := mkOptions 3000 (bs "0.0.0.0") None 0 None None None 0 false 0.

(** One round of the loop over [getopt]: the option and its argument. *)
Definition option_case (o : Init.Byte.byte) (optarg : bytes) (p : options) : Z + options :=
  let '(mkOptions po ad un so di lo pi th no fo) := p in
  match o with
  | "d" => inr (mkOptions po ad un so (Some optarg) lo pi th no fo)
  | "l" => inr (mkOptions po ad un so di (Some optarg) pi th no fo)
  | "a" => inr (mkOptions po optarg un so di lo pi th no fo)
  | "p" => let '(v, rest) := strtol 10 optarg in
           if bool_decide (rest = []) then inr (mkOptions (i32 v) ad un so di lo pi th no fo) else inl (-1)
  | "t" => inr (mkOptions po ad un so di lo pi (i32 (strtol 10 optarg).1) no fo)
  | "F" => inr (mkOptions po ad un so di lo pi th no (i32 (strtol 10 optarg).1))
  | "s" => inr (mkOptions po ad (Some optarg) so di lo pi th no fo)
  | "M" => inr (mkOptions po ad un (i32 (strtol 0 optarg).1) di lo pi th no fo)
  | "n" => inr (mkOptions po ad un so di lo pi th true fo)
  | "P" => inr (mkOptions po ad un so di lo (Some optarg) th no fo)
  | _ => inl 0
  end%byte.

Fixpoint parse (l : list (Init.Byte.byte * bytes)) (p : options) : Z + options :=
  match l with
  | [] => inr p
  | (o, optarg) :: l => match option_case o optarg p with inr p => parse l p | inl rc => inl rc end
  end.

(** ** The programs *)

Section System.
(** What a call answers, and the library's [inet_addr] in host order. *)
Variable answer : trace -> call -> Z.
Variable inet_addr : bytes -> Z.

Definition sys (c : call) : io Z := fun t => (inr (answer t c), t ++ [(c, answer t c)]).

(** The part of [bind_socket] for a path: [strcpy] into [sun_path], is somebody
    there, remove what was there. *)
Definition unix_address (path : bytes) : io (option address) :=
  if UNIX_PATH_LEN <=? size path then halt Undef else
  let a := Un path (2 + size path) in
  fd ← sys (Socket AF_UNIX);
  if failed fd then mret None else
  r ← sys (Connect fd a);
  if r =? 0 then (_ ← sys (Close fd); mret None) else
  r ← sys (Unlink path);
  if failed r && negb (r =? - ENOENT) then mret None else
  _ ← sys (Close fd);
  mret (Some a).

Definition inet_address (addr : option bytes) (port : Z) : option address :=
  match addr with
  | None => Some (In 0 port sizeof_sockaddr_in)
  | Some s => if inet_addr s =? 2 ^ 32 - 1 then None else Some (In (inet_addr s) port sizeof_sockaddr_in)
  end.

(** [uid] and [gid] 0 become -1, which [chown] leaves alone. *)
Definition owner (id : Z) : Z := if id =? 0 then 2 ^ 32 - 1 else id.

Definition own_socket (fd : Z) (path : bytes) (uid gid mode : Z) : io bool :=
  if (uid =? 0) && (gid =? 0) then mret true else
  r ← sys (Chown path (owner uid) (owner gid));
  if failed r then (_ ← sys (Close fd); _ ← sys (Unlink path); mret false) else
  r ← sys (Chmod path mode);
  if failed r then (_ ← sys (Close fd); _ ← sys (Unlink path); mret false) else
  mret true.

Definition bind_socket (addr : option bytes) (port : Z) (unixsocket : option bytes) (uid gid mode : Z) : io Z :=
  target ← match unixsocket with Some path => unix_address path | None => mret (inet_address addr port) end;
  match target with
  | None => mret (-1)
  | Some a =>
      fd ← sys (Socket match a with Un _ _ => AF_UNIX | In _ _ _ => AF_INET end);
      if failed fd then mret (-1) else
      r ← sys (SetReuse fd);
      if failed r then mret (-1) else
      r ← sys (Bind fd a);
      if failed r then mret (-1) else
      owned ← match unixsocket with Some path => own_socket fd path uid gid mode | None => mret true end;
      if negb owned then mret (-1) else
      r ← sys (Listen fd 1024);
      if failed r then mret (-1) else mret fd
  end.

Definition Daemon : io Z :=
  pid ← sys ForkCall;
  if failed pid then mret (-1) else
  if negb (pid =? 0) then halt (Exit 0) else
  r ← sys Setsid;
  if failed r then mret (-1) else
  _ ← sys (Umask 0);
  fd ← sys (OpenRdwr (bs "/dev/null"));
  if failed fd then mret (-1) else
  r ← sys (Dup2 fd 0);
  if failed r then mret (-1) else
  r ← sys (Dup2 fd 1);
  if failed r then mret (-1) else
  r ← sys (Dup2 fd 2);
  if failed r then mret (-1) else mret 0.

(** [Fork]: 0 in the child, behind [FastcgiMain]. *)
Definition Fork (fcgi_fd thread_count : Z) : io Z :=
  child ← sys ForkCall;
  if failed child then mret (-1) else
  if child =? 0 then
    fd ← (if fcgi_fd =? FCGI_LISTENSOCK_FILENO then mret fcgi_fd else
          _ ← sys (Close FCGI_LISTENSOCK_FILENO);
          _ ← sys (Dup2 fcgi_fd FCGI_LISTENSOCK_FILENO);
          _ ← sys (Close fcgi_fd);
          mret FCGI_LISTENSOCK_FILENO);
    _ ← sys (Signal SIGUSR1);
    _ ← sys (FastcgiMain thread_count fd);
    mret 0
  else
    _ ← sys (Waitpid child);
    mret child.

(** [while (c--)]: the test, then the decrement, which is undefined at the
    least [int]. *)
Fixpoint fork_loop (fuel : nat) (fcgi_fd thread_count c : Z) (children : list Z) : io (list Z) :=
  match fuel with
  | O => halt Fuel
  | S fuel =>
      if c =? - 2 ^ 31 then halt Undef else
      if c =? 0 then mret children else
      child ← Fork fcgi_fd thread_count;
      if child =? 0 then halt (Exit 0) else
      fork_loop fuel fcgi_fd thread_count (c - 1) (children ++ [child])
  end.

(** What [main] comes to: its own end, or the call of [MasterCycle] with the
    socket and the children. *)
Inductive outcome := Returns (rc : Z) | MasterCycle (fcgi_fd : Z) (children : list Z).

Definition main (fuel : nat) (args : list (Init.Byte.byte * bytes)) : io outcome :=
  match parse args defaults with
  | inl rc => mret (Returns rc)
  | inr o =>
      r ← match fcgi_dir o with Some d => sys (Chdir d) | None => mret 0 end;
      if failed r then mret (Returns (-1)) else
      fcgi_fd ← bind_socket (Some (addr o)) (u16 (port o)) (unixsocket o) 0 0 (sockmode o);
      if failed fcgi_fd then mret (Returns (-1)) else
      d ← (if nofork o then mret 0 else Daemon);
      if negb (d =? 0) then mret (Returns (-1)) else
      _ ← match pid_file o with Some p => sys (WritePid p) | None => mret 0 end;
      if fork_count o =? 0 then (rc ← sys (FastcgiMain (thread_count o) fcgi_fd); mret (Returns rc)) else
      children ← fork_loop fuel fcgi_fd (thread_count o) (fork_count o) [];
      mret (MasterCycle fcgi_fd children)
  end.
End System.

(** ** Descriptors *)

Inductive descriptor := Sock (bound : option address) (listening : bool) | File (path : bytes).

Definition effect (T : gmap Z descriptor) (e : call * Z) : gmap Z descriptor :=
  let '(c, r) := e in
  if failed r then match c with Close fd => delete fd T | _ => T end else
  match c with
  | Socket _ => <[r := Sock None false]> T
  | OpenRdwr path => <[r := File path]> T
  | Close fd => delete fd T
  | Bind fd a => alter (fun d => match d with Sock _ l => Sock (Some a) l | d => d end) fd T
  | Listen fd _ => alter (fun d => match d with Sock b _ => Sock b true | d => d end) fd T
  | Dup2 from to => match T !! from with Some d => <[to := d]> T | None => T end
  | _ => T
  end.

(** The descriptors of the process behind a trace, from those it was born with. *)
Definition table (T0 : gmap Z descriptor) (t : trace) : gmap Z descriptor := foldl effect T0 t.

(** No [dup2] failed: [Fork] does not look at what it answers. *)
Definition dups_fine (t : trace) : bool :=
  forallb (fun e => match e.1 with Dup2 _ _ => negb (failed e.2) | _ => true end) t.

(** Whenever [FastcgiMain] was called it was with a socket that listens, unless a
    [dup2] had failed before. *)
Definition serves (T0 : gmap Z descriptor) (t : trace) : Prop :=
  forall t1 n fd r t2, t = t1 ++ (FastcgiMain n fd, r) :: t2 -> dups_fine t1 = true ->
    exists a, table T0 t1 !! fd = Some (Sock (Some a) true).

(** How a program ends that starts with [t]. *)
Definition ends {A} (m : io A) (t : trace) (Q : stop + A -> trace -> Prop) : Prop := Q (m t).1 (m t).2.

Lemma ends_bind {A B} (m : io A) (k : A -> io B) t Q :
  ends m t (fun r t' => match r with inr a => ends (k a) t' Q | inl e => Q (inl e) t' end) -> ends (m ≫= k) t Q.
Proof. unfold ends, mbind, io_bind. by destruct (m t) as [[e|a] t']. Qed.

Lemma ends_weaken {A} (m : io A) t (P Q : stop + A -> trace -> Prop) :
  ends m t P -> (forall r t', P r t' -> Q r t') -> ends m t Q.
Proof. unfold ends. auto. Qed.

Lemma ends_ret {A} (a : A) t (Q : stop + A -> trace -> Prop) : Q (inr a) t -> ends (mret a) t Q.
Proof. done. Qed.

Lemma ends_sys {A} answer c (k : Z -> io A) t Q :
  (forall r, r = answer t c -> ends (k r) (t ++ [(c, r)]) Q) -> ends (sys answer c ≫= k) t Q.
Proof. intros H. apply ends_bind. unfold ends, sys. cbn. by apply H. Qed.

Section Descriptors.
Variable T0 : gmap Z descriptor.
Abbreviation table := (table T0).
Abbreviation serves := (serves T0).

Lemma table_snoc t c r : table (t ++ [(c, r)]) = effect (table t) (c, r).
Proof. unfold table. by rewrite foldl_app. Qed.

Lemma serves_nil : serves [].
Proof. intros [|] ????; by intros [=]. Qed.

Definition listens (t : trace) (fd : Z) : Prop := exists a, table t !! fd = Some (Sock (Some a) true).

Lemma serves_snoc t c r : serves t ->
  (forall n fd, c = FastcgiMain n fd -> dups_fine t = true -> listens t fd) -> serves (t ++ [(c, r)]).
Proof.
  intros S H t1 n fd r' t2 E. destruct (decide (t2 = [])) as [->|N].
  - apply app_inj_tail in E as [<- [= -> ->]]. by apply (H n).
  - destruct (exists_last N) as (u & x & ->). rewrite app_comm_cons, app_assoc in E.
    apply app_inj_tail in E as [-> _]. by apply (S t1 n fd r' u).
Qed.

(** The kernel gives descriptors that are not in use. *)
Definition fresh (answer : trace -> call -> Z) : Prop :=
  forall t c, match c with
    | Socket _ | OpenRdwr _ => failed (answer t c) = false -> table t !! answer t c = None | _ => True end.

Variable answer : trace -> call -> Z.
Variable inet_addr : bytes -> Z.
Hypothesis Fresh : fresh answer.

(** What [bind_socket] leaves: a listening socket, or at most one descriptor that
    nobody closes. *)
Definition leaks (T T' : gmap Z descriptor) : Prop := T' = T \/ exists x s, T !! x = None /\ T' = <[x := s]> T.

Definition bound (target : address -> Prop) (T : gmap Z descriptor) (r : Z) (T' : gmap Z descriptor) : Prop :=
  (r = -1 /\ leaks T T') \/
  (0 <= r /\ T !! r = None /\ exists a, target a /\ T' = <[r := Sock (Some a) true]> T).

Definition target (addr : option bytes) (port : Z) (unixsocket : option bytes) (a : address) : Prop :=
  match unixsocket with
  | Some path => a = Un path (2 + size path) /\ size path < UNIX_PATH_LEN
  | None => inet_address inet_addr addr port = Some a
  end.

(** Calls that change no descriptor. *)
Definition quiet (c : call) : bool :=
  match c with
  | Socket _ | OpenRdwr _ | Close _ | Bind _ _ | Listen _ _ | Dup2 _ _ => false | _ => true end.

Lemma table_quiet t c r : quiet c = true -> table (t ++ [(c, r)]) = table t.
Proof. rewrite table_snoc. cbn. by destruct (failed r), c. Qed.

Lemma table_failed t c r : failed r = true -> (forall fd, c <> Close fd) -> table (t ++ [(c, r)]) = table t.
Proof. rewrite table_snoc. cbn. intros -> N. destruct c; try done. by destruct (N fd). Qed.

Lemma table_close t fd r : table (t ++ [(Close fd, r)]) = delete fd (table t).
Proof. rewrite table_snoc. cbn. by destruct (failed r). Qed.

Lemma table_socket t d r : failed r = false -> table (t ++ [(Socket d, r)]) = <[r := Sock None false]> (table t).
Proof. rewrite table_snoc. by cbn; intros ->. Qed.

Ltac quietly := rewrite ?table_quiet by done.
Ltac serve := repeat (apply serves_snoc; [|by intros]); try assumption.
Ltac answers r := apply ends_sys; intros r ?.
Ltac branch r := let E := fresh "F" in destruct (failed r) eqn:E; cbn [negb andb].

Lemma unix_address_ends path t : serves t ->
  ends (unix_address answer path) t (fun res t' => serves t' /\
    match res with
    | inl e => e = Undef /\ UNIX_PATH_LEN <= size path
    | inr None => leaks (table t) (table t')
    | inr (Some a) => table t' = table t /\ a = Un path (2 + size path) /\ size path < UNIX_PATH_LEN
    end).
Proof.
  intros S. unfold unix_address. destruct (Z.leb_spec UNIX_PATH_LEN (size path)); [by split|].
  answers fd. pose proof (Fresh t (Socket AF_UNIX)) as Fr. cbn in Fr. subst fd. branch (answer t (Socket AF_UNIX)).
  { apply ends_ret. split; [serve|]. left. by apply table_failed. }
  specialize (Fr eq_refl). set (fd := answer t (Socket AF_UNIX)) in *.
  assert (D : delete fd (table (t ++ [(Socket AF_UNIX, fd)])) = table t)
    by (rewrite table_socket by done; by apply delete_insert_id).
  answers r. destruct (r =? 0).
  { answers r1. apply ends_ret. split; [serve|]. left. rewrite table_close. by quietly. }
  answers r1. destruct (_ && _).
  { apply ends_ret. split; [serve|]. right. quietly. exists fd, (Sock None false). split; [done|]. by apply table_socket. }
  answers r2. apply ends_ret. split; [serve|]. split; [|done]. rewrite table_close. by quietly.
Qed.

Lemma own_socket_ends fd path uid gid mode t : serves t ->
  ends (own_socket answer fd path uid gid mode) t (fun res t' => serves t' /\
    match res with
    | inl _ => False
    | inr true => table t' = table t
    | inr false => table t' = delete fd (table t)
    end).
Proof.
  intros S. unfold own_socket. destruct (_ && _); [by apply ends_ret|].
  answers r. branch r.
  { answers r1. answers r2. apply ends_ret. split; [serve|]. quietly. rewrite table_close. by quietly. }
  answers r1. branch r1.
  { answers r2. answers r3. apply ends_ret. split; [serve|]. quietly. rewrite table_close. by quietly. }
  apply ends_ret. split; [serve|]. by quietly.
Qed.

Lemma table_bind t fd a r b l : failed r = false -> table t !! fd = Some (Sock b l) ->
  table (t ++ [(Bind fd a, r)]) = <[fd := Sock (Some a) l]> (table t).
Proof.
  rewrite table_snoc. cbn. intros -> H. rewrite <- (insert_id _ _ _ H) at 1. by rewrite alter_insert_eq.
Qed.

Lemma table_listen t fd n r b l : failed r = false -> table t !! fd = Some (Sock b l) ->
  table (t ++ [(Listen fd n, r)]) = <[fd := Sock b true]> (table t).
Proof.
  rewrite table_snoc. cbn. intros -> H. rewrite <- (insert_id _ _ _ H) at 1. by rewrite alter_insert_eq.
Qed.

(** From the socket on. *)
Definition bind_listen (a : address) (unixsocket : option bytes) (uid gid mode : Z) : io Z :=
  fd ← sys answer (Socket match a with Un _ _ => AF_UNIX | In _ _ _ => AF_INET end);
  if failed fd then mret (-1) else
  r ← sys answer (SetReuse fd);
  if failed r then mret (-1) else
  r ← sys answer (Bind fd a);
  if failed r then mret (-1) else
  owned ← match unixsocket with Some path => own_socket answer fd path uid gid mode | None => mret true end;
  if negb owned then mret (-1) else
  r ← sys answer (Listen fd 1024);
  if failed r then mret (-1) else mret fd.

Lemma bind_listen_ends a unixsocket uid gid mode t : serves t ->
  ends (bind_listen a unixsocket uid gid mode) t (fun res t' => serves t' /\
    exists r, res = inr r /\ bound (eq a) (table t) r (table t')).
Proof.
  intros S. unfold bind_listen. set (d := match a with Un _ _ => AF_UNIX | _ => AF_INET end).
  answers fd. pose proof (Fresh t (Socket d)) as Fr. cbn in Fr. subst fd. set (fd := answer t (Socket d)) in *. branch fd.
  { apply ends_ret. split; [serve|]. eexists. split; [done|]. left. split; [done|]. left. by apply table_failed. }
  specialize (Fr eq_refl). set (t1 := t ++ [(Socket d, fd)]).
  assert (T1 : table t1 = <[fd := Sock None false]> (table t)) by by apply table_socket.
  assert (S1 : serves t1) by serve.
  assert (Leak : forall s t', serves t' -> table t' = <[fd := s]> (table t) ->
    ends (mret (-1)) t' (fun res t' => serves t' /\ exists r, res = inr r /\ bound (eq a) (table t) r (table t')))
    by (intros s t' ? ?; split; [done|]; eexists; split; [done|]; left; split; [done|]; right; eauto).
  answers r. branch r; [apply (Leak (Sock None false)); [serve|by quietly]|].
  answers r1. branch r1; [apply (Leak (Sock None false)); [serve|rewrite table_failed by done; by quietly]|].
  set (t2 := (t1 ++ [(SetReuse fd, r)]) ++ [(Bind fd a, r1)]).
  assert (T2 : table t2 = <[fd := Sock (Some a) false]> (table t)).
  { unfold t2. rewrite (table_bind _ _ _ _ None false); quietly; rewrite ?T1; [by rewrite insert_insert_eq|done|by rewrite lookup_insert_eq]. }
  assert (S2 : serves t2) by serve.
  apply ends_bind. apply (ends_weaken _ _ (fun res t' => serves t' /\ match res with
    | inl _ => False | inr true => table t' = table t2 | inr false => table t' = delete fd (table t2) end)).
  { destruct unixsocket; [by apply own_socket_ends|]. by apply ends_ret. }
  intros [|[]] t3 [S3 T3]; [done| |].
  - cbn [negb]. answers r2. branch r2.
    + apply (Leak (Sock (Some a) false)); [serve|]. rewrite table_failed by done. congruence.
    + apply ends_ret. split; [serve|]. eexists. split; [done|]. right. split; [by apply Z.ltb_ge|]. split; [done|].
      exists a. split; [done|]. rewrite (table_listen _ _ _ _ (Some a) false); rewrite ?T3, ?T2; [|done|by rewrite lookup_insert_eq].
      by rewrite insert_insert_eq.
  - apply ends_ret. split; [done|]. eexists. split; [done|]. left. split; [done|]. left.
    rewrite T3, T2, delete_insert_eq. by rewrite delete_id.
Qed.

Lemma bound_weaken (P Q : address -> Prop) T r T' : (forall a, P a -> Q a) -> bound P T r T' -> bound Q T r T'.
Proof. intros H [B|(B & C & a & Pa & ->)]; [by left|right].
  split; [done|]. split; [done|]. exists a. by split; [apply H|].
Qed.

Lemma bind_socket_ends addr port unixsocket uid gid mode t : serves t ->
  ends (bind_socket answer inet_addr addr port unixsocket uid gid mode) t (fun res t' => serves t' /\
    match res with
    | inl e => e = Undef /\ exists path, unixsocket = Some path /\ UNIX_PATH_LEN <= size path
    | inr r => bound (target addr port unixsocket) (table t) r (table t')
    end).
Proof.
  intros S. apply ends_bind. destruct unixsocket as [path|].
  - eapply ends_weaken; [by apply unix_address_ends|]. intros [e|[a|]] t1 [S1 H]; [| |by split; [|left]].
    + split; [done|]. destruct H as [-> H]. eauto.
    + destruct H as (<- & Ha). eapply ends_weaken; [by apply (bind_listen_ends a (Some path))|].
      intros res t' [S' (r & -> & B)]. split; [done|]. by apply (bound_weaken (eq a)); [intros ? <-|].
  - apply ends_ret. destruct (inet_address inet_addr addr port) as [a|] eqn:E; [|by split; [|left; split; [|left]]].
    eapply ends_weaken; [by apply (bind_listen_ends a None 0 0 0)|].
    intros res t' [S' (r & -> & B)]. split; [done|]. by apply (bound_weaken (eq a)); [intros ? <-|].
Qed.

(** ** Going to the background, and the children *)

Definition null : descriptor := File (bs "/dev/null").

Definition std_open (T : gmap Z descriptor) : Prop := forall i, 0 <= i <= 2 -> is_Some (T !! i).
Definition std_null (T : gmap Z descriptor) : Prop := forall i, 0 <= i <= 2 -> T !! i = Some null.

Lemma table_open t p r : failed r = false -> table (t ++ [(OpenRdwr p, r)]) = <[r := File p]> (table t).
Proof. rewrite table_snoc. by cbn; intros ->. Qed.

Lemma table_dup t from to r d : failed r = false -> table t !! from = Some d ->
  table (t ++ [(Dup2 from to, r)]) = <[to := d]> (table t).
Proof. rewrite table_snoc. by cbn; intros -> ->. Qed.

Lemma table_dups t fd d a b c : ~ (0 <= fd <= 2) -> table t !! fd = Some d ->
  failed a = false -> failed b = false -> failed c = false ->
  table (((t ++ [(Dup2 fd 0, a)]) ++ [(Dup2 fd 1, b)]) ++ [(Dup2 fd 2, c)]) =
    <[2 := d]> (<[1 := d]> (<[0 := d]> (table t))).
Proof.
  intros N H Ha Hb Hc. assert (A := table_dup t fd 0 a d Ha H).
  assert (B := table_dup (t ++ [(Dup2 fd 0, a)]) fd 1 b d Hb). rewrite A, lookup_insert_ne in B by lia. specialize (B H).
  rewrite (table_dup _ fd 2 c d Hc); rewrite B; [done|]. by rewrite !lookup_insert_ne by lia.
Qed.

Lemma Daemon_ends t : serves t -> std_open (table t) ->
  ends (Daemon answer) t (fun res t' => serves t' /\
    match res with
    | inl e => e = Exit 0
    | inr r => r = -1 \/ (r = 0 /\ std_null (table t') /\
        forall x d, ~ (0 <= x <= 2) -> table t !! x = Some d -> table t' !! x = Some d)
    end).
Proof.
  intros S O. unfold Daemon. answers pid. branch pid; [by apply ends_ret; split; [serve|left]|].
  destruct (pid =? 0); cbn [negb]; [|by split; [serve|]].
  answers r. branch r; [by apply ends_ret; split; [serve|left]|]. answers r1. answers fd.
  set (t0 := ((t ++ [_]) ++ [_]) ++ [_]) in *. pose proof (Fresh t0 (OpenRdwr (bs "/dev/null"))) as Fr. cbn beta iota in Fr.
  assert (T0' : table t0 = table t) by (unfold t0; by quietly). assert (S0 : serves t0) by serve.
  branch fd; [by apply ends_ret; split; [serve|left]|]. subst fd. set (fd := answer t0 _) in *. specialize (Fr F1).
  rewrite T0' in Fr. assert (N : ~ (0 <= fd <= 2)) by (intros [? Hs]%O; congruence).
  set (t1 := t0 ++ [(OpenRdwr (bs "/dev/null"), fd)]). assert (T1 : table t1 = <[fd := null]> (table t))
    by (unfold t1; by rewrite table_open, T0').
  assert (S1 : serves t1) by serve.
  answers a. branch a; [by apply ends_ret; split; [serve|left]|].
  answers b. branch b; [by apply ends_ret; split; [serve|left]|].
  answers c. branch c; [by apply ends_ret; split; [serve|left]|].
  apply ends_ret. split; [serve|]. right. split; [done|].
  rewrite (table_dups t1 fd null), T1 by (done || by rewrite T1, lookup_insert_eq). split.
  - intros i Hi. destruct (decide (i = 2)) as [->|]; [by rewrite lookup_insert_eq|]. rewrite lookup_insert_ne by lia.
    destruct (decide (i = 1)) as [->|]; [by rewrite lookup_insert_eq|]. rewrite lookup_insert_ne by lia.
    replace i with 0 by lia. by rewrite lookup_insert_eq.
  - intros x d Hx Hd. rewrite !lookup_insert_ne by (congruence || lia). done.
Qed.

Lemma dups_fine_app t u : dups_fine (t ++ u) = true -> dups_fine t = true /\ dups_fine u = true.
Proof. unfold dups_fine. rewrite forallb_app. apply andb_true_iff. Qed.

(** The child serves on descriptor 0, whatever the socket was. *)
Lemma Fork_ends fd n t : serves t -> listens t fd ->
  ends (Fork answer fd n) t (fun res t' => serves t' /\
    exists c, res = inr c /\ (c = 0 \/ table t' = table t /\ (c = -1 \/ 0 < c))).
Proof.
  intros S [a L]. unfold Fork. answers child. branch child.
  { apply ends_ret. split; [serve|]. eexists. split; [done|]. right. split; [by quietly|by left]. }
  set (t1 := t ++ [(ForkCall, child)]) in *. assert (T1 : table t1 = table t) by (unfold t1; by quietly).
  assert (S1 : serves t1) by serve. apply Z.ltb_ge in F. destruct (Z.eqb_spec child 0) as [->|N].
  - apply ends_bind. apply (ends_weaken _ _ (fun res t' => serves t' /\ exists fd,
      res = inr fd /\ (dups_fine t' = true -> listens t' fd))).
    + destruct (Z.eqb_spec fd FCGI_LISTENSOCK_FILENO) as [->|N].
      { apply ends_ret. split; [done|]. eexists. split; [done|]. exists a. by rewrite T1. }
      unfold FCGI_LISTENSOCK_FILENO in *. answers r. answers r1. answers r2. apply ends_ret. split; [serve|].
      eexists. split; [done|]. intros [[_ D]%dups_fine_app _]%dups_fine_app.
      exists a. rewrite table_close, lookup_delete_ne by done.
      assert (K : table (t1 ++ [(Close 0, r)]) !! fd = Some (Sock (Some a) true))
        by (rewrite table_close, lookup_delete_ne, T1 by done; done).
      assert (R : failed r1 = false) by (cbn in D; by destruct (failed r1)).
      by rewrite (table_dup _ _ _ _ _ R K), lookup_insert_eq.
    + intros res t2 [S2 (fd' & -> & L2)]. answers r. answers r1. apply ends_ret. split; [|by exists 0; auto].
      apply serves_snoc; [serve|]. intros ? ? [= <- <-] [[a' L']%L2 _]%dups_fine_app. exists a'. by quietly.
  - answers r. apply ends_ret. split; [serve|]. exists child. split; [done|]. right. split; [by quietly|lia].
Qed.

Lemma fork_loop_ends fuel fd n c l t : serves t -> listens t fd ->
  ends (fork_loop answer fuel fd n c l) t (fun res t' => serves t' /\
    match res with
    | inl e => e = Exit 0 \/ c < 0 \/ (e = Fuel /\ Z.of_nat fuel <= c)
    | inr l' => table t' = table t /\
        exists new, l' = l ++ new /\ Z.of_nat (length new) = c /\ Forall (fun p => p = -1 \/ 0 < p) new
    end).
Proof.
  revert c l t. induction fuel as [|fuel IH]; intros c l t S L; [split; [done|]; right; destruct (Z.lt_ge_cases c 0); auto with lia|].
  cbn [fork_loop]. destruct (Z.eqb_spec c (- 2 ^ 31)) as [->|_]; [by split; [|right; left]|].
  destruct (Z.eqb_spec c 0) as [->|C].
  { apply ends_ret. split; [done|]. split; [done|]. exists []. by rewrite app_nil_r. }
  apply ends_bind. eapply ends_weaken; [by apply Fork_ends|]. intros res t1 [S1 (child & -> & H)].
  destruct (Z.eqb_spec child 0) as [->|N]; [by split; [|left]|]. destruct H as [|[T1 P]]; [done|].
  eapply ends_weaken; [apply IH; [done|by unfold listens; rewrite T1]|].
  intros [e|l'] t2 [S2 H2]; (split; [done|]).
  - destruct H2 as [|[|[]]]; [by left|right; left; lia|right; right; split; [done|lia]].
  - destruct H2 as [T2 (new & -> & Len & Fa)]. split; [congruence|]. exists (child :: new).
    split; [by rewrite <- app_assoc|]. split; [cbn [length]; lia|by constructor].
Qed.

Lemma optional_ends {A} (c : A -> call) (o : option A) t : serves t -> (forall a, quiet (c a) = true) ->
  (forall a n fd, c a <> FastcgiMain n fd) ->
  ends (match o with Some a => sys answer (c a) | None => mret 0 end) t (fun res t' =>
    exists r, res = inr r /\ serves t' /\ table t' = table t).
Proof.
  intros S Q N. destruct o as [a|]; [|by exists 0]. eexists. split; [done|]. split; [|by apply table_quiet].
  apply serves_snoc; [done|]. intros n fd E. by destruct (N a n fd).
Qed.

(** C36: The server starts as it is meant to, if the kernel gives descriptors that
    are free and the three standard descriptors are open at the start, whatever
    the calls answer otherwise.  Whenever [FastcgiMain] is called, in a child or
    in the process itself, it is given a socket that is bound and listens,
    unless a [dup2] failed before, which [Fork] does not notice ([dup2_lost]).
    [MasterCycle] gets that socket and one entry for each child that was asked
    for, and its standard descriptors are the null device unless [-n] was given.
    Nothing else happens than an end of a child or parent with code 0, undefined
    behaviour for a socket path of 108 bytes or more or a negative number of
    children, and the step bound reached when it is no greater than that number.
    With a standard descriptor closed at the start the socket can get lost:
    [socket_lost]. *)
Theorem main_serves fuel args : std_open T0 ->
  ends (main answer inet_addr fuel args) [] (fun res t => serves t /\
    match res with
    | inr (MasterCycle fd l) => exists o, parse args defaults = inr o /\ listens t fd /\
        Z.of_nat (length l) = fork_count o /\ Forall (fun p => p = -1 \/ 0 < p) l /\ (nofork o = false -> std_null (table t))
    | inr (Returns _) => True
    | inl e => e = Exit 0 \/ exists o, parse args defaults = inr o /\
        (fork_count o < 0 \/ (e = Fuel /\ Z.of_nat fuel <= fork_count o) \/
         (e = Undef /\ exists path, unixsocket o = Some path /\ UNIX_PATH_LEN <= size path))
    end).
Proof.
  intros O. pose proof serves_nil as S. unfold main. destruct (parse args defaults) as [rc|o]; [by apply ends_ret|].
  apply ends_bind. eapply ends_weaken; [by apply (optional_ends Chdir)|]. intros res t1 (r & -> & S1 & T1).
  destruct (failed r); [by apply ends_ret|]. apply ends_bind. eapply ends_weaken; [by apply bind_socket_ends|].
  intros [e|fd] t2 [S2 B]; [split; [done|]; right; exists o; split; [done|]; right; right; tauto|]. rewrite T1 in B. clear t1 S1 T1.
  destruct (failed fd) eqn:F; [by apply ends_ret|]. destruct B as [[-> _]|(_ & Free & a & _ & T2)]; [done|].
  assert (N : ~ (0 <= fd <= 2)) by (intros [? Hs]%O; unfold table in Free; cbn in Free; congruence).
  assert (L2 : table t2 !! fd = Some (Sock (Some a) true)) by (rewrite T2; by rewrite lookup_insert_eq).
  apply ends_bind. apply (ends_weaken _ _ (fun res t => serves t /\ match res with
    | inl e => e = Exit 0
    | inr d => d = -1 \/ d = 0 /\ listens t fd /\ (nofork o = false -> std_null (table t)) end)).
  { destruct (nofork o); [apply ends_ret; split; [done|]; right; split; [done|]; split; [by exists a|done]|].
    eapply ends_weaken; [apply (Daemon_ends _ S2)|].
    - intros i Hi. rewrite T2, lookup_insert_ne by (intros ->; tauto). by apply O.
    - intros [e|d] t3 [S3 H]; (split; [done|]); [done|]. destruct H as [|(-> & Nu & K)]; [by left|right].
      split; [done|]. split; [exists a; by apply K|done]. }
  intros [e|d] t3 [S3 H]; [by split; [|left]|]. destruct H as [->|(-> & L3 & Nu)]; [by apply ends_ret|]. cbn [Z.eqb negb].
  apply ends_bind. eapply ends_weaken; [by apply (optional_ends WritePid)|]. intros res t4 (r4 & -> & S4 & T4).
  assert (L4 : listens t4 fd) by (unfold listens; by rewrite T4).
  destruct (Z.eqb_spec (fork_count o) 0).
  - apply ends_sys. intros rc ?. apply ends_ret. split; [|done]. apply serves_snoc; [done|]. by intros ? ? [= <- <-].
  - apply ends_bind. eapply ends_weaken; [by apply fork_loop_ends|]. intros [e'|l] t5 [S5 H].
    + split; [done|]. destruct H as [|H]; [by left|right]. exists o. split; [done|]. tauto.
    + destruct H as (T5 & new & -> & Len & Fa). apply ends_ret. split; [done|]. exists o. split; [done|].
      split; [unfold listens; by rewrite T5|]. rewrite T5, T4. done.
Qed.
End Descriptors.

(** ** Witness and what goes wrong *)

(** A system whose calls succeed but for [connect]; [forks] is what [fork] answers. *)
Definition std : gmap Z descriptor := {[ 0 := File (bs "in"); 1 := File (bs "out"); 2 := File (bs "err") ]}.

Definition free (T : gmap Z descriptor) : Z := 1 + foldr Z.max (-1) (elements (dom T)).

Definition willing (T0 : gmap Z descriptor) (forks : Z -> Z) (t : trace) (c : call) : Z :=
  match c with
  | Socket _ | OpenRdwr _ => free (table T0 t)
  | ForkCall => forks (Z.of_nat (length t))
  | Connect _ _ => -111
  | _ => 0
  end.

Lemma free_free T : T !! free T = None.
Proof.
  destruct (T !! free T) as [d|] eqn:E; [|done]. exfalso.
  assert (M : forall l x, x ∈ l -> x <= foldr Z.max (-1) l)
    by (induction l as [|y l IH]; intros x; [by intros ?%elem_of_nil|]; intros [->|H%IH]%elem_of_cons; cbn; lia).
  assert (In : free T ∈ elements (dom T)) by (apply elem_of_elements, elem_of_dom; eauto).
  apply M in In. unfold free in In at 1. lia.
Qed.

Lemma willing_fresh T0 forks : fresh T0 (willing T0 forks).
Proof. intros t []; try done; intros _; apply free_free. Qed.

Lemma std_std : std_open std.
Proof. intros i Hi. assert (i = 0 \/ i = 1 \/ i = 2) as [->|[->| ->]] by lia; by eexists. Qed.

Definition run (T0 : gmap Z descriptor) (forks : Z -> Z) (fuel : nat) args : (stop + outcome) * trace :=
  main (willing T0 forks) (fun _ => 0) fuel args [].

Lemma main_serves_witness :
  (run std (Z.add 100) 3 [("n"%byte, []); ("F"%byte, bs "2")]).1 = inr (MasterCycle 3 [104; 106]) /\
  listens std (run std (Z.add 100) 3 [("n"%byte, []); ("F"%byte, bs "2")]).2 3.
Proof.
  split; [vm_compute; reflexivity|].
  destruct (main_serves std (willing std (Z.add 100)) (fun _ => 0) (willing_fresh std _)
    3 [("n"%byte, []); ("F"%byte, bs "2")] std_std) as [_ H].
  destruct H as (o & _ & L & _). exact L.
Defined.

(** A negative [-F] never comes to [MasterCycle]. *)
Lemma fork_loop_negative answer fuel fd n c l t : c < 0 -> forall l', (fork_loop answer fuel fd n c l t).1 <> inr l'.
Proof.
  revert c l t. induction fuel as [|fuel IH]; intros c l t Neg l'; [done|]. cbn [fork_loop].
  destruct (c =? - 2 ^ 31); [done|]. destruct (Z.eqb_spec c 0); [lia|]. unfold mbind, io_bind.
  destruct (Fork answer fd n t) as [[e|child] t']; [done|]. destruct (child =? 0); [done|]. apply IH. lia.
Qed.

(** [main] passes 0 for [uid] and [gid], so [-M] does nothing. *)
Lemma sockmode_unused answer inet_addr addr port un mode1 mode2 :
  bind_socket answer inet_addr addr port un 0 0 mode1 = bind_socket answer inet_addr addr port un 0 0 mode2.
Proof. done. Qed.

Definition socket_of (e : call * Z) : option address := match e.1 with Bind _ a => Some a | _ => None end.
Definition forks_of (t : trace) : nat := length (List.filter (fun e => match e.1 with ForkCall => true | _ => false end) t).

(** [-p 70000] binds port 4464; [-p] with nothing binds port 0. *)
Example port_wraps :
  omap socket_of (run std (Z.add 100) 3 [("n"%byte, []); ("p"%byte, bs "70000")]).2 = [In 0 4464 16] /\
  omap socket_of (run std (Z.add 100) 3 [("n"%byte, []); ("p"%byte, [])]).2 = [In 0 0 16] /\
  (run std (Z.add 100) 3 [("n"%byte, []); ("p"%byte, bs "80x")]).1 = inr (Returns (-1)).
Proof. repeat split; vm_compute; reflexivity. Qed.

(** [-F -1] forks until it is out of processes, and then goes on. *)
Example forks_for_ever :
  forks_of (run std (Z.add 100) 50 [("n"%byte, []); ("F"%byte, bs "-1")]).2 = 50%nat /\
  (run std (fun _ => -1) 4 [("n"%byte, []); ("F"%byte, bs "3")]).1 = inr (MasterCycle 3 [-1; -1; -1]).
Proof. split; vm_compute; reflexivity. Qed.

(** With standard input closed at the start the socket is descriptor 0, and [Daemon]
    puts the null device in its place. *)
Definition lowest (t : trace) (c : call) : Z :=
  match c with Socket _ => 0 | _ => willing (delete 0 std) (fun n => if n <? 6 then 0 else 100) t c end.

Definition run_lowest : (stop + outcome) * trace := main lowest (fun _ => 0) 3 [("F"%byte, bs "1")] [].

Example socket_lost :
  run_lowest.1 = inr (MasterCycle 0 [100]) /\ table (delete 0 std) run_lowest.2 !! 0 = Some null.
Proof. split; vm_compute; reflexivity. Qed.

(** A [dup2] that is interrupted leaves the child to serve on a descriptor that is
    closed. *)
Definition interrupted (t : trace) (c : call) : Z :=
  match c with Dup2 _ _ => -4 | _ => willing std (fun _ => 0) t c end.

Definition serving (t : trace) : list (list (call * Z) * Z) :=
  omap (fun n => match t !! n with Some (FastcgiMain _ fd, _) => Some (drop (n - 3) (take n t), fd) | _ => None end)
    (seq 0 (length t)).

Example dup2_lost :
  let t := (main interrupted (fun _ => 0) 3 [("n"%byte, []); ("F"%byte, bs "1")] []).2 in
  dups_fine t = false /\
  serving t = [([(Dup2 3 0, -4); (Close 3, 0); (Signal SIGUSR1, 0)], 0)] /\ table std t !! 0 = None.
Proof. repeat split; vm_compute; reflexivity. Qed.

(** When the port is in use the descriptor stays open. *)
Definition busy (t : trace) (c : call) : Z := match c with Bind _ _ => -98 | _ => willing std (Z.add 100) t c end.

Example socket_leaks :
  bind_socket busy (fun _ => 0) None 80 None 0 0 0 [] =
    (inr (-1), [(Socket AF_INET, 3); (SetReuse 3, 0); (Bind 3 (In 0 80 16), -98)]) /\
  table std (bind_socket busy (fun _ => 0) None 80 None 0 0 0 []).2 !! 3 = Some (Sock None false).
Proof. split; vm_compute; reflexivity. Qed.

(** [strtol] at its edges. *)
Example strtol_edges :
  map (fun s => strtol 0 (bs s)) ["0x1f"; "0755"; "0x"; "  -12z"; "-"; "99999999999999999999"]%string =
  [(31, []); (493, []); (0, bs "x"); (-12, bs "z"); (0, bs "-"); (2 ^ 63 - 1, [])].
Proof. vm_compute. reflexivity. Qed.
