(* ===== verification/Crc.v ===== *)
(** * The CRC of MooseFS (src/moosefs/crc.c)

    The checksum of blocks, four bytes at a time through tables ([mycrc32]),
    and the checksum of a concatenation from those of its parts, through tables
    of matrices over the field of two elements ([mycrc32_combine]).  The
    little-endian build.  The register of 32 flip-flops that the CRC is defined by
    is the reference. *)

From S2P Require Import Prelude.

Definition CRC_POLY : Z := 0xEDB88320.

(** One line [c = (c&1) ? (poly^(c>>1)) : (c>>1)]. *)
Definition bit_step (c : Z) : Z :=
  if Z.land c 1 =? 1 then Z.lxor CRC_POLY (Z.shiftr c 1) else Z.shiftr c 1.

Definition entry (t : list Z) (i : Z) : Z := nth (Z.to_nat i) t 0.

(** [crc_table[0]]; then each further table from the one before. *)
Definition main_table : list Z := map (fun i => Nat.iter 8 bit_step i) (seqZ 0 256).

Definition next_entry (c : Z) : Z := Z.lxor (entry main_table (Z.land c 0xff)) (Z.shiftr c 8).

Record tables := mkTables { crc_table0 : list Z; crc_table1 : list Z; crc_table2 : list Z; crc_table3 : list Z }.

Definition crc_generate_main_tables : tables :=
  let t1 := map next_entry main_table in
  let t2 := map next_entry t1 in
  mkTables main_table t1 t2 (map next_entry t2).

(** ** The checksum *)

Definition CRC_REORDER (crc : Z) : Z := Z.lxor crc 0xFFFFFFFF.

Definition CRC_ONE_BYTE (t : tables) (crc : Z) (b : Init.Byte.byte) : Z :=
  Z.lxor (entry (crc_table0 t) (Z.land (Z.lxor crc (bval b)) 0xFF)) (Z.shiftr crc 8).

(** [CRC_FOUR_BYTES] at the pointer [block4]. *)
Definition CRC_FOUR_BYTES (t : tables) (s : Z * bytes) : Z * bytes :=
  match s with
  | (crc, b0 :: b1 :: b2 :: b3 :: r) =>
      let crc := Z.lxor crc (le_combine [b0; b1; b2; b3]) in
      (Z.lxor (Z.lxor (Z.lxor (entry (crc_table3 t) (Z.land crc 0xff))
                              (entry (crc_table2 t) (Z.land (Z.shiftr crc 8) 0xff)))
                      (entry (crc_table1 t) (Z.land (Z.shiftr crc 16) 0xff)))
              (entry (crc_table0 t) (Z.shiftr crc 24)), r)
  | _ => s
  end.

(** Up to an address that is a multiple of four. *)
Fixpoint head_loop (t : tables) (crc : Z) (block : bytes) (addr : Z) : Z * bytes :=
  match block with
  | b :: r => if Z.land addr 3 =? 0 then (crc, block) else head_loop t (CRC_ONE_BYTE t crc b) r (addr + 1)
  | [] => (crc, [])
  end.

Fixpoint loop32 (t : tables) (fuel : nat) (s : Z * bytes) : Z * bytes :=
  match fuel with
  | O => s
  | S fuel => if (32 <=? length s.2)%nat then loop32 t fuel (Nat.iter 8 (CRC_FOUR_BYTES t) s) else s
  end.

Fixpoint loop4 (t : tables) (fuel : nat) (s : Z * bytes) : Z * bytes :=
  match fuel with
  | O => s
  | S fuel => if (4 <=? length s.2)%nat then loop4 t fuel (CRC_FOUR_BYTES t s) else s
  end.

Definition tail_loop (t : tables) (s : Z * bytes) : Z := foldl (CRC_ONE_BYTE t) s.1 s.2.

(** [block]: the [leng] bytes at the address [addr]. *)
Definition mycrc32 (t : tables) (addr crc : Z) (block : bytes) : Z :=
  let s := head_loop t (CRC_REORDER crc) block addr in
  let s := loop32 t (S (length s.2)) s in
  let s := loop4 t (S (length s.2)) s in
  CRC_REORDER (tail_loop t s).

(** ** Combining *)

(** The loops [while (l)] and [for (; v && j<32; )]: the rows of the set bits. *)
Fixpoint sum_rows (m : list Z) (v s : Z) : Z :=
  match m with
  | [] => s
  | row :: m => if v =? 0 then s else sum_rows m (Z.shiftr v 1) (if Z.land v 1 =? 1 then Z.lxor s row else s)
  end.

Definition crc_matrix_square (m : list Z) : list Z := map (fun v => sum_rows m v 0) m.

Definition m1 : list Z := CRC_POLY :: map (fun i => Z.shiftl 1 i) (seqZ 0 31).

(** The four tables of a matrix. *)
Definition matrix_tables (mc : list Z) : tables :=
  let t j := map (fun k => sum_rows (drop (j * 8) mc) k 0) (seqZ 0 256) in
  mkTables (t 0%nat) (t 1%nat) (t 2%nat) (t 3%nat).

(** Each turn squares the matrix of the turn before. *)
Fixpoint combine_tables (n : nat) (m : list Z) : list tables :=
  match n with
  | O => []
  | S n => let mc := crc_matrix_square m in matrix_tables mc :: combine_tables n mc
  end.

Definition crc_generate_combine_tables : list tables :=
  combine_tables 32 (crc_matrix_square (crc_matrix_square m1)).

Definition add_zeros (t : tables) (crc1 : Z) : Z :=
  Z.lxor (Z.lxor (Z.lxor (entry (crc_table3 t) (Z.shiftr crc1 24))
                         (entry (crc_table2 t) (Z.land (Z.shiftr crc1 16) 0xFF)))
                 (entry (crc_table1 t) (Z.land (Z.shiftr crc1 8) 0xFF)))
         (entry (crc_table0 t) (Z.land crc1 0xFF)).

Fixpoint zeros_loop (ts : list tables) (crc1 leng2 : Z) : Z :=
  match ts with
  | [] => crc1
  | t :: ts =>
      if leng2 =? 0 then crc1
      else zeros_loop ts (if Z.land leng2 1 =? 1 then add_zeros t crc1 else crc1) (Z.shiftr leng2 1)
  end.

Definition mycrc32_combine (ts : list tables) (crc1 crc2 leng2 : Z) : Z := Z.lxor (zeros_loop ts crc1 leng2) crc2.

(** ** The reference: one bit at a time *)

Definition feed (c : Z) (b : Init.Byte.byte) : Z := Nat.iter 8 bit_step (Z.lxor c (bval b)).

Definition crc32_bits (crc : Z) (s : bytes) : Z := Z.lxor (foldl feed (Z.lxor crc 0xFFFFFFFF) s) 0xFFFFFFFF.

(** ** Linearity *)

Definition in32 (c : Z) : Prop := 0 <= c < 2 ^ 32.

Record linear (L : Z -> Z) : Prop := { lin_0 : L 0 = 0; lin_xor : forall a b, L (Z.lxor a b) = Z.lxor (L a) (L b) }.

(** The register after [n] bits of zeros. *)
Abbreviation adv n := (Nat.iter n bit_step).

Lemma land_1 c : (Z.land c 1 =? 1) = Z.testbit c 0.
Proof.
  change 1 with (Z.ones 1) at 1. rewrite Z.land_ones by lia. change (2 ^ 1) with 2. by rewrite Z.bit0_eqb.
Qed.

Lemma xor_swap a b c d : Z.lxor (Z.lxor a b) (Z.lxor c d) = Z.lxor (Z.lxor a c) (Z.lxor b d).
Proof. rewrite !Z.lxor_assoc. f_equal. rewrite <- !Z.lxor_assoc. f_equal. apply Z.lxor_comm. Qed.

Lemma xor_reverse a b c d : Z.lxor (Z.lxor (Z.lxor a b) c) d = Z.lxor (Z.lxor (Z.lxor d c) b) a.
Proof. rewrite Z.lxor_comm, (Z.lxor_comm _ c), (Z.lxor_comm a b). by rewrite !Z.lxor_assoc. Qed.

Lemma linear_bit_step : linear bit_step.
Proof.
  split; [done|]. intros a b. unfold bit_step. rewrite !land_1, Z.lxor_spec, Z.shiftr_lxor.
  destruct (Z.testbit a 0), (Z.testbit b 0); cbn [xorb].
  - by rewrite xor_swap, Z.lxor_nilpotent, Z.lxor_0_l.
  - by rewrite Z.lxor_assoc.
  - by rewrite <- !Z.lxor_assoc, (Z.lxor_comm CRC_POLY).
  - done.
Qed.

Lemma linear_compose L K : linear L -> linear K -> linear (fun y => L (K y)).
Proof. intros [L0 Lx] [K0 Kx]. split; [by rewrite K0|]. intros a b. by rewrite Kx, Lx. Qed.

Lemma linear_shiftl k : linear (fun y => Z.shiftl y k).
Proof. split; [apply Z.shiftl_0_l|]. intros. apply Z.shiftl_lxor. Qed.

Lemma linear_adv n : linear (adv n).
Proof. induction n as [|n IH]; [done|]. apply (linear_compose bit_step (adv n) linear_bit_step IH). Qed.

Lemma bit_step_in32 c : in32 c -> in32 (bit_step c).
Proof.
  unfold in32, bit_step. intros H. rewrite Z.shiftr_div_pow2 by lia. change (2 ^ 1) with 2.
  assert (0 <= c / 2 < 2 ^ 32) by euclid. destruct (_ =? _); [|done]. by apply lxor_range; [lia|unfold CRC_POLY|].
Qed.

Lemma adv_in32 n c : in32 c -> in32 (adv n c).
Proof. intros H. induction n; cbn [Nat.iter nat_rect]; [done|]. by apply bit_step_in32. Qed.

Lemma adv_add n k c : adv (n + k) c = adv n (adv k c).
Proof. apply Nat.iter_add. Qed.

(** What enters above the register comes down to it. *)
Lemma adv_shiftl n y : adv n (Z.shiftl y (Z.of_nat n)) = y.
Proof.
  induction n as [|n IH]; [apply Z.shiftl_0_r|]. rewrite <- Nat.add_1_r, adv_add. rewrite <- IH at 2. f_equal.
  cbn [Nat.iter nat_rect]. unfold bit_step. rewrite Nat2Z.inj_add, land_1, Z.shiftl_spec, Z.testbit_neg_r by lia.
  rewrite Z.shiftr_shiftl_l by lia. f_equal. lia.
Qed.

Lemma adv_enter n c b : Z.lxor (adv n c) b = adv n (Z.lxor c (Z.shiftl b (Z.of_nat n))).
Proof. by rewrite (lin_xor _ (linear_adv n)), adv_shiftl. Qed.

Lemma low_high c k : 0 <= k -> c = Z.lxor (Z.land c (Z.ones k)) (Z.shiftl (Z.shiftr c k) k).
Proof.
  intros Hk. apply Z.bits_inj'. intros i Hi. rewrite Z.lxor_spec, Z.land_spec, Z.shiftl_spec, Z.testbit_ones_nonneg by lia.
  destruct (Z.ltb_spec i k).
  - rewrite andb_true_r, (Z.testbit_neg_r _ (i - k)) by lia. by rewrite xorb_false_r.
  - rewrite andb_false_r, Z.shiftr_spec by lia. rewrite xorb_false_l. f_equal. lia.
Qed.

(** ** The tables *)

Lemma entry_map (f : Z -> Z) i : 0 <= i < 256 -> entry (map f (seqZ 0 256)) i = f i.
Proof.
  intros H. unfold entry. apply nth_lookup_Some. rewrite list_lookup_fmap, lookup_seqZ_lt by lia. cbn. do 2 f_equal. lia.
Qed.

Lemma next_entry_adv c : next_entry c = adv 8 c.
Proof.
  unfold next_entry, main_table. change 0xff with (Z.ones 8). rewrite entry_map by (rewrite Z.land_ones by lia; apply Z.mod_pos_bound; lia).
  rewrite (low_high c 8) at 3 by lia. by rewrite (lin_xor _ (linear_adv 8)), (adv_shiftl 8).
Qed.

Lemma main_tables i : 0 <= i < 256 ->
  entry (crc_table0 crc_generate_main_tables) i = adv 8 i /\ entry (crc_table1 crc_generate_main_tables) i = adv 16 i /\
  entry (crc_table2 crc_generate_main_tables) i = adv 24 i /\ entry (crc_table3 crc_generate_main_tables) i = adv 32 i.
Proof.
  intros H. unfold crc_generate_main_tables, main_table. cbn [crc_table0 crc_table1 crc_table2 crc_table3]. rewrite !map_map, !entry_map by done.
  rewrite !next_entry_adv. by rewrite <- !adv_add.
Qed.

(** ** The checksum *)

(** A register behind a text takes all of it at once, as a little-endian number
    above nothing. *)
Lemma le_combine_xor b l : le_combine (b :: l) = Z.lxor (bval b) (Z.shiftl (le_combine l) 8).
Proof.
  rewrite le_combine_cons, Z.lxor_comm, lxor_shiftl_add by (lia || apply bval_range). lia.
Qed.

Lemma foldl_feed s c : foldl feed c s = adv (8 * length s) (Z.lxor c (le_combine s)).
Proof.
  revert c. induction s as [|b s IH]; intros c; [symmetry; apply Z.lxor_0_r|].
  cbn [foldl length]. rewrite IH, le_combine_xor. unfold feed. rewrite (adv_enter 8), <- adv_add, Z.lxor_assoc.
  f_equal. lia.
Qed.

Lemma feed_in32 c b : in32 c -> in32 (feed c b).
Proof. intros H. apply adv_in32, lxor_range; [lia|done|]. pose proof (bval_range b). lia. Qed.

Lemma foldl_feed_in32 s c : in32 c -> in32 (foldl feed c s).
Proof. revert c. induction s; intros c H; cbn; [done|]. by apply IHs, feed_in32. Qed.

Lemma byte_of c k : in32 c -> 0 <= Z.land (Z.shiftr c k) 0xff < 256.
Proof. intros _. change 0xff with (Z.ones 8). rewrite Z.land_ones by lia. apply Z.mod_pos_bound. lia. Qed.

Lemma top_byte c : in32 c -> 0 <= Z.shiftr c 24 < 256.
Proof. unfold in32. intros H. rewrite Z.shiftr_div_pow2 by lia. euclid. Qed.

(** A word as its bytes, which is how both sets of tables take it apart. *)
Lemma word_bytes c : in32 c ->
  c = Z.lxor (Z.lxor (Z.lxor (Z.land c 0xff) (Z.shiftl (Z.land (Z.shiftr c 8) 0xff) 8))
                     (Z.shiftl (Z.land (Z.shiftr c 16) 0xff) 16)) (Z.shiftl (Z.shiftr c 24) 24).
Proof.
  intros _. change 0xff with (Z.ones 8).
  assert (E : forall k, 0 <= k -> Z.shiftr c k = Z.lxor (Z.land (Z.shiftr c k) (Z.ones 8)) (Z.shiftl (Z.shiftr c (k + 8)) 8))
    by (intros k Hk; rewrite <- Z.shiftr_shiftr by lia; by apply low_high).
  rewrite (low_high c 8) at 1 by lia. rewrite (E 8) at 1 by lia. change (8 + 8) with 16.
  rewrite (E 16) at 1 by lia. change (16 + 8) with 24. rewrite !Z.shiftl_lxor, !Z.shiftl_shiftl by lia. by rewrite !Z.lxor_assoc.
Qed.

(** A loop's state stands for the register behind all of the text. *)
Definition stands (s : Z * bytes) (c : Z) : Prop := in32 s.1 /\ foldl feed s.1 s.2 = c.

Abbreviation T := crc_generate_main_tables.

Lemma CRC_ONE_BYTE_feed c b : in32 c -> CRC_ONE_BYTE T c b = feed c b.
Proof.
  intros H. unfold CRC_ONE_BYTE, feed. pose proof (bval_range b).
  replace (Z.shiftr c 8) with (Z.shiftr (Z.lxor c (bval b)) 8); [apply next_entry_adv|].
  rewrite Z.shiftr_lxor, (Z.shiftr_div_pow2 (bval b)), Z.div_small by lia. apply Z.lxor_0_r.
Qed.

Lemma CRC_FOUR_BYTES_stands s c : stands s c -> stands (CRC_FOUR_BYTES T s) c.
Proof.
  destruct s as [crc [|b0 [|b1 [|b2 [|b3 r]]]]]; try done. intros [H E]. unfold CRC_FOUR_BYTES. cbn [fst snd] in *.
  set (x := Z.lxor crc (le_combine [b0; b1; b2; b3])).
  assert (X : in32 x) by (apply lxor_range; [lia|done|]; pose proof (le_combine_bound [b0; b1; b2; b3]); cbn [length] in *; lia).
  assert (B : foldl feed crc [b0; b1; b2; b3] = adv 32 x) by apply foldl_feed.
  destruct (main_tables (Z.land x 0xff)) as (_ & _ & _ & ->); [by apply (byte_of x 0)|].
  destruct (main_tables (Z.land (Z.shiftr x 8) 0xff)) as (_ & _ & -> & _); [by apply byte_of|].
  destruct (main_tables (Z.land (Z.shiftr x 16) 0xff)) as (_ & -> & _); [by apply byte_of|].
  destruct (main_tables (Z.shiftr x 24)) as (-> & _); [by apply top_byte|].
  set (y := Z.lxor _ _). assert (Y : y = adv 32 x).
  { unfold y. rewrite (word_bytes x) at 5 by done. rewrite !(lin_xor _ (linear_adv 32)).
    rewrite (adv_add 24 8 (Z.shiftl _ 8)), (adv_add 16 16 (Z.shiftl _ 16)), (adv_add 8 24 (Z.shiftl _ 24)).
    by rewrite (adv_shiftl 8), (adv_shiftl 16), (adv_shiftl 24). }
  rewrite Y, <- B. split; cbn [fst snd]; [by apply foldl_feed_in32|]. exact E.
Qed.

Lemma head_loop_stands t block crc addr c : t = T -> stands (crc, block) c -> stands (head_loop t crc block addr) c.
Proof.
  intros ->. revert crc addr. induction block as [|b r IH]; intros crc addr [H E]; [by split|]. cbn [head_loop].
  destruct (_ =? 0); [by split|]. apply IH. cbn [fst snd] in *. rewrite CRC_ONE_BYTE_feed by done. split; [by apply feed_in32|done].
Qed.

Lemma loop4_stands fuel s c : stands s c -> stands (loop4 T fuel s) c.
Proof.
  revert s. induction fuel as [|fuel IH]; intros s H; [done|]. cbn [loop4]. destruct (_ <=? _)%nat; [|done].
  by apply IH, CRC_FOUR_BYTES_stands.
Qed.

Lemma loop32_stands fuel s c : stands s c -> stands (loop32 T fuel s) c.
Proof.
  revert s. induction fuel as [|fuel IH]; intros s H; [done|]. cbn [loop32]. destruct (_ <=? _)%nat; [|done].
  apply IH. generalize 8%nat. intros n. induction n; [done|]. by apply CRC_FOUR_BYTES_stands.
Qed.

Lemma tail_loop_stands s c : stands s c -> tail_loop T s = c.
Proof.
  destruct s as [crc r]. intros [H <-]. unfold tail_loop. cbn [fst snd] in *. revert crc H.
  induction r as [|b r IH]; intros crc H; cbn [foldl]; [done|]. rewrite CRC_ONE_BYTE_feed by done. by apply IH, feed_in32.
Qed.

Lemma mycrc32_eq a i s : in32 i -> mycrc32 T a i s = crc32_bits i s.
Proof.
  intros Hi. unfold mycrc32, crc32_bits, CRC_REORDER. f_equal.
  by apply tail_loop_stands, loop4_stands, loop32_stands, head_loop_stands; [|split; [apply lxor_range|]].
Qed.

Lemma crc32_bits_in32 i s : in32 i -> in32 (crc32_bits i s).
Proof. intros H. apply lxor_range; [lia| |done]. by apply foldl_feed_in32, lxor_range. Qed.

(** C38: The checksum of a block, computed four bytes at a time through the tables, is
    the one its polynomial defines bit by bit, for every start value and text
    and wherever the text lies in memory; so it can be computed in pieces. *)
Theorem mycrc32_bits addr crc block : 0 <= crc < 2 ^ 32 ->
  mycrc32 crc_generate_main_tables addr crc block = crc32_bits crc block /\
  0 <= mycrc32 crc_generate_main_tables addr crc block < 2 ^ 32 /\
  (forall addr' rest, mycrc32 crc_generate_main_tables addr' (mycrc32 crc_generate_main_tables addr crc block) rest =
    crc32_bits crc (block ++ rest)).
Proof.
  intros H. assert (R := crc32_bits_in32 crc block H). rewrite mycrc32_eq by done. split; [done|]. split; [done|].
  intros addr' rest. rewrite mycrc32_eq by done. unfold crc32_bits.
  by rewrite Z.lxor_assoc, Z.lxor_nilpotent, Z.lxor_0_r, foldl_app.
Qed.

Lemma mycrc32_bits_witness :
  0 <= 7 < 2 ^ 32 /\ mycrc32 crc_generate_main_tables 3 7 (bs "a block of more than thirty-two bytes") =
    crc32_bits 7 (bs "a block of more than thirty-two bytes").
Proof.
  split; [lia|]. destruct (mycrc32_bits 3 7 (bs "a block of more than thirty-two bytes")) as [E _]; [lia|exact E].
Defined.

(** ** Matrices *)

(** The matrix of a linear map: what becomes of each bit. *)
Fixpoint columns (L : Z -> Z) (n : nat) : list Z :=
  match n with O => [] | S n => L 1 :: columns (fun y => L (Z.shiftl y 1)) n end.

Lemma columns_ext L K n : (forall y, L y = K y) -> columns L n = columns K n.
Proof. revert L K. induction n as [|n IH]; intros L K E; cbn [columns]; [done|]. f_equal; auto. Qed.

Lemma drop_columns k L n : drop k (columns L (k + n)) = columns (fun y => L (Z.shiftl y (Z.of_nat k))) n.
Proof.
  revert L. induction k as [|k IH]; intros L; [apply columns_ext; intros; by rewrite Z.shiftl_0_r|].
  cbn [Nat.add columns drop]. rewrite IH. apply columns_ext. intros y. rewrite Z.shiftl_shiftl by lia. do 2 f_equal. lia.
Qed.

Lemma map_columns f L n : (forall i, 0 <= i < Z.of_nat n -> f (L (Z.shiftl 1 i)) = L (L (Z.shiftl 1 i))) ->
  map f (columns L n) = columns (fun y => L (L y)) n.
Proof.
  enough (G : forall K, (forall i, 0 <= i < Z.of_nat n -> f (K (Z.shiftl 1 i)) = L (K (Z.shiftl 1 i))) ->
    map f (columns K n) = columns (fun y => L (K y)) n) by apply G.
  induction n as [|n IH]; intros K H; [done|]. cbn [columns map]. f_equal.
  - specialize (H 0 ltac:(lia)). by rewrite Z.shiftl_0_r in H.
  - apply IH. intros i Hi. rewrite Z.shiftl_shiftl by lia. apply H. lia.
Qed.

Lemma sum_rows_columns n L v s : linear L -> 0 <= v < 2 ^ Z.of_nat n -> sum_rows (columns L n) v s = Z.lxor s (L v).
Proof.
  revert L v s. induction n as [|n IH]; intros L v s HL Hv.
  { cbn in *. replace v with 0 by lia. by rewrite (lin_0 _ HL), Z.lxor_0_r. }
  cbn [columns sum_rows]. destruct (Z.eqb_spec v 0) as [->|_]; [by rewrite (lin_0 _ HL), Z.lxor_0_r|].
  rewrite (IH (fun y => L (Z.shiftl y 1))); [|by apply (linear_compose L _ HL (linear_shiftl 1))|].
  2: { rewrite Z.shiftr_div_pow2, Nat2Z.inj_succ, Z.pow_succ_r in * by lia. change (2 ^ 1) with 2. euclid. }
  rewrite (low_high v 1) at 3 by lia. rewrite (lin_xor _ HL), land_1. change (Z.ones 1) with 1.
  assert (E : Z.land v 1 = if Z.testbit v 0 then 1 else 0).
  { change 1 with (Z.ones 1) at 1. rewrite Z.land_ones by lia. rewrite Z.bit0_eqb. change (2 ^ 1) with 2.
    destruct (Z.eqb_spec (v mod 2) 1); euclid. }
  rewrite E. destruct (Z.testbit v 0); [by rewrite Z.lxor_assoc|]. by rewrite (lin_0 _ HL), Z.lxor_0_l.
Qed.

Lemma bit_in32 i : 0 <= i < 32 -> in32 (Z.shiftl 1 i).
Proof. intros H. unfold in32. rewrite Z.shiftl_1_l. split; [lia|]. apply Z.pow_lt_mono_r; lia. Qed.

Lemma square_adv k : crc_matrix_square (columns (adv k) 32) = columns (adv (2 * k)) 32.
Proof.
  unfold crc_matrix_square. rewrite (map_columns _ (adv k)).
  - apply columns_ext. intros y. rewrite <- adv_add. f_equal. lia.
  - intros i Hi. rewrite sum_rows_columns; [apply Z.lxor_0_l|apply linear_adv|]. by apply adv_in32, bit_in32.
Qed.

Lemma m1_adv : m1 = columns (adv 1) 32.
Proof. vm_compute. reflexivity. Qed.

Lemma matrix_table_adv L j k : linear L -> (j <= 3)%nat -> 0 <= k < 256 ->
  entry (map (fun k => sum_rows (drop (j * 8) (columns L 32)) k 0) (seqZ 0 256)) k = L (Z.shiftl k (8 * Z.of_nat j)).
Proof.
  intros HL Hj Hk. rewrite entry_map by done. replace 32%nat with (j * 8 + (32 - j * 8))%nat by lia. rewrite drop_columns.
  rewrite sum_rows_columns; [rewrite Z.lxor_0_l; do 2 f_equal; lia|by apply (linear_compose L _ HL (linear_shiftl _))|].
  split; [lia|]. apply Z.lt_le_trans with (2 ^ 8); [lia|]. apply Z.pow_le_mono_r; lia.
Qed.

Lemma add_zeros_adv k c : in32 c -> add_zeros (matrix_tables (columns (adv k) 32)) c = adv k c.
Proof.
  intros H. assert (L := linear_adv k). unfold add_zeros, matrix_tables. cbn [crc_table0 crc_table1 crc_table2 crc_table3].
  rewrite !matrix_table_adv by (done || lia || by apply byte_of || by apply top_byte || by apply (byte_of c 0)).
  rewrite (word_bytes c) at 5 by done. rewrite !(lin_xor _ L), Z.shiftl_0_r.
  apply xor_reverse.
Qed.

(** ** Combining *)

Lemma zeros_loop_adv n k c q : in32 c -> (Z.of_nat q < 2 ^ Z.of_nat n) ->
  zeros_loop (combine_tables n (columns (adv k) 32)) c (Z.of_nat q) = adv (2 * k * q) c.
Proof.
  revert k c q. induction n as [|n IH]; intros k c q H Q.
  { replace q with 0%nat by (cbn in Q; lia). by rewrite Nat.mul_0_r. }
  cbn [combine_tables zeros_loop]. destruct (Z.eqb_spec (Z.of_nat q) 0) as [E|_].
  { replace q with 0%nat by lia. by rewrite Nat.mul_0_r. }
  rewrite square_adv, land_1, add_zeros_adv by done. rewrite Nat2Z.inj_succ, Z.pow_succ_r in Q by lia.
  assert (S : Z.shiftr (Z.of_nat q) 1 = Z.of_nat (q / 2)) by (rewrite Z.shiftr_div_pow2 by lia; change (2 ^ 1) with 2; by rewrite Nat2Z.inj_div).
  rewrite S, IH; [|destruct (Z.testbit _ _); [by apply adv_in32|done]|rewrite Nat2Z.inj_div; euclid].
  pose proof (Nat.div_mod_eq q 2) as D. rewrite Z.bit0_eqb.
  assert (P : Z.of_nat q mod 2 = Z.of_nat (q mod 2)) by by rewrite Nat2Z.inj_mod.
  rewrite P. pose proof (Nat.mod_upper_bound q 2 ltac:(lia)). destruct (Z.eqb_spec (Z.of_nat (q mod 2)) 1).
  - rewrite <- adv_add. f_equal. replace (q mod 2)%nat with 1%nat in D by lia. rewrite D at 2. nia.
  - f_equal. replace (q mod 2)%nat with 0%nat in D by lia. rewrite D at 2. nia.
Qed.

(** C39: The checksum of a text is combined from the checksums of its two parts and
    the length of the second, for all lengths that 32 bits hold. *)
Theorem mycrc32_combine_app s1 s2 a1 a2 a : Z.of_nat (length s2) < 2 ^ 32 ->
  mycrc32_combine crc_generate_combine_tables
      (mycrc32 crc_generate_main_tables a1 0 s1) (mycrc32 crc_generate_main_tables a2 0 s2) (Z.of_nat (length s2)) =
    mycrc32 crc_generate_main_tables a 0 (s1 ++ s2).
Proof.
  intros H. rewrite !mycrc32_eq by done. unfold mycrc32_combine, crc_generate_combine_tables, crc32_bits.
  rewrite Z.lxor_0_l. set (F := 0xFFFFFFFF). assert (IF : in32 F) by done.
  rewrite m1_adv, !square_adv, (zeros_loop_adv 32 (2 * (2 * 1))); [|apply lxor_range; [lia|by apply foldl_feed_in32|done]|done].
  replace (2 * (2 * (2 * 1)) * length s2)%nat with (8 * length s2)%nat by lia. set (n := (8 * length s2)%nat).
  rewrite foldl_app, !(foldl_feed s2). fold n. rewrite !(lin_xor _ (linear_adv n)).
  set (A := adv n (foldl feed F s1)). set (B := adv n F). set (D := adv n (le_combine s2)).
  rewrite !Z.lxor_assoc. f_equal. rewrite <- !Z.lxor_assoc. by rewrite Z.lxor_nilpotent, Z.lxor_0_l.
Qed.

Lemma mycrc32_combine_app_witness :
  Z.of_nat 4 < 2 ^ 32 /\
  mycrc32_combine crc_generate_combine_tables (mycrc32 crc_generate_main_tables 0 0 (bs "12345"))
    (mycrc32 crc_generate_main_tables 1 0 (bs "6789")) 4 = mycrc32 crc_generate_main_tables 2 0 (bs "12345" ++ bs "6789").
Proof. split; [lia|]. exact (mycrc32_combine_app (bs "12345") (bs "6789") 0 1 2 eq_refl). Defined.

(** The check value every description of this CRC gives. *)
Example check_value : mycrc32 crc_generate_main_tables 1 0 (bs "123456789") = 0xCBF43926.
Proof. vm_compute. reflexivity. Qed.
