(* ===== verification/Text.v ===== *)
(** * Texts cut into pieces
    (base3/string_util.h, base3/string_util.cc, base3/string_split.cc,
    base3/string_tokenizer.h)

    Trimming, removing and comparing, splitting at a character, at a text and at
    blanks, key and value pairs, and the tokenizer with its quotes.  The templates
    over the type of the string are definitions over any type of characters with
    decidable equality; an index that may be [npos] is an option. *)

From S2P Require Import Prelude CString StringEncode Stl.

(** ** [find_first_of] and its kin on a std::basic_string *)

Section Find.
Context {A : Type}.

Fixpoint index (p : A -> bool) (s : list A) : option nat :=
  match s with [] => None | x :: s => if p x then Some 0%nat else S <$> index p s end.

(** The first place from [pos] on, and the last, of a character that [p] holds of. *)
Definition find_first (p : A -> bool) (s : list A) (pos : nat) : option nat := Nat.add pos <$> index p (drop pos s).
Definition find_last (p : A -> bool) (s : list A) : option nat := (fun i => length s - 1 - i)%nat <$> index p (rev s).

Definition substr (s : list A) (pos n : nat) : list A := take n (drop pos s).
End Find.

(** ** string_util.cc *)

Section Templates.
Context {A : Type} `{EqDecision A}.

Definition one_of (chars : list A) (c : A) : bool := bool_decide (c ∈ chars).

Fixpoint remove_loop (fuel : nat) (chars output : list A) (found : option nat) (removed : bool) : option (bool * list A) :=
  match found with
  | None => Some (removed, output)
  | Some i =>
      match fuel with
      | O => None
      | S fuel =>
          let output := take i output ++ drop (S i) output in
          remove_loop fuel chars output (find_first (one_of chars) output i) true
      end
  end.

(** The answer and the output; [None] if the turns do not do. *)
Definition RemoveCharsT (fuel : nat) (input remove_chars : list A) : option (bool * list A) :=
  remove_loop fuel remove_chars input (find_first (one_of remove_chars) input 0) false.

Definition TRIM_NONE : Z := 0.
Definition TRIM_LEADING : Z := 1.
Definition TRIM_TRAILING : Z := 2.
Definition TRIM_ALL : Z := 3.

(** [last_char] of an empty input is [npos], but is not used then. *)
Definition TrimStringT (input trim_chars : list A) (positions : Z) : Z * list A :=
  let last_char := (length input - 1)%nat in
  let first_good_char := if Z.land positions TRIM_LEADING =? 0 then Some 0%nat
    else find_first (fun c => negb (one_of trim_chars c)) input 0 in
  let last_good_char := if Z.land positions TRIM_TRAILING =? 0 then Some last_char
    else find_last (fun c => negb (one_of trim_chars c)) input in
  match input, first_good_char, last_good_char with
  | [], _, _ => (TRIM_NONE, [])
  | _, Some f, Some l =>
      (Z.lor (if (f =? 0)%nat then TRIM_NONE else TRIM_LEADING) (if (l =? last_char)%nat then TRIM_NONE else TRIM_TRAILING),
       substr input f (l - f + 1))
  | _, _, _ => (positions, [])
  end.

(** ** string_split.cc *)

(** The loop from [i] on; [r]: the pieces so far. *)
Fixpoint SplitStringT_loop (trim : list A -> list A) (str : list A) (s : A) (turns i last : nat) (r : list (list A)) : list (list A) :=
  match turns with
  | O => r
  | S turns =>
      if (i =? length str)%nat || bool_decide (str !! i = Some s)
      then SplitStringT_loop trim str s turns (S i) (i + 1) (r ++ [trim (substr str last (i - last))])
      else SplitStringT_loop trim str s turns (S i) last r
  end.

Definition SplitStringT (trim : list A -> list A) (str : list A) (s : A) : list (list A) :=
  SplitStringT_loop trim str s (S (length str)) 0 0 [].
End Templates.

Definition kWhitespaceASCII : bytes := map byt [0x09; 0x0A; 0x0B; 0x0C; 0x0D; 0x20].

Definition RemoveChars (fuel : nat) (input remove_chars : bytes) : option (bool * bytes) := RemoveCharsT fuel input remove_chars.
Definition TrimString (input trim_chars : bytes) : bool * bytes :=
  let '(t, output) := TrimStringT input trim_chars TRIM_ALL in (negb (t =? TRIM_NONE), output).
Definition TrimWhitespaceASCII (input : bytes) (positions : Z) : Z * bytes := TrimStringT input kWhitespaceASCII positions.
Definition trim_all (s : bytes) : bytes := (TrimWhitespaceASCII s TRIM_ALL).2.

(** A debug build checks [c >= 0 && c < 0x7F] first. *)
Definition SplitString (str : bytes) (c : Init.Byte.byte) : list bytes := SplitStringT trim_all str c.
Definition SplitStringDontTrim (str : bytes) (c : Init.Byte.byte) : list bytes := SplitStringT (fun s => s) str c.

(** The answer, the key and the values. *)
Definition SplitStringIntoKeyValues (line : bytes) (key_value_delimiter : Init.Byte.byte) : bool * bytes * list bytes :=
  match find_first (Byte.eqb key_value_delimiter) line 0 with
  | None => (false, [], [])
  | Some end_key_pos =>
      let key := substr line 0 end_key_pos in
      let remains := substr line end_key_pos (length line - end_key_pos) in
      match find_first (fun c => negb (Byte.eqb key_value_delimiter c)) remains 0 with
      | None => (false, key, [])
      | Some begin_values_pos => (true, key, [substr remains begin_values_pos (length remains - begin_values_pos)])
      end
  end.

Fixpoint pairs_loop (pairs : list bytes) (key_value_delimiter : Init.Byte.byte) (success : bool) (kv : list (bytes * bytes)) :
    bool * list (bytes * bytes) :=
  match pairs with
  | [] => (success, kv)
  | [] :: pairs => pairs_loop pairs key_value_delimiter success kv
  | line :: pairs =>
      let '(ok, key, value) := SplitStringIntoKeyValues line key_value_delimiter in
      pairs_loop pairs key_value_delimiter (if ok then success else false) (kv ++ [(key, default [] (head value))])
  end.

Definition SplitStringIntoKeyValuePairs (line : bytes) (key_value_delimiter key_value_pair_delimiter : Init.Byte.byte) :
    bool * list (bytes * bytes) :=
  pairs_loop (SplitString line key_value_pair_delimiter) key_value_delimiter true [].

(** [while (true)]: the rest of the text is looked through for [s]. *)
Fixpoint SplitStringUsingSubstr_loop (fuel : nat) (str s : bytes) (begin_index : Z) (r : list bytes) : option (list bytes) :=
  match fuel with
  | O => None
  | S fuel =>
      let end_index := str_find s str begin_index in
      if end_index =? npos then Some (r ++ [trim_all (drop (Z.to_nat begin_index) str)])
      else SplitStringUsingSubstr_loop fuel str s (end_index + size s)
             (r ++ [trim_all (substr str (Z.to_nat begin_index) (Z.to_nat (end_index - begin_index)))])
  end.

Definition SplitStringUsingSubstr (fuel : nat) (str s : bytes) : option (list bytes) := SplitStringUsingSubstr_loop fuel str s 0 [].

Fixpoint along_loop (str : bytes) (turns i : nat) (last_was_ws : bool) (last_non_ws_start : nat) (result : list bytes) : list bytes :=
  match turns with
  | O => if last_was_ws then result else result ++ [substr str last_non_ws_start (length str - last_non_ws_start)]
  | S turns =>
      if one_of kWhitespaceASCII (nth i str x00) then
        if last_was_ws then along_loop str turns (S i) true last_non_ws_start result
        else along_loop str turns (S i) true last_non_ws_start
               (if (0 <? i)%nat then result ++ [substr str last_non_ws_start (i - last_non_ws_start)] else result)
      else along_loop str turns (S i) false (if last_was_ws then i else last_non_ws_start) result
  end.

Definition SplitStringAlongWhitespace (str : bytes) : list bytes :=
  match str with [] => [] | _ => along_loop str (length str) 0 false 0 [] end.

(** ** Comparing *)

Definition ToLowerASCII (c : Init.Byte.byte) : Init.Byte.byte :=
  if (65 <=? bval c) && (bval c <=? 90) then byt (bval c + 32) else c.
Definition ToUpperASCII (c : Init.Byte.byte) : Init.Byte.byte :=
  if (97 <=? bval c) && (bval c <=? 122) then byt (bval c - 32) else c.

Definition StringToLowerASCII (s : bytes) : bytes := map ToLowerASCII s.
Definition StringToUpperASCII (s : bytes) : bytes := map ToUpperASCII s.

(** [b]: what [const char*] points to, before its NUL. *)
Fixpoint DoLowerCaseEqualsASCII (a b : bytes) : bool :=
  match a, b with
  | [], [] => true
  | [], _ :: _ => false
  | _ :: _, [] => false
  | x :: a, y :: b => if negb (Byte.eqb (ToLowerASCII x) y) then false else DoLowerCaseEqualsASCII a b
  end.

(** [::strncasecmp(s1, s2, n) == 0] in the C locale. *)
Fixpoint strncasecmp_0 (n : nat) (s1 s2 : bytes) : bool :=
  match n with
  | O => true
  | S n =>
      let x := nth 0 s1 x00 in let y := nth 0 s2 x00 in
      Byte.eqb (ToLowerASCII x) (ToLowerASCII y) && (Byte.eqb x x00 || strncasecmp_0 n (tail s1) (tail s2))
  end.

Definition StartsWithASCII (str search : bytes) (case_sensitive : bool) : bool :=
  if case_sensitive then bool_decide (take (length search) str = search)
  else strncasecmp_0 (length search) (c_str str) (c_str search).

(** [std::equal] of as many characters as the first range has. *)
Fixpoint equal_lower (a b : bytes) : bool :=
  match a, b with
  | x :: a, y :: b => Byte.eqb (ToLowerASCII x) (ToLowerASCII y) && equal_lower a b
  | [], _ => true
  | _, [] => false
  end.

Definition EndsWith (str search : bytes) (case_sensitive : bool) : bool :=
  if (length str <? length search)%nat then false
  else if case_sensitive then bool_decide (substr str (length str - length search) (length search) = search)
  else equal_lower search (drop (length str - length search) str).

(** [lcpyT<char>] into the array [dst]: the array and the answer; [src] is the text
    before its NUL, and reading behind that NUL is undefined. *)
Definition at_src (src : bytes) (i : nat) : option Init.Byte.byte := (src ++ [x00]) !! i.

Fixpoint count_loop (fuel : nat) (src : bytes) (n : nat) : option nat :=
  match fuel with
  | O => None
  | S fuel => c ← at_src src n; if Byte.eqb c x00 then Some n else count_loop fuel src (S n)
  end.

Fixpoint lcpy_loop (dst src : bytes) (dst_size turns i : nat) : option (bytes * nat) :=
  match turns with
  | O =>
      let dst := if (dst_size =? 0)%nat then dst else <[(dst_size - 1)%nat := x00]> dst in
      n ← count_loop (S (length src)) src dst_size;
      Some (dst, n)
  | S turns =>
      c ← at_src src i;
      let dst := <[i := c]> dst in
      if Byte.eqb c x00 then Some (dst, i) else lcpy_loop dst src dst_size turns (S i)
  end.

Definition strlcpy (dst src : bytes) (dst_size : nat) : option (bytes * nat) := lcpy_loop dst src dst_size dst_size 0.

(** [IsWprintfFormatPortable]: [None] outside a specification, in it the flag
    [modifier_l]. *)
Definition wcs (s : string) : list Z := map bval (bs s).

Fixpoint portable (spec : option bool) (format : list Z) : bool :=
  match format with
  | [] => true
  | c :: format =>
      match spec with
      | None => portable (if c =? 37 then Some false else None) format
      | Some modifier_l =>
          let next l := if one_of (wcs "diouxXeEfgGaAcspn%") c then portable None format else portable (Some l) format in
          if c =? 108 then next true
          else if (one_of (wcs "sc") c && negb modifier_l) || one_of (wcs "SCFDOU") c then false
          else next modifier_l
      end
  end.

Definition IsWprintfFormatPortable (format : list Z) : bool := portable None format.

(** ** string_tokenizer.h *)

Section Tokenizer.
Context {A : Type} `{EqDecision A}.
Variable backslash : A.

(** [token_begin_] to [token_end_] is [token], [token_end_] to [end_] is [rest];
    [string_] is what [start_pos_] points to. *)
Record StringTokenizerT := mkTokenizer {
  string_ : list A; token : list A; rest : list A; delims_ : list A; quotes_ : list A; options_ : Z; token_is_delim_ : bool }.

Definition Init (s delims : list A) : StringTokenizerT := mkTokenizer s [] s delims [] 0 false.
Definition set_options (options : Z) (t : StringTokenizerT) : StringTokenizerT :=
  mkTokenizer (string_ t) (token t) (rest t) (delims_ t) (quotes_ t) options (token_is_delim_ t).
Definition set_quote_chars (quotes : list A) (t : StringTokenizerT) : StringTokenizerT :=
  mkTokenizer (string_ t) (token t) (rest t) (delims_ t) quotes (options_ t) (token_is_delim_ t).

(** [Reset] moves [token_end_] to the start, [token_begin_] stays. *)
Definition Reset (t : StringTokenizerT) : StringTokenizerT :=
  mkTokenizer (string_ t) [] (string_ t) (delims_ t) (quotes_ t) (options_ t) (token_is_delim_ t).

Definition RETURN_DELIMS : Z := 1.

Definition moved (t : StringTokenizerT) (tok r : list A) (is_delim : bool) : StringTokenizerT :=
  mkTokenizer (string_ t) tok r (delims_ t) (quotes_ t) (options_ t) is_delim.

(** The second loop of [QuickGetNext]. *)
Fixpoint quick_more (delims tok r : list A) : list A * list A :=
  match r with
  | c :: r' => if one_of delims c then (tok, r) else quick_more delims (tok ++ [c]) r'
  | [] => (tok, [])
  end.

Fixpoint QuickGetNext_loop (t : StringTokenizerT) (r : list A) : bool * StringTokenizerT :=
  match r with
  | [] => (false, moved t [] [] false)
  | c :: r =>
      if one_of (delims_ t) c then QuickGetNext_loop t r
      else let '(tok, r) := quick_more (delims_ t) [c] r in (true, moved t tok r false)
  end.

Definition QuickGetNext (t : StringTokenizerT) : bool * StringTokenizerT := QuickGetNext_loop t (rest t).

Inductive AdvanceState := Outside | InQuote (quote_char : A) (in_escape : bool).

(** [None]: a delimiter was hit. *)
Definition AdvanceOne (t : StringTokenizerT) (state : AdvanceState) (c : A) : option AdvanceState :=
  match state with
  | InQuote q true => Some (InQuote q false)
  | InQuote q false =>
      if bool_decide (c = backslash) then Some (InQuote q true)
      else if bool_decide (c = q) then Some Outside else Some state
  | Outside =>
      if one_of (delims_ t) c then None
      else Some (if one_of (quotes_ t) c then InQuote c false else Outside)
  end.

Fixpoint full_more (t : StringTokenizerT) (state : AdvanceState) (tok r : list A) : list A * list A :=
  match r with
  | c :: r' => match AdvanceOne t state c with Some state => full_more t state (tok ++ [c]) r' | None => (tok, r) end
  | [] => (tok, [])
  end.

Fixpoint FullGetNext_loop (t : StringTokenizerT) (r : list A) : bool * StringTokenizerT :=
  match r with
  | [] => (false, moved t [] [] false)
  | c :: r =>
      match AdvanceOne t Outside c with
      | Some state => let '(tok, r) := full_more t state [c] r in (true, moved t tok r false)
      | None => if Z.land (options_ t) RETURN_DELIMS =? 0 then FullGetNext_loop t r else (true, moved t [c] r true)
      end
  end.

Definition FullGetNext (t : StringTokenizerT) : bool * StringTokenizerT := FullGetNext_loop t (rest t).

Definition GetNext (t : StringTokenizerT) : bool * StringTokenizerT :=
  if bool_decide (quotes_ t = []) && (options_ t =? 0) then QuickGetNext t else FullGetNext t.

(** [while (t.GetNext())]: the tokens, each with [token_is_delim()]; [None] if
    the turns do not do. *)
Fixpoint tokens (fuel : nat) (t : StringTokenizerT) : option (list (list A * bool)) :=
  match fuel with
  | O => None
  | S fuel =>
      match GetNext t with
      | (false, _) => Some []
      | (true, t) => l ← tokens fuel t; Some ((token t, token_is_delim_ t) :: l)
      end
  end.
End Tokenizer.
Arguments StringTokenizerT : clear implicits.

(** The tokenizer for std::string. *)
Definition tokenize (quotes delims : bytes) (options : Z) (s : bytes) : option (list (bytes * bool)) :=
  tokens "\"%byte (S (length s)) (set_options options (set_quote_chars quotes (Init s delims))).

(** The examples of the header. *)
Example tokens_plain : option_map (map fst) (tokenize [] (bs " ") 0 (bs "this is a test")) =
  Some [bs "this"; bs "is"; bs "a"; bs "test"].
Proof. vm_compute. reflexivity. Qed.

Definition quote : bytes := [byt 34].

Example tokens_quoted :
  option_map (map fst) (tokenize quote (bs ", ") 0 (bs "no-cache=" ++ quote ++ bs "foo, bar" ++ quote ++ bs ", private")) =
  Some [bs "no-cache=" ++ quote ++ bs "foo, bar" ++ quote; bs "private"].
Proof. vm_compute. reflexivity. Qed.

Example split_examples :
  SplitString (bs " a, b ,,c") ","%byte = [bs "a"; bs "b"; []; bs "c"] /\
  SplitString [] ","%byte = [[]] /\
  SplitStringAlongWhitespace (bs "  ab  c ") = [bs "ab"; bs "c"] /\
  SplitStringIntoKeyValuePairs (bs "a:1;b:: 2;c;;") ":"%byte ";"%byte =
    (false, [(bs "a", bs "1"); (bs "b", bs " 2"); ([], [])]) /\
  SplitStringUsingSubstr 9 (bs "a--b ---c") (bs "--") = Some [bs "a"; bs "b"; bs "-c"].
Proof. repeat split; vm_compute; reflexivity. Qed.

Example trim_examples :
  TrimWhitespaceASCII (bs " a b ") TRIM_LEADING = (TRIM_LEADING, bs "a b ") /\
  TrimWhitespaceASCII (bs "  ") TRIM_TRAILING = (TRIM_TRAILING, []) /\
  TrimString (bs "xax") (bs "x") = (true, bs "a") /\
  RemoveChars 9 (bs "a-b-c") (bs "-") = Some (true, bs "abc").
Proof. repeat split; vm_compute; reflexivity. Qed.

Example portable_examples :
  map IsWprintfFormatPortable [wcs "%d %%"; wcs "%s"; wcs "%ls"; wcs "%5.2lc%"; wcs "%S"; wcs "100%"] =
  [true; false; true; true; false; true].
Proof. vm_compute. reflexivity. Qed.

(** ** Finding *)

Section Facts.
Context {A : Type} `{EqDecision A}.
Implicit Types s : list A.

Lemma index_None p s : index p s = None -> Forall (fun c => p c = false) s.
Proof.
  induction s as [|x s IH]; cbn; [by constructor|]. destruct (p x) eqn:E; [done|].
  destruct (index p s); [done|]. constructor; auto.
Qed.

(** Where the first is, and that there is none before. *)
Lemma index_Some p s i : index p s = Some i ->
  exists a c b, s = a ++ c :: b /\ length a = i /\ p c = true /\ Forall (fun c => p c = false) a.
Proof.
  revert i. induction s as [|x s IH]; intros i; cbn; [done|]. destruct (p x) eqn:E; [intros [= <-]; by exists [], x, s|].
  destruct (index p s) as [j|]; [|done]. intros [= <-]. destruct (IH j eq_refl) as (a & c & b & -> & L & Hc & F).
  exists (x :: a), c, b. split; [done|]. split; [by cbn; rewrite L|]. split; [done|]. by constructor.
Qed.

Lemma index_app p (a : list A) c b : Forall (fun c => p c = false) a -> p c = true -> index p (a ++ c :: b) = Some (length a).
Proof. intros F Hc. induction F as [|x a Hx F IH]; cbn; [by rewrite Hc|]. by rewrite Hx, IH. Qed.

Lemma index_all p s : Forall (fun c => p c = false) s -> index p s = None.
Proof. induction 1 as [|x s Hx F IH]; cbn; [done|]. by rewrite Hx, IH. Qed.

(** ** Removing *)

Lemma filter_none chars (a : list A) : Forall (fun c => one_of chars c = false) a -> List.filter (fun c => negb (one_of chars c)) a = a.
Proof. induction 1 as [|x a Hx F IH]; cbn; [done|]. by rewrite Hx, IH. Qed.

Lemma remove_loop_spec fuel chars (a : list A) s removed : (length s < fuel)%nat -> Forall (fun c => one_of chars c = false) a ->
  remove_loop fuel chars (a ++ s) (find_first (one_of chars) (a ++ s) (length a)) removed =
    Some (removed || existsb (one_of chars) s, a ++ List.filter (fun c => negb (one_of chars c)) s).
Proof.
  revert a s removed. induction fuel as [|fuel IH]; intros a s removed L F; [lia|].
  unfold find_first. rewrite drop_app_length. destruct (index (one_of chars) s) as [i|] eqn:I; cbn [remove_loop fmap option_fmap option_map].
  - apply index_Some in I as (b & c & r & -> & <- & Hc & Fb).
    replace (take (length a + length b) (a ++ b ++ c :: r) ++ drop (S (length a + length b)) (a ++ b ++ c :: r)) with ((a ++ b) ++ r).
    2: { rewrite app_assoc, <- length_app, take_app_length, <- Nat.add_1_r, <- drop_drop, drop_app_length. done. }
    rewrite <- length_app, IH; [|rewrite length_app in L; cbn in L; lia|by apply Forall_app].
    rewrite existsb_app, List.filter_app, (filter_none _ b) by done. cbn. rewrite Hc. cbn.
    rewrite !orb_true_r. by rewrite <- app_assoc.
  - apply index_None in I. rewrite filter_none by done. f_equal. f_equal.
    enough (existsb (one_of chars) s = false) as -> by by rewrite orb_false_r.
    induction I as [|x s Hx I IH2]; cbn; [done|]. rewrite Hx. apply IH2. cbn in L. lia.
Qed.

Lemma RemoveCharsT_spec (input chars : list A) :
  RemoveCharsT (S (length input)) input chars =
    Some (existsb (one_of chars) input, List.filter (fun c => negb (one_of chars c)) input).
Proof. apply (remove_loop_spec (S (length input)) chars [] input false); [lia|constructor]. Qed.

(** ** Trimming *)

Lemma existsb_index p s : existsb p s = false -> Forall (fun c => p c = false) s.
Proof. induction s as [|x s IH]; cbn; [by constructor|]. intros [H1 H2]%orb_false_iff. constructor; auto. Qed.

Abbreviation trimmed chars := (Forall (fun c => one_of chars c = true)).
Abbreviation kept chars := (fun c => negb (one_of chars c)).

Lemma trimmed_kept chars (l : list A) : trimmed chars l <-> Forall (fun c => kept chars c = false) l.
Proof. rewrite !Forall_forall. split; intros H c Hc; specialize (H c Hc); by destruct (one_of chars c). Qed.

Lemma find_first_kept chars (l m : list A) c : trimmed chars l -> one_of chars c = false ->
  find_first (kept chars) (l ++ c :: m) 0 = Some (length l).
Proof. intros F%trimmed_kept Hc. unfold find_first. by rewrite drop_0, index_app by (done || by rewrite Hc). Qed.

Lemma find_last_kept chars (m r : list A) c : trimmed chars r -> one_of chars c = false ->
  find_last (kept chars) (m ++ c :: r) = Some (length m).
Proof.
  intros F Hc. unfold find_last. rewrite rev_app_distr. cbn [rev]. rewrite <- app_assoc. cbn [app].
  rewrite index_app; [|apply trimmed_kept, Forall_rev, F|by rewrite Hc].
  cbn. f_equal. rewrite length_app, length_rev. cbn. lia.
Qed.

Lemma find_first_trimmed chars s : trimmed chars s -> find_first (kept chars) s 0 = None.
Proof. intros F%trimmed_kept. unfold find_first. by rewrite drop_0, index_all. Qed.

Lemma trim_split chars s : ~ trimmed chars s -> exists l w r, s = l ++ w ++ r /\ trimmed chars l /\ trimmed chars r /\
  (exists c m, w = c :: m /\ one_of chars c = false) /\ (exists m c, w = m ++ [c] /\ one_of chars c = false).
Proof.
  intros N. destruct (index (kept chars) s) as [i|] eqn:I; [|by apply index_None, trimmed_kept in I].
  apply index_Some in I as (l & c & b & -> & _ & Hc & Fl). apply negb_true_iff in Hc. apply trimmed_kept in Fl.
  destruct (index (kept chars) (rev (c :: b))) as [j|] eqn:J.
  - apply index_Some in J as (r & c' & b' & E & _ & Hc' & Fr). apply negb_true_iff in Hc'. apply trimmed_kept in Fr.
    apply (f_equal (@rev A)) in E. rewrite rev_involutive, rev_app_distr in E. cbn [rev] in E.
    exists l, (rev b' ++ [c']), (rev r). rewrite E. split; [by rewrite <- !app_assoc|]. split; [done|].
    split; [by apply Forall_rev|]. split; [|by eauto]. rewrite <- app_assoc in E.
    destruct (rev b') as [|x m]; cbn in *; injection E as -> _; eauto.
  - apply index_None, trimmed_kept, Forall_rev in J. rewrite rev_involutive in J. apply Forall_cons in J as [J _]. congruence.
Qed.

Lemma TrimStringT_app chars (l w r : list A) : trimmed chars l -> trimmed chars r ->
  (exists c m, w = c :: m /\ one_of chars c = false) -> (exists m c, w = m ++ [c] /\ one_of chars c = false) ->
  TrimStringT (l ++ w ++ r) chars TRIM_ALL =
    (Z.lor (if (length l =? 0)%nat then 0 else 1) (if (length r =? 0)%nat then 0 else 2), w).
Proof.
  intros Fl Fr (c & m & Hw & Hc) (m' & c' & Hw' & Hc').
  assert (E1 : find_first (kept chars) (l ++ w ++ r) 0 = Some (length l)) by (rewrite Hw; by apply find_first_kept).
  assert (E2 : find_last (kept chars) (l ++ w ++ r) = Some (length l + length m')%nat).
  { rewrite Hw', <- !app_assoc, app_assoc. cbn [app]. rewrite <- length_app. by apply find_last_kept. }
  assert (Lw : length w = S (length m')) by (rewrite Hw', length_app; cbn; lia).
  unfold TrimStringT. change (Z.land TRIM_ALL TRIM_LEADING =? 0) with false. change (Z.land TRIM_ALL TRIM_TRAILING =? 0) with false.
  cbn iota. rewrite E1, E2. destruct (l ++ w ++ r) as [|x s] eqn:E.
  { apply (f_equal length) in E. rewrite !length_app in E. cbn in E. lia. }
  rewrite <- E. unfold substr. rewrite drop_app_length, take_app_length' by lia. f_equal. f_equal.
  rewrite !length_app. destruct (length r) as [|n]; [|].
  - by rewrite (proj2 (Nat.eqb_eq _ _)) by lia.
  - by rewrite (proj2 (Nat.eqb_neq _ _)) by lia.
Qed.

(** What trimming takes off are blanks at the ends, all of them, and the answer is
    whether there were any. *)
Lemma TrimStringT_spec chars s : exists l r,
  s = l ++ (TrimStringT s chars TRIM_ALL).2 ++ r /\ trimmed chars l /\ trimmed chars r /\
  (forall c, head (TrimStringT s chars TRIM_ALL).2 = Some c -> one_of chars c = false) /\
  (forall c, last (TrimStringT s chars TRIM_ALL).2 = Some c -> one_of chars c = false) /\
  ((TrimStringT s chars TRIM_ALL).1 = TRIM_NONE <-> (TrimStringT s chars TRIM_ALL).2 = s).
Proof.
  destruct (decide (Forall (fun c => one_of chars c = true) s)) as [F|N].
  - assert (E : (TrimStringT s chars TRIM_ALL).2 = [] /\ ((TrimStringT s chars TRIM_ALL).1 = TRIM_NONE <-> s = [])).
    { unfold TrimStringT. change (Z.land TRIM_ALL TRIM_LEADING =? 0) with false. cbn iota. rewrite find_first_trimmed by done.
      by destruct s. }
    destruct E as [E1 E2]. exists s, []. rewrite E1. split; [by rewrite app_nil_r|]. split; [done|]. split; [constructor|]. split; [done|]. split; [done|]. by rewrite E2.
  - apply trim_split in N as (l & w & r & -> & Fl & Fr & W1 & W2). rewrite TrimStringT_app by done. cbn [fst snd]. exists l, r.
    split; [done|]. split; [done|]. split; [done|]. destruct W1 as (c & m & Hw & Hc), W2 as (m' & c' & Hw' & Hc').
    split; [by rewrite Hw; intros ? [= <-]|]. split; [by rewrite Hw', last_snoc; intros ? [= <-]|].
    destruct l as [|x l], r as [|y r]; cbn; rewrite ?app_nil_r; (split; [done|]); try done;
      intros E; apply (f_equal length) in E; cbn in E; rewrite ?length_app in E; cbn in E; lia.
Qed.

(** ** Splitting *)

Fixpoint pieces (p : A -> bool) s : list (list A) :=
  match s with
  | [] => [[]]
  | x :: s => if p x then [] :: pieces p s else match pieces p s with w :: ws => (x :: w) :: ws | [] => [[x]] end
  end.

(** With a beginning of the first piece put before it. *)
Definition attach (w : list A) (l : list (list A)) : list (list A) := match l with v :: l => (w ++ v) :: l | [] => [w] end.

Fixpoint join (sep : list A) (l : list (list A)) : list A :=
  match l with [] => [] | [w] => w | w :: l => w ++ sep ++ join sep l end.

Lemma pieces_cons p s : exists w l, pieces p s = w :: l.
Proof. induction s as [|x s (w & l & E)]; cbn; [eauto|]. destruct (p x); [eauto|]. rewrite E. eauto. Qed.

Lemma SplitStringT_loop_S (trim : list A -> list A) str c n i last r :
  SplitStringT_loop trim str c (S n) i last r =
    if (i =? length str)%nat || bool_decide (str !! i = Some c)
    then SplitStringT_loop trim str c n (S i) (i + 1) (r ++ [trim (substr str last (i - last))])
    else SplitStringT_loop trim str c n (S i) last r.
Proof. done. Qed.

Lemma SplitStringT_loop_spec (trim : list A -> list A) str c i last r : (last <= i <= length str)%nat ->
  SplitStringT_loop trim str c (S (length str - i)) i last r =
    r ++ map trim (attach (substr str last (i - last)) (pieces (fun x => bool_decide (x = c)) (drop i str))).
Proof.
  remember (length str - i)%nat as n eqn:N. revert i last r N. induction n as [|n IH]; intros i last r N H; rewrite SplitStringT_loop_S.
  - replace i with (length str) in * by lia. rewrite Nat.eqb_refl. cbn [orb]. rewrite drop_all. cbn. by rewrite app_nil_r.
  - destruct (Nat.eqb_spec i (length str)) as [|_]; [lia|]. cbn [orb].
    destruct (lookup_lt_is_Some_2 str i) as [x Hx]; [lia|]. rewrite Hx, (drop_S str x i Hx). cbn [pieces].
    destruct (pieces_cons (fun x => bool_decide (x = c)) (drop (S i) str)) as (w & l & E).
    destruct (decide (x = c)) as [->|D]; [rewrite !bool_decide_true by done|rewrite !bool_decide_false by congruence].
    + rewrite IH by lia. rewrite <- app_assoc. cbn. f_equal. f_equal; [by rewrite app_nil_r|].
      replace (S i - (i + 1))%nat with 0%nat by lia. unfold substr at 1. rewrite take_0, E. done.
    + rewrite IH by lia. f_equal. rewrite E. cbn [attach]. f_equal. f_equal.
      replace (S i - last)%nat with (S (i - last)) by lia. unfold substr. rewrite (take_S_r _ _ x).
      * by rewrite <- app_assoc.
      * rewrite lookup_drop. rewrite <- Hx. f_equal. lia.
Qed.

Lemma SplitStringT_pieces (trim : list A -> list A) str c :
  SplitStringT trim str c = map trim (pieces (fun x => bool_decide (x = c)) str).
Proof.
  unfold SplitStringT. rewrite <- (Nat.sub_0_r (length str)) at 1. rewrite SplitStringT_loop_spec by lia.
  destruct (pieces_cons (fun x => bool_decide (x = c)) str) as (w & l & E). cbn [app]. rewrite drop_0, E. done.
Qed.

Lemma join_pieces c s : join [c] (pieces (fun x => bool_decide (x = c)) s) = s.
Proof.
  induction s as [|x s IH]; [done|]. cbn [pieces]. destruct (pieces_cons (fun x => bool_decide (x = c)) s) as (w & l & E).
  case_bool_decide as D; rewrite E in *; [subst x; change (c :: join [c] (w :: l) = c :: s); by rewrite IH|].
  destruct l; rewrite <- IH; done.
Qed.

Lemma pieces_without c s : Forall (fun w => c ∉ w) (pieces (fun x => bool_decide (x = c)) s).
Proof.
  induction s as [|x s IH]; cbn [pieces]; [constructor; [apply not_elem_of_nil|done]|].
  case_bool_decide as D; [by constructor; [apply not_elem_of_nil|]|].
  destruct (pieces _ s) as [|w l].
  - constructor; [|done]. rewrite list_elem_of_singleton. by intros ->.
  - apply Forall_cons in IH as [I1 I2]. constructor; [|done]. rewrite not_elem_of_cons. split; [by intros ->|done].
Qed.

Lemma pieces_join c (l : list (list A)) : l <> [] -> Forall (fun w => c ∉ w) l -> pieces (fun x => bool_decide (x = c)) (join [c] l) = l.
Proof.
  intros N F. induction F as [|w l Hw F IH]; [done|]. clear N.
  assert (G : forall s, pieces (fun x => bool_decide (x = c)) (w ++ c :: s) = w :: pieces (fun x => bool_decide (x = c)) s).
  { intros s. induction w as [|x w IHw]; cbn [app pieces]; [by rewrite bool_decide_true by done|].
    rewrite bool_decide_false by set_solver. rewrite IHw by set_solver. done. }
  destruct l as [|v l]; cbn [join]; [|cbn [app]; rewrite G; f_equal; by apply IH].
  clear IH G F. induction w as [|x w IHw]; [done|]. cbn [pieces]. rewrite bool_decide_false by set_solver. by rewrite IHw by set_solver.
Qed.
End Facts.

(** ** The tokenizer *)

Section Tokens.
Context {A : Type} `{EqDecision A}.
Variable backslash : A.
Implicit Types t : StringTokenizerT A.
Abbreviation AdvanceOne := (AdvanceOne backslash).
Abbreviation full_more := (full_more backslash).

Lemma full_more_moved t tok r b st w s : full_more (moved t tok r b) st w s = full_more t st w s.
Proof.
  revert st w. induction s as [|c s IH]; intros st w; cbn [Text.full_more]; [done|].
  change (AdvanceOne (moved t tok r b) st c) with (AdvanceOne t st c). destruct (AdvanceOne t st c); [apply IH|done].
Qed.

Lemma full_more_app t st w s : exists v s', full_more t st w s = (w ++ v, s') /\ s = v ++ s'.
Proof.
  revert st w. induction s as [|c s IH]; intros st w; cbn [Text.full_more]; [exists [], []; by rewrite app_nil_r|].
  destruct (AdvanceOne t st c) as [st'|]; [|exists [], (c :: s); by rewrite app_nil_r].
  destruct (IH st' (w ++ [c])) as (v & s' & -> & ->). exists (c :: v), s'. by rewrite <- app_assoc.
Qed.

Lemma quick_more_full t w s : quotes_ t = [] -> quick_more (delims_ t) w s = full_more t Outside w s.
Proof.
  intros Q. revert w. induction s as [|c s IH]; intros w; cbn; [done|]. destruct (one_of (delims_ t) c); [done|].
  rewrite Q. unfold one_of. rewrite bool_decide_false by apply not_elem_of_nil. apply IH.
Qed.

(** The two versions agree where the quick one is taken. *)
Lemma GetNext_full t : GetNext backslash t = FullGetNext backslash t.
Proof.
  unfold GetNext. case_bool_decide as Q; [|done]. destruct (Z.eqb_spec (options_ t) 0) as [O|]; [|done].
  cbn [andb]. unfold QuickGetNext, FullGetNext. generalize (rest t) as s. induction s as [|c s IH]; cbn; [done|].
  destruct (one_of (delims_ t) c); [by rewrite O|]. rewrite Q. unfold one_of. rewrite bool_decide_false by apply not_elem_of_nil.
  by rewrite quick_more_full.
Qed.

(** All tokens, delimiters too. *)
Fixpoint lex (fuel : nat) t (s : list A) : list (list A * bool) :=
  match fuel, s with
  | O, _ | _, [] => []
  | S fuel, c :: s =>
      match AdvanceOne t Outside c with
      | Some st => let '(tok, s) := full_more t st [c] s in (tok, false) :: lex fuel t s
      | None => ([c], true) :: lex fuel t s
      end
  end.

Lemma lex_moved fuel t tok r b s : lex fuel (moved t tok r b) s = lex fuel t s.
Proof.
  revert s. induction fuel as [|fuel IH]; intros [|c s]; cbn [lex]; try done.
  change (AdvanceOne (moved t tok r b) Outside c) with (AdvanceOne t Outside c).
  destruct (AdvanceOne t Outside c); [rewrite full_more_moved; destruct (full_more t _ _ _)|]; by rewrite IH.
Qed.

Lemma lex_fuel f1 f2 t s : (length s < f1)%nat -> (length s < f2)%nat -> lex f1 t s = lex f2 t s.
Proof.
  revert f2 s. induction f1 as [|f1 IH]; intros [|f2] [|c s] H1 H2; cbn [lex length] in *; try lia; try done.
  destruct (AdvanceOne t Outside c) as [st|]; [|f_equal; apply IH; lia].
  destruct (full_more_app t st [c] s) as (v & s' & -> & ->). rewrite length_app in *. f_equal. apply IH; lia.
Qed.

Lemma lex_concat fuel t s : (length s < fuel)%nat -> concat (map fst (lex fuel t s)) = s.
Proof.
  revert s. induction fuel as [|fuel IH]; intros [|c s] H; cbn [lex length] in *; try lia; [done|].
  destruct (AdvanceOne t Outside c) as [st|]; cbn [map concat fst]; [|rewrite IH by lia; done].
  destruct (full_more_app t st [c] s) as (v & s' & -> & ->). rewrite length_app in *. cbn. by rewrite IH by lia.
Qed.

Lemma lex_tokens fuel t s : Forall (fun x => if x.2 : bool then exists c, x.1 = [c] /\ c ∈ delims_ t else exists c w, x.1 = c :: w /\ c ∉ delims_ t) (lex fuel t s).
Proof.
  revert s. induction fuel as [|fuel IH]; intros [|c s]; cbn [lex]; try constructor.
  unfold Text.AdvanceOne at 1. unfold one_of at 1. case_bool_decide as D; [constructor; [cbn; eauto|done]|].
  destruct (full_more_app t (if one_of (quotes_ t) c then InQuote c false else Outside) [c] s) as (v & s' & -> & _).
  constructor; [cbn; eauto|done].
Qed.

(** One call takes the next token that is to be returned. *)
Definition returned t (x : list A * bool) : bool := negb (x.2 && (Z.land (options_ t) RETURN_DELIMS =? 0)).

Lemma FullGetNext_lex t s fuel : (length s < fuel)%nat ->
  match FullGetNext_loop backslash t s with
  | (false, _) => List.filter (returned t) (lex fuel t s) = []
  | (true, t') => exists tok s' b, t' = moved t tok s' b /\ (length s' < length s)%nat /\
      List.filter (returned t) (lex fuel t s) = (tok, b) :: List.filter (returned t) (lex fuel t s')
  end.
Proof.
  revert fuel. induction s as [|c s IH]; intros [|fuel] H; cbn [length FullGetNext_loop lex] in *; try lia; [done|].
  destruct (AdvanceOne t Outside c) as [st|].
  - destruct (full_more_app t st [c] s) as (v & s' & -> & ->). rewrite length_app in *.
    exists ([c] ++ v), s', false. split; [done|]. split; [lia|]. cbn [List.filter]. change (returned t ([c] ++ v, false)) with true. cbn iota.
    by rewrite (lex_fuel fuel (S fuel) t s') by lia.
  - cbn [List.filter]. change (returned t ([c], true)) with (negb (Z.land (options_ t) RETURN_DELIMS =? 0)).
    destruct (Z.land (options_ t) RETURN_DELIMS =? 0); cbn [negb].
    + specialize (IH fuel ltac:(lia)). destruct (FullGetNext_loop backslash t s) as [[] t']; [|done].
      destruct IH as (tok & s' & b & -> & L & E). exists tok, s', b. split; [done|]. split; [lia|]. by rewrite E, (lex_fuel fuel (S fuel) t s') by lia.
    + exists [c], s, true. split; [done|]. split; [lia|]. by rewrite (lex_fuel fuel (S fuel) t s) by lia.
Qed.

Lemma tokens_lex fuel t : (length (rest t) < fuel)%nat ->
  tokens backslash fuel t = Some (List.filter (returned t) (lex fuel t (rest t))).
Proof.
  revert t. induction fuel as [|fuel IH]; intros t H; [lia|]. cbn [tokens]. rewrite GetNext_full. unfold FullGetNext.
  pose proof (FullGetNext_lex t (rest t) (S fuel) H) as F. destruct (FullGetNext_loop backslash t (rest t)) as [[] t'].
  - destruct F as (tok & s' & b & -> & L & ->). rewrite IH by (cbn; lia). cbn [mbind option_bind rest moved token token_is_delim_].
    rewrite lex_moved. by rewrite (lex_fuel fuel (S fuel) t s') by lia.
  - by rewrite F.
Qed.

(** C40: The tokenizer, whatever the delimiters, quotes and escapes, ends on every
    text; with RETURN_DELIMS its tokens are the text cut into pieces, delimiters one
    by one and the others beginning with none; without, it returns the same
    tokens but for the delimiters, also where the quick version runs. *)
Theorem tokenizer_tokens quotes delims (s : list A) : exists l,
  tokens backslash (S (length s)) (set_options RETURN_DELIMS (set_quote_chars quotes (Init s delims))) = Some l /\
  tokens backslash (S (length s)) (set_quote_chars quotes (Init s delims)) = Some (List.filter (fun x => negb x.2) l) /\
  concat (map fst l) = s /\
  Forall (fun x => if x.2 : bool then exists c, x.1 = [c] /\ c ∈ delims else exists c w, x.1 = c :: w /\ c ∉ delims) l.
Proof.
  exists (lex (S (length s)) (set_options RETURN_DELIMS (set_quote_chars quotes (Init s delims))) s).
  set (t := set_quote_chars quotes (Init s delims)). set (t1 := set_options RETURN_DELIMS t).
  assert (E : forall fuel u, lex fuel t u = lex fuel t1 u).
  { assert (M : forall st w u, full_more t st w u = full_more t1 st w u).
    { intros st w u. revert st w. induction u as [|c u IH]; intros st w; cbn [Text.full_more]; [done|].
      change (AdvanceOne t1 st c) with (AdvanceOne t st c). destruct (AdvanceOne t st c); [apply IH|done]. }
    induction fuel as [|fuel IH]; intros [|c u]; cbn [lex]; try done. change (AdvanceOne t1 Outside c) with (AdvanceOne t Outside c).
    destruct (AdvanceOne t Outside c); [rewrite M; destruct (full_more t1 _ _ _)|]; by rewrite IH. }
  split; [rewrite (tokens_lex _ t1) by (cbn; lia)|split; [rewrite (tokens_lex _ t) by (cbn; lia)|split; [apply lex_concat; lia|exact (lex_tokens _ t1 s)]]].
  - f_equal. induction (lex _ _ _) as [|[? []] l IH]; cbn; [done| |]; by rewrite IH.
  - f_equal. change (rest t) with s. rewrite E. induction (lex _ _ _) as [|[? []] l IH]; cbn; [done| |]; by rewrite IH.
Qed.
End Tokens.

(** ** Texts *)

(** Splitting at a character and joining with it are inverse: what
    SplitStringDontTrim gives is joined to the text, no piece holds the
    character, and pieces that do not hold it are given back from their
    join; SplitString gives the same pieces trimmed. *)
Theorem SplitString_join str c :
  join [c] (SplitStringDontTrim str c) = str /\ Forall (fun w => c ∉ w) (SplitStringDontTrim str c) /\
  SplitString str c = map trim_all (SplitStringDontTrim str c) /\
  (forall l, l <> [] -> Forall (fun w => c ∉ w) l -> SplitStringDontTrim (join [c] l) c = l).
Proof.
  unfold SplitStringDontTrim, SplitString. rewrite !SplitStringT_pieces, map_id.
  split; [apply join_pieces|]. split; [apply pieces_without|]. split; [done|].
  intros l N F. rewrite SplitStringT_pieces, map_id. by apply pieces_join.
Qed.

(** What SplitStringAlongWhitespace gives are the pieces between blanks that are
    not empty. *)
Definition nonempty (w : bytes) : bool := match w with [] => false | _ => true end.
Abbreviation blank := (one_of kWhitespaceASCII).

Lemma along_loop_spec str turns i ws start r : (i + turns = length str)%nat -> str <> [] ->
  (ws = false -> start <= i /\ (0 < i -> start < i))%nat ->
  along_loop str turns i ws start r =
    r ++ List.filter nonempty (if ws : bool then pieces blank (drop i str)
                               else attach (substr str start (i - start)) (pieces blank (drop i str))).
Proof.
  revert i ws start r. induction turns as [|turns IH]; intros i ws start r L N H; cbn [along_loop].
  - replace i with (length str) in * by lia. rewrite drop_all. destruct ws; cbn; [by rewrite app_nil_r|].
    rewrite app_nil_r. assert (0 < length str)%nat by (destruct str; [done|cbn; lia]). destruct (H eq_refl) as [_ H1].
    destruct (substr str start (length str - start)) eqn:E; [|done].
    apply (f_equal length) in E. unfold substr in E. rewrite length_take, length_drop in E. cbn in E. lia.
  - destruct (lookup_lt_is_Some_2 str i) as [x Hx]; [lia|]. rewrite (nth_lookup_Some _ _ _ _ Hx), (drop_S str x i Hx). cbn [pieces].
    destruct (pieces_cons blank (drop (S i) str)) as (w & l & E). destruct (blank x) eqn:B.
    + destruct ws; rewrite IH by (lia || done); [done|]. destruct (Nat.ltb_spec 0 i) as [P|P].
      * destruct (H eq_refl) as [_ H1]. cbn [attach List.filter]. rewrite app_nil_r.
        destruct (substr str start (i - start)) eqn:Sb; [|by rewrite <- app_assoc].
        apply (f_equal length) in Sb. unfold substr in Sb. rewrite length_take, length_drop in Sb. cbn in Sb. lia.
      * replace i with 0%nat in * by lia. done.
    + assert (H' : (false = false -> (if ws then i else start) <= S i /\ (0 < S i -> (if ws then i else start) < S i))%nat)
        by (intros _; destruct ws; [lia|destruct (H eq_refl); lia]).
      rewrite IH by (done || lia). f_equal. f_equal. rewrite E.
      destruct ws; cbn [attach]; (apply (f_equal (fun u => u :: l))).
      * replace (S i - i)%nat with 1%nat by lia. unfold substr. by rewrite (drop_S str x i Hx).
      * destruct (H eq_refl). replace (S i - start)%nat with (S (i - start)) by lia. unfold substr. rewrite (take_S_r _ _ x); [by rewrite <- app_assoc|].
        rewrite lookup_drop, <- Hx. f_equal. lia.
Qed.

Lemma SplitStringAlongWhitespace_spec str :
  SplitStringAlongWhitespace str = List.filter nonempty (pieces blank str).
Proof.
  unfold SplitStringAlongWhitespace. destruct str as [|x str]; [done|]. rewrite along_loop_spec by (done || lia). cbn [app].
  rewrite drop_0. destruct (pieces_cons blank (x :: str)) as (w & l & ->). done.
Qed.

(** ** Keys and values *)

Definition render (kd : Init.Byte.byte) (kv : bytes * bytes) : bytes := kv.1 ++ kd :: kv.2.

(** A pair that can be told from others: the key does not hold the separator of key and
    value, the value is not empty and does not begin with it, neither holds the
    separator of pairs, and there are no blanks at the ends. *)
Definition plain_pair (kd pd : Init.Byte.byte) (kv : bytes * bytes) : Prop :=
  (kd ∉ kv.1) /\ (exists c v, (kv.2 = c :: v) /\ c <> kd) /\ (pd ∉ render kd kv) /\ (trim_all (render kd kv) = render kd kv).

Lemma SplitStringIntoKeyValues_render kd kv : kd ∉ kv.1 -> (exists c v, (kv.2 = c :: v) /\ c <> kd) ->
  SplitStringIntoKeyValues (render kd kv) kd = (true, kv.1, [kv.2]).
Proof.
  destruct kv as [k v]. cbn [fst snd]. intros Hk (c & w & -> & Hc). unfold SplitStringIntoKeyValues, render, find_first. cbn [fst snd].
  assert (E1 : index (Byte.eqb kd) (drop 0 (k ++ kd :: c :: w)) = Some (length k)).
  { rewrite drop_0. apply index_app; [|by destruct (eqb_byte_spec kd kd)]. apply Forall_forall. intros x Hx.
    by destruct (eqb_byte_spec kd x) as [->|]. }
  rewrite E1. change (Nat.add 0 <$> Some (length k)) with (Some (length k)). cbn iota zeta.
  assert (E2 : substr (k ++ kd :: c :: w) (length k) (length (k ++ kd :: c :: w) - length k) = kd :: c :: w).
  { unfold substr. rewrite drop_app_length. apply take_ge. rewrite length_app. lia. }
  assert (E3 : index (fun c0 => negb (Byte.eqb kd c0)) (drop 0 (kd :: c :: w)) = Some 1%nat).
  { apply (index_app _ [kd] c w); [constructor; [|done]; by destruct (eqb_byte_spec kd kd)|].
    by destruct (eqb_byte_spec kd c) as [->|]. }
  rewrite E2, E3. change (Nat.add 0 <$> Some 1%nat) with (Some 1%nat). cbn iota. unfold substr.
  rewrite drop_0, take_app_length. do 2 f_equal. cbn [length drop]. rewrite take_ge; [done|]. cbn [length]. lia.
Qed.

(** Pairs that are plain come back, in order. *)
Lemma SplitStringIntoKeyValuePairs_render kd pd l : Forall (plain_pair kd pd) l ->
  SplitStringIntoKeyValuePairs (join [pd] (map (render kd) l)) kd pd = (true, l).
Proof.
  intros F. unfold SplitStringIntoKeyValuePairs. destruct l as [|kv l]; [done|].
  replace (SplitString (join [pd] (map (render kd) (kv :: l))) pd) with (map (render kd) (kv :: l)).
  - generalize (kv :: l) F. clear. intros l F.
    enough (G : forall kvs, pairs_loop (map (render kd) l) kd true kvs = (true, kvs ++ l)) by apply G.
    induction F as [|kv l (H1 & H2 & _) F IH]; intros kvs; cbn [map pairs_loop]; [by rewrite app_nil_r|].
    pose proof (SplitStringIntoKeyValues_render kd kv H1 H2) as E.
    assert (NE : render kd kv <> []) by (destruct kv as [[|] ?]; done).
    destruct (render kd kv) as [|x line]; [done|]. rewrite E, IH. cbn. rewrite <- app_assoc. by destruct kv.
  - unfold SplitString. rewrite SplitStringT_pieces, pieces_join; [|done|].
    + rewrite map_map. apply map_ext_in. intros x Hx. rewrite List.Forall_forall in F. symmetry. apply (F x Hx).
    + apply Forall_map. eapply Forall_impl; [exact F|]. intros x Hx. apply Hx.
Qed.

(** ** Splitting at a text *)

Lemma join_more (sep w : bytes) l : l <> [] -> join sep (w :: l) = w ++ sep ++ join sep l.
Proof. by destruct l. Qed.

Lemma UsingSubstr_loop_spec str s fuel b r : s <> [] -> size str < npos -> 0 <= b <= size str -> size str - b < Z.of_nat fuel ->
  exists raw, SplitStringUsingSubstr_loop fuel str s b r = Some (r ++ map trim_all raw) /\ raw <> [] /\
    join s raw = drop (Z.to_nat b) str.
Proof.
  intros N L. revert b r. induction fuel as [|fuel IH]; intros b r B F; [lia|]. cbn [SplitStringUsingSubstr_loop].
  destruct (Z.eqb_spec (str_find s str b) npos) as [|D]; [by exists [drop (Z.to_nat b) str]|].
  destruct (str_find_found s str b) as (G1 & G2 & G3); [lia|done|done|]. set (f := str_find s str b) in *.
  assert (0 < size s) by (unfold size; destruct s; [done|cbn; lia]).
  destruct (IH (f + size s) (r ++ [trim_all (substr str (Z.to_nat b) (Z.to_nat (f - b)))])) as (raw & -> & NR & J); [lia|lia|].
  exists (substr str (Z.to_nat b) (Z.to_nat (f - b)) :: raw). split; [by rewrite <- app_assoc|]. split; [done|].
  rewrite join_more, J by done. apply bool_decide_eq_true in G3.
  assert (E : s ++ drop (Z.to_nat (f + size s)) str = drop (Z.to_nat f) str).
  { rewrite <- (take_drop (length s) (drop (Z.to_nat f) str)), G3, drop_drop. do 2 f_equal. unfold size. lia. }
  rewrite E. unfold substr. rewrite <- (take_drop (Z.to_nat (f - b)) (drop (Z.to_nat b) str)) at 2. f_equal. rewrite drop_drop. f_equal. lia.
Qed.

(** Splitting at a text that is not empty ends, and the pieces before they are trimmed
    are joined to what was split. *)
Lemma SplitStringUsingSubstr_spec str s : s <> [] -> size str < npos ->
  exists raw, SplitStringUsingSubstr (S (length str)) str s = Some (map trim_all raw) /\ join s raw = str.
Proof.
  intros N L. destruct (UsingSubstr_loop_spec str s (S (length str)) 0 []) as (raw & E & _ & J); [done|done|unfold size; lia|unfold size; lia|].
  by exists raw.
Qed.

(** At the empty text it never ends. *)
Lemma SplitStringUsingSubstr_empty fuel str : SplitStringUsingSubstr fuel str [] = None.
Proof.
  unfold SplitStringUsingSubstr. generalize (@nil bytes). induction fuel as [|fuel IH]; intros r; [done|]. cbn [SplitStringUsingSubstr_loop].
  assert (E : str_find [] str 0 = 0).
  { unfold str_find. destruct (Z.ltb_spec (size str) 0); [unfold size in *; lia|]. change (Z.to_nat 0) with 0%nat. rewrite drop_0. by destruct str. }
  rewrite E. apply IH.
Qed.

(** ** Copying *)

Lemma count_loop_spec fuel src n : x00 ∉ src -> (n <= length src)%nat -> (length src - n < fuel)%nat ->
  count_loop fuel src n = Some (length src).
Proof.
  intros N. revert n. induction fuel as [|fuel IH]; intros n B F; [lia|]. cbn [count_loop]. unfold at_src.
  destruct (decide (n = length src)) as [->|D].
  - rewrite list_lookup_middle by done. done.
  - rewrite lookup_app_l by lia. destruct (lookup_lt_is_Some_2 src n) as [c Hc]; [lia|]. rewrite Hc. cbn.
    destruct (eqb_byte_spec c x00) as [->|]; [|apply IH; lia]. by apply list_elem_of_lookup_2 in Hc.
Qed.

(** [strlcpy] copies what fits, ends it with a NUL if there is room for one, touches
    nothing else, never reads behind the source's NUL, and answers the
    length of the source. *)
Lemma strlcpy_spec dst src n : x00 ∉ src -> (n <= length dst)%nat ->
  strlcpy dst src n = Some
    (if (n =? 0)%nat then dst else take (n - 1) src ++ x00 :: drop (S (length (take (n - 1) src))) dst, length src).
Proof.
  intros N B. unfold strlcpy.
  enough (G : forall turns i, (i + turns = n)%nat -> (i <= length src)%nat ->
    lcpy_loop (take i src ++ drop i dst) src n turns i = Some
      (if (n =? 0)%nat then dst else take (n - 1) src ++ x00 :: drop (S (length (take (n - 1) src))) dst, length src)).
  { specialize (G n 0%nat). rewrite take_0, drop_0 in G. apply G; lia. }
  induction turns as [|turns IH]; intros i E Hi; cbn [lcpy_loop].
  - replace i with n in * by lia. rewrite count_loop_spec by (done || lia). cbn. f_equal. f_equal.
    destruct (Nat.eqb_spec n 0) as [->|D]; [by rewrite take_0, drop_0|]. rewrite insert_app_l by (rewrite length_take; lia).
    destruct n as [|m]; [done|]. cbn [Nat.sub]. rewrite Nat.sub_0_r. destruct (lookup_lt_is_Some_2 src m) as [c Hc]; [lia|].
    rewrite (take_S_r src m c) by done. rewrite insert_app_r_alt by (rewrite length_take; lia). rewrite length_take_le by lia.
    rewrite Nat.sub_diag. cbn. by rewrite <- app_assoc.
  - unfold at_src. destruct (decide (i = length src)) as [->|D].
    + rewrite list_lookup_middle by done. cbn. rewrite firstn_all. destruct (Nat.eqb_spec n 0); [lia|].
      rewrite (take_ge src) by lia. do 2 f_equal. rewrite insert_app_r_alt by lia. rewrite Nat.sub_diag.
      destruct (drop (length src) dst) as [|d r] eqn:R.
      { apply (f_equal length) in R. rewrite length_drop in R. cbn in R. lia. }
      cbn. do 2 f_equal. rewrite <- Nat.add_1_r, <- drop_drop, R. done.
    + rewrite lookup_app_l by lia. destruct (lookup_lt_is_Some_2 src i) as [c Hc]; [lia|]. rewrite Hc. cbn.
      destruct (eqb_byte_spec c x00) as [->|]; [by apply list_elem_of_lookup_2 in Hc|].
      rewrite <- (IH (S i)) by lia. f_equal. rewrite insert_app_r_alt by (rewrite length_take; lia). rewrite length_take_le, Nat.sub_diag by lia.
      rewrite (take_S_r src i c) by done. destruct (drop i dst) as [|d r] eqn:R.
      { apply (f_equal length) in R. rewrite length_drop in R. cbn in R. lia. }
      cbn. rewrite <- app_assoc. cbn. do 2 f_equal. rewrite <- Nat.add_1_r, <- drop_drop, R. done.
Qed.

(** ** Comparing *)

Lemma DoLowerCaseEqualsASCII_spec a b : DoLowerCaseEqualsASCII a b = bool_decide (StringToLowerASCII a = b).
Proof.
  revert b. induction a as [|x a IH]; intros [|y b]; cbn; try done.
  destruct (eqb_byte_spec (ToLowerASCII x) y) as [<-|N]; cbn [negb]; [|by rewrite bool_decide_false by congruence].
  rewrite IH. apply bool_decide_ext. unfold StringToLowerASCII. naive_solver.
Qed.

Lemma equal_lower_prefix a b : equal_lower a b = bool_decide (StringToLowerASCII a = StringToLowerASCII (take (length a) b)).
Proof.
  revert b. induction a as [|x a IH]; intros [|y b]; cbn; try done.
  destruct (eqb_byte_spec (ToLowerASCII x) (ToLowerASCII y)) as [E|N]; cbn [andb]; [|by rewrite bool_decide_false by congruence].
  rewrite IH, E. apply bool_decide_ext. unfold StringToLowerASCII. split; [by intros ->|by intros [= ->]].
Qed.

(** EndsWith tells whether the text ends so, in the same case or in any. *)
Lemma EndsWith_spec str search (cs : bool) : EndsWith str search cs = true <->
  exists a b, str = a ++ b /\ if cs then b = search else StringToLowerASCII b = StringToLowerASCII search.
Proof.
  unfold EndsWith. destruct (Nat.ltb_spec (length str) (length search)) as [L|L].
  - split; [done|]. intros (a & b & -> & H). destruct cs.
    + rewrite length_app in L. subst. lia.
    + apply (f_equal length) in H. unfold StringToLowerASCII in H. rewrite !length_map in H. rewrite length_app in L. lia.
  - set (k := (length str - length search)%nat). assert (Lk : length (drop k str) = length search) by (rewrite length_drop; lia).
    assert (U : forall a b, str = a ++ b -> length b = length search -> b = drop k str).
    { intros a b -> Hb. unfold k. rewrite length_app, Hb, Nat.add_sub, drop_app_length. done. }
    destruct cs.
    + rewrite bool_decide_eq_true. unfold substr. rewrite take_ge by lia. split.
      * intros E. exists (take k str), (drop k str). by rewrite take_drop.
      * intros (a & b & E & ->). symmetry. by apply (U a).
    + rewrite equal_lower_prefix, bool_decide_eq_true, take_ge by lia. split.
      * intros E. exists (take k str), (drop k str). by rewrite take_drop.
      * intros (a & b & E & H). rewrite <- (U a b E); [done|]. apply (f_equal length) in H. unfold StringToLowerASCII in H.
        by rewrite !length_map in H.
Qed.
