(* ===== verification/Piece.v ===== *)
(** * Pieces of texts (base3/string_piece.h, base3/string_piece.cc)

    A [StringPiece] points into memory somebody else owns: a start and a length.
    Searching in it is compared with searching in a std::string, whose
    functions are given here by the place they have to answer. *)

From S2P Require Import Prelude CString StringEncode Stl.

(** What [ptr_] points to, as far as it may be read, and [length_], which counts
    modulo 2 ^ 64. *)
Record StringPiece := mkPiece { ptr_ : bytes; length_ : Z }.

Definition data (s : StringPiece) : bytes := take (Z.to_nat (length_ s)) (ptr_ s).

(** The piece lies in readable memory. *)
Definition piece_ok (s : StringPiece) : Prop := 0 <= length_ s <= size (ptr_ s) /\ size (ptr_ s) < npos.

Definition of_bytes (s : bytes) : StringPiece := mkPiece s (size s).

Definition remove_prefix (n : Z) (s : StringPiece) : StringPiece := mkPiece (drop (Z.to_nat n) (ptr_ s)) (u64 (length_ s - n)).
Definition remove_suffix (n : Z) (s : StringPiece) : StringPiece := mkPiece (ptr_ s) (u64 (length_ s - n)).

Definition piece_substr (s : StringPiece) (pos n : Z) : StringPiece :=
  let pos := if length_ s <? pos then length_ s else pos in
  let n := if u64 (length_ s - pos) <? n then u64 (length_ s - pos) else n in
  mkPiece (drop (Z.to_nat pos) (ptr_ s)) n.

(** [memcpy(buf, ptr_ + pos, ret)]: what is copied; [None] if it is read where
    there is no memory. *)
Definition copy (s : StringPiece) (n pos : Z) : option (Z * bytes) :=
  let ret := Z.min (u64 (length_ s - pos)) n in
  if size (ptr_ s) <? pos + ret then None else Some (ret, take (Z.to_nat ret) (drop (Z.to_nat pos) (ptr_ s))).

(** ** Comparing *)

(** The sign of [memcmp]. *)
Fixpoint wordmemcmp (p p2 : bytes) (n : nat) : Z :=
  match n, p, p2 with
  | S n, x :: p, y :: p2 => if Byte.eqb x y then wordmemcmp p p2 n else if bval x <? bval y then -1 else 1
  | _, _, _ => 0
  end.

Definition compare (s x : StringPiece) : Z :=
  let r := wordmemcmp (data s) (data x) (Z.to_nat (Z.min (length_ s) (length_ x))) in
  if r =? 0 then (if length_ s <? length_ x then -1 else if length_ x <? length_ s then 1 else 0) else r.

Definition piece_eqb (x y : StringPiece) : bool :=
  if negb (length_ x =? length_ y) then false else wordmemcmp (data x) (data y) (Z.to_nat (length_ x)) =? 0.

Definition piece_ltb (x y : StringPiece) : bool :=
  let r := wordmemcmp (data x) (data y) (Z.to_nat (Z.min (length_ x) (length_ y))) in
  (r <? 0) || ((r =? 0) && (length_ x <? length_ y)).

Definition piece_starts_with (s x : StringPiece) : bool :=
  (length_ x <=? length_ s) && (wordmemcmp (data s) (data x) (Z.to_nat (length_ x)) =? 0).

Definition piece_ends_with (s x : StringPiece) : bool :=
  (length_ x <=? length_ s) &&
  (wordmemcmp (drop (Z.to_nat (length_ s - length_ x)) (data s)) (data x) (Z.to_nat (length_ x)) =? 0).

(** ** Searching *)

(** [for (; pos < length_; ++pos)] over what follows [pos]. *)
Fixpoint up (p : Init.Byte.byte -> bool) (l : bytes) (i : Z) : Z :=
  match l with [] => npos | c :: l => if p c then i else up p l (i + 1) end.

(** [for (i = ...; ; --i)], out at 0. *)
Fixpoint down (p : nat -> bool) (i : nat) : Z :=
  if p i then Z.of_nat i else match i with O => npos | S i => down p i end.

(** std::search from [i] on, and std::find_end down from [i]. *)
Fixpoint search (l s : bytes) (i : Z) : Z :=
  if starts_with l s then i else match l with [] => i | _ :: l => search l s (i + 1) end.

Definition find (t s : StringPiece) (pos : Z) : Z :=
  if length_ t <? pos then npos else
  let xpos := search (drop (Z.to_nat pos) (data t)) (data s) pos in
  if xpos + length_ s <=? length_ t then xpos else npos.

Definition find_char (t : StringPiece) (c : Init.Byte.byte) (pos : Z) : Z :=
  if length_ t <=? pos then npos else up (Byte.eqb c) (drop (Z.to_nat pos) (data t)) pos.

Definition rfind (t s : StringPiece) (pos : Z) : Z :=
  if length_ t <? length_ s then npos else
  if length_ s =? 0 then Z.min (length_ t) pos else
  down (fun i => starts_with (drop i (data t)) (data s)) (Z.to_nat (Z.min (length_ t - length_ s) pos)).

Definition at_ (t : StringPiece) (i : nat) : Init.Byte.byte := nth i (data t) x00.

Definition rfind_char (t : StringPiece) (c : Init.Byte.byte) (pos : Z) : Z :=
  if length_ t =? 0 then npos else
  down (fun i => Byte.eqb (at_ t i) c) (Z.to_nat (Z.min pos (length_ t - 1))).

(** [bool lookup[UCHAR_MAX + 1]]. *)
Definition BuildLookupTable (characters_wanted : bytes) (table : list bool) : list bool :=
  foldl (fun t c => <[Z.to_nat (bval c) := true]> t) table characters_wanted.

Definition lookup_table (s : StringPiece) : list bool := BuildLookupTable (data s) (replicate 256 false).
Definition looked_up (table : list bool) (c : Init.Byte.byte) : bool := nth (Z.to_nat (bval c)) table false.

Definition find_first_of (t s : StringPiece) (pos : Z) : Z :=
  if (length_ t =? 0) || (length_ s =? 0) then npos else
  if length_ s =? 1 then find_char t (at_ s 0) pos else
  up (looked_up (lookup_table s)) (drop (Z.to_nat pos) (data t)) pos.

Definition find_first_not_of_char (t : StringPiece) (c : Init.Byte.byte) (pos : Z) : Z :=
  if length_ t =? 0 then npos else up (fun x => negb (Byte.eqb x c)) (drop (Z.to_nat pos) (data t)) pos.

Definition find_first_not_of (t s : StringPiece) (pos : Z) : Z :=
  if length_ t =? 0 then npos else
  if length_ s =? 0 then 0 else
  if length_ s =? 1 then find_first_not_of_char t (at_ s 0) pos else
  up (fun c => negb (looked_up (lookup_table s) c)) (drop (Z.to_nat pos) (data t)) pos.

Definition find_last_of (t s : StringPiece) (pos : Z) : Z :=
  if (length_ t =? 0) || (length_ s =? 0) then npos else
  if length_ s =? 1 then rfind_char t (at_ s 0) pos else
  down (fun i => looked_up (lookup_table s) (at_ t i)) (Z.to_nat (Z.min pos (length_ t - 1))).

Definition find_last_not_of_char (t : StringPiece) (c : Init.Byte.byte) (pos : Z) : Z :=
  if length_ t =? 0 then npos else
  down (fun i => negb (Byte.eqb (at_ t i) c)) (Z.to_nat (Z.min pos (length_ t - 1))).

Definition find_last_not_of (t s : StringPiece) (pos : Z) : Z :=
  if length_ t =? 0 then npos else
  let i := Z.min pos (length_ t - 1) in
  if length_ s =? 0 then i else
  if length_ s =? 1 then find_last_not_of_char t (at_ s 0) pos else
  down (fun i => negb (looked_up (lookup_table s) (at_ t i))) (Z.to_nat i).

(** ** What std::string answers *)

(** The least place from [pos] on, below [bound], where [p] holds, or [npos]; and the
    greatest up to [pos]. *)
Definition is_least (p : Z -> Prop) (pos bound r : Z) : Prop :=
  (r = npos /\ (forall i, pos <= i < bound -> ~ p i)) \/
  (pos <= r < bound /\ p r /\ (forall i, pos <= i < r -> ~ p i)).
Definition is_greatest (p : Z -> Prop) (pos bound r : Z) : Prop :=
  (r = npos /\ (forall i, 0 <= i <= pos -> i < bound -> ~ p i)) \/
  (0 <= r <= pos /\ r < bound /\ p r /\ (forall i, r < i <= pos -> i < bound -> ~ p i)).

Definition occurs_at (t s : bytes) (i : Z) : Prop := starts_with (drop (Z.to_nat i) t) s = true.
Definition in_set (t : bytes) (set : bytes) (i : Z) : Prop := exists c, t !! Z.to_nat i = Some c /\ c ∈ set.
Definition not_in_set (t : bytes) (set : bytes) (i : Z) : Prop := exists c, t !! Z.to_nat i = Some c /\ c ∉ set.

(** ** Facts *)

Lemma length_data t : piece_ok t -> Z.of_nat (length (data t)) = length_ t.
Proof. intros [H _]. unfold data. rewrite length_take. unfold size in H. lia. Qed.

Definition holds_at (q : Init.Byte.byte -> bool) (t : bytes) (i : Z) : Prop := exists c, t !! Z.to_nat i = Some c /\ q c = true.

Lemma up_spec q l i :
  (up q l i = npos /\ forall k c, l !! k = Some c -> q c = false) \/
  (exists k c, up q l i = i + Z.of_nat k /\ l !! k = Some c /\ q c = true /\ (forall j d, (j < k)%nat -> l !! j = Some d -> q d = false)).
Proof.
  revert i. induction l as [|x l IH]; intros i; cbn [up]; [by left|]. destruct (q x) eqn:E.
  - right. exists 0%nat, x. split; [lia|]. split; [done|]. split; [done|]. lia.
  - destruct (IH (i + 1)) as [[U F]|(k & c & U & H1 & H2 & H3)]; [left|right].
    + split; [done|]. intros [|k] c; [by intros [= <-]|apply F].
    + exists (S k), c. split; [lia|]. split; [done|]. split; [done|]. intros [|j] d Hj; [by intros [= <-]|apply H3; lia].
Qed.

Lemma up_least q t pos : 0 <= pos -> is_least (holds_at q t) pos (Z.of_nat (length t)) (up q (drop (Z.to_nat pos) t) pos).
Proof.
  intros P. destruct (up_spec q (drop (Z.to_nat pos) t) pos) as [[U F]|(k & c & U & H1 & H2 & H3)].
  - left. split; [done|]. intros i Hi (c & Hc & Q). specialize (F (Z.to_nat i - Z.to_nat pos)%nat c). rewrite lookup_drop in F.
    replace (Z.to_nat pos + (Z.to_nat i - Z.to_nat pos))%nat with (Z.to_nat i) in F by lia. rewrite F in Q; done.
  - right. rewrite U. rewrite lookup_drop in H1. assert (K := lookup_lt_Some _ _ _ H1).
    split; [lia|]. split; [exists c; split; [|done]; rewrite <- H1; f_equal; lia|].
    intros i Hi (d & Hd & Q). specialize (H3 (Z.to_nat i - Z.to_nat pos)%nat d ltac:(lia)). rewrite lookup_drop in H3.
    replace (Z.to_nat pos + (Z.to_nat i - Z.to_nat pos))%nat with (Z.to_nat i) in H3 by lia. rewrite H3 in Q; done.
Qed.

Lemma down_spec p i :
  (down p i = npos /\ forall k, (k <= i)%nat -> p k = false) \/
  (exists k, down p i = Z.of_nat k /\ (k <= i)%nat /\ p k = true /\ forall j, (k < j <= i)%nat -> p j = false).
Proof.
  induction i as [|i IH]; cbn [down]; [destruct (p 0%nat) eqn:E|destruct (p (S i)) eqn:E].
  - right. exists 0%nat. repeat split; try lia; done.
  - left. split; [done|]. intros k Hk. by replace k with 0%nat by lia.
  - right. exists (S i). repeat split; try lia; done.
  - destruct IH as [[D F]|(k & D & Hk & Pk & F)]; [left|right].
    + split; [done|]. intros k Hk. destruct (decide (k = S i)) as [->|]; [done|]. apply F. lia.
    + exists k. split; [done|]. split; [lia|]. split; [done|]. intros j Hj. destruct (decide (j = S i)) as [->|]; [done|]. apply F. lia.
Qed.

(** A search down from [pos], where [p] is asked below [bound] only. *)
Lemma down_greatest p q pos bound : 0 <= pos -> 0 < bound -> (forall i, 0 <= i < bound -> p (Z.to_nat i) = true <-> q i) ->
  is_greatest q pos bound (down p (Z.to_nat (Z.min pos (bound - 1)))).
Proof.
  intros P B H. destruct (down_spec p (Z.to_nat (Z.min pos (bound - 1)))) as [[-> F]|(k & -> & Hk & Pk & F)]; [left|right].
  - split; [done|]. intros i Hi Hb Q%H; [|lia]. rewrite F in Q; [done|lia].
  - split; [lia|]. split; [lia|]. split; [apply H; [lia|]; by rewrite Nat2Z.id|].
    intros i Hi Hb Q%H; [|lia]. rewrite F in Q; [done|lia].
Qed.

(** The table tells the characters it was built from. *)
Lemma BuildLookupTable_spec s t c : length t = 256%nat ->
  nth (Z.to_nat (bval c)) (BuildLookupTable s t) false = nth (Z.to_nat (bval c)) t false || bool_decide (c ∈ s).
Proof.
  unfold BuildLookupTable. revert t. induction s as [|d s IH]; intros t L; cbn [foldl].
  - rewrite bool_decide_false by apply not_elem_of_nil. by rewrite orb_false_r.
  - rewrite IH by (by rewrite length_insert). pose proof (bval_range c). pose proof (bval_range d). destruct (decide (c = d)) as [->|N].
    + rewrite (nth_lookup_Some _ _ _ true) by (apply list_lookup_insert_eq; lia). cbn. rewrite bool_decide_true by (by left). by rewrite orb_true_r.
    + rewrite !nth_lookup, list_lookup_insert_ne. 
      * f_equal. apply bool_decide_ext. rewrite elem_of_cons. split; [by right|by intros [->|]].
      * intros E. apply N. rewrite <- (byt_bval c), <- (byt_bval d). f_equal. lia.
Qed.

Lemma looked_up_spec s c : looked_up (lookup_table s) c = bool_decide (c ∈ data s).
Proof.
  unfold looked_up, lookup_table. rewrite BuildLookupTable_spec by apply length_replicate.
  by rewrite nth_lookup, lookup_replicate_2 by (pose proof (bval_range c); lia).
Qed.

Lemma least_ext p q pos bound r : (forall i, pos <= i < bound -> p i <-> q i) -> is_least p pos bound r -> is_least q pos bound r.
Proof.
  intros H [[-> F]|(B & P & F)]; [left|right].
  - split; [done|]. intros i Hi Q%H; [|done]. by apply (F i).
  - split; [done|]. split; [by apply H|]. intros i Hi Q%H; [|lia]. by apply (F i).
Qed.

Lemma search_spec l s i :
  (exists k, search l s i = i + Z.of_nat k /\ (k <= length l)%nat /\ starts_with (drop k l) s = true /\
    forall j, (j < k)%nat -> starts_with (drop j l) s = false) \/
  (search l s i = i + Z.of_nat (length l) /\ forall j, starts_with (drop j l) s = false).
Proof.
  revert i. induction l as [|x l IH]; intros i; cbn [search]; destruct (starts_with _ s) eqn:E.
  - left. exists 0%nat. repeat split; try lia; done.
  - right. split; [cbn; lia|]. intros j. by rewrite drop_nil.
  - left. exists 0%nat. split; [lia|]. split; [lia|]. split; [done|]. lia.
  - destruct (IH (i + 1)) as [(k & U & L & H & F)|[U F]]; [left|right].
    + exists (S k). split; [lia|]. split; [cbn; lia|]. split; [done|]. intros [|j] Hj; [done|]. apply F. lia.
    + split; [cbn [length]; lia|]. intros [|j]; [exact E|apply F].
Qed.

Lemma starts_with_length l s : starts_with l s = true -> (length s <= length l)%nat.
Proof. intros E%bool_decide_eq_true. rewrite <- E, length_take. lia. Qed.

Lemma find_least t s pos : piece_ok t -> piece_ok s -> 0 <= pos ->
  is_least (occurs_at (data t) (data s)) pos (length_ t - length_ s + 1) (find t s pos).
Proof.
  intros Ot Os P. pose proof (length_data t Ot) as Lt. pose proof (length_data s Os) as Ls. unfold find.
  assert (N : 0 <= length_ s /\ 0 <= length_ t < npos) by (destruct Ot as [? ?], Os; split; lia).
  destruct (Z.ltb_spec (length_ t) pos); [left; split; [done|]; intros i Hi; lia|].
  destruct (search_spec (drop (Z.to_nat pos) (data t)) (data s) pos) as [(k & -> & L & H1 & F)|[-> F]].
  - rewrite drop_drop in H1. assert (B := starts_with_length _ _ H1). rewrite !length_drop in *.
    destruct (Z.leb_spec (pos + Z.of_nat k + length_ s) (length_ t)); [|lia]. right. split; [lia|].
    split; [unfold occurs_at; rewrite <- H1; do 2 f_equal; lia|]. intros i Hi O.
    specialize (F (Z.to_nat i - Z.to_nat pos)%nat ltac:(lia)). rewrite drop_drop in F. unfold occurs_at in O.
    replace (Z.to_nat pos + (Z.to_nat i - Z.to_nat pos))%nat with (Z.to_nat i) in F by lia. congruence.
  - rewrite length_drop. destruct (Z.leb_spec (pos + Z.of_nat (length (data t) - Z.to_nat pos) + length_ s) (length_ t)) as [E|E].
    + specialize (F (length (data t) - Z.to_nat pos)%nat). rewrite drop_drop in F. unfold starts_with in F.
      destruct (data s) as [|x u]; [by rewrite take_0, bool_decide_true in F|]. cbn in Ls. lia.
    + left. split; [done|]. intros i Hi O. specialize (F (Z.to_nat i - Z.to_nat pos)%nat). rewrite drop_drop in F. unfold occurs_at in O.
      replace (Z.to_nat pos + (Z.to_nat i - Z.to_nat pos))%nat with (Z.to_nat i) in F by lia. congruence.
Qed.

Lemma rfind_greatest t s pos : piece_ok t -> piece_ok s -> 0 <= pos ->
  is_greatest (occurs_at (data t) (data s)) pos (length_ t - length_ s + 1) (rfind t s pos).
Proof.
  intros Ot Os P. pose proof (length_data t Ot) as Lt. pose proof (length_data s Os) as Ls. unfold rfind.
  destruct (Z.ltb_spec (length_ t) (length_ s)); [left; split; [done|]; intros i Hi; lia|].
  destruct (Z.eqb_spec (length_ s) 0) as [E|E].
  - right. assert (data s = []) as -> by (destruct (data s); [done|cbn in Ls; lia]).
    split; [lia|]. split; [lia|]. split; [unfold occurs_at, starts_with; by rewrite take_0, bool_decide_true|]. intros i Hi. lia.
  - replace (Z.min (length_ t - length_ s) pos) with (Z.min pos (length_ t - length_ s + 1 - 1)) by lia.
    apply down_greatest; [lia|lia|]. done.
Qed.

Lemma at_lookup t i : piece_ok t -> 0 <= i < length_ t -> data t !! Z.to_nat i = Some (at_ t (Z.to_nat i)).
Proof.
  intros O H. pose proof (length_data t O). unfold at_. rewrite nth_lookup.
  destruct (lookup_lt_is_Some_2 (data t) (Z.to_nat i)) as [c ->]; [lia|]. done.
Qed.

Lemma single s : piece_ok s -> length_ s = 1 -> data s = [at_ s 0].
Proof. intros O L. pose proof (length_data s O) as H. unfold at_. destruct (data s) as [|c [|]]; cbn in *; try lia. done. Qed.

(** A search up or down for characters that [q] tells. *)
Lemma up_in t q set pos : piece_ok t -> 0 <= pos -> (forall c, q c = true <-> c ∈ set) ->
  is_least (in_set (data t) set) pos (length_ t) (up q (drop (Z.to_nat pos) (data t)) pos).
Proof.
  intros O P H. rewrite <- (length_data t O). apply (least_ext (holds_at q (data t))); [|by apply up_least].
  intros i _. unfold holds_at, in_set. by setoid_rewrite H.
Qed.

Lemma up_not_in t q set pos : piece_ok t -> 0 <= pos -> (forall c, q c = true <-> c ∉ set) ->
  is_least (not_in_set (data t) set) pos (length_ t) (up q (drop (Z.to_nat pos) (data t)) pos).
Proof.
  intros O P H. rewrite <- (length_data t O). apply (least_ext (holds_at q (data t))); [|by apply up_least].
  intros i _. unfold holds_at, not_in_set. by setoid_rewrite H.
Qed.

Lemma down_at t q (set : bytes -> Z -> Prop) pos : piece_ok t -> 0 <= pos -> length_ t <> 0 ->
  (forall i c, data t !! Z.to_nat i = Some c -> q c = true <-> set (data t) i) ->
  is_greatest (set (data t)) pos (length_ t) (down (fun i => q (at_ t i)) (Z.to_nat (Z.min pos (length_ t - 1)))).
Proof.
  intros O P N H. apply down_greatest; [done|destruct O; lia|]. intros i Hi. apply (H i). by apply at_lookup.
Qed.

Lemma in_set_at d set i c : d !! Z.to_nat i = Some c -> c ∈ set <-> in_set d set i.
Proof. intros H. unfold in_set. rewrite H. split; [by exists c|by intros (? & [= <-] & ?)]. Qed.

Lemma not_in_set_at d set i c : d !! Z.to_nat i = Some c -> c ∉ set <-> not_in_set d set i.
Proof. intros H. unfold not_in_set. rewrite H. split; [by exists c|by intros (? & [= <-] & ?)]. Qed.

Lemma empty_least (p : bytes -> Z -> Prop) t pos : piece_ok t -> length_ t = 0 -> 0 <= pos -> is_least (p (data t)) pos (length_ t) npos.
Proof. intros O E P. left. split; [done|]. lia. Qed.

Lemma empty_greatest (p : bytes -> Z -> Prop) t pos : length_ t = 0 -> is_greatest (p (data t)) pos (length_ t) npos.
Proof. intros E. left. split; [done|]. lia. Qed.

Lemma find_char_up t c pos : piece_ok t -> 0 <= pos -> find_char t c pos = up (Byte.eqb c) (drop (Z.to_nat pos) (data t)) pos.
Proof.
  intros O P. unfold find_char. destruct (Z.leb_spec (length_ t) pos); [|done].
  rewrite drop_ge; [done|]. pose proof (length_data t O). lia.
Qed.

Lemma empty_data s : piece_ok s -> length_ s = 0 -> data s = [].
Proof. intros O E. pose proof (length_data s O). destruct (data s); [done|cbn in *; lia]. Qed.

Lemma eqb_in c d : Byte.eqb c d = true <-> d ∈ [c].
Proof. rewrite list_elem_of_singleton. destruct (eqb_byte_spec c d); naive_solver. Qed.

Lemma looked_in s c : looked_up (lookup_table s) c = true <-> c ∈ data s.
Proof. by rewrite looked_up_spec, bool_decide_eq_true. Qed.

Lemma looked_not_in s c : negb (looked_up (lookup_table s) c) = true <-> c ∉ data s.
Proof. by rewrite looked_up_spec, negb_true_iff, bool_decide_eq_false. Qed.

Lemma neqb_not_in c d : negb (Byte.eqb d c) = true <-> d ∉ [c].
Proof. rewrite list_elem_of_singleton. destruct (eqb_byte_spec d c); naive_solver. Qed.

Lemma find_first_of_least t s pos : piece_ok t -> piece_ok s -> 0 <= pos ->
  is_least (in_set (data t) (data s)) pos (length_ t) (find_first_of t s pos).
Proof.
  intros Ot Os P. unfold find_first_of. destruct (Z.eqb_spec (length_ t) 0); [by apply (empty_least (fun d => in_set d _))|].
  destruct (Z.eqb_spec (length_ s) 0) as [E|E]; cbn [orb].
  - left. split; [done|]. intros i _ (c & _ & H). rewrite empty_data in H by done. by apply elem_of_nil in H.
  - destruct (Z.eqb_spec (length_ s) 1) as [E1|E1].
    + rewrite find_char_up, (single s) by done. by apply up_in; [| |apply eqb_in].
    + by apply up_in; [| |apply looked_in].
Qed.

Lemma find_first_not_of_least t s pos : piece_ok t -> piece_ok s -> 0 <= pos -> (length_ s = 0 -> pos = 0) ->
  is_least (not_in_set (data t) (data s)) pos (length_ t) (find_first_not_of t s pos).
Proof.
  intros Ot Os P H0. unfold find_first_not_of. destruct (Z.eqb_spec (length_ t) 0); [by apply (empty_least (fun d => not_in_set d _))|].
  destruct (Z.eqb_spec (length_ s) 0) as [E|E].
  - rewrite H0 by done. right. split; [destruct Ot; lia|]. split; [|lia]. eexists. split; [apply (at_lookup t 0); [done|destruct Ot; lia]|].
    rewrite empty_data by done. apply not_elem_of_nil.
  - destruct (Z.eqb_spec (length_ s) 1) as [E1|E1].
    + rewrite (single s) at 1 by done. unfold find_first_not_of_char. rewrite (proj2 (Z.eqb_neq _ _)) by done.
      by apply up_not_in; [| |intros; apply neqb_not_in].
    + by apply up_not_in; [| |intros; apply looked_not_in].
Qed.

Lemma find_last_of_greatest t s pos : piece_ok t -> piece_ok s -> 0 <= pos ->
  is_greatest (in_set (data t) (data s)) pos (length_ t) (find_last_of t s pos).
Proof.
  intros Ot Os P. unfold find_last_of. destruct (Z.eqb_spec (length_ t) 0); [by apply (empty_greatest (fun d => in_set d _))|].
  destruct (Z.eqb_spec (length_ s) 0) as [E|E]; cbn [orb].
  - left. split; [done|]. intros i _ _ (c & _ & H). rewrite empty_data in H by done. by apply elem_of_nil in H.
  - destruct (Z.eqb_spec (length_ s) 1) as [E1|E1].
    + unfold rfind_char. rewrite (proj2 (Z.eqb_neq _ _)) by done. rewrite (single s) at 1 by done.
      apply (down_at t (fun x => Byte.eqb x (at_ s 0)) (fun d => in_set d [at_ s 0])); [done|done|done|].
      intros i c Hc. rewrite <- (in_set_at _ _ _ _ Hc), <- eqb_in. destruct (eqb_byte_spec c (at_ s 0)), (eqb_byte_spec (at_ s 0) c); naive_solver.
    + apply (down_at t (looked_up (lookup_table s)) (fun d => in_set d (data s))); [done|done|done|].
      intros i c Hc. by rewrite <- (in_set_at _ _ _ _ Hc), looked_in.
Qed.

Lemma find_last_not_of_greatest t s pos : piece_ok t -> piece_ok s -> 0 <= pos ->
  is_greatest (not_in_set (data t) (data s)) pos (length_ t) (find_last_not_of t s pos).
Proof.
  intros Ot Os P. unfold find_last_not_of. destruct (Z.eqb_spec (length_ t) 0); [by apply (empty_greatest (fun d => not_in_set d _))|].
  destruct (Z.eqb_spec (length_ s) 0) as [E|E].
  - assert (0 <= length_ t) by (destruct Ot; lia). right. split; [lia|]. split; [lia|]. split; [|lia].
    eexists. split; [apply (at_lookup t); [done|lia]|]. rewrite empty_data by done. apply not_elem_of_nil.
  - destruct (Z.eqb_spec (length_ s) 1) as [E1|E1].
    + unfold find_last_not_of_char. rewrite (proj2 (Z.eqb_neq _ _)) by done. rewrite (single s) at 1 by done.
      apply (down_at t (fun x => negb (Byte.eqb x (at_ s 0))) (fun d => not_in_set d [at_ s 0])); [done|done|done|].
      intros i c Hc. by rewrite <- (not_in_set_at _ _ _ _ Hc), neqb_not_in.
    + apply (down_at t (fun c => negb (looked_up (lookup_table s) c)) (fun d => not_in_set d (data s))); [done|done|done|].
      intros i c Hc. by rewrite <- (not_in_set_at _ _ _ _ Hc), looked_not_in.
Qed.

(** Searching a piece answers what searching a std::string does, but for
    find_first_not_of an empty set ([first_not_of_nothing]). *)
Theorem StringPiece_searches t s pos : piece_ok t -> piece_ok s -> 0 <= pos ->
  is_least (occurs_at (data t) (data s)) pos (length_ t - length_ s + 1) (find t s pos) /\
  is_greatest (occurs_at (data t) (data s)) pos (length_ t - length_ s + 1) (rfind t s pos) /\
  is_least (in_set (data t) (data s)) pos (length_ t) (find_first_of t s pos) /\
  is_greatest (in_set (data t) (data s)) pos (length_ t) (find_last_of t s pos) /\
  is_greatest (not_in_set (data t) (data s)) pos (length_ t) (find_last_not_of t s pos) /\
  ((length_ s = 0 -> pos = 0) -> is_least (not_in_set (data t) (data s)) pos (length_ t) (find_first_not_of t s pos)).
Proof.
  intros Ot Os P. split; [by apply find_least|]. split; [by apply rfind_greatest|]. split; [by apply find_first_of_least|].
  split; [by apply find_last_of_greatest|]. split; [by apply find_last_not_of_greatest|]. by apply find_first_not_of_least.
Qed.

(** The order of texts, as their bytes are unsigned. *)
Fixpoint lex_order (a b : bytes) : comparison :=
  match a, b with
  | [], [] => Eq | [], _ => Lt | _, [] => Gt
  | x :: a, y :: b => match bval x ?= bval y with Eq => lex_order a b | o => o end
  end.

Lemma wordmemcmp_lex a b : let r := wordmemcmp a b (min (length a) (length b)) in
  (if r =? 0 then (if (length a <? length b)%nat then -1 else if (length b <? length a)%nat then 1 else 0) else r) =
    match lex_order a b with Lt => -1 | Eq => 0 | Gt => 1 end.
Proof.
  revert b. induction a as [|x a IH]; intros [|y b]; cbn; try done. destruct (eqb_byte_spec x y) as [->|N].
  - rewrite Z.compare_refl. apply IH.
  - destruct (Z.ltb_spec (bval x) (bval y)) as [L|L]; [by rewrite (proj2 (Z.compare_lt_iff _ _) L)|].
    assert (bval y < bval x) as G by (assert (bval x <> bval y) by (intros E; by apply N, bval_inj); lia).
    by rewrite (proj2 (Z.compare_gt_iff _ _) G).
Qed.

Lemma lex_order_eq a b : lex_order a b = Eq <-> a = b.
Proof.
  revert b. induction a as [|x a IH]; intros [|y b]; cbn; try done. destruct (Z.compare_spec (bval x) (bval y)) as [E|E|E].
  - apply bval_inj in E as ->. rewrite IH. split; [by intros ->|by intros [= ->]].
  - split; [done|]. intros [= -> _]. lia.
  - split; [done|]. intros [= -> _]. lia.
Qed.

(** compare, the operators and starts_with are the order, equality and prefixes of
    the texts. *)
Lemma StringPiece_compare s x : piece_ok s -> piece_ok x ->
  compare s x = match lex_order (data s) (data x) with Lt => -1 | Eq => 0 | Gt => 1 end /\
  (piece_ltb s x = true <-> lex_order (data s) (data x) = Lt) /\
  (compare s x = 0 <-> data s = data x).
Proof.
  intros Os Ox. pose proof (length_data s Os) as Ls. pose proof (length_data x Ox) as Lx.
  assert (C : compare s x = match lex_order (data s) (data x) with Lt => -1 | Eq => 0 | Gt => 1 end).
  { rewrite <- wordmemcmp_lex. unfold compare. rewrite <- Ls, <- Lx. replace (Z.to_nat (Z.min _ _)) with (min (length (data s)) (length (data x))) by lia.
    destruct (wordmemcmp _ _ _ =? 0); [|done].
    destruct (Z.ltb_spec (Z.of_nat (length (data s))) (Z.of_nat (length (data x)))), (Nat.ltb_spec (length (data s)) (length (data x))); try lia.
    destruct (Z.ltb_spec (Z.of_nat (length (data x))) (Z.of_nat (length (data s)))), (Nat.ltb_spec (length (data x)) (length (data s))); lia. }
  split; [done|]. split.
  - assert (P : piece_ltb s x = (compare s x <? 0)).
    { unfold piece_ltb, compare. destruct (Z.eqb_spec (wordmemcmp (data s) (data x) (Z.to_nat (Z.min (length_ s) (length_ x)))) 0) as [->|N].
      - destruct (length_ s <? length_ x); [done|]. by destruct (length_ x <? length_ s).
      - cbn. by rewrite orb_false_r. }
    rewrite P, C. by destruct (lex_order _ _).
  - rewrite C, <- lex_order_eq. by destruct (lex_order _ _).
Qed.

(** A std::string answers the place asked from. *)
Example first_not_of_nothing :
  find_first_not_of (of_bytes (bs "abc")) (of_bytes []) 2 = 0 /\ ~ is_least (not_in_set (bs "abc") []) 2 3 0.
Proof. split; [reflexivity|]. intros [[E _]|[[? ?] _]]; [done|lia]. Qed.

(** [copy] from behind the end reads what is not there; removing more than there is
    makes the piece huge. *)
Example piece_wraps :
  copy (of_bytes (bs "abc")) 5 4 = None /\ length_ (remove_prefix 4 (of_bytes (bs "abc"))) = 2 ^ 64 - 1.
Proof. split; vm_compute; reflexivity. Qed.
