(* ===== verification/Doobs.v ===== *)
(** * Bob Jenkins' hash (base3/doobs_hash.cc)

    The hash over blocks of twelve bytes, and its macro [mix], which its comment
    promises to be reversible. *)

From S2P Require Import Prelude CString.

(** A [char], which is signed, as a [ub4]. *)
Definition ub4 (c : Init.Byte.byte) : Z := u32 (if bval c <? 128 then bval c else bval c - 256).

Definition add32 (x y : Z) : Z := u32 (x + y).

(** [x -= y; x -= z; x ^= f;] *)
Definition stir (x y z f : Z) : Z := Z.lxor (u32 (u32 (x - y) - z)) f.

(** Three lines of [mix] with their shifts. *)
Definition round (n1 n2 n3 : Z) (s : Z * Z * Z) : Z * Z * Z :=
  let '(a, b, c) := s in
  let a := stir a b c (Z.shiftr c n1) in
  let b := stir b c a (u32 (Z.shiftl a n2)) in
  let c := stir c a b (Z.shiftr b n3) in
  (a, b, c).

Definition mix (s : Z * Z * Z) : Z * Z * Z := round 3 10 15 (round 12 16 5 (round 13 8 13 s)).

Section Hash.
(** How a byte is widened. *)
Variable wide : Init.Byte.byte -> Z.

(** [k[0] +((ub4)k[1]<<8) +((ub4)k[2]<<16) +((ub4)k[3]<<24)]. *)
Definition word (k0 k1 k2 k3 : Init.Byte.byte) : Z :=
  u32 (wide k0 + u32 (Z.shiftl (wide k1) 8) + u32 (Z.shiftl (wide k2) 16) + u32 (Z.shiftl (wide k3) 24)).

(** [switch (len)], which falls through: what is added for each byte there is. *)
Definition part (k : bytes) (i : nat) (shift : Z) : Z :=
  match k !! i with Some c => u32 (Z.shiftl (wide c) shift) | None => 0 end.

Definition last_bytes (k : bytes) (s : Z * Z * Z) : Z * Z * Z :=
  let '(a, b, c) := s in
  let c := add32 (add32 (add32 c (part k 10 24)) (part k 9 16)) (part k 8 8) in
  let b := add32 (add32 (add32 (add32 b (part k 7 24)) (part k 6 16)) (part k 5 8)) (part k 4 0) in
  let a := add32 (add32 (add32 (add32 a (part k 3 24)) (part k 2 16)) (part k 1 8)) (part k 0 0) in
  (a, b, c).

(** [while (len >= 12)]: the state and the rest of the key. *)
Fixpoint blocks (k : bytes) (s : Z * Z * Z) {struct k} : (Z * Z * Z) * bytes :=
  match k with
  | k0 :: k1 :: k2 :: k3 :: k4 :: k5 :: k6 :: k7 :: k8 :: k9 :: k10 :: k11 :: r =>
      let '(a, b, c) := s in
      blocks r (mix (add32 a (word k0 k1 k2 k3), add32 b (word k4 k5 k6 k7), add32 c (word k8 k9 k10 k11)))
  | _ => (s, k)
  end.

Definition hash (k : bytes) (initval : Z) : Z :=
  let '((a, b, c), r) := blocks k (0x9e3779b9, 0x9e3779b9, initval) in
  (mix (last_bytes r (a, b, add32 c (u32 (size k))))).2.
End Hash.

Definition doobs_hash (k : bytes) (initval : Z) : Z := hash ub4 k initval.

(** ** Reversing *)

Definition unstir (x y z f : Z) : Z := u32 (u32 (Z.lxor x f + z) + y).

Definition unround (n1 n2 n3 : Z) (s : Z * Z * Z) : Z * Z * Z :=
  let '(a, b, c) := s in
  let c := unstir c a b (Z.shiftr b n3) in
  let b := unstir b c a (u32 (Z.shiftl a n2)) in
  let a := unstir a b c (Z.shiftr c n1) in
  (a, b, c).

Definition unmix (s : Z * Z * Z) : Z * Z * Z := unround 13 8 13 (unround 12 16 5 (unround 3 10 15 s)).

Definition words (s : Z * Z * Z) : Prop := (0 <= s.1.1 < 2 ^ 32) /\ (0 <= s.1.2 < 2 ^ 32) /\ (0 <= s.2 < 2 ^ 32).

Lemma unstir_stir x y z f : 0 <= x < 2 ^ 32 -> unstir (stir x y z f) y z f = x.
Proof.
  intros H. unfold unstir, stir. rewrite Z.lxor_assoc, Z.lxor_nilpotent, Z.lxor_0_r. unfold wrap.
  rewrite Zplus_mod_idemp_l, <- Z.add_assoc, Zplus_mod_idemp_l.
  replace ((x - y) mod 2 ^ 32 - z + (z + y)) with ((x - y) mod 2 ^ 32 + y) by lia.
  rewrite Zplus_mod_idemp_l. replace (x - y + y) with x by lia. by apply Z.mod_small.
Qed.

Lemma stir_range x y z f : 0 <= f < 2 ^ 32 -> 0 <= stir x y z f < 2 ^ 32.
Proof. intros H. apply lxor_range; [lia|apply Z.mod_pos_bound; lia|done]. Qed.

Lemma u32_range x : 0 <= u32 x < 2 ^ 32.
Proof. apply Z.mod_pos_bound. lia. Qed.

Lemma round_words n1 n2 n3 s : 0 <= n1 -> 0 <= n3 -> words s -> words (round n1 n2 n3 s).
Proof.
  destruct s as [[a b] c]. intros N1 N3 (Ha & Hb & Hc). unfold round, words. cbn [fst snd] in *.
  split; [by apply stir_range, shiftr_range|]. split; [apply stir_range, u32_range|].
  apply stir_range, shiftr_range; [done|done|]. apply stir_range, u32_range.
Qed.

Lemma unround_round n1 n2 n3 s : words s -> unround n1 n2 n3 (round n1 n2 n3 s) = s.
Proof. destruct s as [[a b] c]. intros (Ha & Hb & Hc). unfold round, unround. cbn [fst snd] in *. by rewrite !unstir_stir by done. Qed.

(** [mix] loses nothing: from its result the three words are got back. *)
Theorem mix_reversible s : words s -> unmix (mix s) = s /\ words (mix s).
Proof.
  intros H. unfold mix, unmix. assert (W : forall n1 n2 n3 s, 0 <= n1 -> 0 <= n3 -> words s -> words (round n1 n2 n3 s)) by apply round_words.
  rewrite !unround_round by auto with lia. split; [done|]. auto 10 with lia.
Qed.

(** ** Bytes from 0x80 on *)

Lemma part_agree w1 w2 k i n : Forall (fun c => w1 c = w2 c) k -> part w1 k i n = part w2 k i n.
Proof. intros F. unfold part. destruct (k !! i) as [c|] eqn:E; [|done]. by rewrite (Forall_lookup_1 _ _ _ _ F E). Qed.

Lemma hash_agree w1 w2 k v : Forall (fun c => w1 c = w2 c) k -> hash w1 k v = hash w2 k v.
Proof.
  intros F. unfold hash. assert (G : forall n k s, (length k <= n)%nat -> Forall (fun c => w1 c = w2 c) k ->
    blocks w1 k s = blocks w2 k s /\ Forall (fun c => w1 c = w2 c) (blocks w1 k s).2).
  { clear. induction n as [|n IH]; intros k s L F; [destruct k; [by split|cbn in L; lia]|].
    do 12 (destruct k as [|? k]; [by split|]). cbn [blocks]. destruct s as [[sa sb] sc].
    repeat match goal with H : Forall _ (_ :: _) |- _ => apply Forall_cons in H as [? H] end.
    unfold word. repeat match goal with H : w1 _ = w2 _ |- _ => rewrite <- H; clear H end. apply IH; [cbn in L; lia|done]. }
  destruct (G (length k) k (0x9e3779b9, 0x9e3779b9, v) (le_n _) F) as [<- F']. destruct (blocks w1 k _) as [[[a b] c] r]. cbn [snd] in F'.
  unfold last_bytes. by rewrite !(part_agree w1 w2) by done.
Qed.

(** On keys of seven-bit characters the hash is the published one, which reads
    bytes as unsigned. *)
Lemma doobs_hash_ascii k v : Forall (fun c => bval c < 128) k -> doobs_hash k v = hash bval k v.
Proof.
  intros F. apply hash_agree. eapply Forall_impl; [exact F|]. cbn. intros c H. unfold ub4.
  rewrite (proj2 (Z.ltb_lt _ _)) by done. apply wrap_small. pose proof (bval_range c). lia.
Qed.

(** On others it is not. *)
Example doobs_hash_signed : doobs_hash [byt 128] 0 <> hash bval [byt 128] 0.
Proof. vm_compute. discriminate. Qed.
