(* ===== verification/Network.v ===== *)
(** * Network interfaces (base3/network.h, base3/network.cc)

    Addresses as numbers and as text, which of them are private, and the address
    the program gives as its own.  What the system says of its interfaces
    and libc's inet_aton are parameters. *)

From S2P Require Import Prelude CString Stl Text.

Record Network := mkNetwork { name_ : bytes; ip_ : Z; mask_ : Z }.

Definition IsPrivateIP (ip : Z) : bool :=
  (Z.shiftr ip 24 =? 127) || (Z.shiftr ip 24 =? 10) ||
  (Z.shiftr ip 20 =? Z.lor (Z.shiftl 172 4) 1) || (Z.shiftr ip 16 =? Z.lor (Z.shiftl 192 8) 168).

Definition IPToString (ip : Z) : bytes :=
  dec_nonneg (Z.land (Z.shiftr ip 24) 0xff) ++ bs "." ++ dec_nonneg (Z.land (Z.shiftr ip 16) 0xff) ++ bs "." ++
  dec_nonneg (Z.land (Z.shiftr ip 8) 0xff) ++ bs "." ++ dec_nonneg (Z.land (Z.shiftr ip 0) 0xff).

Definition ToString (n : Network) : bytes :=
  let sp := str_find (bs " ") (name_ n) 0 in
  bs "Net[" ++ take (Z.to_nat (Z.min sp (size (name_ n)))) (name_ n) ++ bs ":" ++ IPToString (ip_ n) ++ bs "]".

(** What SIOCGIFCONF tells of an interface; the address in host order. *)
Record ifreq := mkIfreq { ifr_name : bytes; sin_family : Z; s_addr : Z }.
Definition AF_INET : Z := 2.

(** [None]: the socket or the ioctl failed. *)
Definition CreateNetworks (interfaces : option (list ifreq)) (networks : list Network) : list Network :=
  match interfaces with
  | None => networks
  | Some l =>
      networks ++ map (fun i => mkNetwork (ifr_name i) (s_addr i) 0)
        (List.filter (fun i => negb (bool_decide (ifr_name i = bs "lo")) && (sin_family i =? AF_INET)) l)
  end.

(** The static [ip_] before and after. *)
Definition local_ip (interfaces : option (list ifreq)) (cached : bytes) : bytes :=
  match cached with
  | [] => fold_left (fun ip n => if IsPrivateIP (ip_ n) then IPToString (ip_ n) else ip) (CreateNetworks interfaces []) []
  | _ => cached
  end.

Section Libc.
Variable inet_aton : bytes -> option Z.
Definition StringToIP (hostname : bytes) : Z := match inet_aton hostname with Some a => a | None => 0 end.
End Libc.

(** ** Facts *)

Definition octet (ip k : Z) : Z := ip / 2 ^ k mod 256.

Lemma land_octet ip k : 0 <= k -> Z.land (Z.shiftr ip k) 0xff = octet ip k.
Proof. intros H. change 0xff with (Z.ones 8). rewrite Z.land_ones, Z.shiftr_div_pow2 by lia. done. Qed.

(** The private addresses are 127.*, 10.*, 172.16.* to 172.31.*, and 192.168.*. *)
Lemma IsPrivateIP_spec ip : 0 <= ip < 2 ^ 32 -> IsPrivateIP ip = true <->
  octet ip 24 = 127 \/ octet ip 24 = 10 \/ (octet ip 24 = 172 /\ 16 <= octet ip 16 < 32) \/ (octet ip 24 = 192 /\ octet ip 16 = 168).
Proof.
  intros H. unfold IsPrivateIP, octet. change (Z.lor (Z.shiftl 172 4) 1) with 2753. change (Z.lor (Z.shiftl 192 8) 168) with 49320.
  rewrite !orb_true_iff, !Z.eqb_eq, !Z.shiftr_div_pow2 by lia.
  change (2 ^ 24) with 16777216. change (2 ^ 20) with 1048576. change (2 ^ 16) with 65536. euclid.
Qed.

Lemma dot_not_digit n : 0 <= n -> "."%byte ∉ dec_nonneg n.
Proof. intros H I. pose proof (dec_nonneg_digits n H) as F. rewrite Forall_forall in F. by apply F in I. Qed.

(** The text of an address is its octets between dots, so the address is got back. *)
Theorem IPToString_octets ip : 0 <= ip < 2 ^ 32 ->
  map atol (SplitStringDontTrim (IPToString ip) "."%byte) = [octet ip 24; octet ip 16; octet ip 8; octet ip 0] /\
  ip = ((octet ip 24 * 256 + octet ip 16) * 256 + octet ip 8) * 256 + octet ip 0.
Proof.
  intros H. assert (O : forall k, 0 <= octet ip k < 256) by (intros; apply Z.mod_pos_bound; lia). split.
  - unfold IPToString. rewrite !land_octet by lia.
    change (dec_nonneg (octet ip 24) ++ bs "." ++ dec_nonneg (octet ip 16) ++ bs "." ++ dec_nonneg (octet ip 8) ++ bs "." ++ dec_nonneg (octet ip 0))
      with (join ["."%byte] [dec_nonneg (octet ip 24); dec_nonneg (octet ip 16); dec_nonneg (octet ip 8); dec_nonneg (octet ip 0)]).
    unfold SplitStringDontTrim. rewrite SplitStringT_pieces, map_id, pieces_join; [|done|].
    + assert (A : forall k, atol (dec_nonneg (octet ip k)) = octet ip k).
      { intros k. specialize (O k). rewrite <- (atol_dec (octet ip k)) at 2 by lia. unfold dec. by rewrite (proj2 (Z.ltb_ge _ _)) by lia. }
      cbn [map]. by rewrite !A.
    + repeat constructor; apply dot_not_digit; apply O.
  - unfold octet. change (2 ^ 24) with 16777216. change (2 ^ 16) with 65536. change (2 ^ 8) with 256. change (2 ^ 0) with 1. euclid.
Qed.

Lemma local_fold l acc : fold_left (fun ip n => if IsPrivateIP (ip_ n) then IPToString (ip_ n) else ip) l acc =
  match last (List.filter (fun n => IsPrivateIP (ip_ n)) l) with Some n => IPToString (ip_ n) | None => acc end.
Proof.
  revert acc. induction l as [|n l IH]; intros acc; cbn [fold_left List.filter]; [done|]. rewrite IH. destruct (IsPrivateIP (ip_ n)); [|done].
  rewrite last_cons. by destruct (last _).
Qed.

(** The program's own address is the last private one of the interfaces but
    lo, asked once. *)
Theorem local_ip_spec l : exists nets, CreateNetworks (Some l) [] = nets /\
  local_ip (Some l) [] = match last (List.filter (fun n => IsPrivateIP (ip_ n)) nets) with Some n => IPToString (ip_ n) | None => [] end /\
  (local_ip (Some l) [] <> [] -> forall l', local_ip l' (local_ip (Some l) []) = local_ip (Some l) []).
Proof.
  eexists. split; [done|]. unfold local_ip at 1. rewrite local_fold. split; [done|]. intros N l'. by destruct (local_ip (Some l) []).
Qed.

(** The loopback network counts as private. *)
Example loopback_private :
  IsPrivateIP 0x7f000002 = true /\ IPToString 0xac1f00ff = bs "172.31.0.255" /\
  ToString (mkNetwork (bs "eth0 alias") 0x0a000001 0) = bs "Net[eth0:10.0.0.1]".
Proof. repeat split; vm_compute; reflexivity. Qed.
