(* ===== verification/Startup.v ===== *)
(** * Startup functions, common signals, round robin (src/base3/startuplist.cc,
    src/base3/once.h, src/base3/signals.cc, src/base3/circular_count.h)

    Static initialisers file functions in a list that [main] runs.  A startup
    function may file more functions while the list runs: those put at the end
    are still called, those put at the front are not.  [ASSERT] is the one of
    base3/common.h: it logs and goes on, so it is not in the model. *)

From S2P Require Import Prelude.

(** ** The list *)

Section Startup.
(** The functions filed, and what a call of one files in turn.  A null function
    pointer is [None]. *)
Context {F : Type} (registers : F -> list (option F * bool)).

Inductive fault := NullPointer | OutOfFuel.

(** The statics of startuplist.cc; [once_guard_] says whether the list was made. *)
Record startup := mkStartup {
  once_guard_ : bool;
  startup_list_ : option (list (option F));
  called_ : bool;
}.

Definition static_init : startup := mkStartup false None false.

Definition InitStartupList (s : startup) : startup := mkStartup (once_guard_ s) (Some []) (called_ s).

(** [BaseOnceInit(&once_guard_, &InitStartupList)] *)
Definition BaseOnceInit (init_func : startup -> startup) (s : startup) : startup :=
  if once_guard_ s then s
  else let s := init_func s in mkStartup true (startup_list_ s) (called_ s).

Definition AddStartup (func : option F) (first : bool) (s : startup) : fault + startup :=
  let s := BaseOnceInit InitStartupList s in
  match startup_list_ s with
  | None => inl NullPointer
  | Some l =>
      let l := if first then func :: l else l ++ [func] in
      inr (mkStartup (once_guard_ s) (Some l) (called_ s))
  end.

(** What a call files; [pos] is the place of the iterator, which is on the node
    of the function called. *)
Fixpoint AddAll (rs : list (option F * bool)) (pos : nat) (s : startup) : fault + (nat * startup) :=
  match rs with
  | [] => inr (pos, s)
  | (f, first) :: rs =>
      match AddStartup f first s with
      | inl e => inl e
      | inr s => AddAll rs (if first : bool then S pos else pos) s
      end
  end.

(** [BOOST_FOREACH(f, *startup_list_) { ++ c; f(); }]: the functions called. *)
Fixpoint run_from (fuel : nat) (pos : nat) (s : startup) : fault + (list F * startup) :=
  match fuel with
  | O => inl OutOfFuel
  | S fuel =>
      match startup_list_ s with
      | None => inl NullPointer
      | Some l =>
          match l !! pos with
          | None => inr ([], s)
          | Some None => inl NullPointer
          | Some (Some f) =>
              match AddAll (registers f) pos s with
              | inl e => inl e
              | inr (pos, s) =>
                  match run_from fuel (S pos) s with
                  | inl e => inl e
                  | inr (called, s) => inr (f :: called, s)
                  end
              end
          end
      end
  end.

Definition RunStartupList (fuel : nat) (s : startup) : fault + (list F * startup) :=
  match startup_list_ s with
  | None => inr ([], s)
  | Some _ => run_from fuel 0 (mkStartup (once_guard_ s) (startup_list_ s) true)
  end.

Definition DestoryStartupList (s : startup) : startup := mkStartup (once_guard_ s) None (called_ s).

(** *** Filing *)

(** What is filed at the front and at the end, in the order of the calls. *)
Definition firsts (rs : list (option F * bool)) : list (option F) := map fst (filter (fun r => r.2 = true) rs).
Definition lasts (rs : list (option F * bool)) : list (option F) := map fst (filter (fun r => r.2 = false) rs).

Lemma firsts_cons f b rs : firsts ((f, b) :: rs) = if b then f :: firsts rs else firsts rs.
Proof. unfold firsts. rewrite filter_cons. by destruct b; case_decide. Qed.
Lemma lasts_cons f b rs : lasts ((f, b) :: rs) = if b then lasts rs else f :: lasts rs.
Proof. unfold lasts. rewrite filter_cons. by destruct b; case_decide. Qed.

Lemma firsts_app a b : firsts (a ++ b) = firsts a ++ firsts b.
Proof. unfold firsts. by rewrite filter_app, map_app. Qed.
Lemma lasts_app a b : lasts (a ++ b) = lasts a ++ lasts b.
Proof. unfold lasts. by rewrite filter_app, map_app. Qed.

(** Once the list is made it holds the functions filed at the front, the last
    one foremost, and then those filed at the end. *)
Lemma AddAll_spec rs pos s l :
  once_guard_ s = true -> startup_list_ s = Some l ->
  AddAll rs pos s =
    inr (length (firsts rs) + pos,
         mkStartup true (Some (rev (firsts rs) ++ l ++ lasts rs)) (called_ s))%nat.
Proof.
  revert pos s l. induction rs as [|[f b] rs IH]; intros pos s l Ho Hl; cbn [AddAll].
  { cbn. rewrite app_nil_r. destruct s. cbn in *. by subst. }
  unfold AddStartup, BaseOnceInit. rewrite Ho, Hl, firsts_cons, lasts_cons. destruct b.
  - rewrite (IH _ _ (f :: l)) by done. cbn [length rev called_ app]. rewrite <- app_assoc. cbn [app].
    do 2 f_equal. lia.
  - rewrite (IH _ _ (l ++ [f])) by done. cbn [called_]. by rewrite <- !app_assoc.
Qed.

(** Filing before [main], from nothing. *)
Lemma AddAll_static rs :
  rs <> [] -> exists n, AddAll rs 0 static_init =
    inr (n, mkStartup true (Some (rev (firsts rs) ++ lasts rs)) false).
Proof.
  destruct rs as [|[f b] rs]; [done|]. intros _. cbn [AddAll]. rewrite firsts_cons, lasts_cons.
  exists (length (firsts rs) + (if b then 1 else 0))%nat.
  assert (AddStartup f b static_init = inr (mkStartup true (Some [f]) false)) as -> by (by destruct b).
  rewrite (AddAll_spec rs _ _ [f]) by done. cbn [called_]. destruct b; [|done].
  cbn [rev]. by rewrite <- app_assoc.
Qed.

(** *** Running *)

Definition filed (called : list F) : list (option F * bool) := concat (map registers called).

(** A run calls the functions from the iterator on and, after them, whatever
    they file at the end; what they file at the front is filed and not called. *)
Lemma run_from_calls fuel pos s l called s' :
  once_guard_ s = true -> startup_list_ s = Some l ->
  run_from fuel pos s = inr (called, s') ->
  map Some called = drop pos l ++ lasts (filed called) /\
  s' = mkStartup true (Some (rev (firsts (filed called)) ++ l ++ lasts (filed called))) (called_ s).
Proof.
  revert pos s l called. induction fuel as [|fuel IH]; intros pos s l called Ho Hl Hr; [done|].
  cbn [run_from] in Hr. rewrite Hl in Hr. destruct (l !! pos) as [[f|]|] eqn:E; [| done |].
  - rewrite (AddAll_spec _ _ _ l) in Hr by done. set (fs := firsts (registers f)) in *.
    set (ls := lasts (registers f)) in *.
    destruct (run_from fuel _ _) as [e|[t s2]] eqn:Hrun; [done|]. injection Hr as <- <-.
    apply (IH _ _ (rev fs ++ l ++ ls)) in Hrun as [Ht ->]; [|done..]. cbn [called_ map] in *.
    change (filed (f :: t)) with (registers f ++ filed t). rewrite firsts_app, lasts_app. fold fs ls. split.
    + rewrite Ht, (drop_S l (Some f) pos E). rewrite drop_app_ge by (rewrite length_rev; lia).
      rewrite length_rev. replace (S (length fs + pos) - length fs)%nat with (S pos) by lia.
      rewrite drop_app_le by (apply lookup_lt_Some in E; lia). cbn [app]. by rewrite <- app_assoc.
    + by rewrite rev_app_distr, <- !app_assoc.
  - injection Hr as <- <-. apply lookup_ge_None in E. split.
    + by rewrite drop_ge.
    + cbn. rewrite app_nil_r. destruct s. cbn in *. by subst.
Qed.

(** What [main] gets: the list in its order, and behind it what was filed at the
    end meanwhile. *)
Lemma RunStartupList_calls fuel s l called s' :
  once_guard_ s = true -> startup_list_ s = Some l ->
  RunStartupList fuel s = inr (called, s') ->
  map Some called = l ++ lasts (filed called) /\ called_ s' = true /\
  startup_list_ s' = Some (rev (firsts (filed called)) ++ map Some called).
Proof.
  intros Ho Hl. unfold RunStartupList. rewrite Hl. intros Hr.
  apply (run_from_calls _ _ _ l) in Hr as [Ht ->]; [|done..]. cbn. by rewrite Ht.
Qed.

(** The run ends when the functions file at the end ever less: [cost] bounds
    the calls a function leads to. *)
Context (cost : option F -> nat).
Definition costs (l : list (option F)) : nat := sum_list_with cost l.

Lemma run_from_total fuel pos s l :
  once_guard_ s = true -> startup_list_ s = Some l ->
  (forall f, None ∉ lasts (registers f)) ->
  (forall f, (1 + costs (lasts (registers f)) <= cost (Some f))%nat) ->
  None ∉ drop pos l -> (costs (drop pos l) < fuel)%nat ->
  exists called s', run_from fuel pos s = inr (called, s').
Proof.
  intros Ho Hl Hn Hcost. revert pos s l Ho Hl.
  induction fuel as [|fuel IH]; intros pos s l Ho Hl Hnull Hf; [lia|].
  cbn [run_from]. rewrite Hl. destruct (l !! pos) as [fn|] eqn:E; [|eauto].
  rewrite (drop_S l fn pos E) in Hf, Hnull. apply not_elem_of_cons in Hnull as [Hf0 Hnull].
  destruct fn as [f|]; [|done].
  rewrite (AddAll_spec _ _ _ l) by done. set (fs := firsts (registers f)). set (ls := lasts (registers f)).
  assert (drop (S (length fs + pos)) (rev fs ++ l ++ ls) = drop (S pos) l ++ ls) as Ed.
  { rewrite drop_app_ge by (rewrite length_rev; lia).
    rewrite length_rev. replace (S (length fs + pos) - length fs)%nat with (S pos) by lia.
    by rewrite drop_app_le by (apply lookup_lt_Some in E; lia). }
  destruct (IH (S (length fs + pos)) (mkStartup true (Some (rev fs ++ l ++ ls)) (called_ s)) (rev fs ++ l ++ ls))
    as (t & s2 & ->); [done|done|..|eauto].
  - rewrite Ed, not_elem_of_app. split; [done|apply Hn].
  - rewrite Ed. unfold costs in *. cbn [sum_list_with] in Hf. rewrite sum_list_with_app.
    specialize (Hcost f). unfold ls. lia.
Qed.

(** *** The ends of its life *)

(** The guard is not reset: after [DestoryStartupList] the next [AddStartup]
    goes through a null pointer. *)
Lemma AddStartup_destroyed s f first :
  once_guard_ s = true -> AddStartup f first (DestoryStartupList s) = inl NullPointer.
Proof.
  intros Ho. unfold AddStartup, BaseOnceInit, DestoryStartupList. cbn [once_guard_]. by rewrite Ho.
Qed.

(** A null pointer filed is called. *)
Lemma run_from_null fuel pos s l :
  startup_list_ s = Some l -> l !! pos = Some None -> run_from (S fuel) pos s = inl NullPointer.
Proof. intros Hl E. cbn [run_from]. by rewrite Hl, E. Qed.
End Startup.

(** Two functions filed, one in front; the first files one at either end. *)
Example startup_run :
  let registers (n : Z) := if n =? 1 then [(Some 7, false); (Some 8, true)] else [] in
  match AddAll [(Some 1, false); (Some 2, true); (Some 3, false)] 0 static_init with
  | inr (_, s) => match RunStartupList registers 9 s with
                  | inr (called, s) => Some (called, startup_list_ s)
                  | inl _ => None
                  end
  | inl _ => None
  end = Some ([2; 1; 3; 7], Some [Some 8; Some 2; Some 1; Some 3; Some 7]).
Proof. reflexivity. Qed.

(** A second run calls them all again, the one at the front too. *)
Example startup_run_twice :
  let registers (n : Z) := if n =? 1 then [(Some 8, true)] else [] in
  match RunStartupList registers 9 (mkStartup true (Some [Some 1]) false) with
  | inr (called, s) => match RunStartupList registers 9 s with
                       | inr (called', _) => Some (called, called')
                       | inl _ => None
                       end
  | inl _ => None
  end = Some ([1], [8; 1]).
Proof. reflexivity. Qed.

(** ** Signals *)

Definition BASE_SIGNAL_PROFILER_START : Z := 37.
Definition BASE_SIGNAL_PROFILER_STOP : Z := 38.
Definition BASE_SIGNAL_MINIDUMP : Z := 45.
Definition BASE_SIGNAL_CRASH : Z := 46.

(** The handlers of this file. *)
Inductive SignalHandle := SignalProfile_ | SignalCrash_.
#[export] Instance SignalHandle_eq : EqDecision SignalHandle.
Proof. solve_decision. Defined.

(** What the libraries linked in are told, or the write through null. *)
Inductive signal_effect := ProfilerStart | ProfilerStop | RequestMinidump | Segfault.

(** How the program is built. *)
Class Linked := { USE_PROFILER : bool; USE_BREAKPAD : bool }.

Section Signals.
Context `{Linked}.

Definition SignalProfile (sig : Z) : list signal_effect :=
  if USE_PROFILER then
    if BASE_SIGNAL_PROFILER_START =? sig then [ProfilerStart]
    else if BASE_SIGNAL_PROFILER_STOP =? sig then [ProfilerStop]
    else []
  else [].

Definition SignalCrash (sig : Z) : list signal_effect :=
  if BASE_SIGNAL_MINIDUMP =? sig then (if USE_BREAKPAD then [RequestMinidump] else [])
  else if BASE_SIGNAL_CRASH =? sig then [Segfault]
  else [].

Definition InstallSignal (sig : Z) (h : SignalHandle) (handlers : gmap Z SignalHandle) : gmap Z SignalHandle :=
  <[sig := h]> handlers.

Definition AddCommonSignal (handlers : gmap Z SignalHandle) : gmap Z SignalHandle :=
  let handlers := InstallSignal BASE_SIGNAL_PROFILER_START SignalProfile_ handlers in
  let handlers := InstallSignal BASE_SIGNAL_PROFILER_STOP SignalProfile_ handlers in
  let handlers := InstallSignal BASE_SIGNAL_MINIDUMP SignalCrash_ handlers in
  InstallSignal BASE_SIGNAL_CRASH SignalCrash_ handlers.

Definition handle (h : SignalHandle) (sig : Z) : list signal_effect :=
  match h with SignalProfile_ => SignalProfile sig | SignalCrash_ => SignalCrash sig end.

(** A signal delivered: what its handler does; [None] is the default action. *)
Definition deliver (handlers : gmap Z SignalHandle) (sig : Z) : option (list signal_effect) :=
  h ← handlers !! sig; Some (handle h sig).

(** The four signals do what they are named after, as far as the libraries are
    linked in; the others keep their handlers. *)
Lemma AddCommonSignal_spec handlers sig :
  deliver (AddCommonSignal handlers) sig =
    if sig =? 37 then Some (if USE_PROFILER then [ProfilerStart] else [])
    else if sig =? 38 then Some (if USE_PROFILER then [ProfilerStop] else [])
    else if sig =? 45 then Some (if USE_BREAKPAD then [RequestMinidump] else [])
    else if sig =? 46 then Some [Segfault]
    else deliver handlers sig.
Proof.
  unfold deliver, AddCommonSignal, InstallSignal, BASE_SIGNAL_PROFILER_START, BASE_SIGNAL_PROFILER_STOP,
    BASE_SIGNAL_MINIDUMP, BASE_SIGNAL_CRASH.
  destruct (Z.eqb_spec sig 37) as [->|]; [by simplify_map_eq|].
  destruct (Z.eqb_spec sig 38) as [->|]; [by simplify_map_eq|].
  destruct (Z.eqb_spec sig 45) as [->|]; [by simplify_map_eq|].
  destruct (Z.eqb_spec sig 46) as [->|]; [by simplify_map_eq|].
  by rewrite !lookup_insert_ne by done.
Qed.
End Signals.

(** ** circular_count *)

Record circular_count := mkCircular { i_ : Z; count_ : Z }.

Definition circular_count_new (count : Z) : circular_count := mkCircular 0 count.

Definition circular_count_call (c : circular_count) : Z * circular_count :=
  let r := i_ c in
  let i := u64 (i_ c + 1) in
  (r, mkCircular (if count_ c <=? i then 0 else i) (count_ c)).

Fixpoint circular_calls (n : nat) (c : circular_count) : list Z :=
  match n with
  | O => []
  | S n => let '(r, c) := circular_count_call c in r :: circular_calls n c
  end.

Lemma circular_calls_from n i count :
  0 <= i < count -> count < 2 ^ 64 ->
  circular_calls n (mkCircular i count) = map (fun k => (i + k) mod count) (seqZ 0 (Z.of_nat n)).
Proof.
  intros Hi Hc. revert i Hi. induction n as [|n IH]; intros i Hi; [done|].
  rewrite seqZ_cons by lia. cbn [circular_calls map]. unfold circular_count_call. cbn [i_ count_].
  rewrite wrap_small by lia. rewrite Z.add_0_r, (Z.mod_small i) by lia. f_equal.
  replace (Z.pred (Z.of_nat (S n))) with (Z.of_nat n) by lia.
  rewrite IH by (destruct (Z.leb_spec count (i + 1)); lia).
  change (Z.succ 0) with (0 + 1). rewrite <- (fmap_add_seqZ 1 0). rewrite <- list_fmap_compose.
  apply list_fmap_ext. intros _ k _. cbn. destruct (Z.leb_spec count (i + 1)) as [Hle|Hlt].
  - replace (i + (1 + k)) with (0 + k + 1 * count) by lia. by rewrite Z.mod_add by lia.
  - f_equal. lia.
Qed.

(** The [n]-th call answers [n] modulo the count. *)
Lemma circular_count_round n count :
  0 < count < 2 ^ 64 ->
  circular_calls n (circular_count_new count) = map (fun k => k mod count) (seqZ 0 (Z.of_nat n)).
Proof. intros Hc. unfold circular_count_new. rewrite circular_calls_from by lia. done. Qed.

(** With a count of 0 every call answers 0. *)
Lemma circular_count_zero n : circular_calls n (circular_count_new 0) = replicate n 0.
Proof. induction n as [|n IH]; [done|]. cbn. f_equal. exact IH. Qed.
