(* ===== verification/Hash.v ===== *)
(** * The hashes of the base library (src/base3/hash.h)

    [base::MurmurHash2] and [base::MurmurHash64B], written out as the header has
    them: loops on the length.  They are the hashes of bundle/murmurhash2.cc, so
    what [Murmur] and [Murmur64] show holds of them. *)

From S2P Require Import Prelude CString Murmur Murmur64.

(** [*(unsigned int * )data] and [data[i]] *)
Definition word_at (data : bytes) : Z := le_combine (take 4 data).
Definition byte_at (data : bytes) (i : nat) : Z := bval (nth i data x00).

(** [while(len >= 4)]; the tuple is [len], [h] and [data]. *)
Fixpoint words_while (fuel : nat) (len h : Z) (data : bytes) : Z * Z * bytes :=
  match fuel with
  | O => (len, h, data)
  | S fuel =>
      if 4 <=? len then
        let k := word_at data in
        let k := mul32 k m in
        let k := Z.lxor k (Z.shiftr k r) in
        let k := mul32 k m in
        let h := mul32 h m in
        let h := Z.lxor h k in
        words_while fuel (u32 (len - 4)) h (drop 4 data)
      else (len, h, data)
  end.

(** [switch(len)] with its cases falling through. *)
Definition switch_len (len h : Z) (data : bytes) : Z :=
  let h := if len =? 3 then Z.lxor h (Z.shiftl (byte_at data 2) 16) else h in
  let h := if (len =? 3) || (len =? 2) then Z.lxor h (Z.shiftl (byte_at data 1) 8) else h in
  if (len =? 3) || (len =? 2) || (len =? 1) then mul32 (Z.lxor h (byte_at data 0)) m else h.

Definition MurmurHash2 (key : bytes) (seed : Z) : Z :=
  let len := u32 (size key) in
  let h := Z.lxor seed len in
  let '(len, h, data) := words_while (S (length key)) len h key in
  let h := switch_len len h data in
  let h := Z.lxor h (Z.shiftr h 13) in
  let h := mul32 h m in
  Z.lxor h (Z.shiftr h 15).

(** [k *= m; k ^= k >> r; k *= m; h *= m; h ^= k;] of one lane. *)
Definition lane (h k : Z) : Z :=
  let k := mul32 k m in
  let k := Z.lxor k (Z.shiftr k r) in
  let k := mul32 k m in
  let h := mul32 h m in
  Z.lxor h k.

(** [while(len >= 8)]; here [len] is an [int]. *)
Fixpoint lanes_while (fuel : nat) (len h1 h2 : Z) (data : bytes) : Z * Z * Z * bytes :=
  match fuel with
  | O => (len, h1, h2, data)
  | S fuel =>
      if 8 <=? len then
        let k1 := word_at data in
        let data := drop 4 data in
        let h1 := lane h1 k1 in
        let len := len - 4 in
        let k2 := word_at data in
        let data := drop 4 data in
        let h2 := lane h2 k2 in
        let len := len - 4 in
        lanes_while fuel len h1 h2 data
      else (len, h1, h2, data)
  end.

Definition MurmurHash64B (key : bytes) (seed : Z) : Z :=
  let len := size key in
  let h1 := Z.lxor seed (u32 len) in
  let h2 := 0 in
  let '(len, h1, h2, data) := lanes_while (S (length key)) len h1 h2 key in
  let '(len, h1, data) :=
    if 4 <=? len then (len - 4, lane h1 (word_at data), drop 4 data) else (len, h1, data) in
  let h2 := switch_len len h2 data in
  let h1 := mul32 (Z.lxor h1 (Z.shiftr h2 18)) m in
  let h2 := mul32 (Z.lxor h2 (Z.shiftr h1 22)) m in
  let h1 := mul32 (Z.lxor h1 (Z.shiftr h2 17)) m in
  let h2 := mul32 (Z.lxor h2 (Z.shiftr h1 19)) m in
  let h := h1 in
  Z.lor (u64 (Z.shiftl h 32)) h2.

(** ** They are the ones of the bundles *)

Lemma switch_len_tail h data : size data < 4 -> switch_len (size data) h data = tail_switch h data.
Proof. destruct data as [|d0 [|d1 [|d2 [|d3 data]]]]; [done..|]. unfold size. cbn [length]. lia. Qed.

Lemma words_while_loop fuel h data :
  (length data < fuel)%nat -> size data < 2 ^ 32 ->
  let '(len, h', rest) := words_while fuel (size data) h data in
  (h', rest) = word_loop data h /\ len = size rest /\ size rest < 4.
Proof.
  revert h data. induction fuel as [|fuel IH]; intros h data Hf Hs; [lia|]. cbn [words_while].
  destruct (Z.leb_spec 4 (size data)) as [Hle|Hlt].
  - destruct data as [|b0 [|b1 [|b2 [|b3 data]]]]; try (unfold size in Hle; cbn [length] in Hle; lia).
    assert (u32 (size (b0 :: b1 :: b2 :: b3 :: data) - 4) = size data) as ->
      by (rewrite !size_cons in *; pose proof (size_nonneg data); rewrite wrap_small by lia; lia).
    rewrite !size_cons in Hs. cbn [length] in Hf.
    exact (IH (mmix h (le_combine [b0; b1; b2; b3])) data ltac:(lia) ltac:(lia)).
  - split_and!; [|done|done].
    destruct data as [|b0 [|b1 [|b2 [|b3 data]]]]; try done. unfold size in Hlt. cbn [length] in Hlt. lia.
Qed.

Lemma MurmurHash2_bundle key seed :
  size key < 2 ^ 31 -> MurmurHash2 key seed = Murmur.MurmurHash2 key seed.
Proof.
  intros Hs. unfold MurmurHash2, Murmur.MurmurHash2. pose proof (size_nonneg key).
  rewrite wrap_small by lia.
  pose proof (words_while_loop (S (length key)) (Z.lxor seed (size key)) key ltac:(lia) ltac:(lia)) as Hw.
  destruct (words_while _ _ _ _) as [[len h] rest]. destruct Hw as (<- & -> & Hlt).
  by rewrite switch_len_tail.
Qed.

Lemma lanes_while_lanes n fuel h1 h2 data :
  (n < fuel)%nat -> n = (length data / 8)%nat ->
  lanes_while fuel (size data) h1 h2 data =
    (size (drop (8 * n) data), (lanes n data (h1, h2)).1, (lanes n data (h1, h2)).2, drop (8 * n) data).
Proof.
  revert fuel h1 h2 data. induction n as [|n IH]; intros fuel h1 h2 data Hf Hn;
    (destruct fuel as [|fuel]; [lia|]); cbn [lanes_while].
  - rewrite drop_0. destruct (Z.leb_spec 8 (size data)) as [Hle|]; [|done].
    exfalso. unfold size in Hle. assert (1 <= length data / 8)%nat; [|lia].
    apply Nat.div_le_lower_bound; lia.
  - pose proof (Nat.div_mod_eq (length data) 8) as Hd. rewrite <- Hn in Hd.
    destruct (Z.leb_spec 8 (size data)) as [Hle|Hlt]; [|unfold size in Hlt; lia].
    assert (size data - 4 - 4 = size (drop 4 (drop 4 data))) as -> by (unfold size; len).
    rewrite IH; [|lia|].
    + rewrite !drop_drop. replace (4 + (4 + 8 * n))%nat with (8 * S n)%nat by lia. done.
    + rewrite drop_drop, length_drop.
      replace (length data) with (length data - 8 + 1 * 8)%nat in Hn by (unfold size in Hle; lia).
      rewrite Nat.div_add in Hn by lia. change (4 + 4)%nat with 8%nat. lia.
Qed.

(** The seed of the header is one word. *)
Lemma MurmurHash64B_bundle key seed :
  size key < 2 ^ 31 -> 0 <= seed < 2 ^ 32 -> MurmurHash64B key seed = Murmur64.MurmurHash64B key seed.
Proof.
  intros Hs Hseed. unfold MurmurHash64B, Murmur64.MurmurHash64B.
  rewrite (wrap_small 32 seed), Z.shiftr_div_pow2, Z.div_small by lia. change (u32 0) with 0.
  set (n := (length key / 8)%nat). pose proof (Nat.div_mod_eq (length key) 8) as Hd. fold n in Hd.
  pose proof (Nat.mod_upper_bound (length key) 8 ltac:(lia)).
  rewrite (lanes_while_lanes n) by (done || lia). set (h := lanes n key _). set (data := drop (8 * n) key).
  assert (size data < 8) as Hdata by (unfold data, size; len).
  unfold lanes_tail. destruct (Z.leb_spec 4 (size data)).
  - assert (size data - 4 = size (drop 4 data)) as -> by (unfold size in *; len).
    rewrite switch_len_tail by (unfold size in *; len).
    change (mmix h.1 (le_combine (take 4 data))) with (lane h.1 (word_at data)).
    generalize (lane h.1 (word_at data)) (tail_switch h.2 (drop 4 data)). intros h1 h2. reflexivity.
  - rewrite switch_len_tail by lia.
    generalize (h.1) (tail_switch h.2 data). intros h1 h2. reflexivity.
Qed.

(** "abc", and the empty key. *)
Example MurmurHash2_abc : MurmurHash2 (bs "abc") 0 = Murmur.MurmurHash2 (bs "abc") 0.
Proof. vm_compute. reflexivity. Qed.
Example MurmurHash2_empty : MurmurHash2 [] 0 = 0 /\ MurmurHash64B [] 0 = 0.
Proof. vm_compute. done. Qed.
